(** * Nanomatch-HFT: a shallow embedding of the matching engine

    The repository ships the engine twice:
    - [src/hft_engine.cpp]: the single-file engine, 4096 ticks, with the
      two-level bitset [FastPriceTracker] (module [HftEngine] below);
    - [src/Types.h], [src/OrderBook.h], [src/MatchingEngine.h]: the header
      variant, 10000 ticks, with cached [best_bid_]/[best_ask_] and a linear
      rescan (module [Headers] below).
    [Order] and [OrderPool] are textually the same in both and are modelled
    once.

    Conventions of the embedding:
    - [uint32_t]/[uint64_t] values are [Z]; arithmetic that can leave the
      range is wrapped with [wrap32]/[wrap64];
    - an [Order*] is [option nat]: [None] is [nullptr], [Some i] is
      [&pool_[i]] (the index [std::distance(pool_.data(), order)]);
    - [size_t] indices are [nat];
    - arrays are lists read with [at_]: an access out of range, a null
      dereference and a bit scan of zero are [Undefined];
    - a [while] loop takes fuel and answers [OutOfFuel] when it is spent. *)

From Stdlib Require Import Sorted.
From stdpp Require Import base numbers list.

Open Scope Z_scope.

(** ** Outcomes *)

Inductive result (A : Type) : Type :=
| Ok (a : A)
| Undefined
| OutOfFuel.
Arguments Ok {A} a.
Arguments Undefined {A}.
Arguments OutOfFuel {A}.

Global Instance result_bind : MBind result := λ A B f m,
  match m with
  | Ok a => f a
  | Undefined => Undefined
  | OutOfFuel => OutOfFuel
  end.

(** [std::runtime_error("OrderPool exhausted")], the only exception thrown. *)
Inductive exception : Type := OrderPool_exhausted.

(** A call either returns or leaves by an exception. *)
Inductive completion (A : Type) : Type :=
| Return (a : A)
| Throw (ex : exception).
Arguments Return {A} a.
Arguments Throw {A} ex.

Definition at_ {A : Type} (l : list A) (i : nat) : result A :=
  match l !! i with
  | Some a => Ok a
  | None => Undefined
  end.

Definition deref (p : option nat) : result nat :=
  match p with
  | Some i => Ok i
  | None => Undefined
  end.

Definition wrap32 (z : Z) : Z := z mod 2 ^ 32.
Definition wrap64 (z : Z) : Z := z mod 2 ^ 64.

(** [~x] on a [uint64_t]. *)
Definition not64 (x : Z) : Z := Z.land (Z.lnot x) (Z.ones 64).

(** GCC's [__builtin_ctzll]: the number of trailing zero bits of [x], on
    the binary digits of [x]; undefined at 0. *)
Fixpoint trailing_zeros (p : positive) : Z :=
  match p with
  | xO q => 1 + trailing_zeros q
  | _ => 0
  end.

Definition __builtin_ctzll (x : Z) : result Z :=
  match x with
  | Zpos p => Ok (trailing_zeros p)
  | _ => Undefined
  end.

(** GCC's [__builtin_clzll]: the number of leading zero bits of the 64-bit
    word [x], that is 63 minus the position of its highest set bit;
    undefined at 0. *)
Definition __builtin_clzll (x : Z) : result Z :=
  if x =? 0 then Undefined else Ok (63 - Z.log2 x).

(** ** [struct Order] (Types.h:11-20, hft_engine.cpp:13-20) *)

Module Order.
Record t : Type := mk {
  id : Z;
  price : Z;
  qty : Z;
  is_buy : bool;
  prev : option nat;
  next : option nat
}.

(** A value-initialised record. *)
Definition zero : t := mk 0 0 0 false None None.

Definition with_qty (q : Z) (o : t) : t :=
  mk (id o) (price o) q (is_buy o) (prev o) (next o).
Definition with_prev (p : option nat) (o : t) : t :=
  mk (id o) (price o) (qty o) (is_buy o) p (next o).
Definition with_next (n : option nat) (o : t) : t :=
  mk (id o) (price o) (qty o) (is_buy o) (prev o) n.
End Order.

(** The storage the [Order*] handles point into: [OrderPool::pool_]. *)
Abbreviation heap := (list Order.t).

(** ** [class OrderPool] (Types.h:23-53, hft_engine.cpp:22-48) *)

Definition MAX_ORDERS : nat := Z.to_nat 1000000.

Module OrderPool.
Record t : Type := mk {
  pool_ : heap;
  free_list_ : list nat;
  free_idx_ : nat
}.

(** The constructor, for a pool of [n] records ([n] is [MAX_ORDERS] in the
    source): [free_list_[i] = n - 1 - i], [free_idx_ = n]. *)
Definition new (n : nat) : t :=
  mk (replicate n Order.zero) ((λ i, n - 1 - i)%nat <$> seq 0 n) n.

Definition allocate (id price qty : Z) (is_buy : bool) (p : t)
  : result (t * completion nat) :=
  if (free_idx_ p =? 0)%nat then Ok (p, Throw OrderPool_exhausted)
  else
    let free_idx := (free_idx_ p - 1)%nat in
    idx ← at_ (free_list_ p) free_idx;
    _ ← at_ (pool_ p) idx;
    Ok (mk (<[idx := Order.mk id price qty is_buy None None]> (pool_ p))
           (free_list_ p) free_idx,
        Return idx).

Definition deallocate (order : nat) (p : t) : result t :=
  let idx := order in
  _ ← at_ (free_list_ p) (free_idx_ p);
  Ok (mk (pool_ p) (<[free_idx_ p := idx]> (free_list_ p)) (S (free_idx_ p))).
End OrderPool.

(** A fill. The source reports a fill only by [trades_executed_++]; the model
    returns, for each increment, what [executeTrade] holds at that point:
    the two orders' ids, [fill_price], [traded_qty] and the [resting]
    handle. *)
Record Trade : Type := mkTrade {
  inbound_id : Z;
  resting_id : Z;
  trade_price : Z;
  trade_qty : Z;
  resting_handle : nat
}.

(** A [PriceLevel&] into the book. *)
Inductive level_ref : Type :=
| bids_at (i : nat)
| asks_at (i : nat).

(** * src/hft_engine.cpp *)

Module HftEngine.

Definition MAX_PRICE_TICKS : Z := 4096.

(** ** [class FastPriceTracker] (hft_engine.cpp:51-86) *)
Module FastPriceTracker.
Record t : Type := mk {
  summary_word_ : Z;
  data_words_ : list Z
}.

Definition new : t := mk 0 (replicate 64 0).

Definition setPriceLevel (price : Z) (tr : t) : result t :=
  let word_idx := price / 64 in
  let bit_idx := price mod 64 in
  w ← at_ (data_words_ tr) (Z.to_nat word_idx);
  let data := <[Z.to_nat word_idx := Z.lor w (Z.shiftl 1 bit_idx)]> (data_words_ tr) in
  Ok (mk (Z.lor (summary_word_ tr) (Z.shiftl 1 word_idx)) data).

Definition clearPriceLevel (price : Z) (tr : t) : result t :=
  let word_idx := price / 64 in
  let bit_idx := price mod 64 in
  w ← at_ (data_words_ tr) (Z.to_nat word_idx);
  let w' := Z.land w (not64 (Z.shiftl 1 bit_idx)) in
  let data := <[Z.to_nat word_idx := w']> (data_words_ tr) in
  if w' =? 0
  then Ok (mk (Z.land (summary_word_ tr) (not64 (Z.shiftl 1 word_idx))) data)
  else Ok (mk (summary_word_ tr) data).

Definition getBestAsk (tr : t) : result Z :=
  if summary_word_ tr =? 0 then Ok MAX_PRICE_TICKS
  else
    lowest_word ← __builtin_ctzll (summary_word_ tr);
    w ← at_ (data_words_ tr) (Z.to_nat lowest_word);
    lowest_bit ← __builtin_ctzll w;
    Ok (lowest_word * 64 + lowest_bit).

Definition getBestBid (tr : t) : result Z :=
  if summary_word_ tr =? 0 then Ok 0
  else
    lz ← __builtin_clzll (summary_word_ tr);
    let highest_word := 63 - lz in
    w ← at_ (data_words_ tr) (Z.to_nat highest_word);
    lz' ← __builtin_clzll w;
    let highest_bit := 63 - lz' in
    Ok (highest_word * 64 + highest_bit).
End FastPriceTracker.

(** ** [struct PriceLevel] (hft_engine.cpp:89-108) *)
Module PriceLevel.
Record t : Type := mk {
  head : option nat;
  tail : option nat
}.

Definition new : t := mk None None.

Definition isEmpty (l : t) : bool :=
  match head l with
  | None => true
  | Some _ => false
  end.

Definition push_back (order : nat) (m : heap) (l : t) : result (heap * t) :=
  match head l with
  | None => Ok (m, mk (Some order) (Some order))
  | Some _ =>
      tl ← deref (tail l);
      t_ ← at_ m tl;
      let m1 := <[tl := Order.with_next (Some order) t_]> m in
      o ← at_ m1 order;
      let m2 := <[order := Order.with_prev (Some tl) o]> m1 in
      Ok (m2, mk (head l) (Some order))
  end.

(** Returns the heap, the level and the returned [Order*]. *)
Definition pop_front (m : heap) (l : t) : result (heap * t * option nat) :=
  match head l with
  | None => Ok (m, l, None)
  | Some order =>
      o ← at_ m order;
      match Order.next o with
      | Some h =>
          oh ← at_ m h;
          Ok (<[h := Order.with_prev None oh]> m, mk (Some h) (tail l), Some order)
      | None => Ok (m, mk None None, Some order)
      end
  end.
End PriceLevel.

(** ** [class OrderBook] (hft_engine.cpp:110-126) *)
Module OrderBook.
Record t : Type := mk {
  bids_ : list PriceLevel.t;
  asks_ : list PriceLevel.t;
  bid_tracker_ : FastPriceTracker.t;
  ask_tracker_ : FastPriceTracker.t
}.

Definition new : t :=
  mk (replicate (Z.to_nat MAX_PRICE_TICKS) PriceLevel.new)
     (replicate (Z.to_nat MAX_PRICE_TICKS) PriceLevel.new)
     FastPriceTracker.new FastPriceTracker.new.

Definition level (r : level_ref) (b : t) : result PriceLevel.t :=
  match r with
  | bids_at i => at_ (bids_ b) i
  | asks_at i => at_ (asks_ b) i
  end.

Definition set_level (r : level_ref) (l : PriceLevel.t) (b : t) : t :=
  match r with
  | bids_at i => mk (<[i := l]> (bids_ b)) (asks_ b) (bid_tracker_ b) (ask_tracker_ b)
  | asks_at i => mk (bids_ b) (<[i := l]> (asks_ b)) (bid_tracker_ b) (ask_tracker_ b)
  end.

Definition addOrder (order : nat) (m : heap) (b : t) : result (heap * t) :=
  o ← at_ m order;
  let i := Z.to_nat (Order.price o) in
  if Order.is_buy o then
    l ← at_ (bids_ b) i;
    tr ← (if PriceLevel.isEmpty l
          then FastPriceTracker.setPriceLevel (Order.price o) (bid_tracker_ b)
          else Ok (bid_tracker_ b));
    '(m', l') ← PriceLevel.push_back order m l;
    Ok (m', mk (<[i := l']> (bids_ b)) (asks_ b) tr (ask_tracker_ b))
  else
    l ← at_ (asks_ b) i;
    tr ← (if PriceLevel.isEmpty l
          then FastPriceTracker.setPriceLevel (Order.price o) (ask_tracker_ b)
          else Ok (ask_tracker_ b));
    '(m', l') ← PriceLevel.push_back order m l;
    Ok (m', mk (bids_ b) (<[i := l']> (asks_ b)) (bid_tracker_ b) tr).
End OrderBook.

(** ** [class MatchingEngine] (hft_engine.cpp:129-188) *)
Module MatchingEngine.
Record t : Type := mk {
  book_ : OrderBook.t;
  pool_ : OrderPool.t;
  trades_executed_ : Z
}.

(** An engine whose pool holds [n] records. *)
Definition new (n : nat) : t := mk OrderBook.new (OrderPool.new n) 0.

(** The engine of [main]: [std::make_unique<MatchingEngine>()]. *)
Definition make_unique : t := new MAX_ORDERS.

(** The records the [Order*] handles of the engine point into. *)
Definition orders (e : t) : heap := OrderPool.pool_ (pool_ e).

(** The pool after writes through [Order*] handles. *)
Definition set_orders (m : heap) (p : OrderPool.t) : OrderPool.t :=
  OrderPool.mk m (OrderPool.free_list_ p) (OrderPool.free_idx_ p).

Definition getTradesExecuted (e : t) : Z := trades_executed_ e.

Definition executeTrade (inbound : nat) (resting : option nat)
    (level : level_ref) (fill_price : Z) (is_bid_book : bool) (e : t)
  : result (t * Trade) :=
  let m := orders e in
  i ← at_ m inbound;
  r ← deref resting;
  o ← at_ m r;
  let traded_qty := Z.min (Order.qty i) (Order.qty o) in
  let m1 := <[inbound := Order.with_qty (wrap32 (Order.qty i - traded_qty)) i]> m in
  o1 ← at_ m1 r;
  let m2 := <[r := Order.with_qty (wrap32 (Order.qty o1 - traded_qty)) o1]> m1 in
  let trades := wrap64 (trades_executed_ e + 1) in
  let fill := mkTrade (Order.id i) (Order.id o) fill_price traded_qty r in
  o2 ← at_ m2 r;
  if Order.qty o2 =? 0 then
    l ← OrderBook.level level (book_ e);
    '(m3, l', _) ← PriceLevel.pop_front m2 l;
    let b1 := OrderBook.set_level level l' (book_ e) in
    b2 ← (if PriceLevel.isEmpty l' then
            if is_bid_book then
              tr ← FastPriceTracker.clearPriceLevel fill_price (OrderBook.bid_tracker_ b1);
              Ok (OrderBook.mk (OrderBook.bids_ b1) (OrderBook.asks_ b1)
                               tr (OrderBook.ask_tracker_ b1))
            else
              tr ← FastPriceTracker.clearPriceLevel fill_price (OrderBook.ask_tracker_ b1);
              Ok (OrderBook.mk (OrderBook.bids_ b1) (OrderBook.asks_ b1)
                               (OrderBook.bid_tracker_ b1) tr)
          else Ok b1);
    p ← OrderPool.deallocate r (set_orders m3 (pool_ e));
    Ok (mk b2 p trades, fill)
  else
    Ok (mk (book_ e) (set_orders m2 (pool_ e)) trades, fill).

Fixpoint matchBuyOrder (fuel : nat) (inbound : nat) (e : t)
  : result (t * list Trade) :=
  match fuel with
  | O => OutOfFuel
  | S fuel' =>
      i ← at_ (orders e) inbound;
      if Order.qty i >? 0 then
        best_ask ← FastPriceTracker.getBestAsk (OrderBook.ask_tracker_ (book_ e));
        if (best_ask >? Order.price i) || (best_ask =? MAX_PRICE_TICKS)
        then Ok (e, [])
        else
          level ← at_ (OrderBook.asks_ (book_ e)) (Z.to_nat best_ask);
          let resting := PriceLevel.head level in
          '(e1, fill) ← executeTrade inbound resting (asks_at (Z.to_nat best_ask))
                                     best_ask false e;
          '(e2, fills) ← matchBuyOrder fuel' inbound e1;
          Ok (e2, fill :: fills)
      else Ok (e, [])
  end.

Fixpoint matchSellOrder (fuel : nat) (inbound : nat) (e : t)
  : result (t * list Trade) :=
  match fuel with
  | O => OutOfFuel
  | S fuel' =>
      i ← at_ (orders e) inbound;
      if Order.qty i >? 0 then
        best_bid ← FastPriceTracker.getBestBid (OrderBook.bid_tracker_ (book_ e));
        if (best_bid <? Order.price i) || (best_bid =? 0)
        then Ok (e, [])
        else
          level ← at_ (OrderBook.bids_ (book_ e)) (Z.to_nat best_bid);
          let resting := PriceLevel.head level in
          '(e1, fill) ← executeTrade inbound resting (bids_at (Z.to_nat best_bid))
                                     best_bid true e;
          '(e2, fills) ← matchSellOrder fuel' inbound e1;
          Ok (e2, fill :: fills)
      else Ok (e, [])
  end.

Definition processNewOrder (fuel : nat) (id price qty : Z) (is_buy : bool) (e : t)
  : result (t * completion (list Trade)) :=
  '(p, c) ← OrderPool.allocate id price qty is_buy (pool_ e);
  let e0 := mk (book_ e) p (trades_executed_ e) in
  match c with
  | Throw ex => Ok (e0, Throw ex)
  | Return inbound =>
      '(e1, fills) ← (if is_buy then matchBuyOrder fuel inbound e0
                      else matchSellOrder fuel inbound e0);
      i ← at_ (orders e1) inbound;
      if Order.qty i >? 0 then
        '(m, b) ← OrderBook.addOrder inbound (orders e1) (book_ e1);
        Ok (mk b (set_orders m (pool_ e1)) (trades_executed_ e1), Return fills)
      else
        p' ← OrderPool.deallocate inbound (pool_ e1);
        Ok (mk (book_ e1) p' (trades_executed_ e1), Return fills)
  end.
End MatchingEngine.

End HftEngine.


(** * src/Types.h, src/OrderBook.h, src/MatchingEngine.h *)

Module Headers.

Definition MAX_PRICE_TICKS : Z := 10000.

(** ** [struct PriceLevel] (OrderBook.h:13-40) *)
Module PriceLevel.
Record t : Type := mk {
  head : option nat;
  tail : option nat
}.

Definition new : t := mk None None.

Definition addOrder (order : nat) (m : heap) (l : t) : result (heap * t) :=
  o ← at_ m order;
  let m1 := <[order := Order.with_next None (Order.with_prev (tail l) o)]> m in
  match tail l with
  | Some tl =>
      t_ ← at_ m1 tl;
      Ok (<[tl := Order.with_next (Some order) t_]> m1, mk (head l) (Some order))
  | None => Ok (m1, mk (Some order) (Some order))
  end.

(** [void pop_front()]: nothing is returned. *)
Definition pop_front (m : heap) (l : t) : result (heap * t) :=
  match head l with
  | None => Ok (m, l)
  | Some old_head =>
      o ← at_ m old_head;
      '(m1, l1) ← match Order.next o with
                  | Some h =>
                      oh ← at_ m h;
                      Ok (<[h := Order.with_prev None oh]> m, mk (Some h) (tail l))
                  | None => Ok (m, mk None None)
                  end;
      o1 ← at_ m1 old_head;
      let m2 := <[old_head := Order.with_next None o1]> m1 in
      o2 ← at_ m2 old_head;
      Ok (<[old_head := Order.with_prev None o2]> m2, l1)
  end.
End PriceLevel.

(** ** [class FastPriceTracker] (OrderBook.h:42-92)

    The header variant declares the index too (and [OrderBook] does not use
    it): 64 data words, as in hft_engine.cpp, beside a [MAX_PRICE_TICKS] of
    10000. *)
Module FastPriceTracker.
Record t : Type := mk {
  summary_word_ : Z;
  data_words_ : list Z
}.

Definition new : t := mk 0 (replicate 64 0).

Definition setPriceLevel (price : Z) (tr : t) : result t :=
  let word_idx := price / 64 in
  let bit_idx := price mod 64 in
  w ← at_ (data_words_ tr) (Z.to_nat word_idx);
  let data := <[Z.to_nat word_idx := Z.lor w (Z.shiftl 1 bit_idx)]> (data_words_ tr) in
  Ok (mk (Z.lor (summary_word_ tr) (Z.shiftl 1 word_idx)) data).

Definition clearPriceLevel (price : Z) (tr : t) : result t :=
  let word_idx := price / 64 in
  let bit_idx := price mod 64 in
  w ← at_ (data_words_ tr) (Z.to_nat word_idx);
  let w' := Z.land w (not64 (Z.shiftl 1 bit_idx)) in
  let data := <[Z.to_nat word_idx := w']> (data_words_ tr) in
  if w' =? 0
  then Ok (mk (Z.land (summary_word_ tr) (not64 (Z.shiftl 1 word_idx))) data)
  else Ok (mk (summary_word_ tr) data).

Definition getBestAsk (tr : t) : result Z :=
  if summary_word_ tr =? 0 then Ok MAX_PRICE_TICKS
  else
    lowest_active_word ← __builtin_ctzll (summary_word_ tr);
    w ← at_ (data_words_ tr) (Z.to_nat lowest_active_word);
    lowest_active_bit ← __builtin_ctzll w;
    Ok (lowest_active_word * 64 + lowest_active_bit).

Definition getBestBid (tr : t) : result Z :=
  if summary_word_ tr =? 0 then Ok 0
  else
    lz ← __builtin_clzll (summary_word_ tr);
    let highest_active_word := 63 - lz in
    w ← at_ (data_words_ tr) (Z.to_nat highest_active_word);
    lz' ← __builtin_clzll w;
    let highest_active_bit := 63 - lz' in
    Ok (highest_active_word * 64 + highest_active_bit).
End FastPriceTracker.

(** ** [class OrderBook] (OrderBook.h:94-135) *)
Module OrderBook.
Record t : Type := mk {
  asks_ : list PriceLevel.t;
  bids_ : list PriceLevel.t;
  best_ask_ : Z;
  best_bid_ : Z
}.

Definition new : t :=
  mk (replicate (Z.to_nat MAX_PRICE_TICKS) PriceLevel.new)
     (replicate (Z.to_nat MAX_PRICE_TICKS) PriceLevel.new)
     MAX_PRICE_TICKS 0.

Definition level (r : level_ref) (b : t) : result PriceLevel.t :=
  match r with
  | bids_at i => at_ (bids_ b) i
  | asks_at i => at_ (asks_ b) i
  end.

Definition set_level (r : level_ref) (l : PriceLevel.t) (b : t) : t :=
  match r with
  | bids_at i => mk (asks_ b) (<[i := l]> (bids_ b)) (best_ask_ b) (best_bid_ b)
  | asks_at i => mk (<[i := l]> (asks_ b)) (bids_ b) (best_ask_ b) (best_bid_ b)
  end.

Definition addOrder (order : nat) (m : heap) (b : t) : result (heap * t) :=
  o ← at_ m order;
  let i := Z.to_nat (Order.price o) in
  if Order.is_buy o then
    l ← at_ (bids_ b) i;
    '(m', l') ← PriceLevel.addOrder order m l;
    o' ← at_ m' order;
    Ok (m', mk (asks_ b) (<[i := l']> (bids_ b)) (best_ask_ b)
               (if Order.price o' >? best_bid_ b then Order.price o' else best_bid_ b))
  else
    l ← at_ (asks_ b) i;
    '(m', l') ← PriceLevel.addOrder order m l;
    o' ← at_ m' order;
    Ok (m', mk (<[i := l']> (asks_ b)) (bids_ b)
               (if Order.price o' <? best_ask_ b then Order.price o' else best_ask_ b)
               (best_bid_ b)).

(** [for (i = from; i < MAX_PRICE_TICKS; ++i)], with [todo] iterations to go. *)
Fixpoint updateBestAsk_loop (todo : nat) (i : nat) (b : t) : result t :=
  match todo with
  | O => Ok (mk (asks_ b) (bids_ b) MAX_PRICE_TICKS (best_bid_ b))
  | S todo' =>
      l ← at_ (asks_ b) i;
      match PriceLevel.head l with
      | Some _ => Ok (mk (asks_ b) (bids_ b) (Z.of_nat i) (best_bid_ b))
      | None => updateBestAsk_loop todo' (S i) b
      end
  end.

Definition updateBestAsk (b : t) : result t :=
  updateBestAsk_loop (Z.to_nat MAX_PRICE_TICKS) 0 b.

(** [for (i = MAX_PRICE_TICKS; i > 0; --i)], entered with the value of [i]. *)
Fixpoint updateBestBid_loop (i : nat) (b : t) : result t :=
  match i with
  | O => Ok (mk (asks_ b) (bids_ b) (best_ask_ b) 0)
  | S j =>
      l ← at_ (bids_ b) j;
      match PriceLevel.head l with
      | Some _ => Ok (mk (asks_ b) (bids_ b) (best_ask_ b) (Z.of_nat j))
      | None => updateBestBid_loop j b
      end
  end.

Definition updateBestBid (b : t) : result t :=
  updateBestBid_loop (Z.to_nat MAX_PRICE_TICKS) b.
End OrderBook.

(** ** [class MatchingEngine] (MatchingEngine.h:5-80) *)
Module MatchingEngine.
Record t : Type := mk {
  book_ : OrderBook.t;
  pool_ : OrderPool.t;
  trades_executed_ : Z
}.

Definition new (n : nat) : t := mk OrderBook.new (OrderPool.new n) 0.

Definition orders (e : t) : heap := OrderPool.pool_ (pool_ e).

(** The pool after writes through [Order*] handles. *)
Definition set_orders (m : heap) (p : OrderPool.t) : OrderPool.t :=
  OrderPool.mk m (OrderPool.free_list_ p) (OrderPool.free_idx_ p).

Definition getTradesExecuted (e : t) : Z := trades_executed_ e.

Definition executeTrade (inbound : nat) (resting : nat)
    (level : level_ref) (fill_price : Z) (e : t) : result (t * Trade) :=
  let m := orders e in
  i ← at_ m inbound;
  o ← at_ m resting;
  let traded_qty := Z.min (Order.qty i) (Order.qty o) in
  let m1 := <[inbound := Order.with_qty (wrap32 (Order.qty i - traded_qty)) i]> m in
  o1 ← at_ m1 resting;
  let m2 := <[resting := Order.with_qty (wrap32 (Order.qty o1 - traded_qty)) o1]> m1 in
  let trades := wrap64 (trades_executed_ e + 1) in
  let fill := mkTrade (Order.id i) (Order.id o) fill_price traded_qty resting in
  o2 ← at_ m2 resting;
  if Order.qty o2 =? 0 then
    l ← OrderBook.level level (book_ e);
    '(m3, l') ← PriceLevel.pop_front m2 l;
    let b1 := OrderBook.set_level level l' (book_ e) in
    b2 ← match PriceLevel.head l' with
         | None =>
             if fill_price =? OrderBook.best_ask_ b1 then OrderBook.updateBestAsk b1
             else if fill_price =? OrderBook.best_bid_ b1 then OrderBook.updateBestBid b1
             else Ok b1
         | Some _ => Ok b1
         end;
    p ← OrderPool.deallocate resting (set_orders m3 (pool_ e));
    Ok (mk b2 p trades, fill)
  else
    Ok (mk (book_ e) (set_orders m2 (pool_ e)) trades, fill).

Fixpoint matchBuyOrder (fuel : nat) (inbound : nat) (e : t)
  : result (t * list Trade) :=
  match fuel with
  | O => OutOfFuel
  | S fuel' =>
      i ← at_ (orders e) inbound;
      if (Order.qty i >? 0) && (OrderBook.best_ask_ (book_ e) <=? Order.price i) then
        let at_best := Z.to_nat (OrderBook.best_ask_ (book_ e)) in
        best_ask_level ← at_ (OrderBook.asks_ (book_ e)) at_best;
        match PriceLevel.head best_ask_level with
        | None =>
            b ← OrderBook.updateBestAsk (book_ e);
            matchBuyOrder fuel' inbound (mk b (pool_ e) (trades_executed_ e))
        | Some resting =>
            '(e1, fill) ← executeTrade inbound resting (asks_at at_best)
                                       (OrderBook.best_ask_ (book_ e)) e;
            '(e2, fills) ← matchBuyOrder fuel' inbound e1;
            Ok (e2, fill :: fills)
        end
      else Ok (e, [])
  end.

Fixpoint matchSellOrder (fuel : nat) (inbound : nat) (e : t)
  : result (t * list Trade) :=
  match fuel with
  | O => OutOfFuel
  | S fuel' =>
      i ← at_ (orders e) inbound;
      if (Order.qty i >? 0) && (OrderBook.best_bid_ (book_ e) >=? Order.price i) then
        let at_best := Z.to_nat (OrderBook.best_bid_ (book_ e)) in
        best_bid_level ← at_ (OrderBook.bids_ (book_ e)) at_best;
        match PriceLevel.head best_bid_level with
        | None =>
            b ← OrderBook.updateBestBid (book_ e);
            matchSellOrder fuel' inbound (mk b (pool_ e) (trades_executed_ e))
        | Some resting =>
            '(e1, fill) ← executeTrade inbound resting (bids_at at_best)
                                       (OrderBook.best_bid_ (book_ e)) e;
            '(e2, fills) ← matchSellOrder fuel' inbound e1;
            Ok (e2, fill :: fills)
        end
      else Ok (e, [])
  end.

Definition processNewOrder (fuel : nat) (id price qty : Z) (is_buy : bool) (e : t)
  : result (t * completion (list Trade)) :=
  '(p, c) ← OrderPool.allocate id price qty is_buy (pool_ e);
  let e0 := mk (book_ e) p (trades_executed_ e) in
  match c with
  | Throw ex => Ok (e0, Throw ex)
  | Return inbound =>
      '(e1, fills) ← (if is_buy then matchBuyOrder fuel inbound e0
                      else matchSellOrder fuel inbound e0);
      i ← at_ (orders e1) inbound;
      if Order.qty i >? 0 then
        '(m, b) ← OrderBook.addOrder inbound (orders e1) (book_ e1);
        Ok (mk b (set_orders m (pool_ e1)) (trades_executed_ e1), Return fills)
      else
        p' ← OrderPool.deallocate inbound (pool_ e1);
        Ok (mk (book_ e1) p' (trades_executed_ e1), Return fills)
  end.
End MatchingEngine.

End Headers.


(** * Specification vocabulary for [HftEngine] *)

Import HftEngine.

(** One call of [processNewOrder]. *)
Record call : Type := mkCall {
  call_id : Z;
  call_price : Z;
  call_qty : Z;
  call_is_buy : bool
}.

Definition submit (fuel : nat) (c : call) (e : MatchingEngine.t)
  : result (MatchingEngine.t * completion (list Trade)) :=
  MatchingEngine.processNewOrder fuel (call_id c) (call_price c) (call_qty c)
                                 (call_is_buy c) e.

(** The precondition of [process_new_order]: a tick of the domain and a
    positive [uint32_t] quantity. *)
Definition valid_call (c : call) : Prop :=
  0 ≤ call_price c < MAX_PRICE_TICKS ∧ 0 < call_qty c < 2 ^ 32.

(** A driver that submits the calls in turn and records how each one ended. *)
Fixpoint run (fuel : nat) (cs : list call) (e : MatchingEngine.t)
  : result (MatchingEngine.t * list (completion (list Trade))) :=
  match cs with
  | [] => Ok (e, [])
  | c :: cs' =>
      '(e1, r) ← submit fuel c e;
      '(e2, rs) ← run fuel cs' e1;
      Ok (e2, r :: rs)
  end.

(** The engine states a sequence of valid calls on a fresh engine of capacity
    [n] leads to, with the calls that returned and every fill they made. *)
Inductive trace (n : nat) : list call → list Trade → MatchingEngine.t → Prop :=
| trace_new : trace n [] [] (MatchingEngine.new n)
| trace_return cs ts e fuel c e' fills :
    trace n cs ts e → valid_call c →
    submit fuel c e = Ok (e', Return fills) →
    trace n (cs ++ [c]) (ts ++ fills) e'
| trace_throw cs ts e fuel c e' ex :
    trace n cs ts e → valid_call c →
    submit fuel c e = Ok (e', Throw ex) →
    trace n cs ts e'.

Definition reachable (n : nat) (e : MatchingEngine.t) : Prop :=
  ∃ cs ts, trace n cs ts e.

(** Per-side views of the book: [true] is the bid side. *)
Definition levels (side : bool) (b : OrderBook.t) : list PriceLevel.t :=
  if side then OrderBook.bids_ b else OrderBook.asks_ b.

Definition tracker (side : bool) (b : OrderBook.t) : FastPriceTracker.t :=
  if side then OrderBook.bid_tracker_ b else OrderBook.ask_tracker_ b.

Definition ref (side : bool) (i : nat) : level_ref :=
  if side then bids_at i else asks_at i.

(** ** Price index *)

Definition word64 (w : Z) : Prop := 0 ≤ w < 2 ^ 64.

(** Tick [t] is marked in the index. *)
Definition active (tr : FastPriceTracker.t) (t : Z) : bool :=
  match FastPriceTracker.data_words_ tr !! Z.to_nat (t / 64) with
  | Some w => Z.testbit w (t mod 64)
  | None => false
  end.

(** The representation invariant of the index: 64 data words, all words in
    range, and summary bit [i] set exactly when data word [i] is not zero. *)
Record tracker_wf (tr : FastPriceTracker.t) : Prop := {
  wf_length : length (FastPriceTracker.data_words_ tr) = 64%nat;
  wf_summary : word64 (FastPriceTracker.summary_word_ tr);
  wf_word : ∀ i w, FastPriceTracker.data_words_ tr !! i = Some w → word64 w;
  wf_bit : ∀ i w, FastPriceTracker.data_words_ tr !! i = Some w →
             Z.testbit (FastPriceTracker.summary_word_ tr) (Z.of_nat i) = true ↔ w ≠ 0
}.
Arguments wf_length {_}.
Arguments wf_summary {_}.
Arguments wf_word {_}.
Arguments wf_bit {_}.

(** The states of a [FastPriceTracker]. Its fields are private: a state is
    what the constructor and the two updates, called with ticks of the
    domain, lead to. *)
Inductive index_state : FastPriceTracker.t → Prop :=
| index_new : index_state FastPriceTracker.new
| index_set tr t tr' :
    index_state tr → 0 ≤ t < MAX_PRICE_TICKS →
    FastPriceTracker.setPriceLevel t tr = Ok tr' → index_state tr'
| index_clear tr t tr' :
    index_state tr → 0 ≤ t < MAX_PRICE_TICKS →
    FastPriceTracker.clearPriceLevel t tr = Ok tr' → index_state tr'.

(** ** Queues in the heap *)

(** Following [next] from [h] visits exactly [l] and ends at [nullptr]. *)
Fixpoint chain (m : heap) (h : option nat) (l : list nat) : Prop :=
  match l with
  | [] => h = None
  | i :: l' => h = Some i ∧ ∃ o, m !! i = Some o ∧ chain m (Order.next o) l'
  end.

Definition queue (m : heap) (lvl : PriceLevel.t) (l : list nat) : Prop :=
  chain m (PriceLevel.head lvl) l ∧ PriceLevel.tail lvl = list.last l.

(** Record [i] is linked into the list that starts at [h]. *)
Inductive linked (m : heap) : option nat → nat → Prop :=
| linked_head i : linked m (Some i) i
| linked_next i o j :
    m !! i = Some o → linked m (Order.next o) j → linked m (Some i) j.

(** Record [i] rests in the book. *)
Definition resting (e : MatchingEngine.t) (i : nat) : Prop :=
  ∃ side t lvl,
    levels side (MatchingEngine.book_ e) !! t = Some lvl ∧
    linked (MatchingEngine.orders e) (PriceLevel.head lvl) i.

(** The handles of a level from head to tail, found by following [next] for
    at most as many steps as the heap has records. *)
Fixpoint walk (m : heap) (fuel : nat) (h : option nat) : list nat :=
  match fuel, h with
  | S fuel', Some i =>
      i :: match m !! i with
           | Some o => walk m fuel' (Order.next o)
           | None => []
           end
  | _, _ => []
  end.

Definition level_handles (m : heap) (l : PriceLevel.t) : list nat :=
  walk m (length m) (PriceLevel.head l).

Definition qty_at (m : heap) (i : nat) : Z :=
  match m !! i with
  | Some o => Order.qty o
  | None => 0
  end.

Definition Zsum (l : list Z) : Z := foldr Z.add 0 l.

Definition level_qty (m : heap) (l : PriceLevel.t) : Z :=
  Zsum (qty_at m <$> level_handles m l).

(** Σ remaining quantity of the orders resting in the book. *)
Definition resting_qty (e : MatchingEngine.t) : Z :=
  Zsum (level_qty (MatchingEngine.orders e) <$> OrderBook.bids_ (MatchingEngine.book_ e))
  + Zsum (level_qty (MatchingEngine.orders e) <$> OrderBook.asks_ (MatchingEngine.book_ e)).

(** Σ filled quantity of the trades, Σ quantity of the inbound orders. *)
Definition filled_qty (ts : list Trade) : Z := Zsum (trade_qty <$> ts).
Definition submitted_qty (cs : list call) : Z := Zsum (call_qty <$> cs).

(** The resting handles of one side in priority order: asks by ascending
    tick, bids by descending tick, each level from head to tail. *)
Definition priority (side : bool) (e : MatchingEngine.t) : list nat :=
  let m := MatchingEngine.orders e in
  let b := MatchingEngine.book_ e in
  if side then concat (level_handles m <$> reverse (OrderBook.bids_ b))
  else concat (level_handles m <$> OrderBook.asks_ b).

(** No bid level at or above an ask level is occupied: either side is empty
    or the highest occupied bid tick is below the lowest occupied ask tick. *)
Definition no_cross (e : MatchingEngine.t) : Prop :=
  ∀ b a lb la,
    OrderBook.bids_ (MatchingEngine.book_ e) !! b = Some lb →
    OrderBook.asks_ (MatchingEngine.book_ e) !! a = Some la →
    PriceLevel.isEmpty lb = false → PriceLevel.isEmpty la = false →
    (b < a)%nat.

(** ** The invariant of the engine *)

(** The invariant is stated with ghost queues [G side t]: the handles queued
    at tick [t] of [side], from head to tail. *)

(** Two records that differ at most in their sibling handles. *)
Definition same_fields (o o' : Order.t) : Prop :=
  Order.id o' = Order.id o ∧ Order.price o' = Order.price o ∧
  Order.qty o' = Order.qty o ∧ Order.is_buy o' = Order.is_buy o.

(** [G] with the queue at tick [t] of [side] replaced by [l]. *)
Definition upd (G : bool → Z → list nat) (side : bool) (t : Z) (l : list nat)
  : bool → Z → list nat :=
  λ s x, if decide (s = side ∧ x = t) then l else G s x.

(** The free stack: [free_list_[0 .. free_idx_)], top last. *)
Definition free_handles (p : OrderPool.t) : list nat :=
  take (OrderPool.free_idx_ p) (OrderPool.free_list_ p).

(** The state of an engine between two trade steps:
    - each level is a well-formed queue holding [G side t], without repeats,
      and every queued record carries the level's tick and side and a
      positive quantity;
    - each index is well-formed and marks exactly the occupied ticks;
    - the free stack has no repeats and names records that are in the arena
      and in no queue;
    - the trade counter is a [uint64_t]. *)
Record book_inv (e : MatchingEngine.t) (G : bool → Z → list nat) : Prop := {
  inv_queue : ∀ side t, 0 ≤ t < MAX_PRICE_TICKS →
    ∃ lvl, levels side (MatchingEngine.book_ e) !! Z.to_nat t = Some lvl ∧
           queue (MatchingEngine.orders e) lvl (G side t);
  inv_length : ∀ side,
    length (levels side (MatchingEngine.book_ e)) = Z.to_nat MAX_PRICE_TICKS;
  inv_outside : ∀ side t, ¬ (0 ≤ t < MAX_PRICE_TICKS) → G side t = [];
  inv_resting : ∀ side t i, i ∈ G side t →
    ∃ o, MatchingEngine.orders e !! i = Some o ∧ Order.price o = t ∧
         Order.is_buy o = side ∧ 0 < Order.qty o < 2 ^ 32;
  inv_nodup : ∀ side t, NoDup (G side t);
  inv_tracker_wf : ∀ side, tracker_wf (tracker side (MatchingEngine.book_ e));
  inv_active : ∀ side t, 0 ≤ t < MAX_PRICE_TICKS →
    active (tracker side (MatchingEngine.book_ e)) t = true ↔ G side t ≠ [];
  inv_free_length :
    length (OrderPool.free_list_ (MatchingEngine.pool_ e))
    = length (MatchingEngine.orders e);
  inv_free_idx :
    (OrderPool.free_idx_ (MatchingEngine.pool_ e)
     ≤ length (OrderPool.free_list_ (MatchingEngine.pool_ e)))%nat;
  inv_free_nodup : NoDup (free_handles (MatchingEngine.pool_ e));
  inv_free : ∀ i, i ∈ free_handles (MatchingEngine.pool_ e) →
    (i < length (MatchingEngine.orders e))%nat ∧ ∀ side t, i ∉ G side t;
  inv_trades : word64 (MatchingEngine.trades_executed_ e)
}.
Arguments inv_queue {_ _}.
Arguments inv_length {_ _}.
Arguments inv_outside {_ _}.
Arguments inv_resting {_ _}.
Arguments inv_nodup {_ _}.
Arguments inv_tracker_wf {_ _}.
Arguments inv_active {_ _}.
Arguments inv_free_length {_ _}.
Arguments inv_free_idx {_ _}.
Arguments inv_free_nodup {_ _}.
Arguments inv_free {_ _}.
Arguments inv_trades {_ _}.

(** The inbound order while it is matched: its record holds the call's
    fields and the remainder [q], with null sibling handles, and is neither
    queued nor free. *)
Record inflight (e : MatchingEngine.t) (G : bool → Z → list nat)
    (inbound : nat) (id price : Z) (is_buy : bool) (q : Z) : Prop := {
  fl_order : MatchingEngine.orders e !! inbound
             = Some (Order.mk id price q is_buy None None);
  fl_qty : 0 ≤ q < 2 ^ 32;
  fl_unlinked : ∀ side t, inbound ∉ G side t;
  fl_not_free : inbound ∉ free_handles (MatchingEngine.pool_ e)
}.
Arguments fl_order {_ _ _ _ _ _ _}.
Arguments fl_qty {_ _ _ _ _ _ _}.
Arguments fl_unlinked {_ _ _ _ _ _ _}.
Arguments fl_not_free {_ _ _ _ _ _ _}.

Definition ticks : list Z := seqZ 0 MAX_PRICE_TICKS.

(** Σ remaining quantity over the ghost queues. *)
Definition qsum (m : heap) (l : list nat) : Z := Zsum (qty_at m <$> l).

Definition gsum (m : heap) (G : bool → Z → list nat) : Z :=
  Zsum ((λ t, qsum m (G true t)) <$> ticks) + Zsum ((λ t, qsum m (G false t)) <$> ticks).

(** The ghost queues of one side in priority order. *)
Definition tick_order (side : bool) : list Z :=
  if side then reverse ticks else ticks.

Definition prio (side : bool) (G : bool → Z → list nat) : list nat :=
  concat (G side <$> tick_order side).

(** The book with the index, or the levels, of one side replaced. *)
Definition with_tracker (side : bool) (tr : FastPriceTracker.t) (b : OrderBook.t)
  : OrderBook.t :=
  if side
  then OrderBook.mk (OrderBook.bids_ b) (OrderBook.asks_ b) tr (OrderBook.ask_tracker_ b)
  else OrderBook.mk (OrderBook.bids_ b) (OrderBook.asks_ b) (OrderBook.bid_tracker_ b) tr.

Definition with_levels (side : bool) (ls : list PriceLevel.t) (b : OrderBook.t)
  : OrderBook.t :=
  if side
  then OrderBook.mk ls (OrderBook.asks_ b) (OrderBook.bid_tracker_ b) (OrderBook.ask_tracker_ b)
  else OrderBook.mk (OrderBook.bids_ b) ls (OrderBook.bid_tracker_ b) (OrderBook.ask_tracker_ b).

(** The two matching loops have one shape: [matchBuyOrder] walks the ask
    side ([side = false]) and [matchSellOrder] the bid side ([side = true]). *)
Definition best_price (side : bool) (tr : FastPriceTracker.t) : result Z :=
  if side then FastPriceTracker.getBestBid tr else FastPriceTracker.getBestAsk tr.

Definition stops (side : bool) (best price : Z) : bool :=
  if side then (best <? price) || (best =? 0)
  else (best >? price) || (best =? MAX_PRICE_TICKS).

Fixpoint matchOrder (side : bool) (fuel : nat) (inbound : nat) (e : MatchingEngine.t)
  : result (MatchingEngine.t * list Trade) :=
  match fuel with
  | O => OutOfFuel
  | S fuel' =>
      i ← at_ (MatchingEngine.orders e) inbound;
      if Order.qty i >? 0 then
        best ← best_price side (tracker side (MatchingEngine.book_ e));
        if stops side best (Order.price i) then Ok (e, [])
        else
          level ← at_ (levels side (MatchingEngine.book_ e)) (Z.to_nat best);
          '(e1, fill) ← MatchingEngine.executeTrade inbound (PriceLevel.head level)
                           (ref side (Z.to_nat best)) best side e;
          '(e2, fills) ← matchOrder side fuel' inbound e1;
          Ok (e2, fill :: fills)
      else Ok (e, [])
  end.

(** [a] is at least as good a price as [b] on [side]. *)
Definition better (side : bool) (a b : Z) : Prop :=
  if side then b ≤ a else a ≤ b.

(** What one run of a matching loop against [side] achieves, from the state
    [e] (queues [G], inbound remainder [q]) to [e'] ([G'], [q']). *)
Record match_post (side : bool) (id : Z)
    (e : MatchingEngine.t) (G : bool → Z → list nat) (q : Z)
    (e' : MatchingEngine.t) (G' : bool → Z → list nat) (q' : Z)
    (fills : list Trade) : Prop := {
  mp_gsum : gsum (MatchingEngine.orders e') G'
            = gsum (MatchingEngine.orders e) G - filled_qty fills;
  mp_qty : q' = q - filled_qty fills;
  mp_trades : MatchingEngine.trades_executed_ e'
              = wrap64 (MatchingEngine.trades_executed_ e + Z.of_nat (length fills));
  mp_own : ∀ x, G' (negb side) x = G (negb side) x;
  mp_sub : ∀ s x i, i ∈ G' s x → i ∈ G s x;
  mp_ids : ∀ j oj, MatchingEngine.orders e !! j = Some oj →
             ∃ o', MatchingEngine.orders e' !! j = Some o' ∧ Order.id o' = Order.id oj;
  mp_fills : Forall (λ f, inbound_id f = id ∧ 0 < trade_qty f ∧
                          resting_handle f ∈ G side (trade_price f) ∧
                          ∃ o, MatchingEngine.orders e !! resting_handle f = Some o ∧
                               resting_id f = Order.id o) fills;
  mp_sorted : Sorted (better side) (trade_price <$> fills);
  mp_prefix : resting_handle <$> fills = take (length fills) (prio side G);
  mp_rest : prio side G' = drop (length fills) (prio side G) ∨
            (fills ≠ [] ∧ q' = 0 ∧
             prio side G' = drop (length fills - 1) (prio side G))
}.
Arguments mp_gsum {_ _ _ _ _ _ _ _ _}.
Arguments mp_qty {_ _ _ _ _ _ _ _ _}.
Arguments mp_trades {_ _ _ _ _ _ _ _ _}.
Arguments mp_own {_ _ _ _ _ _ _ _ _}.
Arguments mp_sub {_ _ _ _ _ _ _ _ _}.
Arguments mp_ids {_ _ _ _ _ _ _ _ _}.
Arguments mp_fills {_ _ _ _ _ _ _ _ _}.
Arguments mp_sorted {_ _ _ _ _ _ _ _ _}.
Arguments mp_prefix {_ _ _ _ _ _ _ _ _}.
Arguments mp_rest {_ _ _ _ _ _ _ _ _}.

(** What one call of [processNewOrder] that returns achieves. *)
Record call_post (id price q : Z) (sd : bool)
    (e : MatchingEngine.t) (G : bool → Z → list nat)
    (e' : MatchingEngine.t) (G' : bool → Z → list nat)
    (fills : list Trade) : Prop := {
  cp_gsum : gsum (MatchingEngine.orders e') G'
            = gsum (MatchingEngine.orders e) G + q - 2 * filled_qty fills;
  cp_filled : filled_qty fills ≤ q;
  cp_trades : MatchingEngine.trades_executed_ e'
              = wrap64 (MatchingEngine.trades_executed_ e + Z.of_nat (length fills));
  cp_fills : Forall (λ f, inbound_id f = id ∧ 0 < trade_qty f ∧
                          resting_handle f ∈ G (negb sd) (trade_price f) ∧
                          ∃ o, MatchingEngine.orders e !! resting_handle f = Some o ∧
                               resting_id f = Order.id o) fills;
  cp_sorted : Sorted (better (negb sd)) (trade_price <$> fills);
  cp_prefix : resting_handle <$> fills = take (length fills) (prio (negb sd) G);
  cp_rest : prio (negb sd) G' = drop (length fills) (prio (negb sd) G) ∨
            (fills ≠ [] ∧ filled_qty fills = q ∧
             prio (negb sd) G' = drop (length fills - 1) (prio (negb sd) G));
  cp_own : (filled_qty fills = q ∧ ∀ x, G' sd x = G sd x) ∨
           (filled_qty fills < q ∧
            ∃ ib, (∀ x, G' sd x = if decide (x = price) then G sd price ++ [ib] else G sd x) ∧
                  (∀ s x, ib ∉ G s x) ∧
                  ∃ o, MatchingEngine.orders e' !! ib = Some o ∧ Order.id o = id ∧
                       Order.qty o = q - filled_qty fills)
}.
Arguments cp_gsum {_ _ _ _ _ _ _ _ _}.
Arguments cp_filled {_ _ _ _ _ _ _ _ _}.
Arguments cp_trades {_ _ _ _ _ _ _ _ _}.
Arguments cp_fills {_ _ _ _ _ _ _ _ _}.
Arguments cp_sorted {_ _ _ _ _ _ _ _ _}.
Arguments cp_prefix {_ _ _ _ _ _ _ _ _}.
Arguments cp_rest {_ _ _ _ _ _ _ _ _}.
Arguments cp_own {_ _ _ _ _ _ _ _ _}.

(** ** Inside a call *)

(** What the matching reads of a record: every field but the sibling
    handles. *)
Definition fields (o : Order.t) : Z * Z * Z * bool :=
  (Order.id o, Order.price o, Order.qty o, Order.is_buy o).

(** The fields of the arena after a trade step of the inbound record [ib],
    holding [i], against the resting record [r], holding [o]. *)
Definition traded (ib r : nat) (i o : Order.t) (fs : list (Z * Z * Z * bool))
  : list (Z * Z * Z * bool) :=
  let f := Z.min (Order.qty i) (Order.qty o) in
  <[r := fields (Order.with_qty (wrap32 (Order.qty o - f)) o)]>
    (<[ib := fields (Order.with_qty (wrap32 (Order.qty i - f)) i)]> fs).

(** The resting order of the last fill, when that fill left a remainder of
    it ([m] is the arena before the call). *)
Definition partially_filled (m : heap) (fills : list Trade) : list nat :=
  match list.last fills with
  | Some f => if decide (trade_qty f < qty_at m (resting_handle f))
              then [resting_handle f] else []
  | None => []
  end.

(** One round of a matching loop that trades: the loop condition holds at
    [e] (the inbound has quantity left and the best price of [side] is
    within its limit) and [executeTrade] against the head of the best level
    leads to [e']. *)
Inductive trade_step (side : bool) (inbound : nat) (e : MatchingEngine.t)
    (fill : Trade) (e' : MatchingEngine.t) : Prop :=
| trade_step_intro i best level :
    at_ (MatchingEngine.orders e) inbound = Ok i →
    (Order.qty i >? 0) = true →
    best_price side (tracker side (MatchingEngine.book_ e)) = Ok best →
    stops side best (Order.price i) = false →
    at_ (levels side (MatchingEngine.book_ e)) (Z.to_nat best) = Ok level →
    MatchingEngine.executeTrade inbound (PriceLevel.head level)
      (ref side (Z.to_nat best)) best side e = Ok (e', fill) →
    trade_step side inbound e fill e'.

(** The states inside the call [c] made at [e]: the state [allocate] leaves,
    with the inbound order in record [inbound], and the states after each
    round of the matching loop. *)
Inductive mid_call (e : MatchingEngine.t) (c : call) (inbound : nat)
  : MatchingEngine.t → Prop :=
| mid_call_start p :
    OrderPool.allocate (call_id c) (call_price c) (call_qty c) (call_is_buy c)
      (MatchingEngine.pool_ e) = Ok (p, Return inbound) →
    mid_call e c inbound
      (MatchingEngine.mk (MatchingEngine.book_ e) p (MatchingEngine.trades_executed_ e))
| mid_call_step e1 fill e2 :
    mid_call e c inbound e1 →
    trade_step (negb (call_is_buy c)) inbound e1 fill e2 →
    mid_call e c inbound e2.

(** ** Runs and scenarios *)

(** The fills of a run in which every call returned. *)
Fixpoint returned (rs : list (completion (list Trade))) : option (list Trade) :=
  match rs with
  | [] => Some []
  | Return fills :: rs' => (fills ++.) <$> returned rs'
  | Throw _ :: _ => None
  end.

Definition valid_callb (c : call) : bool :=
  (0 <=? call_price c) && (call_price c <? MAX_PRICE_TICKS)
  && (0 <? call_qty c) && (call_qty c <? 2 ^ 32).

(** The state a run ends in ([MatchingEngine.new 0] if it does not end). *)
Definition final (r : result (MatchingEngine.t * list (completion (list Trade))))
  : MatchingEngine.t :=
  match r with
  | Ok (e, _) => e
  | _ => MatchingEngine.new 0
  end.

(** Scenario F of the specification: four orders that do not cross fill an
    arena of four records. *)
Definition scenario_F : list call :=
  [mkCall 1 100 5 true; mkCall 2 105 5 false; mkCall 3 101 5 true; mkCall 4 106 5 false].

Definition scenario_F_engine : MatchingEngine.t :=
  final (run 8 scenario_F (MatchingEngine.new 4)).

(** A bid and then an ask, both at tick 0. *)
Definition tick0_calls : list call := [mkCall 1 0 5 true; mkCall 2 0 5 false].

Definition tick0_engine : MatchingEngine.t :=
  final (run 8 tick0_calls (MatchingEngine.new 4)).

(** An ask of 5 at tick 100 and a buy of 5 that takes it. *)
Definition exact_match_calls : list call := [mkCall 1 100 5 false; mkCall 2 100 5 true].

Definition exact_match_engine : MatchingEngine.t :=
  final (run 8 exact_match_calls (MatchingEngine.new 4)).

Definition exact_match_fill : Trade := mkTrade 2 1 100 5 0.

(** Two records as [allocate] hands them out, queued at one level. *)
Definition two_orders : heap :=
  [Order.mk 1 100 5 false None None; Order.mk 2 100 5 false None None].

Definition two_queued : result (heap * PriceLevel.t) :=
  '(m1, l1) ← PriceLevel.push_back 0 two_orders PriceLevel.new;
  PriceLevel.push_back 1 m1 l1.

Definition two_queued_headers : result (heap * Headers.PriceLevel.t) :=
  '(m1, l1) ← Headers.PriceLevel.addOrder 0 two_orders Headers.PriceLevel.new;
  Headers.PriceLevel.addOrder 1 m1 l1.

(** Scenario D of the specification, before the buy: three asks at tick 100. *)
Definition scenario_D : list call :=
  [mkCall 1 100 5 false; mkCall 2 100 5 false; mkCall 3 100 5 false].

Definition scenario_D_engine : MatchingEngine.t :=
  final (run 8 scenario_D (MatchingEngine.new 4)).

(** ** Drivers and views for the components *)

(** [setPriceLevel] or [clearPriceLevel], by the bit it writes. *)
Definition update (mark : bool) (price : Z) (tr : FastPriceTracker.t)
  : result FastPriceTracker.t :=
  if mark then FastPriceTracker.setPriceLevel price tr
  else FastPriceTracker.clearPriceLevel price tr.

(** Ticks 7 and 100 marked, in that order. *)
Definition index_7_100 : FastPriceTracker.t :=
  match tr ← FastPriceTracker.setPriceLevel 7 FastPriceTracker.new;
        FastPriceTracker.setPriceLevel 100 tr with
  | Ok tr => tr
  | _ => FastPriceTracker.new
  end.

(** The same ticks marked in the other order, with a tick marked and cleared
    in between. *)
Definition index_100_7 : FastPriceTracker.t :=
  match tr ← FastPriceTracker.setPriceLevel 100 FastPriceTracker.new;
        tr ← FastPriceTracker.setPriceLevel 4095 tr;
        tr ← FastPriceTracker.clearPriceLevel 4095 tr;
        FastPriceTracker.setPriceLevel 7 tr with
  | Ok tr => tr
  | _ => FastPriceTracker.new
  end.

(** A driver: successive calls of [allocate], one for each order of [cs]. *)
Fixpoint allocate_all (cs : list call) (p : OrderPool.t)
  : result (OrderPool.t * list (completion nat)) :=
  match cs with
  | [] => Ok (p, [])
  | c :: cs' =>
      '(p1, r) ← OrderPool.allocate (call_id c) (call_price c) (call_qty c) (call_is_buy c) p;
      '(p2, rs) ← allocate_all cs' p1;
      Ok (p2, r :: rs)
  end.

(** The record [allocate] writes for a call. *)
Definition order_of (c : call) : Order.t :=
  Order.mk (call_id c) (call_price c) (call_qty c) (call_is_buy c) None None.

(** A level of the header variant holds the queue [l]. *)
Definition headers_queue (m : heap) (lvl : Headers.PriceLevel.t) (l : list nat) : Prop :=
  chain m (Headers.PriceLevel.head lvl) l ∧ Headers.PriceLevel.tail lvl = list.last l.

(** A driver: [push_back] of the handles [hs] in turn. *)
Fixpoint push_all (hs : list nat) (m : heap) (l : PriceLevel.t)
  : result (heap * PriceLevel.t) :=
  match hs with
  | [] => Ok (m, l)
  | h :: hs' => '(m1, l1) ← PriceLevel.push_back h m l; push_all hs' m1 l1
  end.

(** A driver that empties a level:
    [while (!level.isEmpty()) out.push_back(level.pop_front());] *)
Fixpoint drain (fuel : nat) (m : heap) (l : PriceLevel.t)
  : result (heap * PriceLevel.t * list (option nat)) :=
  match fuel with
  | O => OutOfFuel
  | S fuel' =>
      if PriceLevel.isEmpty l then Ok (m, l, [])
      else
        '(m1, l1, order) ← PriceLevel.pop_front m l;
        '(m2, l2, out) ← drain fuel' m1 l1;
        Ok (m2, l2, order :: out)
  end.

(** The number of orders resting in the book. *)
Definition resting_count (e : MatchingEngine.t) : nat :=
  (length (priority true e) + length (priority false e))%nat.

(** Price [p] is within the limit of an order of the given side. *)
Definition within_limit (is_buy : bool) (limit p : Z) : Prop :=
  if is_buy then p ≤ limit else limit ≤ p.

(** One element of [test_orders] in [main]. *)
Record RawOrder : Type := mkRawOrder {
  raw_price : Z;
  raw_qty : Z;
  raw_is_buy : bool
}.

(** What the three distributions of [main] can draw:
    [price_dist(2000, 2050)], [qty_dist(10, 100)], [side_dist(0, 1)]. *)
Definition drawn (o : RawOrder) : Prop :=
  2000 ≤ raw_price o ≤ 2050 ∧ 10 ≤ raw_qty o ≤ 100.

(** [const int NUM_ORDERS = 500000] of [main] (hft_engine.cpp:193). *)
Definition NUM_ORDERS : nat := Z.to_nat 500000.

(** The timed loop of [main] (hft_engine.cpp:213-216), entered with the value
    of [i] and the orders from [test_orders[i]] on. [main] catches nothing:
    an exception ends the loop. *)
Fixpoint main_loop (fuel : nat) (i : nat) (test_orders : list RawOrder)
    (engine : MatchingEngine.t) : result (completion MatchingEngine.t) :=
  match test_orders with
  | [] => Ok (Return engine)
  | o :: rest =>
      '(engine', r) ← MatchingEngine.processNewOrder fuel (Z.of_nat i) (raw_price o)
                         (raw_qty o) (raw_is_buy o) engine;
      match r with
      | Throw ex => Ok (Throw ex)
      | Return _ => main_loop fuel (S i) rest engine'
      end
  end.

(** The engine and the fills of a call that returned. *)
Definition outcome (r : result (MatchingEngine.t * completion (list Trade)))
  : MatchingEngine.t * list Trade :=
  match r with
  | Ok (e, Return fills) => (e, fills)
  | _ => (MatchingEngine.new 0, [])
  end.

(** The calls [main] makes for [test_orders[i ..]]. *)
Fixpoint main_calls (i : nat) (test_orders : list RawOrder) : list call :=
  match test_orders with
  | [] => []
  | o :: rest => mkCall (Z.of_nat i) (raw_price o) (raw_qty o) (raw_is_buy o)
                 :: main_calls (S i) rest
  end.


(** * Specification vocabulary for [Headers] *)

(** Per-side views of the book of the header variant: [true] is the bid
    side. *)
Definition headers_levels (side : bool) (b : Headers.OrderBook.t)
  : list Headers.PriceLevel.t :=
  if side then Headers.OrderBook.bids_ b else Headers.OrderBook.asks_ b.

Definition headers_best (side : bool) (b : Headers.OrderBook.t) : Z :=
  if side then Headers.OrderBook.best_bid_ b else Headers.OrderBook.best_ask_ b.

Definition headers_with_levels (side : bool) (ls : list Headers.PriceLevel.t)
    (b : Headers.OrderBook.t) : Headers.OrderBook.t :=
  if side
  then Headers.OrderBook.mk (Headers.OrderBook.asks_ b) ls
         (Headers.OrderBook.best_ask_ b) (Headers.OrderBook.best_bid_ b)
  else Headers.OrderBook.mk ls (Headers.OrderBook.bids_ b)
         (Headers.OrderBook.best_ask_ b) (Headers.OrderBook.best_bid_ b).

Definition headers_with_best (side : bool) (v : Z) (b : Headers.OrderBook.t)
  : Headers.OrderBook.t :=
  if side
  then Headers.OrderBook.mk (Headers.OrderBook.asks_ b) (Headers.OrderBook.bids_ b)
         (Headers.OrderBook.best_ask_ b) v
  else Headers.OrderBook.mk (Headers.OrderBook.asks_ b) (Headers.OrderBook.bids_ b)
         v (Headers.OrderBook.best_bid_ b).

Definition headers_submit (fuel : nat) (c : call) (e : Headers.MatchingEngine.t)
  : result (Headers.MatchingEngine.t * completion (list Trade)) :=
  Headers.MatchingEngine.processNewOrder fuel (call_id c) (call_price c) (call_qty c)
                                         (call_is_buy c) e.

(** A tick of the header variant's domain and a positive [uint32_t]
    quantity. *)
Definition headers_valid_call (c : call) : Prop :=
  0 ≤ call_price c < Headers.MAX_PRICE_TICKS ∧ 0 < call_qty c < 2 ^ 32.

(** The engine states that valid calls which run to completion lead to from
    a fresh engine of capacity [n]. *)
Inductive headers_reachable (n : nat) : Headers.MatchingEngine.t → Prop :=
| headers_reach_new : headers_reachable n (Headers.MatchingEngine.new n)
| headers_reach_call e fuel c e' r :
    headers_reachable n e → headers_valid_call c →
    headers_submit fuel c e = Ok (e', r) → headers_reachable n e'.

(** The level at tick [t] of [side] holds an order. *)
Definition headers_occupied (side : bool) (e : Headers.MatchingEngine.t) (t : nat) : Prop :=
  ∃ lvl, headers_levels side (Headers.MatchingEngine.book_ e) !! t = Some lvl ∧
         Headers.PriceLevel.head lvl ≠ None.

Definition headers_no_cross (e : Headers.MatchingEngine.t) : Prop :=
  ∀ b a, headers_occupied true e b → headers_occupied false e a → (b < a)%nat.

(** The state of the header variant's engine between two trade steps: as
    [book_inv], with the cached best prices in place of the index. The
    caches are bounds: no bid rests above [best_bid_] and no ask below
    [best_ask_]. *)
Record headers_inv (e : Headers.MatchingEngine.t) (G : bool → Z → list nat) : Prop := {
  hinv_queue : ∀ side t, 0 ≤ t < Headers.MAX_PRICE_TICKS →
    ∃ lvl, headers_levels side (Headers.MatchingEngine.book_ e) !! Z.to_nat t = Some lvl ∧
           headers_queue (Headers.MatchingEngine.orders e) lvl (G side t);
  hinv_length : ∀ side,
    length (headers_levels side (Headers.MatchingEngine.book_ e))
    = Z.to_nat Headers.MAX_PRICE_TICKS;
  hinv_outside : ∀ side t, ¬ (0 ≤ t < Headers.MAX_PRICE_TICKS) → G side t = [];
  hinv_resting : ∀ side t i, i ∈ G side t →
    ∃ o, Headers.MatchingEngine.orders e !! i = Some o ∧ Order.price o = t ∧
         Order.is_buy o = side ∧ 0 < Order.qty o < 2 ^ 32;
  hinv_nodup : ∀ side t, NoDup (G side t);
  hinv_best_bid :
    0 ≤ Headers.OrderBook.best_bid_ (Headers.MatchingEngine.book_ e)
      < Headers.MAX_PRICE_TICKS ∧
    ∀ t, G true t ≠ [] → t ≤ Headers.OrderBook.best_bid_ (Headers.MatchingEngine.book_ e);
  hinv_best_ask :
    0 ≤ Headers.OrderBook.best_ask_ (Headers.MatchingEngine.book_ e)
      ≤ Headers.MAX_PRICE_TICKS ∧
    ∀ t, G false t ≠ [] → Headers.OrderBook.best_ask_ (Headers.MatchingEngine.book_ e) ≤ t;
  hinv_free_length :
    length (OrderPool.free_list_ (Headers.MatchingEngine.pool_ e))
    = length (Headers.MatchingEngine.orders e);
  hinv_free_idx :
    (OrderPool.free_idx_ (Headers.MatchingEngine.pool_ e)
     ≤ length (OrderPool.free_list_ (Headers.MatchingEngine.pool_ e)))%nat;
  hinv_free_nodup : NoDup (free_handles (Headers.MatchingEngine.pool_ e));
  hinv_free : ∀ i, i ∈ free_handles (Headers.MatchingEngine.pool_ e) →
    (i < length (Headers.MatchingEngine.orders e))%nat ∧ ∀ side t, i ∉ G side t;
  hinv_trades : word64 (Headers.MatchingEngine.trades_executed_ e)
}.
Arguments hinv_queue {_ _}.
Arguments hinv_length {_ _}.
Arguments hinv_outside {_ _}.
Arguments hinv_resting {_ _}.
Arguments hinv_nodup {_ _}.
Arguments hinv_best_bid {_ _}.
Arguments hinv_best_ask {_ _}.
Arguments hinv_free_length {_ _}.
Arguments hinv_free_idx {_ _}.
Arguments hinv_free_nodup {_ _}.
Arguments hinv_free {_ _}.
Arguments hinv_trades {_ _}.

(** The inbound order of the header variant while it is matched. *)
Record headers_inflight (e : Headers.MatchingEngine.t) (G : bool → Z → list nat)
    (inbound : nat) (id price : Z) (is_buy : bool) (q : Z) : Prop := {
  hfl_order : Headers.MatchingEngine.orders e !! inbound
              = Some (Order.mk id price q is_buy None None);
  hfl_qty : 0 ≤ q < 2 ^ 32;
  hfl_unlinked : ∀ side t, inbound ∉ G side t;
  hfl_not_free : inbound ∉ free_handles (Headers.MatchingEngine.pool_ e)
}.
Arguments hfl_order {_ _ _ _ _ _ _}.
Arguments hfl_qty {_ _ _ _ _ _ _}.
Arguments hfl_unlinked {_ _ _ _ _ _ _}.
Arguments hfl_not_free {_ _ _ _ _ _ _}.

(** The cached best price of [side] is exact: it names an occupied level,
    or the side is empty and it holds the value the rescan gives then. *)
Definition headers_exact (side : bool) (b : Headers.OrderBook.t)
    (G : bool → Z → list nat) : Prop :=
  G side (headers_best side b) ≠ [] ∨
  ((∀ t, G side t = []) ∧
   headers_best side b = if side then 0 else Headers.MAX_PRICE_TICKS).

(** The two matching loops of MatchingEngine.h have one shape:
    [matchBuyOrder] walks the ask side ([side = false]) and [matchSellOrder]
    the bid side ([side = true]). *)
Definition headers_crosses (side : bool) (best price : Z) : bool :=
  if side then best >=? price else best <=? price.

Definition headers_rescan (side : bool) (b : Headers.OrderBook.t)
  : result Headers.OrderBook.t :=
  if side then Headers.OrderBook.updateBestBid b else Headers.OrderBook.updateBestAsk b.

Fixpoint headers_matchOrder (side : bool) (fuel : nat) (inbound : nat)
    (e : Headers.MatchingEngine.t) : result (Headers.MatchingEngine.t * list Trade) :=
  match fuel with
  | O => OutOfFuel
  | S fuel' =>
      i ← at_ (Headers.MatchingEngine.orders e) inbound;
      let best := headers_best side (Headers.MatchingEngine.book_ e) in
      if (Order.qty i >? 0) && headers_crosses side best (Order.price i) then
        level ← at_ (headers_levels side (Headers.MatchingEngine.book_ e)) (Z.to_nat best);
        match Headers.PriceLevel.head level with
        | None =>
            b ← headers_rescan side (Headers.MatchingEngine.book_ e);
            headers_matchOrder side fuel' inbound
              (Headers.MatchingEngine.mk b (Headers.MatchingEngine.pool_ e)
                 (Headers.MatchingEngine.trades_executed_ e))
        | Some resting =>
            '(e1, fill) ← Headers.MatchingEngine.executeTrade inbound resting
                             (ref side (Z.to_nat best)) best e;
            '(e2, fills) ← headers_matchOrder side fuel' inbound e1;
            Ok (e2, fill :: fills)
        end
      else Ok (e, [])
  end.

(** What a rescan reads of the book: which levels are empty. *)
Definition headers_book_view (b : Headers.OrderBook.t) (G : bool → Z → list nat) : Prop :=
  (∀ side t, 0 ≤ t < Headers.MAX_PRICE_TICKS →
     ∃ lvl, headers_levels side b !! Z.to_nat t = Some lvl ∧
            (Headers.PriceLevel.head lvl = None ↔ G side t = [])) ∧
  (∀ side, length (headers_levels side b) = Z.to_nat Headers.MAX_PRICE_TICKS) ∧
  (∀ side t, ¬ (0 ≤ t < Headers.MAX_PRICE_TICKS) → G side t = []).

(** What one run of a matching loop of the header variant achieves. *)
Record headers_match_post (side : bool) (id price : Z)
    (e : Headers.MatchingEngine.t) (G : bool → Z → list nat) (q : Z)
    (e' : Headers.MatchingEngine.t) (G' : bool → Z → list nat) (q' : Z)
    (fills : list Trade) : Prop := {
  hmp_qty : q' = q - filled_qty fills;
  hmp_own : ∀ x, G' (negb side) x = G (negb side) x;
  hmp_sub : ∀ s x i, i ∈ G' s x → i ∈ G s x;
  hmp_exit : q' = 0 ∨
             headers_crosses side (headers_best side (Headers.MatchingEngine.book_ e')) price
             = false;
  hmp_fills : Forall (λ f, inbound_id f = id ∧ 0 < trade_qty f ∧
                           headers_crosses side (trade_price f) price = true ∧
                           resting_handle f ∈ G side (trade_price f)) fills;
  hmp_nil : fills = [] → ∀ s x, G' s x = G s x;
  hmp_trades : Headers.MatchingEngine.trades_executed_ e'
               = wrap64 (Headers.MatchingEngine.trades_executed_ e
                         + Z.of_nat (length fills))
}.
Arguments hmp_qty {_ _ _ _ _ _ _ _ _ _}.
Arguments hmp_own {_ _ _ _ _ _ _ _ _ _}.
Arguments hmp_sub {_ _ _ _ _ _ _ _ _ _}.
Arguments hmp_exit {_ _ _ _ _ _ _ _ _ _}.
Arguments hmp_fills {_ _ _ _ _ _ _ _ _ _}.
Arguments hmp_nil {_ _ _ _ _ _ _ _ _ _}.
Arguments hmp_trades {_ _ _ _ _ _ _ _ _ _}.

(** What one call of the header variant's [processNewOrder] that returns
    achieves. *)
Record headers_call_post (id price q : Z) (sd : bool)
    (e : Headers.MatchingEngine.t) (G : bool → Z → list nat)
    (e' : Headers.MatchingEngine.t) (G' : bool → Z → list nat)
    (fills : list Trade) : Prop := {
  hcp_filled : filled_qty fills ≤ q;
  hcp_sub : ∀ x i, i ∈ G' (negb sd) x → i ∈ G (negb sd) x;
  hcp_own : (filled_qty fills = q ∧ ∀ x, G' sd x = G sd x) ∨
            (filled_qty fills < q ∧
             (∀ x, G' (negb sd) x ≠ [] → headers_crosses (negb sd) x price = false) ∧
             ∃ ib, (∀ x, G' sd x = if decide (x = price) then G sd price ++ [ib] else G sd x) ∧
                   (∀ s x, ib ∉ G s x));
  hcp_fills : Forall (λ f, inbound_id f = id ∧ 0 < trade_qty f ∧
                           headers_crosses (negb sd) (trade_price f) price = true ∧
                           resting_handle f ∈ G (negb sd) (trade_price f)) fills;
  hcp_nil : fills = [] → ∀ x, G' (negb sd) x = G (negb sd) x;
  hcp_trades : Headers.MatchingEngine.trades_executed_ e'
               = wrap64 (Headers.MatchingEngine.trades_executed_ e
                         + Z.of_nat (length fills))
}.
Arguments hcp_filled {_ _ _ _ _ _ _ _ _}.
Arguments hcp_sub {_ _ _ _ _ _ _ _ _}.
Arguments hcp_own {_ _ _ _ _ _ _ _ _}.
Arguments hcp_fills {_ _ _ _ _ _ _ _ _}.
Arguments hcp_nil {_ _ _ _ _ _ _ _ _}.
Arguments hcp_trades {_ _ _ _ _ _ _ _ _}.

(** The engine and the fills of a call of the header variant that
    returned. *)
Definition headers_outcome
    (r : result (Headers.MatchingEngine.t * completion (list Trade)))
  : Headers.MatchingEngine.t * list Trade :=
  match r with
  | Ok (e, Return fills) => (e, fills)
  | _ => (Headers.MatchingEngine.new 0, [])
  end.

(** A bid of 5 at tick 0 resting in a fresh engine of the header variant. *)
Definition headers_bid_at_0 : Headers.MatchingEngine.t :=
  (headers_outcome (headers_submit 8 (mkCall 1 0 5 true) (Headers.MatchingEngine.new 4))).1.


(** ** The two variants side by side *)

(** The driver [run] for the header variant. *)
Fixpoint headers_run (fuel : nat) (cs : list call) (e : Headers.MatchingEngine.t)
  : result (Headers.MatchingEngine.t * list (completion (list Trade))) :=
  match cs with
  | [] => Ok (e, [])
  | c :: cs' =>
      '(e1, r) ← headers_submit fuel c e;
      '(e2, rs) ← headers_run fuel cs' e1;
      Ok (e2, r :: rs)
  end.

(** The calls both variants take: a tick of hft_engine.cpp's domain, a
    positive [uint32_t] quantity, and no sell at price 0. *)
Definition common_call (c : call) : Prop :=
  valid_call c ∧ (call_is_buy c = true ∨ 0 < call_price c).

(** An engine of each variant holding the same orders: the same queues, the
    same fields in every record of the arena, the same free stack and the
    same trade count. *)
Record variants_agree (e : MatchingEngine.t) (h : Headers.MatchingEngine.t)
    (G : bool → Z → list nat) : Prop := {
  va_hft : book_inv e G;
  va_headers : headers_inv h G;
  va_fields : fields <$> MatchingEngine.orders e = fields <$> Headers.MatchingEngine.orders h;
  va_free : free_handles (MatchingEngine.pool_ e) = free_handles (Headers.MatchingEngine.pool_ h);
  va_trades : MatchingEngine.trades_executed_ e = Headers.MatchingEngine.trades_executed_ h
}.
Arguments va_hft {_ _ _}.
Arguments va_headers {_ _ _}.
Arguments va_fields {_ _ _}.
Arguments va_free {_ _ _}.
Arguments va_trades {_ _ _}.


(** * Proofs *)

(** ** Outcomes and lookups *)

Lemma at_Ok {A} (l : list A) i a : at_ l i = Ok a ↔ l !! i = Some a.
Proof. unfold at_. destruct (l !! i); split; intros; simplify_eq; done. Qed.

Lemma at_lookup {A} (l : list A) i a : l !! i = Some a → at_ l i = Ok a.
Proof. apply at_Ok. Qed.

(** ** Bit scans *)

Lemma trailing_zeros_spec p :
  0 ≤ trailing_zeros p ∧
  Z.testbit (Zpos p) (trailing_zeros p) = true ∧
  ∀ j, 0 ≤ j < trailing_zeros p → Z.testbit (Zpos p) j = false.
Proof.
  induction p as [p _|p [IH0 [IH1 IH2]]|]; simpl trailing_zeros.
  - split; [lia|]. split; [done|]. intros; lia.
  - split; [lia|]. split.
    + replace (1 + trailing_zeros p) with (Z.succ (trailing_zeros p)) by lia.
      change (Zpos p~0) with (2 * Zpos p). by rewrite Z.testbit_even_succ.
    + intros j Hj. change (Zpos p~0) with (2 * Zpos p).
      destruct (decide (j = 0)) as [->|].
      * apply Z.testbit_even_0.
      * replace j with (Z.succ (j - 1)) by lia.
        rewrite Z.testbit_even_succ by lia. apply IH2. lia.
  - split; [lia|]. split; [done|]. intros; lia.
Qed.

Lemma testbit_word64 x i : word64 x → Z.testbit x i = true → 0 ≤ i < 64.
Proof.
  intros [H0 H1] Hb. destruct (decide (i < 0)).
  { rewrite Z.testbit_neg_r in Hb by lia. done. }
  destruct (decide (x = 0)) as [->|]. { by rewrite Z.bits_0 in Hb. }
  destruct (decide (i < 64)); [lia|].
  rewrite Z.bits_above_log2 in Hb; [done|lia|].
  assert (Z.log2 x < 64) by (apply Z.log2_lt_pow2; lia). lia.
Qed.

Lemma ctzll_spec x :
  0 < x →
  ∃ c, __builtin_ctzll x = Ok c ∧ 0 ≤ c ∧ Z.testbit x c = true ∧
       ∀ j, 0 ≤ j < c → Z.testbit x j = false.
Proof.
  destruct x as [|p|p]; try lia. intros _.
  destruct (trailing_zeros_spec p) as (? & ? & ?). eauto.
Qed.

Lemma clzll_spec x :
  0 < x →
  ∃ z, __builtin_clzll x = Ok z ∧ 0 ≤ 63 - z ∧ Z.testbit x (63 - z) = true ∧
       ∀ j, 63 - z < j → Z.testbit x j = false.
Proof.
  intros Hx. exists (63 - Z.log2 x). unfold __builtin_clzll.
  destruct (Z.eqb_spec x 0); [lia|].
  replace (63 - (63 - Z.log2 x)) with (Z.log2 x) by lia.
  split; [done|]. split; [apply Z.log2_nonneg|].
  split; [by apply Z.bit_log2|]. intros j Hj. apply Z.bits_above_log2; lia.
Qed.

Lemma not64_spec x i :
  0 ≤ i → Z.testbit (not64 x) i = negb (Z.testbit x i) && (i <? 64).
Proof.
  intros Hi. unfold not64.
  rewrite Z.land_spec, Z.lnot_spec, Z.testbit_ones_nonneg by lia. done.
Qed.

Lemma bit_spec k i : 0 ≤ k → 0 ≤ i → Z.testbit (Z.shiftl 1 k) i = bool_decide (i = k).
Proof.
  intros Hk Hi. rewrite Z.shiftl_spec by done.
  case_bool_decide as H.
  - subst. by rewrite Z.sub_diag.
  - destruct (decide (i < k)).
    + apply Z.testbit_neg_r. lia.
    + apply Z.bits_above_log2; simpl; lia.
Qed.

Lemma word64_testbit x :
  0 ≤ x → (∀ i, 64 ≤ i → Z.testbit x i = false) → word64 x.
Proof.
  intros Hx Hhi. split; [done|].
  destruct (decide (x = 0)) as [->|]; [lia|].
  apply Z.log2_lt_pow2; [lia|].
  destruct (decide (Z.log2 x < 64)); [done|].
  assert (Z.testbit x (Z.log2 x) = true) as H by (apply Z.bit_log2; lia).
  rewrite Hhi in H by lia. done.
Qed.

Lemma word64_lor x y : word64 x → word64 y → word64 (Z.lor x y).
Proof.
  intros Hx Hy. apply word64_testbit.
  - apply Z.lor_nonneg. unfold word64 in *. lia.
  - intros i Hi. rewrite Z.lor_spec.
    destruct (Z.testbit x i) eqn:E1. { apply testbit_word64 in E1; [lia|done]. }
    destruct (Z.testbit y i) eqn:E2. { apply testbit_word64 in E2; [lia|done]. }
    done.
Qed.

Lemma word64_land x y : word64 x → word64 (Z.land x y).
Proof.
  intros Hx. apply word64_testbit.
  - apply Z.land_nonneg. unfold word64 in *. lia.
  - intros i Hi. rewrite Z.land_spec.
    destruct (Z.testbit x i) eqn:E1. { apply testbit_word64 in E1; [lia|done]. }
    done.
Qed.

Lemma word64_bit k : 0 ≤ k < 64 → word64 (Z.shiftl 1 k).
Proof.
  intros Hk. rewrite Z.shiftl_1_l. split; [apply Z.pow_nonneg; lia|].
  apply Z.pow_lt_mono_r; lia.
Qed.

Lemma word_nonzero_bit x : word64 x → x ≠ 0 → ∃ i, 0 ≤ i < 64 ∧ Z.testbit x i = true.
Proof.
  intros Hx Hne. exists (Z.log2 x).
  assert (Z.testbit x (Z.log2 x) = true) by (apply Z.bit_log2; unfold word64 in *; lia).
  split; [|done]. by eapply testbit_word64.
Qed.

(** ** The price index *)

Ltac divmod := Z.div_mod_to_equations; lia.

Lemma tick_split t p : t = p ↔ t / 64 = p / 64 ∧ t mod 64 = p mod 64.
Proof. split; [by intros ->|]. intros [H1 H2]. divmod. Qed.

Lemma tracker_word tr t :
  tracker_wf tr → 0 ≤ t < MAX_PRICE_TICKS →
  ∃ w, FastPriceTracker.data_words_ tr !! Z.to_nat (t / 64) = Some w.
Proof.
  intros Hwf Ht. apply lookup_lt_is_Some_2. rewrite (wf_length Hwf).
  unfold MAX_PRICE_TICKS in Ht. divmod.
Qed.

Lemma nonzero_of_bit w i : Z.testbit w i = true → w ≠ 0.
Proof. intros H ->. by rewrite Z.bits_0 in H. Qed.

Lemma tracker_wf_new : tracker_wf FastPriceTracker.new.
Proof.
  split; cbn -[replicate].
  - apply length_replicate.
  - split; lia.
  - intros i w [-> _]%lookup_replicate. split; lia.
  - intros i w [-> _]%lookup_replicate. rewrite Z.bits_0. split; done.
Qed.

Lemma active_new t : active FastPriceTracker.new t = false.
Proof.
  unfold active. cbn -[replicate]. destruct (replicate 64 0 !! _) eqn:E; [|done].
  apply lookup_replicate in E as [-> _]. apply Z.bits_0.
Qed.

Lemma setPriceLevel_spec tr p :
  tracker_wf tr → 0 ≤ p < MAX_PRICE_TICKS →
  ∃ tr', FastPriceTracker.setPriceLevel p tr = Ok tr' ∧ tracker_wf tr' ∧
         ∀ t, 0 ≤ t < MAX_PRICE_TICKS →
              active tr' t = if decide (t = p) then true else active tr t.
Proof.
  intros Hwf Hp. destruct (tracker_word tr p Hwf Hp) as [w Hw].
  unfold FastPriceTracker.setPriceLevel. rewrite (at_lookup _ _ _ Hw). simpl.
  eexists; split; [done|].
  pose proof (lookup_lt_Some _ _ _ Hw) as Hlt.
  assert (0 ≤ p / 64 < 64) as Hwi by (unfold MAX_PRICE_TICKS in Hp; divmod).
  assert (0 ≤ p mod 64 < 64) as Hbi by divmod.
  split; [split; simpl|].
  - rewrite length_insert. apply Hwf.
  - apply word64_lor; [apply Hwf|by apply word64_bit].
  - intros i w' Hi. destruct (decide (i = Z.to_nat (p / 64))) as [->|Hne].
    + rewrite list_lookup_insert_eq in Hi by done. simplify_eq.
      apply word64_lor; [by eapply wf_word|by apply word64_bit].
    + rewrite list_lookup_insert_ne in Hi by done. by eapply wf_word.
  - intros i w' Hi. rewrite Z.lor_spec, bit_spec by lia.
    destruct (decide (i = Z.to_nat (p / 64))) as [->|Hne].
    + rewrite list_lookup_insert_eq in Hi by done. simplify_eq.
      rewrite bool_decide_eq_true_2 by lia. rewrite orb_true_r. split; [|done].
      intros _. apply (nonzero_of_bit _ (p mod 64)).
      rewrite Z.lor_spec, bit_spec by lia. rewrite bool_decide_eq_true_2 by done.
      apply orb_true_r.
    + rewrite list_lookup_insert_ne in Hi by done.
      rewrite bool_decide_eq_false_2 by lia. rewrite orb_false_r. by apply wf_bit.
  - intros t Ht. unfold active. simpl.
    assert (0 ≤ t mod 64 < 64) by divmod.
    assert (0 ≤ t / 64 < 64) by (unfold MAX_PRICE_TICKS in Ht; divmod).
    destruct (decide (t / 64 = p / 64)) as [Heq|Hne].
    + rewrite Heq, list_lookup_insert_eq, Hw by done.
      rewrite Z.lor_spec, bit_spec by lia.
      destruct (decide (t = p)) as [->|Hnp].
      * rewrite bool_decide_eq_true_2 by done. apply orb_true_r.
      * rewrite bool_decide_eq_false_2; [apply orb_false_r|].
        intros ?. apply Hnp. by apply tick_split.
    + rewrite list_lookup_insert_ne by lia.
      destruct (decide (t = p)) as [->|]; done.
Qed.

Lemma clearPriceLevel_spec tr p :
  tracker_wf tr → 0 ≤ p < MAX_PRICE_TICKS →
  ∃ tr', FastPriceTracker.clearPriceLevel p tr = Ok tr' ∧ tracker_wf tr' ∧
         ∀ t, 0 ≤ t < MAX_PRICE_TICKS →
              active tr' t = if decide (t = p) then false else active tr t.
Proof.
  intros Hwf Hp. destruct (tracker_word tr p Hwf Hp) as [w Hw].
  unfold FastPriceTracker.clearPriceLevel. rewrite (at_lookup _ _ _ Hw). simpl.
  pose proof (lookup_lt_Some _ _ _ Hw) as Hlt.
  assert (0 ≤ p / 64 < 64) as Hwi by (unfold MAX_PRICE_TICKS in Hp; divmod).
  assert (0 ≤ p mod 64 < 64) as Hbi by divmod.
  set (w' := Z.land w (not64 (Z.shiftl 1 (p mod 64)))).
  assert (word64 w') as Hw' by (apply word64_land; by eapply wf_word).
  assert (∀ t, 0 ≤ t < MAX_PRICE_TICKS →
     match <[Z.to_nat (p / 64) := w']> (FastPriceTracker.data_words_ tr) !! Z.to_nat (t / 64) with
     | Some x => Z.testbit x (t mod 64) | None => false end
     = if decide (t = p) then false else active tr t) as Hact.
  { intros t Ht. unfold active.
    assert (0 ≤ t mod 64 < 64) by divmod.
    assert (0 ≤ t / 64 < 64) by (unfold MAX_PRICE_TICKS in Ht; divmod).
    destruct (decide (t / 64 = p / 64)) as [Heq|Hne].
    + rewrite Heq, list_lookup_insert_eq, Hw by done. unfold w'.
      rewrite Z.land_spec, not64_spec, bit_spec by lia.
      replace (t mod 64 <? 64) with true by (symmetry; apply Z.ltb_lt; lia).
      destruct (decide (t = p)) as [->|Hnp].
      * rewrite bool_decide_eq_true_2 by done. simpl. apply andb_false_r.
      * rewrite bool_decide_eq_false_2; [simpl; apply andb_true_r|].
        intros ?. apply Hnp. by apply tick_split.
    + rewrite list_lookup_insert_ne by lia.
      destruct (decide (t = p)) as [->|]; done. }
  assert (∀ i x, <[Z.to_nat (p / 64) := w']> (FastPriceTracker.data_words_ tr) !! i = Some x →
                 word64 x) as Hwords.
  { intros i x Hi. destruct (decide (i = Z.to_nat (p / 64))) as [->|Hne].
    - rewrite list_lookup_insert_eq in Hi by done. by simplify_eq.
    - rewrite list_lookup_insert_ne in Hi by done. by eapply wf_word. }
  destruct (Z.eqb_spec w' 0) as [Hz|Hnz].
  - eexists; split; [done|]. split; [split; simpl|done].
    + rewrite length_insert. apply Hwf.
    + apply word64_land, Hwf.
    + done.
    + intros i x Hi. rewrite Z.land_spec, not64_spec, bit_spec by lia.
      destruct (decide (i = Z.to_nat (p / 64))) as [->|Hne].
      * rewrite list_lookup_insert_eq in Hi by done. simplify_eq.
        rewrite bool_decide_eq_true_2 by lia. simpl. rewrite andb_false_r. split; done.
      * rewrite list_lookup_insert_ne in Hi by done.
        rewrite bool_decide_eq_false_2 by lia. simpl.
        destruct (Z.testbit (FastPriceTracker.summary_word_ tr) (Z.of_nat i)) eqn:Hs.
        -- pose proof (testbit_word64 _ _ (wf_summary Hwf) Hs).
           replace (Z.of_nat i <? 64) with true by (symmetry; apply Z.ltb_lt; lia).
           simpl. rewrite <- (wf_bit Hwf i x Hi). done.
        -- simpl. rewrite <- (wf_bit Hwf i x Hi). rewrite Hs. done.
  - eexists; split; [done|]. split; [split; simpl|done].
    + rewrite length_insert. apply Hwf.
    + apply Hwf.
    + done.
    + intros i x Hi. destruct (decide (i = Z.to_nat (p / 64))) as [->|Hne].
      * rewrite list_lookup_insert_eq in Hi by done. injection Hi as <-.
        split; [done|]. intros _. apply (wf_bit Hwf _ _ Hw).
        intros Hw0. apply Hnz. unfold w'. rewrite Hw0. apply Z.land_0_l.
      * rewrite list_lookup_insert_ne in Hi by done. by apply wf_bit.
Qed.

Lemma land_not64_bit_id x k :
  word64 x → 0 ≤ k → Z.testbit x k = false →
  Z.land x (not64 (Z.shiftl 1 k)) = x.
Proof.
  intros Hx Hk Hb. apply Z.bits_inj'. intros i Hi.
  rewrite Z.land_spec, not64_spec, bit_spec by lia.
  destruct (Z.testbit x i) eqn:E; [|done]. simpl.
  pose proof (testbit_word64 _ _ Hx E).
  rewrite bool_decide_eq_false_2 by (intros ->; congruence).
  simpl. apply Z.ltb_lt. lia.
Qed.

Lemma getBestAsk_spec tr :
  tracker_wf tr →
  ∃ a, FastPriceTracker.getBestAsk tr = Ok a ∧
       ((a = MAX_PRICE_TICKS ∧ ∀ t, 0 ≤ t < MAX_PRICE_TICKS → active tr t = false) ∨
        (0 ≤ a < MAX_PRICE_TICKS ∧ active tr a = true ∧
         ∀ t, 0 ≤ t < MAX_PRICE_TICKS → active tr t = true → a ≤ t)).
Proof.
  intros Hwf. unfold FastPriceTracker.getBestAsk.
  destruct (Z.eqb_spec (FastPriceTracker.summary_word_ tr) 0) as [Hz|Hnz].
  { eexists; split; [done|]. left. split; [done|]. intros t Ht.
    destruct (tracker_word tr t Hwf Ht) as [w Hw]. unfold active. rewrite Hw.
    pose proof (wf_bit Hwf _ _ Hw) as Hb. rewrite Hz, Z.bits_0 in Hb.
    destruct (decide (w = 0)) as [->|Hne]; [apply Z.bits_0|].
    apply Hb in Hne. done. }
  pose proof (wf_summary Hwf) as Hs.
  destruct (ctzll_spec (FastPriceTracker.summary_word_ tr)) as (c & -> & Hc0 & Hc1 & Hc2).
  { unfold word64 in Hs. lia. }
  simpl. pose proof (testbit_word64 _ _ Hs Hc1) as Hc.
  destruct (lookup_lt_is_Some_2 (FastPriceTracker.data_words_ tr) (Z.to_nat c)) as [w Hw].
  { rewrite (wf_length Hwf). lia. }
  rewrite (at_lookup _ _ _ Hw). simpl.
  pose proof (wf_word Hwf _ _ Hw) as Hw64.
  assert (w ≠ 0) as Hwnz. { apply (wf_bit Hwf _ _ Hw). by rewrite Z2Nat.id. }
  destruct (ctzll_spec w) as (b & -> & Hb0 & Hb1 & Hb2).
  { unfold word64 in Hw64. lia. }
  simpl. pose proof (testbit_word64 _ _ Hw64 Hb1) as Hb.
  eexists; split; [done|]. right.
  assert ((c * 64 + b) / 64 = c) as Hdiv by divmod.
  assert ((c * 64 + b) mod 64 = b) as Hmod by divmod.
  split; [unfold MAX_PRICE_TICKS; lia|]. split.
  - unfold active. by rewrite Hdiv, Hmod, Hw.
  - intros t Ht Hact. unfold active in Hact.
    destruct (tracker_word tr t Hwf Ht) as [wt Hwt]. rewrite Hwt in Hact.
    assert (0 ≤ t / 64 < 64) by (unfold MAX_PRICE_TICKS in Ht; divmod).
    assert (0 ≤ t mod 64 < 64) by divmod.
    assert (Z.testbit (FastPriceTracker.summary_word_ tr) (t / 64) = true) as Hst.
    { pose proof (wf_bit Hwf _ _ Hwt) as Hiff. rewrite Z2Nat.id in Hiff by lia.
      apply Hiff. by eapply nonzero_of_bit. }
    destruct (decide (t / 64 < c)) as [Hlt|Hge].
    { rewrite Hc2 in Hst by lia. done. }
    destruct (decide (t / 64 = c)) as [Heq|Hne]; [|divmod].
    rewrite Heq, Hw in Hwt. simplify_eq.
    destruct (decide (t mod 64 < b)) as [Hlt|Hge'].
    { rewrite Hb2 in Hact by lia. done. }
    divmod.
Qed.

Lemma getBestBid_spec tr :
  tracker_wf tr →
  ∃ b, FastPriceTracker.getBestBid tr = Ok b ∧
       ((b = 0 ∧ ∀ t, 0 ≤ t < MAX_PRICE_TICKS → active tr t = false) ∨
        (0 ≤ b < MAX_PRICE_TICKS ∧ active tr b = true ∧
         ∀ t, 0 ≤ t < MAX_PRICE_TICKS → active tr t = true → t ≤ b)).
Proof.
  intros Hwf. unfold FastPriceTracker.getBestBid.
  destruct (Z.eqb_spec (FastPriceTracker.summary_word_ tr) 0) as [Hz|Hnz].
  { eexists; split; [done|]. left. split; [done|]. intros t Ht.
    destruct (tracker_word tr t Hwf Ht) as [w Hw]. unfold active. rewrite Hw.
    pose proof (wf_bit Hwf _ _ Hw) as Hb. rewrite Hz, Z.bits_0 in Hb.
    destruct (decide (w = 0)) as [->|Hne]; [apply Z.bits_0|].
    apply Hb in Hne. done. }
  pose proof (wf_summary Hwf) as Hs.
  destruct (clzll_spec (FastPriceTracker.summary_word_ tr)) as (z & -> & Hc0 & Hc1 & Hc2).
  { unfold word64 in Hs. lia. }
  simpl. set (c := 63 - z) in *. pose proof (testbit_word64 _ _ Hs Hc1) as Hc.
  destruct (lookup_lt_is_Some_2 (FastPriceTracker.data_words_ tr) (Z.to_nat c)) as [w Hw].
  { rewrite (wf_length Hwf). lia. }
  rewrite (at_lookup _ _ _ Hw). simpl.
  pose proof (wf_word Hwf _ _ Hw) as Hw64.
  assert (w ≠ 0) as Hwnz. { apply (wf_bit Hwf _ _ Hw). by rewrite Z2Nat.id. }
  destruct (clzll_spec w) as (z' & -> & Hb0 & Hb1 & Hb2).
  { unfold word64 in Hw64. lia. }
  simpl. set (b := 63 - z') in *. pose proof (testbit_word64 _ _ Hw64 Hb1) as Hb.
  eexists; split; [done|]. right.
  assert ((c * 64 + b) / 64 = c) as Hdiv by divmod.
  assert ((c * 64 + b) mod 64 = b) as Hmod by divmod.
  split; [unfold MAX_PRICE_TICKS; lia|]. split.
  - unfold active. by rewrite Hdiv, Hmod, Hw.
  - intros t Ht Hact. unfold active in Hact.
    destruct (tracker_word tr t Hwf Ht) as [wt Hwt]. rewrite Hwt in Hact.
    assert (0 ≤ t / 64 < 64) by (unfold MAX_PRICE_TICKS in Ht; divmod).
    assert (0 ≤ t mod 64 < 64) by divmod.
    assert (Z.testbit (FastPriceTracker.summary_word_ tr) (t / 64) = true) as Hst.
    { pose proof (wf_bit Hwf _ _ Hwt) as Hiff. rewrite Z2Nat.id in Hiff by lia.
      apply Hiff. by eapply nonzero_of_bit. }
    destruct (decide (c < t / 64)) as [Hlt|Hge].
    { rewrite Hc2 in Hst by lia. done. }
    destruct (decide (t / 64 = c)) as [Heq|Hne]; [|divmod].
    rewrite Heq, Hw in Hwt. injection Hwt as <-.
    destruct (decide (b < t mod 64)) as [Hlt|Hge'].
    { rewrite Hb2 in Hact by lia. done. }
    divmod.
Qed.


(** ** Queues in the heap *)

Lemma chain_lookup m h l i : chain m h l → i ∈ l → is_Some (m !! i).
Proof.
  revert h. induction l as [|j l IH]; intros h Hc Hi; [by apply elem_of_nil in Hi|].
  destruct Hc as (-> & o & Ho & Hc). apply elem_of_cons in Hi as [->|Hi]; eauto.
Qed.

Lemma chain_head m h l : chain m h l → h = list.head l.
Proof. destruct l; simpl; [done|]. by intros [-> _]. Qed.

Lemma chain_ext m m' h l :
  (∀ i o, i ∈ l → m !! i = Some o →
          ∃ o', m' !! i = Some o' ∧ Order.next o' = Order.next o) →
  chain m h l → chain m' h l.
Proof.
  revert h. induction l as [|j l IH]; intros h Hext Hc; [done|].
  destruct Hc as (-> & o & Ho & Hc). split; [done|].
  destruct (Hext j o) as (o' & Ho' & Hn); [left|done|].
  exists o'. split; [done|]. rewrite Hn. apply IH; [|done].
  intros i oi Hi. apply Hext. by right.
Qed.

Lemma chain_inj m h l l' : chain m h l → chain m h l' → l = l'.
Proof.
  revert h l'. induction l as [|j l IH]; intros h [|j' l'] Hc Hc'; simpl in *.
  - done.
  - destruct Hc' as [? _]. congruence.
  - destruct Hc as [? _]. congruence.
  - destruct Hc as (-> & o & Ho & Hc), Hc' as (? & o' & Ho' & Hc'). simplify_eq.
    f_equal. by eapply IH.
Qed.

Lemma chain_walk m h l fuel :
  chain m h l → (length l ≤ fuel)%nat → walk m fuel h = l.
Proof.
  revert h fuel. induction l as [|j l IH]; intros h fuel Hc Hlen; simpl in *.
  - subst. by destruct fuel.
  - destruct Hc as (-> & o & Ho & Hc). destruct fuel as [|fuel]; [lia|].
    simpl. rewrite Ho. f_equal. apply IH; [done|lia].
Qed.

Lemma chain_linked m h l i : chain m h l → linked m h i ↔ i ∈ l.
Proof.
  intros Hc. split.
  - intros Hl. revert l Hc. induction Hl as [j|j o k Ho Hl IH]; intros l Hc.
    + destruct l; simpl in Hc; [done|]. destruct Hc as [[= ->] _]. left.
    + destruct l; simpl in Hc; [done|]. destruct Hc as ([= ->] & o' & Ho' & Hc).
      simplify_eq. right. by apply IH.
  - revert h Hc. induction l as [|j l IH]; intros h Hc Hi; [by apply elem_of_nil in Hi|].
    destruct Hc as (-> & o & Ho & Hc). destruct (decide (i = j)) as [->|Hne].
    + constructor.
    + apply elem_of_cons in Hi as [?|Hi]; [done|]. econstructor; [done|]. by apply IH.
Qed.

Lemma bounded_nodup_length (l : list nat) n :
  NoDup l → (∀ i, i ∈ l → (i < n)%nat) → (length l ≤ n)%nat.
Proof.
  intros Hnd Hb. rewrite <- (length_seq n 0). apply submseteq_length.
  apply NoDup_submseteq; [done|]. intros i Hi. apply elem_of_seq. specialize (Hb i Hi). lia.
Qed.

Lemma chain_level_handles m lvl l :
  queue m lvl l → NoDup l → level_handles m lvl = l.
Proof.
  intros [Hc _] Hnd. apply chain_walk; [done|].
  apply bounded_nodup_length; [done|]. intros i Hi.
  destruct (chain_lookup _ _ _ _ Hc Hi) as [o Ho]. by eapply lookup_lt_Some.
Qed.

Lemma chain_snoc m m' h l tl new :
  NoDup l → new ∉ l → chain m h l → list.last l = Some tl →
  (∀ j, j ≠ tl → j ≠ new → m' !! j = m !! j) →
  (∃ o, m' !! tl = Some o ∧ Order.next o = Some new) →
  (∃ o, m' !! new = Some o ∧ Order.next o = None) →
  chain m' h (l ++ [new]).
Proof.
  intros Hnd Hnew Hc Hlast Hother Htl Hn. revert h Hc Hnd Hnew Hlast.
  induction l as [|j l IH]; intros h Hc Hnd Hnew Hlast; [done|].
  destruct Hc as (-> & o & Ho & Hc). apply NoDup_cons in Hnd as [Hj Hnd].
  apply not_elem_of_cons in Hnew as [Hnj Hnew]. simpl. split; [done|].
  destruct l as [|k l].
  - simpl in *. simplify_eq. destruct Htl as (ot & Hot & Hnext).
    exists ot. split; [done|]. rewrite Hnext. split; [done|].
    destruct Hn as (on & Hon & Hnn). exists on. by rewrite Hnn.
  - exists o. split.
    + rewrite Hother; [done| |done]. intros ->.
      apply Hj. rewrite last_cons_cons in Hlast. by apply last_Some_elem_of.
    + apply IH; [done|done|done|]. by rewrite last_cons_cons in Hlast.
Qed.

Lemma same_fields_refl o : same_fields o o.
Proof. by repeat split. Qed.

Lemma pop_front_spec m lvl i l :
  queue m lvl (i :: l) → NoDup (i :: l) →
  ∃ m' lvl', PriceLevel.pop_front m lvl = Ok (m', lvl', Some i) ∧
    queue m' lvl' l ∧ length m' = length m ∧
    (PriceLevel.isEmpty lvl' = true ↔ l = []) ∧
    (∀ j, j ∉ l → m' !! j = m !! j) ∧
    (∀ j o, m !! j = Some o →
            ∃ o', m' !! j = Some o' ∧ same_fields o o' ∧ Order.next o' = Order.next o).
Proof.
  intros [Hc Htl] Hnd. destruct Hc as (Hh & o & Ho & Hc).
  unfold PriceLevel.pop_front. rewrite Hh, (at_lookup _ _ _ Ho). simpl.
  destruct l as [|h l].
  - simpl in Hc. rewrite Hc. do 2 eexists. split; [done|].
    split; [done|]. split; [done|]. split; [done|]. split; [done|].
    intros j oj Hj. exists oj. by split; [|split; [apply same_fields_refl|]].
  - destruct Hc as (Hn & oh & Hoh & Hc). rewrite Hn, (at_lookup _ _ _ Hoh). simpl.
    do 2 eexists. split; [done|].
    assert (∀ j oj, m !! j = Some oj →
              ∃ o', <[h := Order.with_prev None oh]> m !! j = Some o' ∧
                    same_fields oj o' ∧ Order.next o' = Order.next oj) as Hkeep.
    { intros j oj Hj. destruct (decide (j = h)) as [->|Hne].
      - rewrite list_lookup_insert_eq by (by eapply lookup_lt_Some). simplify_eq.
        eexists. split; [done|]. by repeat split.
      - rewrite list_lookup_insert_ne by done. exists oj.
        by split; [|split; [apply same_fields_refl|]]. }
    split; [split|].
    + cbn [PriceLevel.head]. apply (chain_ext m); [|simpl; eauto].
      intros k ok _ Hk. destruct (Hkeep k ok Hk) as (o' & ? & ? & ?); eauto.
    + simpl. rewrite Htl. apply last_cons_cons.
    + split; [apply length_insert|]. split; [done|]. split; [|done].
      intros j Hj. apply list_lookup_insert_ne. intros ->. apply Hj. left.
Qed.

Lemma push_back_spec m lvl l new on :
  queue m lvl l → NoDup l → new ∉ l →
  m !! new = Some on → Order.next on = None →
  ∃ m' lvl', PriceLevel.push_back new m lvl = Ok (m', lvl') ∧
    queue m' lvl' (l ++ [new]) ∧ length m' = length m ∧
    PriceLevel.isEmpty lvl' = false ∧
    (∀ j, j ∉ l → j ≠ new → m' !! j = m !! j) ∧
    (∀ j o, m !! j = Some o →
            ∃ o', m' !! j = Some o' ∧ same_fields o o' ∧
                  (j ∉ l → Order.next o' = Order.next o)).
Proof.
  intros [Hc Htl] Hnd Hnew Hon Hnn. unfold PriceLevel.push_back.
  destruct l as [|i l].
  - simpl in Hc. rewrite Hc. do 2 eexists. split; [done|].
    split; [split; simpl|]. { split; [done|]. exists on. by rewrite Hnn. } { done. }
    split; [done|]. split; [done|]. split; [done|].
    intros j oj Hj. exists oj. by split; [|split; [apply same_fields_refl|]].
  - pose proof Hc as (Hh & _). rewrite Hh.
    destruct (list.last (i :: l)) as [tl|] eqn:Hlast; [|by apply last_None in Hlast].
    rewrite Htl. simpl.
    pose proof (last_Some_elem_of _ _ Hlast) as Htlin.
    destruct (chain_lookup _ _ _ _ Hc Htlin) as [ot Hot].
    rewrite (at_lookup _ _ _ Hot). simpl.
    assert (new ≠ tl) as Hne by (intros ->; done).
    pose proof (lookup_lt_Some _ _ _ Hot) as Hlt1.
    pose proof (lookup_lt_Some _ _ _ Hon) as Hlt2.
    rewrite (at_lookup _ _ on) by (by rewrite list_lookup_insert_ne).
    simpl. do 2 eexists. split; [done|].
    set (m' := <[new := _]> (<[tl := _]> m)).
    assert (m' !! new = Some (Order.with_prev (Some tl) on)) as Hm'new.
    { unfold m'. rewrite list_lookup_insert_eq; [done|]. by rewrite length_insert. }
    assert (m' !! tl = Some (Order.with_next (Some new) ot)) as Hm'tl.
    { unfold m'. rewrite list_lookup_insert_ne by done.
      by rewrite list_lookup_insert_eq. }
    assert (∀ j, j ≠ tl → j ≠ new → m' !! j = m !! j) as Hm'other.
    { intros j ? ?. unfold m'. by rewrite !list_lookup_insert_ne. }
    split; [split|].
    + change (chain m' (Some i) ((i :: l) ++ [new])).
      rewrite <- Hh. eapply (chain_snoc m m'); eauto.
    + simpl. by rewrite app_comm_cons, last_snoc.
    + split; [unfold m'; by rewrite !length_insert|]. split; [done|]. split.
      * intros j Hj ?. apply Hm'other; [|done]. intros ->. done.
      * intros j oj Hj. destruct (decide (j = new)) as [->|Hjn].
        { simplify_eq. eexists. split; [done|]. by repeat split. }
        destruct (decide (j = tl)) as [->|Hjt].
        { simplify_eq. eexists. split; [done|]. by repeat split. }
        rewrite Hm'other by done. exists oj.
        by split; [|split; [apply same_fields_refl|]].
Qed.

(** ** Sums *)

Lemma Zsum_cons x l : Zsum (x :: l) = x + Zsum l.
Proof. done. Qed.

Lemma Zsum_app l k : Zsum (l ++ k) = Zsum l + Zsum k.
Proof.
  induction l as [|x l IH]; [done|].
  rewrite <- app_comm_cons, !Zsum_cons. lia.
Qed.

Lemma Zsum_fmap_ext {A} (f g : A → Z) l :
  (∀ x, x ∈ l → g x = f x) → Zsum (g <$> l) = Zsum (f <$> l).
Proof.
  induction l as [|x l IH]; intros H; [done|].
  rewrite !fmap_cons, !Zsum_cons. rewrite H by left.
  rewrite IH; [done|]. intros y Hy. apply H. by right.
Qed.

Lemma Zsum_fmap_update `{EqDecision A} (f g : A → Z) l a :
  NoDup l → a ∈ l → (∀ x, x ∈ l → x ≠ a → g x = f x) →
  Zsum (g <$> l) = Zsum (f <$> l) - f a + g a.
Proof.
  induction l as [|x l IH]; intros Hnd Ha H; [by apply elem_of_nil in Ha|].
  apply NoDup_cons in Hnd as [Hx Hnd]. rewrite !fmap_cons, !Zsum_cons.
  destruct (decide (x = a)) as [->|Hne].
  - rewrite (Zsum_fmap_ext f g l); [lia|]. intros y Hy. apply H; [by right|].
    intros ->. done.
  - apply elem_of_cons in Ha as [?|Ha]; [done|].
    rewrite IH; [|done|done|]. { rewrite (H x); [lia|left|done]. }
    intros y Hy ?. apply H; [by right|done].
Qed.

Lemma qsum_ext m m' l :
  (∀ i, i ∈ l → qty_at m' i = qty_at m i) → qsum m' l = qsum m l.
Proof. apply Zsum_fmap_ext. Qed.

Lemma elem_of_ticks t : t ∈ ticks ↔ 0 ≤ t < MAX_PRICE_TICKS.
Proof. unfold ticks. rewrite elem_of_seqZ. lia. Qed.

Lemma gsum_ext m m' G G' :
  (∀ s x, 0 ≤ x < MAX_PRICE_TICKS → qsum m' (G' s x) = qsum m (G s x)) →
  gsum m' G' = gsum m G.
Proof.
  intros H. unfold gsum. f_equal; apply Zsum_fmap_ext; intros x Hx%elem_of_ticks; by apply H.
Qed.

Lemma gsum_update m m' G G' side t :
  0 ≤ t < MAX_PRICE_TICKS →
  (∀ s x, 0 ≤ x < MAX_PRICE_TICKS → ¬ (s = side ∧ x = t) →
          qsum m' (G' s x) = qsum m (G s x)) →
  gsum m' G' = gsum m G - qsum m (G side t) + qsum m' (G' side t).
Proof.
  intros Ht H. unfold gsum. destruct side.
  - rewrite (Zsum_fmap_update (λ x, qsum m (G true x)) (λ x, qsum m' (G' true x)) ticks t).
    + rewrite (Zsum_fmap_ext (λ x, qsum m (G false x)) (λ x, qsum m' (G' false x))); [lia|].
      intros x Hx%elem_of_ticks. apply H; [done|]. intros [? _]. done.
    + apply NoDup_seqZ.
    + by apply elem_of_ticks.
    + intros x Hx%elem_of_ticks Hne. apply H; [done|]. intros [_ ?]. done.
  - rewrite (Zsum_fmap_update (λ x, qsum m (G false x)) (λ x, qsum m' (G' false x)) ticks t).
    + rewrite (Zsum_fmap_ext (λ x, qsum m (G true x)) (λ x, qsum m' (G' true x))); [lia|].
      intros x Hx%elem_of_ticks. apply H; [done|]. intros [? _]. done.
    + apply NoDup_seqZ.
    + by apply elem_of_ticks.
    + intros x Hx%elem_of_ticks Hne. apply H; [done|]. intros [_ ?]. done.
Qed.

(** ** Per-side views *)

Lemma level_ref_lookup side i b : OrderBook.level (ref side i) b = at_ (levels side b) i.
Proof. by destruct side. Qed.

Lemma set_level_ref side i l b :
  OrderBook.set_level (ref side i) l b = with_levels side (<[i := l]> (levels side b)) b.
Proof. by destruct side. Qed.

Lemma levels_with_levels s side ls b :
  levels s (with_levels side ls b) = if decide (s = side) then ls else levels s b.
Proof. by destruct s, side. Qed.

Lemma tracker_with_levels s side ls b : tracker s (with_levels side ls b) = tracker s b.
Proof. by destruct s, side. Qed.

Lemma levels_with_tracker s side tr b : levels s (with_tracker side tr b) = levels s b.
Proof. by destruct s, side. Qed.

Lemma tracker_with_tracker s side tr b :
  tracker s (with_tracker side tr b) = if decide (s = side) then tr else tracker s b.
Proof. by destruct s, side. Qed.

Lemma upd_eq G side t l : upd G side t l side t = l.
Proof. unfold upd. by rewrite decide_True. Qed.

Lemma upd_ne G side t l s x : ¬ (s = side ∧ x = t) → upd G side t l s x = G s x.
Proof. intros H. unfold upd. by rewrite decide_False. Qed.

Lemma book_inv_unique e G i s x s' x' :
  book_inv e G → i ∈ G s x → i ∈ G s' x' → s = s' ∧ x = x'.
Proof.
  intros Hinv H1 H2.
  destruct (inv_resting Hinv _ _ _ H1) as (o & Ho & <- & <- & _).
  destruct (inv_resting Hinv _ _ _ H2) as (o' & Ho' & <- & <- & _).
  by simplify_eq.
Qed.

(** ** One trade step *)

Arguments wrap32 : simpl never.
Arguments wrap64 : simpl never.

Lemma wrap32_small z : 0 ≤ z < 2 ^ 32 → wrap32 z = z.
Proof. intros. unfold wrap32. by apply Z.mod_small. Qed.

Lemma bind_Ok {A B} (a : A) (f : A → result B) : (Ok a ≫= f) = f a.
Proof. done. Qed.

Lemma qty_at_lookup m i o : m !! i = Some o → qty_at m i = Order.qty o.
Proof. intros H. unfold qty_at. by rewrite H. Qed.

Lemma qsum_cons m i l : qsum m (i :: l) = qty_at m i + qsum m l.
Proof. done. Qed.

Lemma qsum_app m l k : qsum m (l ++ k) = qsum m l + qsum m k.
Proof. unfold qsum. by rewrite fmap_app, Zsum_app. Qed.

(** The heap after the two quantity updates of [executeTrade]. *)
Lemma fill_heap (m : heap) ib r oi o qi qr :
  m !! ib = Some oi → m !! r = Some o → ib ≠ r →
  let m1 := <[ib := Order.with_qty qi oi]> m in
  let m2 := <[r := Order.with_qty qr o]> m1 in
  m1 !! r = Some o ∧
  m2 !! ib = Some (Order.with_qty qi oi) ∧
  m2 !! r = Some (Order.with_qty qr o) ∧
  (∀ j, j ≠ ib → j ≠ r → m2 !! j = m !! j) ∧
  length m2 = length m ∧
  (∀ j oj, m !! j = Some oj →
           ∃ o', m2 !! j = Some o' ∧ Order.next o' = Order.next oj ∧
                 Order.id o' = Order.id oj).
Proof.
  intros Hi Hr Hne m1 m2.
  pose proof (lookup_lt_Some _ _ _ Hi). pose proof (lookup_lt_Some _ _ _ Hr).
  assert (m1 !! r = Some o) as H1 by (unfold m1; by rewrite list_lookup_insert_ne).
  assert (m2 !! ib = Some (Order.with_qty qi oi)) as H2.
  { unfold m2, m1. rewrite list_lookup_insert_ne by done. by rewrite list_lookup_insert_eq. }
  assert (m2 !! r = Some (Order.with_qty qr o)) as H3.
  { unfold m2, m1. rewrite list_lookup_insert_eq; [done|]. by rewrite length_insert. }
  assert (∀ j, j ≠ ib → j ≠ r → m2 !! j = m !! j) as H4.
  { intros j ? ?. unfold m2, m1. by rewrite !list_lookup_insert_ne. }
  split; [done|]. split; [done|]. split; [done|]. split; [done|].
  split; [unfold m2, m1; by rewrite !length_insert|].
  intros j oj Hj. destruct (decide (j = ib)) as [->|Hjb].
  { simplify_eq. eexists. split; [done|]. done. }
  destruct (decide (j = r)) as [->|Hjr].
  { simplify_eq. eexists. split; [done|]. done. }
  rewrite H4 by done. eauto.
Qed.

Ltac norm :=
  unfold MatchingEngine.orders, MatchingEngine.set_orders, free_handles in *;
  cbn [MatchingEngine.pool_ MatchingEngine.book_ MatchingEngine.trades_executed_
       OrderPool.pool_ OrderPool.free_list_ OrderPool.free_idx_] in *.

Lemma executeTrade_spec e G ib id price sd q side t r l :
  book_inv e G → inflight e G ib id price sd q → 0 < q →
  0 ≤ t < MAX_PRICE_TICKS → G side t = r :: l →
  ∃ e' o G',
    MatchingEngine.orders e !! r = Some o ∧
    MatchingEngine.executeTrade ib (Some r) (ref side (Z.to_nat t)) t side e
      = Ok (e', mkTrade id (Order.id o) t (Z.min q (Order.qty o)) r) ∧
    0 < Z.min q (Order.qty o) ∧
    MatchingEngine.trades_executed_ e'
      = wrap64 (MatchingEngine.trades_executed_ e + 1) ∧
    book_inv e' G' ∧ inflight e' G' ib id price sd (q - Z.min q (Order.qty o)) ∧
    gsum (MatchingEngine.orders e') G'
      = gsum (MatchingEngine.orders e) G - Z.min q (Order.qty o) ∧
    ((G' = G ∧ q < Order.qty o) ∨ (G' = upd G side t l ∧ Order.qty o ≤ q)) ∧
    (∀ j oj, MatchingEngine.orders e !! j = Some oj →
             ∃ o', MatchingEngine.orders e' !! j = Some o' ∧ Order.id o' = Order.id oj) ∧
    free_handles (MatchingEngine.pool_ e')
      = free_handles (MatchingEngine.pool_ e)
        ++ (if decide (Order.qty o ≤ q) then [r] else []).
Proof.
  intros Hinv Hfl Hq Ht HG.
  assert (r ∈ G side t) as Hr by (rewrite HG; left).
  destruct (inv_resting Hinv _ _ _ Hr) as (o & Ho & Hop & Hos & Hoq).
  pose proof (fl_order Hfl) as Hi.
  pose proof (fl_qty Hfl) as Hqr.
  assert (ib ≠ r) as Hne by (intros ->; by eapply fl_unlinked).
  set (f := Z.min q (Order.qty o)).
  assert (0 < f ∧ f ≤ q ∧ f ≤ Order.qty o) as Hf by (unfold f; lia).
  destruct e as [book [m fl fi] trades]. norm.
  destruct (fill_heap m ib r _ o (q - f) (Order.qty o - f) Hi Ho Hne)
    as (H1 & H2 & H3 & H4 & H5 & H6).
  cbv zeta in H1, H2, H3, H4, H5, H6.
  destruct (inv_queue Hinv side t Ht) as (lvl & Hlvl & Hqueue).
  norm. rewrite HG in Hqueue.
  unfold MatchingEngine.executeTrade. norm. cbn [deref]. cbv zeta. rewrite (at_lookup _ _ _ Hi). rewrite bind_Ok, bind_Ok.
  rewrite (at_lookup _ _ _ Ho), bind_Ok. cbn [Order.qty Order.id]. fold f.
  rewrite (wrap32_small (q - f)) by lia.
  rewrite (at_lookup _ _ _ H1), bind_Ok.
  rewrite (wrap32_small (Order.qty o - f)) by lia.
  rewrite (at_lookup _ _ _ H3), bind_Ok. cbn [Order.qty Order.with_qty].
  set (m2 := <[r := _]> (<[ib := _]> m)) in *.
  destruct (Z.eqb_spec (Order.qty o - f) 0) as [Hfull|Hpart].
  - (* the resting order is filled: it leaves its level and the pool takes it back *)
    assert (queue m2 lvl (r :: l)) as Hq2.
    { destruct Hqueue as [Hc Htl]. split; [|done]. apply (chain_ext m); [|done].
      intros j oj _ Hj. destruct (H6 j oj Hj) as (o' & ? & ? & _). eauto. }
    pose proof (inv_nodup Hinv side t) as Hnd. rewrite HG in Hnd.
    destruct (pop_front_spec m2 lvl r l Hq2 Hnd)
      as (m3 & lvl' & Hpop & Hq3 & Hlen3 & Hemp & Hsame3 & Hkeep3).
    rewrite level_ref_lookup, (at_lookup _ _ _ Hlvl), bind_Ok.
    rewrite Hpop, bind_Ok. rewrite set_level_ref.
    set (b1 := with_levels side (<[Z.to_nat t := lvl']> (levels side book)) book).
    (* the index *)
    assert (∃ b2,
      (if PriceLevel.isEmpty lvl'
       then if side
            then tr ← FastPriceTracker.clearPriceLevel t (OrderBook.bid_tracker_ b1);
                 Ok (OrderBook.mk (OrderBook.bids_ b1) (OrderBook.asks_ b1) tr
                                  (OrderBook.ask_tracker_ b1))
            else tr ← FastPriceTracker.clearPriceLevel t (OrderBook.ask_tracker_ b1);
                 Ok (OrderBook.mk (OrderBook.bids_ b1) (OrderBook.asks_ b1)
                                  (OrderBook.bid_tracker_ b1) tr)
       else Ok b1) = Ok b2 ∧
      (∀ s, levels s b2 = levels s b1) ∧
      (∀ s, tracker_wf (tracker s b2)) ∧
      (∀ s x, 0 ≤ x < MAX_PRICE_TICKS →
              active (tracker s b2) x = true ↔ upd G side t l s x ≠ [])) as (b2 & -> & Hlv2 & Hwf2 & Hact2).
    { destruct (PriceLevel.isEmpty lvl') eqn:Hisemp.
      - assert (l = []) as -> by (by apply Hemp).
        destruct (clearPriceLevel_spec (tracker side book) t (inv_tracker_wf Hinv side) Ht)
          as (tr' & Hclr & Hwf' & Hact').
        exists (with_tracker side tr' b1). split; [|split; [|split]].
        + unfold b1. destruct side; cbn in *; by rewrite Hclr.
        + intros s. apply levels_with_tracker.
        + intros s. rewrite tracker_with_tracker. case_decide; [done|].
          unfold b1. rewrite tracker_with_levels. apply (inv_tracker_wf Hinv).
        + intros s x Hx. rewrite tracker_with_tracker. case_decide as Hs.
          * subst s. rewrite Hact' by done. destruct (decide (x = t)) as [->|Hxt].
            -- rewrite upd_eq. split; done.
            -- rewrite upd_ne by (intros [_ ?]; done). apply (inv_active Hinv); done.
          * rewrite upd_ne by (intros [? _]; done). unfold b1.
            rewrite tracker_with_levels. apply (inv_active Hinv); done.
      - assert (l ≠ []) as Hl by (intros Hl0; apply Hemp in Hl0; congruence).
        exists b1. split; [done|]. split; [done|]. split.
        + intros s. unfold b1. rewrite tracker_with_levels. apply (inv_tracker_wf Hinv).
        + intros s x Hx. unfold b1. rewrite tracker_with_levels.
          destruct (decide (s = side ∧ x = t)) as [[-> ->]|Hsx].
          * rewrite upd_eq. split; [done|]. intros _. apply (inv_active Hinv); [done|].
            cbn [MatchingEngine.book_]. by rewrite HG.
          * rewrite upd_ne by done. apply (inv_active Hinv); done. }
    rewrite bind_Ok.
    (* the free stack takes [r] back *)
    pose proof (inv_free_length Hinv) as Hfl_len.
    pose proof (inv_free_idx Hinv) as Hfl_idx.
    pose proof (inv_free_nodup Hinv) as Hfl_nd.
    pose proof (inv_free Hinv) as Hfl_free.
    norm.
    assert (r ∉ take fi fl) as Hrfree.
    { intros Hin. destruct (Hfl_free r Hin) as [_ Hno]. by apply (Hno side t). }
    assert (fi < length fl)%nat as Hroom.
    { assert (length (r :: take fi fl) ≤ length m)%nat as Hle.
      { apply bounded_nodup_length; [by apply NoDup_cons|].
        intros i [->|Hi']%elem_of_cons; [by eapply lookup_lt_Some|]. by apply Hfl_free. }
      cbn [length] in Hle. rewrite length_take in Hle. lia. }
    destruct (lookup_lt_is_Some_2 _ _ Hroom) as [x0 Hx0].
    unfold OrderPool.deallocate. norm.
    rewrite (at_lookup _ _ _ Hx0), bind_Ok.
    do 2 eexists. exists (upd G side t l).
    split; [done|]. split; [done|]. split; [lia|]. split; [done|].
    assert (∀ s x i, i ∈ upd G side t l s x → i ∈ G s x) as Hsub.
    { intros s x i. unfold upd. case_decide as Hsx; [|done].
      destruct Hsx as [-> ->]. rewrite HG. by right. }
    assert (∀ s x, r ∉ upd G side t l s x) as Hrgone.
    { intros s x Hin. destruct (decide (s = side ∧ x = t)) as [[-> ->]|Hsx].
      - rewrite upd_eq in Hin. apply NoDup_cons in Hnd as [Hnd _]. done.
      - rewrite upd_ne in Hin by done. apply Hsx.
        eapply book_inv_unique; [done|done|by rewrite HG; left]. }
    assert (take (S fi) (<[fi := r]> fl) = take fi fl ++ [r]) as Hfree'.
    { rewrite (take_S_r _ _ r) by (by apply list_lookup_insert_eq).
      by rewrite take_insert_ge by lia. }
    assert (m3 !! ib = Some (Order.mk id price (q - f) sd None None)) as Hib3.
    { rewrite Hsame3; [done|]. intros Hin.
      apply (fl_unlinked Hfl side t). rewrite HG. by right. }
    assert (∀ i s x, i ∈ upd G side t l s x → qty_at m3 i = qty_at m i ∧
              ∃ o3, m3 !! i = Some o3 ∧ Order.price o3 = x ∧ Order.is_buy o3 = s ∧
                    0 < Order.qty o3 < 2 ^ 32) as Hrest3.
    { intros i s x Hin.
      assert (i ≠ r) by (intros ->; by eapply Hrgone).
      assert (i ≠ ib) by (intros ->; by eapply (fl_unlinked Hfl), Hsub).
      destruct (inv_resting Hinv _ _ _ (Hsub _ _ _ Hin)) as (oi & Hoi & ? & ? & ?).
      norm. rewrite <- H4 in Hoi by done.
      destruct (Hkeep3 _ _ Hoi) as (o3 & Ho3 & (? & ? & ? & ?) & ?).
      split.
      - rewrite (qty_at_lookup _ _ _ Ho3). rewrite H4 in Hoi by done.
        rewrite (qty_at_lookup _ _ _ Hoi). done.
      - exists o3. split; [done|]. split; [congruence|]. split; [congruence|]. lia. }
    split; [split|split; [split|split; [|split; [|split]]]].
    + (* queues *)
      intros s x Hx. norm. rewrite Hlv2. unfold b1. rewrite levels_with_levels.
      destruct (decide (s = side ∧ x = t)) as [[-> ->]|Hsx].
      * rewrite decide_True by done. exists lvl'. rewrite upd_eq. split; [|done].
        apply list_lookup_insert_eq. by eapply lookup_lt_Some.
      * rewrite upd_ne by done.
        destruct (inv_queue Hinv s x Hx) as (lx & Hlx & [Hcx Htx]).
        norm. exists lx. split.
        -- case_decide as Hs; [|done]. subst s. rewrite list_lookup_insert_ne; [done|].
           intros Heq. apply Hsx. split; [done|]. apply Z2Nat.inj in Heq; lia.
        -- split; [|done]. apply (chain_ext m); [|done].
           intros j oj _ Hj. destruct (H6 j oj Hj) as (o' & Ho' & Hn' & _).
           destruct (Hkeep3 _ _ Ho') as (o3 & ? & _ & ?). exists o3. split; [done|]. congruence.
    + intros s. norm. rewrite Hlv2. unfold b1.
      rewrite levels_with_levels. case_decide.
      * subst. rewrite length_insert. apply (inv_length Hinv).
      * apply (inv_length Hinv).
    + intros s x Hx. unfold upd. case_decide as Hsx.
      * destruct Hsx as [_ ->]. done.
      * by apply (inv_outside Hinv).
    + intros s x i Hin. destruct (Hrest3 _ _ _ Hin) as [_ ?]. done.
    + intros s x. unfold upd. case_decide as Hsx.
      * by apply NoDup_cons in Hnd as [_ ?].
      * apply (inv_nodup Hinv).
    + intros s. apply Hwf2.
    + intros s x Hx. by apply Hact2.
    + norm. rewrite length_insert. congruence.
    + norm. rewrite length_insert. lia.
    + norm. rewrite Hfree'. apply NoDup_app.
      split; [done|]. split; [|apply NoDup_singleton].
      intros i Hi' ->%list_elem_of_singleton. done.
    + norm. rewrite Hfree'.
      intros i [Hi'| ->%list_elem_of_singleton]%elem_of_app.
      * destruct (Hfl_free i Hi') as [? Hno]. split; [lia|].
        intros s x Hin. eapply Hno, Hsub, Hin.
      * split; [|done]. rewrite Hlen3, H5. by eapply lookup_lt_Some.
    + norm. apply Z.mod_pos_bound. lia.
    + done.
    + lia.
    + intros s x Hin. eapply (fl_unlinked Hfl), Hsub, Hin.
    + norm. rewrite Hfree'.
      intros [Hi'| ->%list_elem_of_singleton]%elem_of_app; [|done].
      by apply (fl_not_free Hfl).
    + norm.
      rewrite (gsum_update m m3 G (upd G side t l) side t Ht).
      * rewrite upd_eq, HG, qsum_cons, (qty_at_lookup _ _ _ Ho).
        rewrite (qsum_ext m m3 l); [lia|]. intros i Hi'.
        apply (Hrest3 i side t). by rewrite upd_eq.
      * intros s x Hx Hsx. rewrite upd_ne by done. apply qsum_ext.
        intros i Hi'. apply (Hrest3 i s x). by rewrite upd_ne.
    + right. split; [done|lia].
    + norm. intros j oj Hj. destruct (H6 j oj Hj) as (o' & Ho' & _ & Hid').
      destruct (Hkeep3 _ _ Ho') as (o3 & ? & (? & _) & _). exists o3. split; [done|]. congruence.
    + norm. rewrite Hfree', decide_True by lia. done.
  - (* the resting order keeps a remainder and its place *)
    do 2 eexists. exists G.
    split; [done|]. split; [done|]. split; [lia|]. split; [done|].
    assert (∀ i s x, i ∈ G s x → ∃ o2, m2 !! i = Some o2 ∧ Order.price o2 = x ∧
              Order.is_buy o2 = s ∧ 0 < Order.qty o2 < 2 ^ 32 ∧
              qty_at m2 i = qty_at m i - (if decide (i = r) then f else 0)) as Hrest2.
    { intros i s x Hin.
      assert (i ≠ ib) by (intros ->; by eapply (fl_unlinked Hfl)).
      destruct (inv_resting Hinv _ _ _ Hin) as (oi & Hoi & ? & ? & ?).
      norm. destruct (decide (i = r)) as [->|Hir].
      - simplify_eq. eexists. split; [done|]. rewrite (qty_at_lookup _ _ _ H3).
        rewrite (qty_at_lookup _ _ _ Ho). cbn. repeat split. all: lia.
      - rewrite H4 by done. exists oi. split; [done|].
        assert (qty_at m2 i = qty_at m i) as -> by (unfold qty_at; by rewrite H4).
        repeat split; (done || lia). }
    split; [split|split; [split|split; [|split; [|split]]]].
    + intros s x Hx. destruct (inv_queue Hinv s x Hx) as (lx & Hlx & [Hcx Htx]).
      exists lx. split; [done|]. split; [|done]. norm.
      apply (chain_ext m); [|done].
      intros j oj _ Hj. destruct (H6 j oj Hj) as (o' & ? & ? & _). eauto.
    + apply (inv_length Hinv).
    + apply (inv_outside Hinv).
    + intros s x i Hin. destruct (Hrest2 _ _ _ Hin) as (o2 & ? & ? & ? & ? & _). eauto.
    + apply (inv_nodup Hinv).
    + apply (inv_tracker_wf Hinv).
    + apply (inv_active Hinv).
    + pose proof (inv_free_length Hinv). norm. congruence.
    + apply (inv_free_idx Hinv).
    + apply (inv_free_nodup Hinv).
    + intros i Hi'. destruct (inv_free Hinv i Hi') as [? ?]. split; [|done].
      norm. fold m2. rewrite H5. done.
    + norm. apply Z.mod_pos_bound. lia.
    + done.
    + lia.
    + apply (fl_unlinked Hfl).
    + apply (fl_not_free Hfl).
    + norm. fold m2.
      rewrite (gsum_update m m2 G G side t Ht).
      * rewrite HG, !qsum_cons.
        destruct (Hrest2 r side t Hr) as (_ & _ & _ & _ & _ & ->).
        rewrite decide_True by done.
        rewrite (qsum_ext m m2 l); [lia|]. intros i Hi'.
        destruct (Hrest2 i side t) as (_ & _ & _ & _ & _ & ->); [rewrite HG; by right|].
        rewrite decide_False; [lia|]. intros ->.
        pose proof (inv_nodup Hinv side t) as Hnd. rewrite HG in Hnd.
        by apply NoDup_cons in Hnd as [? _].
      * intros s x Hx Hsx. apply qsum_ext. intros i Hi'.
        destruct (Hrest2 i s x Hi') as (_ & _ & _ & _ & _ & ->).
        rewrite decide_False; [lia|]. intros ->. apply Hsx.
        eapply book_inv_unique; eauto.
    + left. split; [done|lia].
    + norm. intros j oj Hj. destruct (H6 j oj Hj) as (o' & Ho' & _ & Hid'). eauto.
    + norm. rewrite decide_False by lia. by rewrite app_nil_r.
Qed.

(** ** The matching loops *)

Lemma matchBuyOrder_matchOrder fuel ib e :
  MatchingEngine.matchBuyOrder fuel ib e = matchOrder false fuel ib e.
Proof.
  revert e. induction fuel as [|fuel IH]; intros e; [done|].
  cbn [MatchingEngine.matchBuyOrder matchOrder].
  destruct (at_ (MatchingEngine.orders e) ib) as [i| |]; [|done..].
  rewrite !bind_Ok. destruct (Order.qty i >? 0); [|done].
  cbn [best_price tracker stops levels ref].
  destruct (FastPriceTracker.getBestAsk _) as [a| |]; [|done..].
  rewrite !bind_Ok. destruct (_ || _); [done|].
  destruct (at_ _ _) as [lvl| |]; [|done..]. rewrite !bind_Ok.
  destruct (MatchingEngine.executeTrade _ _ _ _ _ _) as [[e1 fill]| |]; [|done..].
  rewrite !bind_Ok. by rewrite IH.
Qed.

Lemma matchSellOrder_matchOrder fuel ib e :
  MatchingEngine.matchSellOrder fuel ib e = matchOrder true fuel ib e.
Proof.
  revert e. induction fuel as [|fuel IH]; intros e; [done|].
  cbn [MatchingEngine.matchSellOrder matchOrder].
  destruct (at_ (MatchingEngine.orders e) ib) as [i| |]; [|done..].
  rewrite !bind_Ok. destruct (Order.qty i >? 0); [|done].
  cbn [best_price tracker stops levels ref].
  destruct (FastPriceTracker.getBestBid _) as [a| |]; [|done..].
  rewrite !bind_Ok. destruct (_ || _); [done|].
  destruct (at_ _ _) as [lvl| |]; [|done..]. rewrite !bind_Ok.
  destruct (MatchingEngine.executeTrade _ _ _ _ _ _) as [[e1 fill]| |]; [|done..].
  rewrite !bind_Ok. by rewrite IH.
Qed.

Lemma best_price_spec side tr price :
  tracker_wf tr →
  ∃ b, best_price side tr = Ok b ∧
       (stops side b price = true ∨
        (0 ≤ b < MAX_PRICE_TICKS ∧ active tr b = true ∧
         ∀ t, 0 ≤ t < MAX_PRICE_TICKS → active tr t = true → better side b t)).
Proof.
  intros Hwf. destruct side; cbn [best_price stops better].
  - destruct (getBestBid_spec tr Hwf) as (b & -> & [[-> _]|(? & ? & ?)]).
    + exists 0. split; [done|]. left. apply orb_true_r.
    + exists b. split; [done|]. eauto.
  - destruct (getBestAsk_spec tr Hwf) as (a & -> & [[-> _]|(? & ? & ?)]).
    + eexists. split; [done|]. left. apply orb_true_r.
    + exists a. split; [done|]. eauto.
Qed.

(** ** Priority order *)

Lemma concat_fmap_nil {A B} (g : A → list B) l :
  (∀ x, x ∈ l → g x = []) → concat (g <$> l) = [].
Proof.
  induction l as [|x l IH]; intros H; [done|]. rewrite fmap_cons. cbn [concat].
  rewrite H by left. rewrite IH; [done|]. intros y Hy. apply H. by right.
Qed.

Lemma concat_fmap_ext {A B} (f g : A → list B) l :
  (∀ x, x ∈ l → g x = f x) → concat (g <$> l) = concat (f <$> l).
Proof.
  induction l as [|x l IH]; intros H; [done|]. rewrite !fmap_cons. cbn [concat].
  rewrite H by left. rewrite IH; [done|]. intros y Hy. apply H. by right.
Qed.

Lemma tick_order_split side b :
  0 ≤ b < MAX_PRICE_TICKS →
  ∃ pre post, tick_order side = pre ++ b :: post ∧
    (∀ x, x ∈ pre → 0 ≤ x < MAX_PRICE_TICKS ∧ x ≠ b ∧ better side x b) ∧
    (∀ x, x ∈ post → x ≠ b).
Proof.
  intros Hb.
  assert (ticks = seqZ 0 b ++ b :: seqZ (b + 1) (MAX_PRICE_TICKS - b - 1)) as Hsplit.
  { unfold ticks. replace MAX_PRICE_TICKS with (b + (1 + (MAX_PRICE_TICKS - b - 1))) at 1 by lia.
    rewrite seqZ_app by lia. f_equal. rewrite seqZ_app by lia. done. }
  destruct side; cbn [tick_order better].
  - exists (reverse (seqZ (b + 1) (MAX_PRICE_TICKS - b - 1))), (reverse (seqZ 0 b)).
    split; [|split].
    + rewrite Hsplit, reverse_app, reverse_cons, <- app_assoc. done.
    + intros x Hx%elem_of_reverse%elem_of_seqZ. lia.
    + intros x Hx%elem_of_reverse%elem_of_seqZ. lia.
  - exists (seqZ 0 b), (seqZ (b + 1) (MAX_PRICE_TICKS - b - 1)).
    split; [done|]. split.
    + intros x Hx%elem_of_seqZ. lia.
    + intros x Hx%elem_of_seqZ. lia.
Qed.

Lemma prio_best side G b r l :
  0 ≤ b < MAX_PRICE_TICKS → G side b = r :: l →
  (∀ t, 0 ≤ t < MAX_PRICE_TICKS → G side t ≠ [] → better side b t) →
  prio side G = r :: prio side (upd G side b l).
Proof.
  intros Hb HG Hbest. destruct (tick_order_split side b Hb) as (pre & post & Hsplit & Hpre & Hpost).
  unfold prio. rewrite Hsplit, !fmap_app, !fmap_cons, !concat_app. cbn [concat].
  assert (∀ x, x ∈ pre → G side x = []) as Hnil.
  { intros x Hx. destruct (Hpre x Hx) as (Hx1 & Hx2 & Hx3).
    destruct (G side x) eqn:E; [done|]. exfalso.
    assert (better side b x) as Hbx by (apply Hbest; [done|by rewrite E]).
    destruct side; cbn [better] in *; lia. }
  rewrite (concat_fmap_nil (G side) pre) by done.
  rewrite (concat_fmap_nil (upd G side b l side) pre).
  2:{ intros x Hx. rewrite upd_ne; [by apply Hnil|]. intros [_ ->]. by destruct (Hpre b Hx) as (_ & ? & _). }
  rewrite upd_eq, HG. cbn [app]. f_equal. f_equal.
  apply concat_fmap_ext. intros x Hx. rewrite upd_ne; [done|]. intros [_ ->]. by apply (Hpost b).
Qed.

(** ** The loop invariant *)

Lemma filled_qty_cons f fills : filled_qty (f :: fills) = trade_qty f + filled_qty fills.
Proof. done. Qed.

Lemma filled_qty_nonneg fills :
  Forall (λ f, 0 < trade_qty f) fills → 0 ≤ filled_qty fills.
Proof.
  induction 1 as [|f fills Hf _ IH]; [done|]. rewrite filled_qty_cons. lia.
Qed.

Lemma filled_qty_zero fills :
  Forall (λ f, 0 < trade_qty f) fills → filled_qty fills ≤ 0 → fills = [].
Proof.
  intros Hall Hle. destruct Hall as [|f fills Hf Hall]; [done|].
  rewrite filled_qty_cons in Hle. pose proof (filled_qty_nonneg _ Hall). lia.
Qed.

Lemma wrap64_small z : word64 z → wrap64 z = z.
Proof. intros. unfold wrap64. by apply Z.mod_small. Qed.

Lemma wrap64_add z n : wrap64 (wrap64 (z + 1) + n) = wrap64 (z + (n + 1)).
Proof. unfold wrap64. rewrite Zplus_mod_idemp_l. f_equal. lia. Qed.

Lemma match_post_refl side id e G q :
  book_inv e G → match_post side id e G q e G q [].
Proof.
  intros Hinv. split.
  - cbn. lia.
  - cbn. lia.
  - cbn. rewrite Z.add_0_r. symmetry. apply wrap64_small, (inv_trades Hinv).
  - done.
  - done.
  - eauto.
  - constructor.
  - constructor.
  - done.
  - by left.
Qed.

Lemma book_inv_in_range e G side x i :
  book_inv e G → i ∈ G side x → 0 ≤ x < MAX_PRICE_TICKS.
Proof.
  intros Hinv Hi. destruct (decide (0 ≤ x < MAX_PRICE_TICKS)) as [|Hout]; [done|].
  rewrite (inv_outside Hinv side x Hout) in Hi. by apply elem_of_nil in Hi.
Qed.

Lemma matchOrder_spec side fuel : ∀ e G ib id price sd q,
  book_inv e G → inflight e G ib id price sd q →
  match matchOrder side fuel ib e with
  | Ok (e', fills) =>
      ∃ G' q', book_inv e' G' ∧ inflight e' G' ib id price sd q' ∧
               match_post side id e G q e' G' q' fills
  | Undefined => False
  | OutOfFuel => Z.of_nat fuel ≤ q
  end.
Proof.
  induction fuel as [|fuel IH]; intros e G ib id price sd q Hinv Hfl.
  { cbn. apply (fl_qty Hfl). }
  pose proof (fl_qty Hfl) as Hq.
  cbn [matchOrder]. rewrite (at_lookup _ _ _ (fl_order Hfl)), bind_Ok.
  cbn [Order.qty Order.price].
  destruct (Z.gtb_spec q 0) as [Hpos|Hzero].
  2:{ exists G, q. split; [done|]. split; [done|]. by apply match_post_refl. }
  destruct (best_price_spec side (tracker side (MatchingEngine.book_ e)) price
              (inv_tracker_wf Hinv side)) as (b & -> & Hb).
  rewrite bind_Ok. destruct Hb as [->|(Hbr & Hact & Hbest)].
  { exists G, q. split; [done|]. split; [done|]. by apply match_post_refl. }
  destruct (stops side b price).
  { exists G, q. split; [done|]. split; [done|]. by apply match_post_refl. }
  apply (inv_active Hinv side b Hbr) in Hact.
  destruct (G side b) as [|r l] eqn:HG; [done|]. clear Hact.
  destruct (inv_queue Hinv side b Hbr) as (lvl & Hlvl & Hqueue).
  rewrite HG in Hqueue. rewrite (at_lookup _ _ _ Hlvl), bind_Ok.
  destruct Hqueue as [Hchain _]. apply chain_head in Hchain. rewrite Hchain. cbn [list.head].
  destruct (executeTrade_spec e G ib id price sd q side b r l Hinv Hfl Hpos Hbr HG)
    as (e1 & o & G1 & Ho & -> & Hf & Htr1 & Hinv1 & Hfl1 & Hsum1 & Hcase & Hids1 & _).
  rewrite bind_Ok. set (f := Z.min q (Order.qty o)) in *.
  specialize (IH e1 G1 ib id price sd (q - f) Hinv1 Hfl1).
  destruct (matchOrder side fuel ib e1) as [[e2 fills]| |]; [|done|cbn; lia].
  destruct IH as (G2 & q2 & Hinv2 & Hfl2 & Hpost).
  rewrite bind_Ok. exists G2, q2. split; [done|]. split; [done|].
  assert (∀ s x i, i ∈ G1 s x → i ∈ G s x) as Hsub1.
  { intros s x i Hi. destruct Hcase as [[-> _]|[-> _]]; [done|].
    unfold upd in Hi. case_decide as Hsx; [|done]. destruct Hsx as [-> ->].
    rewrite HG. by right. }
  assert (prio side G = r :: prio side (upd G side b l)) as Hprio.
  { apply prio_best; [done|done|]. intros t Ht Hne. apply Hbest; [done|].
    by apply (inv_active Hinv). }
  assert (Forall (λ f0, 0 < trade_qty f0) fills) as Hpos_fills.
  { eapply Forall_impl; [apply (mp_fills Hpost)|]. intros ? (_ & ? & _). done. }
  split.
  - rewrite (mp_gsum Hpost), Hsum1, filled_qty_cons. cbn. lia.
  - rewrite (mp_qty Hpost), filled_qty_cons. cbn. lia.
  - rewrite (mp_trades Hpost), Htr1, wrap64_add.
    f_equal. cbn [length]. lia.
  - intros x. rewrite (mp_own Hpost).
    destruct Hcase as [[-> _]|[-> _]]; [done|]. apply upd_ne. intros [? _]. by destruct side.
  - intros s x i Hi. by apply Hsub1, (mp_sub Hpost).
  - intros j oj Hj. destruct (Hids1 j oj Hj) as (o1 & Ho1 & Hid1).
    destruct (mp_ids Hpost j o1 Ho1) as (o2 & Ho2 & Hid2).
    exists o2. split; [done|]. congruence.
  - constructor.
    + cbn. split; [done|]. split; [done|]. split; [rewrite HG; left|]. eauto.
    + eapply Forall_impl; [apply (mp_fills Hpost)|].
      intros f0 (? & ? & Hin & o1 & Ho1 & Hrid). split; [done|]. split; [done|].
      split; [by apply Hsub1|].
      destruct (inv_resting Hinv _ _ _ (Hsub1 _ _ _ Hin)) as (o0 & Ho0 & _).
      destruct (Hids1 _ _ Ho0) as (o1' & Ho1' & Hid1). exists o0. split; [done|]. congruence.
  - rewrite fmap_cons. constructor; [apply (mp_sorted Hpost)|].
    pose proof (mp_fills Hpost) as Hfills.
    destruct fills as [|f0 fills0]; [constructor|]. rewrite fmap_cons. constructor.
    cbn [trade_price]. apply Forall_cons in Hfills as [(_ & _ & Hin & _) _].
    apply Hsub1 in Hin. apply Hbest.
    + apply (book_inv_in_range _ _ _ _ _ Hinv Hin).
    + apply (inv_active Hinv); [apply (book_inv_in_range _ _ _ _ _ Hinv Hin)|]. intros Hnil.
      rewrite Hnil in Hin. by apply elem_of_nil in Hin.
  - rewrite fmap_cons. cbn [length resting_handle]. rewrite Hprio. cbn [take]. f_equal.
    destruct Hcase as [[-> Hlt]|[-> Hle]].
    + (* the resting order was not exhausted, so the inbound was *)
      assert (fills = []) as ->.
      { apply filled_qty_zero; [done|].
        pose proof (fl_qty Hfl2) as Hq2.
        rewrite (mp_qty Hpost) in Hq2. unfold f in Hq2. lia. }
      done.
    + apply (mp_prefix Hpost).
  - destruct Hcase as [[-> Hlt]|[-> Hle]].
    + assert (fills = []) as ->.
      { apply filled_qty_zero; [done|].
        pose proof (fl_qty Hfl2) as Hq2.
        rewrite (mp_qty Hpost) in Hq2. unfold f in Hq2. lia. }
      right. split; [done|]. split.
      * rewrite (mp_qty Hpost). cbn. unfold f. lia.
      * destruct (mp_rest Hpost) as [Hr|(? & _)]; [|done].
        rewrite Hr. done.
    + destruct (mp_rest Hpost) as [Hr|(Hne & Hq0 & Hr)].
      * left. rewrite Hr, Hprio. done.
      * right. split; [done|]. split; [done|]. rewrite Hr, Hprio.
        destruct fills as [|f0 fills0]; [done|]. cbn [length].
        replace (S (S (length fills0)) - 1)%nat with (S (length fills0)) by lia.
        cbn [drop]. f_equal. lia.
Qed.

(** ** Construction, allocation and resting *)

Lemma book_inv_new n : book_inv (MatchingEngine.new n) (λ _ _, []).
Proof.
  split; unfold MatchingEngine.new; norm.
  - intros side t Ht. exists PriceLevel.new. split; [|done].
    destruct side; cbn -[replicate]; apply lookup_replicate; (split; [done|]);
      unfold MAX_PRICE_TICKS in *; lia.
  - intros side. destruct side; cbn -[replicate]; apply length_replicate.
  - done.
  - intros side t i Hi. by apply elem_of_nil in Hi.
  - intros. apply NoDup_nil_2.
  - intros side. destruct side; apply tracker_wf_new.
  - intros side t Ht. assert (tracker side OrderBook.new = FastPriceTracker.new) as ->
      by (by destruct side).
    rewrite active_new. split; done.
  - unfold OrderPool.new. norm. by rewrite length_fmap, length_seq, length_replicate.
  - unfold OrderPool.new. norm. by rewrite length_fmap, length_seq.
  - unfold OrderPool.new. norm. rewrite take_ge by (by rewrite length_fmap, length_seq).
    apply NoDup_fmap_2_strong; [|apply NoDup_seq].
    intros x y Hx%elem_of_seq Hy%elem_of_seq. lia.
  - unfold OrderPool.new. norm. intros i Hi%elem_of_take.
    destruct Hi as (k & Hk & _). apply list_lookup_fmap_Some in Hk as (j & -> & Hj).
    apply lookup_seq in Hj as [-> ?]. rewrite length_replicate. split; [lia|].
    intros side t Hin. by apply elem_of_nil in Hin.
  - split; lia.
Qed.

Lemma free_room (fh : list nat) n j :
  NoDup fh → (∀ i, i ∈ fh → (i < n)%nat) → (j < n)%nat → j ∉ fh →
  (length fh < n)%nat.
Proof.
  intros Hnd Hb Hj Hnot.
  assert (length (j :: fh) ≤ n)%nat as Hle.
  { apply bounded_nodup_length; [by apply NoDup_cons|].
    intros i [->|Hi]%elem_of_cons; [done|by apply Hb]. }
  cbn [length] in Hle. lia.
Qed.

Lemma allocate_spec e G id price q sd :
  book_inv e G → 0 ≤ q < 2 ^ 32 →
  OrderPool.free_idx_ (MatchingEngine.pool_ e) ≠ 0%nat →
  ∃ p ib,
    OrderPool.allocate id price q sd (MatchingEngine.pool_ e) = Ok (p, Return ib) ∧
    book_inv (MatchingEngine.mk (MatchingEngine.book_ e) p (MatchingEngine.trades_executed_ e)) G ∧
    inflight (MatchingEngine.mk (MatchingEngine.book_ e) p (MatchingEngine.trades_executed_ e))
             G ib id price sd q ∧
    gsum (OrderPool.pool_ p) G = gsum (MatchingEngine.orders e) G ∧
    (∀ j, j ≠ ib → OrderPool.pool_ p !! j = MatchingEngine.orders e !! j).
Proof.
  intros Hinv Hq Hfi. destruct e as [book [m fl fi] trades]. norm.
  pose proof (inv_free_length Hinv) as Hfl_len.
  pose proof (inv_free_idx Hinv) as Hfl_idx.
  pose proof (inv_free_nodup Hinv) as Hfl_nd.
  pose proof (inv_free Hinv) as Hfl_free. norm.
  destruct fi as [|fi]; [done|]. clear Hfi.
  destruct (lookup_lt_is_Some_2 fl fi) as [ib Hib]; [lia|].
  rewrite (take_S_r _ _ _ Hib) in Hfl_nd, Hfl_free.
  apply NoDup_app in Hfl_nd as (Hnd' & Hdisj & _).
  destruct (Hfl_free ib) as [Hlt Hunl]; [apply elem_of_app; right; by left|].
  destruct (lookup_lt_is_Some_2 m ib Hlt) as [o0 Ho0].
  unfold OrderPool.allocate. norm. cbn [Nat.eqb]. replace (S fi - 1)%nat with fi by lia.
  rewrite (at_lookup _ _ _ Hib), bind_Ok, (at_lookup _ _ _ Ho0), bind_Ok.
  do 2 eexists. split; [done|].
  assert (∀ s x i, i ∈ G s x → i ≠ ib) as Hne.
  { intros s x i Hi ->. by apply (Hunl s x). }
  split; [split; norm|split; [split; norm|split; norm]].
  - intros s x Hx. destruct (inv_queue Hinv s x Hx) as (lvl & Hlvl & [Hc Htl]). norm.
    exists lvl. split; [done|]. split; [|done]. apply (chain_ext m); [|done].
    intros i oi Hi Hoi. exists oi. split; [|done].
    rewrite list_lookup_insert_ne; [done|]. intros ->. by eapply Hne.
  - apply (inv_length Hinv).
  - apply (inv_outside Hinv).
  - intros s x i Hi. destruct (inv_resting Hinv _ _ _ Hi) as (oi & Hoi & ?). norm.
    exists oi. split; [|done]. rewrite list_lookup_insert_ne; [done|].
    intros ->. by eapply Hne.
  - apply (inv_nodup Hinv).
  - apply (inv_tracker_wf Hinv).
  - apply (inv_active Hinv).
  - by rewrite length_insert.
  - lia.
  - done.
  - intros i Hi. destruct (Hfl_free i) as [? ?]; [apply elem_of_app; by left|].
    rewrite length_insert. done.
  - apply (inv_trades Hinv).
  - by apply list_lookup_insert_eq.
  - done.
  - done.
  - intros Hin. apply (Hdisj ib Hin). left.
  - apply gsum_ext. intros s x Hx. apply qsum_ext. intros i Hi.
    unfold qty_at. rewrite list_lookup_insert_ne; [done|]. intros ->. by eapply Hne.
  - intros j Hj. by apply list_lookup_insert_ne.
Qed.

Lemma deallocate_inbound_spec e G ib id price sd q :
  book_inv e G → inflight e G ib id price sd q →
  ∃ p, OrderPool.deallocate ib (MatchingEngine.pool_ e) = Ok p ∧
       OrderPool.pool_ p = MatchingEngine.orders e ∧
       book_inv (MatchingEngine.mk (MatchingEngine.book_ e) p (MatchingEngine.trades_executed_ e)) G.
Proof.
  intros Hinv Hfl. destruct e as [book [m fl fi] trades]. norm.
  pose proof (inv_free_length Hinv) as Hfl_len.
  pose proof (inv_free_idx Hinv) as Hfl_idx.
  pose proof (inv_free_nodup Hinv) as Hfl_nd.
  pose proof (inv_free Hinv) as Hfl_free.
  pose proof (fl_order Hfl) as Hib.
  pose proof (fl_not_free Hfl) as Hnf.
  pose proof (fl_unlinked Hfl) as Hunl. norm.
  assert (fi < length fl)%nat as Hroom.
  { pose proof (free_room (take fi fl) (length m) ib Hfl_nd) as Hr.
    rewrite length_take in Hr. apply lookup_lt_Some in Hib.
    assert (fi `min` length fl < length m)%nat; [|lia].
    apply Hr; [|done|done]. intros i Hi. by apply Hfl_free. }
  destruct (lookup_lt_is_Some_2 _ _ Hroom) as [x0 Hx0].
  unfold OrderPool.deallocate. norm. rewrite (at_lookup _ _ _ Hx0), bind_Ok.
  eexists. split; [done|]. split; [done|].
  assert (take (S fi) (<[fi := ib]> fl) = take fi fl ++ [ib]) as Hfree'.
  { rewrite (take_S_r _ _ ib) by (by apply list_lookup_insert_eq).
    by rewrite take_insert_ge by lia. }
  split; norm.
  - apply (inv_queue Hinv).
  - apply (inv_length Hinv).
  - apply (inv_outside Hinv).
  - apply (inv_resting Hinv).
  - apply (inv_nodup Hinv).
  - apply (inv_tracker_wf Hinv).
  - apply (inv_active Hinv).
  - by rewrite length_insert.
  - rewrite length_insert. lia.
  - rewrite Hfree'. apply NoDup_app. split; [done|]. split; [|apply NoDup_singleton].
    intros i Hi ->%list_elem_of_singleton. done.
  - rewrite Hfree'. intros i [Hi| ->%list_elem_of_singleton]%elem_of_app.
    + by apply Hfl_free.
    + split; [by eapply lookup_lt_Some|done].
  - apply (inv_trades Hinv).
Qed.

Lemma addOrder_side ib (m : heap) b o :
  m !! ib = Some o →
  OrderBook.addOrder ib m b =
    let sd := Order.is_buy o in
    let i := Z.to_nat (Order.price o) in
    l ← at_ (levels sd b) i;
    tr ← (if PriceLevel.isEmpty l
          then FastPriceTracker.setPriceLevel (Order.price o) (tracker sd b)
          else Ok (tracker sd b));
    '(m', l') ← PriceLevel.push_back ib m l;
    Ok (m', with_tracker sd tr (with_levels sd (<[i := l']> (levels sd b)) b)).
Proof.
  intros Ho. unfold OrderBook.addOrder. rewrite (at_lookup _ _ _ Ho), bind_Ok.
  by destruct (Order.is_buy o).
Qed.

Lemma addOrder_spec e G ib id price sd q :
  book_inv e G → inflight e G ib id price sd q →
  0 < q → 0 ≤ price < MAX_PRICE_TICKS →
  ∃ m' b',
    OrderBook.addOrder ib (MatchingEngine.orders e) (MatchingEngine.book_ e) = Ok (m', b') ∧
    book_inv (MatchingEngine.mk b' (MatchingEngine.set_orders m' (MatchingEngine.pool_ e))
                                (MatchingEngine.trades_executed_ e))
             (upd G sd price (G sd price ++ [ib])) ∧
    gsum m' (upd G sd price (G sd price ++ [ib])) = gsum (MatchingEngine.orders e) G + q ∧
    ∃ o, m' !! ib = Some o ∧ Order.id o = id ∧ Order.qty o = q.
Proof.
  intros Hinv Hfl Hq Hp. destruct e as [book [m fl fi] trades]. norm.
  pose proof (fl_order Hfl) as Hib.
  pose proof (fl_qty Hfl) as Hqr.
  pose proof (fl_not_free Hfl) as Hnf.
  pose proof (fl_unlinked Hfl) as Hunl. norm.
  rewrite (addOrder_side _ _ _ _ Hib). cbn [Order.is_buy Order.price]. cbv zeta.
  destruct (inv_queue Hinv sd price Hp) as (lvl & Hlvl & Hqueue). norm.
  rewrite (at_lookup _ _ _ Hlvl), bind_Ok.
  set (l := G sd price) in *.
  assert (PriceLevel.isEmpty lvl = true ↔ l = []) as Hemp.
  { destruct Hqueue as [Hc _]. apply chain_head in Hc. unfold PriceLevel.isEmpty.
    rewrite Hc. destruct l; split; done. }
  assert (∃ tr,
    (if PriceLevel.isEmpty lvl
     then FastPriceTracker.setPriceLevel price (tracker sd book)
     else Ok (tracker sd book)) = Ok tr ∧ tracker_wf tr ∧
    ∀ x, 0 ≤ x < MAX_PRICE_TICKS →
         active tr x = true ↔ upd G sd price (l ++ [ib]) sd x ≠ []) as (tr & -> & Hwf' & Hact').
  { destruct (PriceLevel.isEmpty lvl) eqn:Hisemp.
    - destruct (setPriceLevel_spec (tracker sd book) price (inv_tracker_wf Hinv sd) Hp)
        as (tr & -> & Hwf' & Hact'). exists tr. split; [done|]. split; [done|].
      intros x Hx. rewrite Hact' by done. destruct (decide (x = price)) as [->|Hne].
      + rewrite upd_eq. split; [|done]. intros _. by destruct l.
      + rewrite upd_ne by (intros [_ ?]; done). by apply (inv_active Hinv).
    - exists (tracker sd book). split; [done|]. split; [apply (inv_tracker_wf Hinv)|].
      intros x Hx. destruct (decide (x = price)) as [->|Hne].
      + rewrite upd_eq. split; [intros _; by destruct l|]. intros _.
        apply (inv_active Hinv); [done|]. fold l. intros Hnil.
        apply Hemp in Hnil. congruence.
      + rewrite upd_ne by (intros [_ ?]; done). by apply (inv_active Hinv). }
  rewrite bind_Ok.
  pose proof (inv_nodup Hinv sd price) as Hnd. fold l in Hnd.
  destruct (push_back_spec m lvl l ib _ Hqueue Hnd (Hunl sd price) Hib eq_refl)
    as (m' & lvl' & -> & Hqueue' & Hlen' & _ & Hother & Hkeep).
  rewrite bind_Ok. do 2 eexists. split; [done|].
  assert (∀ s x i, i ∈ upd G sd price (l ++ [ib]) s x → i ≠ ib → i ∈ G s x) as Hsub.
  { intros s x i Hi Hne. unfold upd in Hi. case_decide as Hsx; [|done].
    destruct Hsx as [-> ->]. apply elem_of_app in Hi as [?|?%list_elem_of_singleton]; done. }
  assert (∀ s x i, i ∈ G s x → ¬ (s = sd ∧ x = price) → i ∉ l) as Hfar.
  { intros s x i Hi Hsx Hil. apply Hsx. eapply book_inv_unique; eauto. }
  assert (∀ i o, m' !! i = Some o → ∃ o0, m !! i = Some o0 ∧ same_fields o0 o) as Hback.
  { intros i o Hi. destruct (lookup_lt_is_Some_2 m i) as [o0 Ho0].
    { rewrite <- Hlen'. by eapply lookup_lt_Some. }
    destruct (Hkeep i o0 Ho0) as (o' & Ho' & Hsf & _). exists o0. split; [done|]. congruence. }
  split; [split; norm|split].
  - intros s x Hx. rewrite levels_with_tracker, levels_with_levels.
    destruct (decide (s = sd ∧ x = price)) as [[-> ->]|Hsx].
    + rewrite decide_True by done. exists lvl'. rewrite upd_eq. split; [|done].
      apply list_lookup_insert_eq. by eapply lookup_lt_Some.
    + rewrite upd_ne by done.
      destruct (inv_queue Hinv s x Hx) as (lx & Hlx & [Hcx Htx]). norm.
      exists lx. split.
      * case_decide as Hs; [|done]. subst s. rewrite list_lookup_insert_ne; [done|].
        intros Heq. apply Hsx. split; [done|]. apply Z2Nat.inj in Heq; lia.
      * split; [|done]. apply (chain_ext m); [|done].
        intros j oj Hj Hoj. destruct (Hkeep j oj Hoj) as (o' & Ho' & _ & Hn).
        exists o'. split; [done|]. apply Hn. by eapply Hfar.
  - intros s. rewrite levels_with_tracker, levels_with_levels. case_decide.
    + subst. rewrite length_insert. apply (inv_length Hinv).
    + apply (inv_length Hinv).
  - intros s x Hx. rewrite upd_ne; [by apply (inv_outside Hinv)|].
    intros [_ ->]. done.
  - intros s x i Hi. destruct (decide (i = ib)) as [->|Hne].
    + assert (s = sd ∧ x = price) as [-> ->].
      { unfold upd in Hi. case_decide; [done|]. by apply Hunl in Hi. }
      destruct (Hkeep ib _ Hib) as (o' & Ho' & (? & ? & ? & ?) & _).
      exists o'. split; [done|]. cbn in *. repeat split; (congruence || lia).
    + destruct (inv_resting Hinv _ _ _ (Hsub _ _ _ Hi Hne)) as (oi & Hoi & ? & ? & ?). norm.
      destruct (Hkeep i _ Hoi) as (o' & Ho' & (? & ? & ? & ?) & _).
      exists o'. split; [done|]. repeat split; (congruence || lia).
  - intros s x. unfold upd. case_decide; [|apply (inv_nodup Hinv)].
    apply NoDup_app. split; [done|]. split; [|apply NoDup_singleton].
    intros i Hi ->%list_elem_of_singleton. by apply (Hunl sd price).
  - intros s. rewrite tracker_with_tracker. case_decide; [done|].
    rewrite tracker_with_levels. apply (inv_tracker_wf Hinv).
  - intros s x Hx. rewrite tracker_with_tracker. case_decide as Hs.
    + subst s. by apply Hact'.
    + rewrite tracker_with_levels, upd_ne by (intros [? _]; done).
      by apply (inv_active Hinv).
  - rewrite Hlen'. apply (inv_free_length Hinv).
  - apply (inv_free_idx Hinv).
  - apply (inv_free_nodup Hinv).
  - intros i Hi. destruct (inv_free Hinv i Hi) as [? Hno]. norm.
    split; [by rewrite Hlen'|]. intros s x Hin.
    apply (Hno s x), Hsub; [done|]. intros ->. done.
  - apply (inv_trades Hinv).
  - assert (∀ i, qty_at m' i = qty_at m i) as Hqty.
    { intros i. unfold qty_at. destruct (m !! i) as [oi|] eqn:Hoi.
      - destruct (Hkeep i _ Hoi) as (o' & -> & (_ & _ & ? & _) & _). done.
      - destruct (m' !! i) as [o'|] eqn:Ho'; [|done].
        destruct (Hback _ _ Ho') as (? & ? & _). congruence. }
    rewrite (gsum_update m m' G (upd G sd price (l ++ [ib])) sd price Hp).
    + rewrite upd_eq, qsum_app, qsum_cons. fold l.
      rewrite (qsum_ext m m' l) by (intros; apply Hqty).
      rewrite Hqty, (qty_at_lookup _ _ _ Hib). cbn. lia.
    + intros s x Hx Hsx. rewrite upd_ne by done. apply qsum_ext. intros; apply Hqty.
  - destruct (Hkeep ib _ Hib) as (o' & Ho' & (? & ? & ? & ?) & _). exists o'. by repeat split.
Qed.

(** ** One call of [processNewOrder] *)

Lemma prio_ext side G G' : (∀ x, G' side x = G side x) → prio side G' = prio side G.
Proof. intros H. unfold prio. apply concat_fmap_ext. intros x _. apply H. Qed.

Lemma match_loop_side fuel (is_buy : bool) ib e :
  (if is_buy then MatchingEngine.matchBuyOrder fuel ib e
   else MatchingEngine.matchSellOrder fuel ib e) = matchOrder (negb is_buy) fuel ib e.
Proof.
  destruct is_buy; [apply matchBuyOrder_matchOrder|apply matchSellOrder_matchOrder].
Qed.

Lemma processNewOrder_spec fuel id price q sd e G :
  book_inv e G → 0 ≤ price < MAX_PRICE_TICKS → 0 < q < 2 ^ 32 →
  match MatchingEngine.processNewOrder fuel id price q sd e with
  | Ok (e', Throw _) =>
      e' = e ∧ OrderPool.free_idx_ (MatchingEngine.pool_ e) = 0%nat
  | Ok (e', Return fills) =>
      OrderPool.free_idx_ (MatchingEngine.pool_ e) ≠ 0%nat ∧
      ∃ G', book_inv e' G' ∧ call_post id price q sd e G e' G' fills
  | Undefined => False
  | OutOfFuel => Z.of_nat fuel ≤ q
  end.
Proof.
  intros Hinv Hp Hq. unfold MatchingEngine.processNewOrder.
  destruct (decide (OrderPool.free_idx_ (MatchingEngine.pool_ e) = 0%nat)) as [Hz|Hnz].
  { unfold OrderPool.allocate. rewrite Hz. cbn. by destruct e. }
  destruct (allocate_spec e G id price q sd Hinv) as (p & ib & -> & Hinv0 & Hfl0 & Hsum0 & Hsame0);
    [lia|done|].
  rewrite bind_Ok. cbv zeta. rewrite match_loop_side.
  set (e0 := MatchingEngine.mk _ p _) in *.
  assert (gsum (MatchingEngine.orders e0) G = gsum (MatchingEngine.orders e) G) as Hsum0' by done.
  assert (∀ j, j ≠ ib → MatchingEngine.orders e0 !! j = MatchingEngine.orders e !! j)
    as Hsame0' by done.
  assert (MatchingEngine.trades_executed_ e0 = MatchingEngine.trades_executed_ e)
    as Htr0 by done.
  clearbody e0.
  pose proof (matchOrder_spec (negb sd) fuel e0 G ib id price sd q Hinv0 Hfl0) as Hloop.
  destruct (matchOrder (negb sd) fuel ib e0) as [[e1 fills]| |]; [|done|done].
  destruct Hloop as (G1 & q1 & Hinv1 & Hfl1 & Hpost). rewrite bind_Ok.
  rewrite (at_lookup _ _ _ (fl_order Hfl1)), bind_Ok. cbn [Order.qty].
  pose proof (fl_qty Hfl1) as Hq1.
  pose proof (mp_qty Hpost) as Hq1'.
  pose proof (mp_own Hpost) as Hown. rewrite negb_involutive in Hown.
  assert (Forall (λ f, inbound_id f = id ∧ 0 < trade_qty f ∧
                       resting_handle f ∈ G (negb sd) (trade_price f) ∧
                       ∃ o, MatchingEngine.orders e !! resting_handle f = Some o ∧
                            resting_id f = Order.id o) fills) as Hfills.
  { eapply Forall_impl; [apply (mp_fills Hpost)|].
    intros f (? & ? & Hin & o & Ho & ?). split; [done|]. split; [done|]. split; [done|].
    exists o. split; [|done]. rewrite <- Hsame0'; [done|].
    intros Heq. rewrite Heq in Hin. by apply (fl_unlinked Hfl0) in Hin. }
  destruct (Z.gtb_spec q1 0) as [Hrest|Hdone].
  - (* the remainder rests *)
    destruct (addOrder_spec e1 G1 ib id price sd q1 Hinv1 Hfl1 Hrest Hp)
      as (m' & b' & -> & Hinv' & Hsum' & o' & Ho' & Hid' & Hqty').
    rewrite bind_Ok. split; [done|]. eexists. split; [exact Hinv'|].
    split.
    + change (gsum m' (upd G1 sd price (G1 sd price ++ [ib]))
              = gsum (MatchingEngine.orders e) G + q - 2 * filled_qty fills).
      rewrite Hsum', (mp_gsum Hpost), Hsum0'. lia.
    + lia.
    + rewrite <- Htr0. apply (mp_trades Hpost).
    + done.
    + apply (mp_sorted Hpost).
    + apply (mp_prefix Hpost).
    + rewrite (prio_ext (negb sd) G1) by (intros x; apply upd_ne; intros [? _]; by destruct sd).
      destruct (mp_rest Hpost) as [?|(? & ? & ?)]; [by left|lia].
    + right. split; [lia|]. exists ib. split; [|split].
      * intros x. unfold upd. case_decide as Hsx.
        -- destruct Hsx as [_ ->]. rewrite decide_True by done. by rewrite Hown.
        -- rewrite decide_False by (intros ->; by apply Hsx). apply Hown.
      * apply (fl_unlinked Hfl0).
      * exists o'. split; [done|]. split; [done|]. lia.
  - (* the inbound is filled: its record goes back to the pool *)
    destruct (deallocate_inbound_spec e1 G1 ib id price sd q1 Hinv1 Hfl1) as (p' & -> & Hm & Hinv').
    rewrite bind_Ok. split; [done|]. exists G1. split; [done|].
    split.
    + change (gsum (OrderPool.pool_ p') G1
              = gsum (MatchingEngine.orders e) G + q - 2 * filled_qty fills).
      rewrite Hm, (mp_gsum Hpost), Hsum0'. lia.
    + lia.
    + rewrite <- Htr0. apply (mp_trades Hpost).
    + done.
    + apply (mp_sorted Hpost).
    + apply (mp_prefix Hpost).
    + destruct (mp_rest Hpost) as [?|(? & ? & ?)]; [by left|].
      right. split; [done|]. split; [lia|done].
    + left. split; [lia|done].
Qed.

(** ** From the ghost queues to the executable views *)

Lemma levels_queues e G side :
  book_inv e G →
  level_handles (MatchingEngine.orders e) <$> levels side (MatchingEngine.book_ e)
  = G side <$> ticks.
Proof.
  intros Hinv. apply list_eq. intros i. rewrite !list_lookup_fmap.
  destruct (decide (Z.of_nat i < MAX_PRICE_TICKS)) as [Hlt|Hge].
  - destruct (inv_queue Hinv side (Z.of_nat i)) as (lvl & Hlvl & Hq); [lia|].
    rewrite Nat2Z.id in Hlvl. rewrite Hlvl. unfold ticks.
    rewrite lookup_seqZ_lt by done. cbn. f_equal.
    apply chain_level_handles; [done|apply (inv_nodup Hinv)].
  - rewrite lookup_ge_None_2 by (rewrite (inv_length Hinv); lia).
    unfold ticks. rewrite lookup_seqZ_ge by lia. done.
Qed.

Lemma priority_prio e G side : book_inv e G → priority side e = prio side G.
Proof.
  intros Hinv. unfold priority, prio. destruct side; cbn [tick_order].
  - change (OrderBook.bids_ (MatchingEngine.book_ e)) with (levels true (MatchingEngine.book_ e)).
    rewrite fmap_reverse, (levels_queues e G true Hinv), <- fmap_reverse. done.
  - change (OrderBook.asks_ (MatchingEngine.book_ e)) with (levels false (MatchingEngine.book_ e)).
    by rewrite (levels_queues e G false Hinv).
Qed.

Lemma level_qty_fmap m (ls : list PriceLevel.t) :
  level_qty m <$> ls = qsum m <$> (level_handles m <$> ls).
Proof. by rewrite <- list_fmap_compose. Qed.

Lemma resting_qty_gsum e G :
  book_inv e G → resting_qty e = gsum (MatchingEngine.orders e) G.
Proof.
  intros Hinv. unfold resting_qty, gsum. rewrite !level_qty_fmap.
  change (OrderBook.bids_ (MatchingEngine.book_ e)) with (levels true (MatchingEngine.book_ e)).
  change (OrderBook.asks_ (MatchingEngine.book_ e)) with (levels false (MatchingEngine.book_ e)).
  rewrite (levels_queues e G true Hinv), (levels_queues e G false Hinv).
  by rewrite <- !list_fmap_compose.
Qed.

Lemma resting_ghost e G i :
  book_inv e G → resting e i ↔ ∃ side t, i ∈ G side t.
Proof.
  intros Hinv. split.
  - intros (side & t & lvl & Hlvl & Hl).
    assert (0 ≤ Z.of_nat t < MAX_PRICE_TICKS) as Ht.
    { apply lookup_lt_Some in Hlvl. rewrite (inv_length Hinv) in Hlvl. lia. }
    destruct (inv_queue Hinv side _ Ht) as (lvl' & Hlvl' & [Hc _]).
    rewrite Nat2Z.id in Hlvl'. simplify_eq.
    exists side, (Z.of_nat t). by apply (chain_linked _ _ _ _ Hc).
  - intros (side & t & Hi).
    pose proof (book_inv_in_range _ _ _ _ _ Hinv Hi) as Ht.
    destruct (inv_queue Hinv side _ Ht) as (lvl & Hlvl & [Hc _]).
    exists side, (Z.to_nat t), lvl. split; [done|]. by apply (chain_linked _ _ _ _ Hc).
Qed.

(** ** Sequences of calls *)

Lemma submitted_qty_snoc cs c : submitted_qty (cs ++ [c]) = submitted_qty cs + call_qty c.
Proof. unfold submitted_qty. rewrite fmap_app, Zsum_app. cbn. lia. Qed.

Lemma filled_qty_app ts ts' : filled_qty (ts ++ ts') = filled_qty ts + filled_qty ts'.
Proof. unfold filled_qty. by rewrite fmap_app, Zsum_app. Qed.

Lemma Zsum_zero {A} (l : list A) : Zsum ((λ _, 0) <$> l) = 0.
Proof. induction l as [|x l IH]; [done|]. rewrite fmap_cons, Zsum_cons. lia. Qed.

Lemma gsum_nil m : gsum m (λ _ _, []) = 0.
Proof. unfold gsum. cbn [qsum fmap list_fmap Zsum foldr]. by rewrite Zsum_zero. Qed.

Lemma trace_inv n cs ts e :
  trace n cs ts e →
  ∃ G, book_inv e G ∧
       gsum (MatchingEngine.orders e) G = submitted_qty cs - 2 * filled_qty ts.
Proof.
  induction 1 as [|cs ts e fuel c e' fills _ (G & Hinv & Hsum) [Hp Hq] Hsub
                  |cs ts e fuel c e' ex _ (G & Hinv & Hsum) [Hp Hq] Hsub].
  - exists (λ _ _, []). split; [apply book_inv_new|].
    by rewrite gsum_nil.
  - pose proof (processNewOrder_spec fuel (call_id c) (call_price c) (call_qty c)
                  (call_is_buy c) e G Hinv Hp Hq) as Hspec.
    unfold submit in Hsub. rewrite Hsub in Hspec. destruct Hspec as (_ & G' & Hinv' & Hpost).
    exists G'. split; [done|].
    rewrite (cp_gsum Hpost), Hsum, submitted_qty_snoc, filled_qty_app. lia.
  - pose proof (processNewOrder_spec fuel (call_id c) (call_price c) (call_qty c)
                  (call_is_buy c) e G Hinv Hp Hq) as Hspec.
    unfold submit in Hsub. rewrite Hsub in Hspec. destruct Hspec as [-> _]. eauto.
Qed.

Lemma reachable_inv n e : reachable n e → ∃ G, book_inv e G.
Proof. intros (cs & ts & Htr). destruct (trace_inv _ _ _ _ Htr) as (G & ? & _). eauto. Qed.

Lemma valid_callb_spec c : valid_callb c = true → valid_call c.
Proof. unfold valid_callb, valid_call. intros H. repeat (apply andb_prop in H as [H ?]). lia. Qed.

Lemma run_trace n fuel cs : ∀ cs0 ts0 e0 e rs ts,
  trace n cs0 ts0 e0 → forallb valid_callb cs = true →
  run fuel cs e0 = Ok (e, rs) → returned rs = Some ts →
  trace n (cs0 ++ cs) (ts0 ++ ts) e.
Proof.
  induction cs as [|c cs IH]; intros cs0 ts0 e0 e rs ts Htr Hval Hrun Hret.
  - cbn in Hrun. simplify_eq. cbn in Hret. simplify_eq. by rewrite !app_nil_r.
  - cbn [forallb] in Hval. apply andb_prop in Hval as [Hc Hval].
    cbn [run] in Hrun.
    destruct (submit fuel c e0) as [[e1 r]| |] eqn:Hsub; [|done..].
    rewrite bind_Ok in Hrun.
    destruct (run fuel cs e1) as [[e2 rs']| |] eqn:Hrun'; [|done..].
    rewrite bind_Ok in Hrun. simplify_eq.
    destruct r as [fills|ex]; [|done]. cbn [returned] in Hret.
    destruct (returned rs') as [ts'|] eqn:Hret'; [|done]. cbn in Hret. simplify_eq.
    replace (cs0 ++ c :: cs) with ((cs0 ++ [c]) ++ cs) by (by rewrite <- app_assoc).
    rewrite app_assoc. eapply IH; [|done|done|done].
    eapply trace_return; [done|by apply valid_callb_spec|done].
Qed.

Lemma run_reachable n fuel cs e rs ts :
  forallb valid_callb cs = true →
  run fuel cs (MatchingEngine.new n) = Ok (e, rs) → returned rs = Some ts →
  trace n cs ts e.
Proof. intros. eapply (run_trace n fuel cs [] []); eauto. constructor. Qed.

(** ** The scenarios of the specification, run on the model *)

(** Scenario A, then B: a bid at 100 and an ask at 101 rest; a buy of 5 at
    101 takes the ask, one trade (3, 2, 101, 5). *)
Example scenario_A_B :
  ∃ eA eB,
    run 8 [mkCall 1 100 10 true; mkCall 2 101 5 false] (MatchingEngine.new 4)
      = Ok (eA, [Return []; Return []]) ∧
    FastPriceTracker.getBestBid (OrderBook.bid_tracker_ (MatchingEngine.book_ eA)) = Ok 100 ∧
    FastPriceTracker.getBestAsk (OrderBook.ask_tracker_ (MatchingEngine.book_ eA)) = Ok 101 ∧
    priority true eA = [0%nat] ∧ priority false eA = [1%nat] ∧
    submit 8 (mkCall 3 101 5 true) eA = Ok (eB, Return [mkTrade 3 2 101 5 1]) ∧
    priority false eB = [] ∧
    FastPriceTracker.getBestAsk (OrderBook.ask_tracker_ (MatchingEngine.book_ eB))
      = Ok MAX_PRICE_TICKS ∧
    FastPriceTracker.getBestBid (OrderBook.bid_tracker_ (MatchingEngine.book_ eB)) = Ok 100 ∧
    MatchingEngine.getTradesExecuted eB = 1.
Proof. do 2 eexists. split; [vm_compute; reflexivity|]. by vm_compute. Qed.

(** Scenario C: a buy of 10 at 102 sweeps the asks at 100 and 101 and takes
    3 of the 5 at 102. *)
Example scenario_C :
  ∃ e,
    run 8 [mkCall 1 100 3 false; mkCall 2 101 4 false; mkCall 3 102 5 false;
           mkCall 4 102 10 true] (MatchingEngine.new 4)
      = Ok (e, [Return []; Return []; Return [];
                Return [mkTrade 4 1 100 3 0; mkTrade 4 2 101 4 1; mkTrade 4 3 102 3 2]]) ∧
    priority false e = [2%nat] ∧ qty_at (MatchingEngine.orders e) 2 = 2 ∧
    priority true e = [] ∧
    FastPriceTracker.getBestAsk (OrderBook.ask_tracker_ (MatchingEngine.book_ e)) = Ok 102 ∧
    MatchingEngine.getTradesExecuted e = 3.
Proof. eexists. split; [vm_compute; reflexivity|]. by vm_compute. Qed.

(** Scenario E: limits that do not cross rest. *)
Example scenario_E :
  ∃ e,
    run 8 [mkCall 1 100 5 true; mkCall 2 105 5 false; mkCall 3 102 5 true]
        (MatchingEngine.new 4)
      = Ok (e, [Return []; Return []; Return []]) ∧
    priority true e = [2; 0]%nat ∧ priority false e = [1%nat] ∧
    FastPriceTracker.getBestBid (OrderBook.bid_tracker_ (MatchingEngine.book_ e)) = Ok 102 ∧
    FastPriceTracker.getBestAsk (OrderBook.ask_tracker_ (MatchingEngine.book_ e)) = Ok 105.
Proof. eexists. split; [vm_compute; reflexivity|]. by vm_compute. Qed.

(** ** Index consistency and arena integrity on reachable states *)

(** X1: index consistency: on every reachable state and for each side, the index
    bit of a tick is set exactly when the queue of that tick is not empty. *)
Theorem index_consistency n e side t lvl :
  reachable n e → levels side (MatchingEngine.book_ e) !! t = Some lvl →
  active (tracker side (MatchingEngine.book_ e)) (Z.of_nat t) = true
  ↔ PriceLevel.isEmpty lvl = false.
Proof.
  intros Hr Hlvl. destruct (reachable_inv _ _ Hr) as [G Hinv].
  assert (0 ≤ Z.of_nat t < MAX_PRICE_TICKS) as Ht.
  { apply lookup_lt_Some in Hlvl. rewrite (inv_length Hinv) in Hlvl. lia. }
  rewrite (inv_active Hinv side _ Ht).
  destruct (inv_queue Hinv side _ Ht) as (lvl' & Hlvl' & [Hc _]).
  rewrite Nat2Z.id in Hlvl'. simplify_eq. apply chain_head in Hc.
  unfold PriceLevel.isEmpty. rewrite Hc. by destruct (G side (Z.of_nat t)).
Qed.

(** X2: arena integrity: on every reachable state the free stack has no repeats,
    names records of the arena only, and none of them rests in the book. *)
Theorem arena_integrity n e :
  reachable n e →
  NoDup (free_handles (MatchingEngine.pool_ e)) ∧
  ∀ i, i ∈ free_handles (MatchingEngine.pool_ e) →
       (i < length (MatchingEngine.orders e))%nat ∧ ¬ resting e i.
Proof.
  intros Hr. destruct (reachable_inv _ _ Hr) as [G Hinv].
  split; [apply (inv_free_nodup Hinv)|]. intros i Hi.
  destruct (inv_free Hinv i Hi) as [Hlt Hno]. split; [done|].
  intros Hres. destruct (proj1 (resting_ghost e G i Hinv) Hres) as (s & x & Hin).
  by apply (Hno s x).
Qed.

(** ** What the steps do to the fields of the records *)

Lemma bind_Ok_inv {A B} (m : result A) (f : A → result B) b :
  m ≫= f = Ok b → ∃ a, m = Ok a ∧ f a = Ok b.
Proof. destruct m as [a| |]; [|done|done]. intros H. by exists a. Qed.

Lemma fields_insert_links (m : heap) i o o' :
  m !! i = Some o → fields o' = fields o →
  fields <$> <[i := o']> m = fields <$> m.
Proof.
  intros Hi Hf. rewrite list_fmap_insert, Hf. apply list_insert_id.
  by rewrite list_lookup_fmap, Hi.
Qed.

Lemma pop_front_fields m l m' l' x :
  PriceLevel.pop_front m l = Ok (m', l', x) → fields <$> m' = fields <$> m.
Proof.
  unfold PriceLevel.pop_front. destruct (PriceLevel.head l) as [i|]; [|by intros [= <- _ _]].
  intros H. apply bind_Ok_inv in H as (o & Ho%at_Ok & H).
  destruct (Order.next o) as [j|]; [|by injection H as <- _ _].
  apply bind_Ok_inv in H as (oh & Hoh%at_Ok & H). injection H as <- _ _.
  by apply (fields_insert_links m j oh).
Qed.

Lemma push_back_fields i m l m' l' :
  PriceLevel.push_back i m l = Ok (m', l') → fields <$> m' = fields <$> m.
Proof.
  unfold PriceLevel.push_back. destruct (PriceLevel.head l); [|by intros [= <- _]].
  intros H. apply bind_Ok_inv in H as (tl & _ & H).
  apply bind_Ok_inv in H as (t_ & Ht%at_Ok & H).
  apply bind_Ok_inv in H as (o & Ho%at_Ok & H). injection H as <- _.
  rewrite (fields_insert_links _ i o) by done.
  by apply (fields_insert_links m tl t_).
Qed.


Lemma book_addOrder_fields i m b m' b' :
  OrderBook.addOrder i m b = Ok (m', b') → fields <$> m' = fields <$> m.
Proof.
  unfold OrderBook.addOrder. intros H.
  apply bind_Ok_inv in H as (o & _ & H).
  destruct (Order.is_buy o).
  - apply bind_Ok_inv in H as (l & _ & H). apply bind_Ok_inv in H as (tr & _ & H).
    apply bind_Ok_inv in H as ([m1 l1] & H1 & H). injection H as <- _.
    by apply push_back_fields in H1.
  - apply bind_Ok_inv in H as (l & _ & H). apply bind_Ok_inv in H as (tr & _ & H).
    apply bind_Ok_inv in H as ([m1 l1] & H1 & H). injection H as <- _.
    by apply push_back_fields in H1.
Qed.


Lemma deallocate_inv r p p' :
  OrderPool.deallocate r p = Ok p' →
  OrderPool.pool_ p' = OrderPool.pool_ p ∧
  free_handles p' = free_handles p ++ [r].
Proof.
  unfold OrderPool.deallocate. intros H.
  apply bind_Ok_inv in H as (x & Hx%at_Ok & H). injection H as <-.
  split; [done|]. unfold free_handles. cbn.
  pose proof (lookup_lt_Some _ _ _ Hx) as Hlt.
  rewrite (take_S_r _ _ r) by (by apply list_lookup_insert_eq).
  by rewrite take_insert_ge by lia.
Qed.

Lemma executeTrade_fields ib r lr p side e e' fill i o :
  MatchingEngine.executeTrade ib (Some r) lr p side e = Ok (e', fill) →
  MatchingEngine.orders e !! ib = Some i → MatchingEngine.orders e !! r = Some o →
  ib ≠ r →
  fields <$> MatchingEngine.orders e' = traded ib r i o (fields <$> MatchingEngine.orders e).
Proof.
  intros H Hi Ho Hne. unfold MatchingEngine.executeTrade in H. cbv zeta in H.
  rewrite (at_lookup _ _ _ Hi), bind_Ok in H. cbn [deref] in H. rewrite bind_Ok in H.
  rewrite (at_lookup _ _ _ Ho), bind_Ok in H.
  destruct (fill_heap (MatchingEngine.orders e) ib r i o
              (wrap32 (Order.qty i - Z.min (Order.qty i) (Order.qty o)))
              (wrap32 (Order.qty o - Z.min (Order.qty i) (Order.qty o))) Hi Ho Hne)
    as (H1 & _ & H3 & _).
  cbv zeta in H1, H3.
  rewrite (at_lookup _ _ _ H1), bind_Ok in H.
  rewrite (at_lookup _ _ _ H3), bind_Ok in H.
  assert (fields <$> <[r := Order.with_qty (wrap32 (Order.qty o - Z.min (Order.qty i) (Order.qty o))) o]>
            (<[ib := Order.with_qty (wrap32 (Order.qty i - Z.min (Order.qty i) (Order.qty o))) i]>
               (MatchingEngine.orders e))
          = traded ib r i o (fields <$> MatchingEngine.orders e)) as Hm2.
  { unfold traded. by rewrite !list_fmap_insert. }
  destruct (Order.qty _ =? 0).
  - apply bind_Ok_inv in H as (l & _ & H).
    apply bind_Ok_inv in H as ([[m3 l'] x] & Hpop & H).
    apply bind_Ok_inv in H as (b2 & _ & H).
    apply bind_Ok_inv in H as (p' & Hd & H). injection H as <- _.
    apply deallocate_inv in Hd as [Hd _]. unfold MatchingEngine.orders at 1.
    cbn [MatchingEngine.pool_]. rewrite Hd. cbn.
    apply pop_front_fields in Hpop. by rewrite Hpop.
  - injection H as <- _. done.
Qed.


Lemma allocate_inv id price q sd p p' ib :
  OrderPool.allocate id price q sd p = Ok (p', Return ib) →
  free_handles p = free_handles p' ++ [ib] ∧
  fields <$> OrderPool.pool_ p' = <[ib := (id, price, q, sd)]> (fields <$> OrderPool.pool_ p).
Proof.
  unfold OrderPool.allocate. destruct (OrderPool.free_idx_ p =? 0)%nat eqn:Hz; [done|].
  apply Nat.eqb_neq in Hz. intros H.
  apply bind_Ok_inv in H as (idx & Hidx%at_Ok & H).
  apply bind_Ok_inv in H as (x & _ & H). injection H as <- <-.
  split.
  - unfold free_handles. cbn.
    replace (OrderPool.free_idx_ p) with (S (OrderPool.free_idx_ p - 1)) at 1 by lia.
    by rewrite (take_S_r _ _ idx).
  - cbn. by rewrite list_fmap_insert.
Qed.

(** ** Quantities through a call *)

Lemma qty_at_fields (m : heap) j :
  qty_at m j = match (fields <$> m) !! j with Some x => x.1.2 | None => 0 end.
Proof. unfold qty_at. rewrite list_lookup_fmap. by destruct (m !! j). Qed.

Lemma same_fields_qty_at (m m' : heap) j :
  fields <$> m' = fields <$> m → qty_at m' j = qty_at m j.
Proof. intros H. by rewrite !qty_at_fields, H. Qed.

(** A round of [matchOrder] that trades is a [trade_step]. *)
Lemma matchOrder_trade_step side fuel ib e fill e1 :
  trade_step side ib e fill e1 →
  matchOrder side (S fuel) ib e
  = ('(e2, fills) ← matchOrder side fuel ib e1; Ok (e2, fill :: fills)).
Proof.
  intros [i best level H1 H2 H3 H4 H5 H6]. cbn [matchOrder].
  rewrite H1, bind_Ok, H2, H3, bind_Ok, H4, H5, bind_Ok, H6, bind_Ok. done.
Qed.

Lemma executeTrade_quantities e G ib id price sd q side t r l lr p e' fill o :
  book_inv e G → inflight e G ib id price sd q → G side t = r :: l →
  MatchingEngine.orders e !! r = Some o →
  MatchingEngine.executeTrade ib (Some r) lr p side e = Ok (e', fill) →
  qty_at (MatchingEngine.orders e') r = Order.qty o - Z.min q (Order.qty o) ∧
  ∀ j, j ≠ ib → j ≠ r →
       qty_at (MatchingEngine.orders e') j = qty_at (MatchingEngine.orders e) j.
Proof.
  intros Hinv Hfl HG Ho Hex.
  assert (r ∈ G side t) as Hr by (rewrite HG; left).
  assert (ib ≠ r) as Hne by (intros ->; by apply (fl_unlinked Hfl side t)).
  destruct (inv_resting Hinv _ _ _ Hr) as (o' & Ho' & _ & _ & Hqo). simplify_eq.
  pose proof (fl_qty Hfl) as Hq.
  pose proof (executeTrade_fields _ _ _ _ _ _ _ _ _ _ Hex (fl_order Hfl) Ho Hne) as Hf.
  pose proof (lookup_lt_Some _ _ _ Ho) as Hlt.
  split.
  - rewrite qty_at_fields, Hf. unfold traded.
    rewrite list_lookup_insert_eq by (by rewrite length_insert, length_fmap).
    cbn. apply wrap32_small. lia.
  - intros j Hj Hjr. rewrite !qty_at_fields, Hf. unfold traded.
    by rewrite !list_lookup_insert_ne.
Qed.

(** What a round that trades does, in terms of the ghost queues. *)
Lemma trade_step_spec e G ib id price sd q side fill e' :
  book_inv e G → inflight e G ib id price sd q → trade_step side ib e fill e' →
  ∃ t r l o G',
    0 < q ∧ 0 ≤ t < MAX_PRICE_TICKS ∧ G side t = r :: l ∧
    MatchingEngine.orders e !! r = Some o ∧
    fill = mkTrade id (Order.id o) t (Z.min q (Order.qty o)) r ∧
    book_inv e' G' ∧ inflight e' G' ib id price sd (q - Z.min q (Order.qty o)) ∧
    ((G' = G ∧ q < Order.qty o) ∨ (G' = upd G side t l ∧ Order.qty o ≤ q)) ∧
    free_handles (MatchingEngine.pool_ e')
      = free_handles (MatchingEngine.pool_ e)
        ++ (if decide (Order.qty o ≤ q) then [r] else []) ∧
    qty_at (MatchingEngine.orders e') r = Order.qty o - Z.min q (Order.qty o) ∧
    (∀ j, j ≠ ib → j ≠ r →
          qty_at (MatchingEngine.orders e') j = qty_at (MatchingEngine.orders e) j) ∧
    (∀ x, 0 ≤ x < MAX_PRICE_TICKS → G side x ≠ [] → better side t x).
Proof.
  intros Hinv Hfl [i best level Hi Hpos Hbest Hst Hlevel Hex].
  rewrite (at_lookup _ _ _ (fl_order Hfl)) in Hi. injection Hi as <-.
  cbn [Order.qty Order.price] in *. apply Z.gtb_lt in Hpos.
  destruct (best_price_spec side (tracker side (MatchingEngine.book_ e)) price
              (inv_tracker_wf Hinv side)) as (b & Hb & Hcase).
  rewrite Hbest in Hb. injection Hb as <-.
  destruct Hcase as [?|(Hbr & Hact & Hbetter)]; [congruence|].
  apply (inv_active Hinv side best Hbr) in Hact.
  destruct (G side best) as [|r l] eqn:HG; [done|]. clear Hact.
  destruct (inv_queue Hinv side best Hbr) as (lvl & Hlvl & Hqueue).
  rewrite HG in Hqueue. rewrite (at_lookup _ _ _ Hlvl) in Hlevel. injection Hlevel as <-.
  destruct Hqueue as [Hchain _]. apply chain_head in Hchain. rewrite Hchain in Hex.
  cbn [list.head] in Hex.
  destruct (executeTrade_spec e G ib id price sd q side best r l Hinv Hfl Hpos Hbr HG)
    as (e1 & o & G1 & Ho & Hex1 & Hf & _ & Hinv1 & Hfl1 & _ & Hcase & _ & Hfree).
  destruct (executeTrade_quantities e G ib id price sd q side best r l _ _ _ _ o
              Hinv Hfl HG Ho Hex) as [Hqr Hqj].
  rewrite Hex in Hex1. injection Hex1 as <- ->.
  exists best, r, l, o, G1. repeat (split; [done|]).
  intros x Hx Hne. apply Hbetter; [done|]. by apply (inv_active Hinv).
Qed.

(** The states inside a call satisfy the loop invariant. *)
Lemma mid_call_inv e G c ib e1 :
  book_inv e G → valid_call c → mid_call e c ib e1 →
  ∃ G1 q, book_inv e1 G1 ∧
          inflight e1 G1 ib (call_id c) (call_price c) (call_is_buy c) q.
Proof.
  intros Hinv [Hp Hq]. induction 1 as [p Hal|e1 fill e2 _ (G1 & q & Hinv1 & Hfl1) Hstep].
  - destruct (decide (OrderPool.free_idx_ (MatchingEngine.pool_ e) = 0%nat)) as [Hz|Hnz].
    { unfold OrderPool.allocate in Hal. by rewrite Hz in Hal. }
    destruct (allocate_spec e G (call_id c) (call_price c) (call_qty c) (call_is_buy c) Hinv)
      as (p' & ib' & Hal' & Hinv0 & Hfl0 & _); [lia|done|].
    rewrite Hal in Hal'. injection Hal' as <- <-. eauto.
  - destruct (trade_step_spec _ _ _ _ _ _ _ _ _ _ Hinv1 Hfl1 Hstep)
      as (t & r & l & o & G2 & _ & _ & _ & _ & _ & Hinv2 & Hfl2 & _). eauto.
Qed.

Lemma partially_filled_cons m m' f fills :
  fills ≠ [] →
  (∀ f', f' ∈ fills → qty_at m' (resting_handle f') = qty_at m (resting_handle f')) →
  partially_filled m (f :: fills) = partially_filled m' fills.
Proof.
  intros Hne Hsame. unfold partially_filled.
  destruct fills as [|f2 fills]; [done|]. change (list.last (f :: f2 :: fills)) with (list.last (f2 :: fills)).
  destruct (list.last (f2 :: fills)) as [f'|] eqn:Hlast; [|done].
  rewrite Hsame; [done|]. apply last_Some in Hlast as [l' ->].
  apply elem_of_app. right. left.
Qed.

(** The quantities and the priority order after a run of a matching loop:
    every consumed order but the last is filled in full, each consumed order
    loses what its fill took, no other order's quantity changes, and the
    consumed orders leave the side, except the last one when a remainder of
    it is left. *)
Lemma matchOrder_quantities side fuel : ∀ e G ib id price sd q e' fills,
  book_inv e G → inflight e G ib id price sd q →
  matchOrder side fuel ib e = Ok (e', fills) →
  (∀ j f, fills !! j = Some f →
     0 < trade_qty f ≤ qty_at (MatchingEngine.orders e) (resting_handle f) ∧
     qty_at (MatchingEngine.orders e') (resting_handle f)
     = qty_at (MatchingEngine.orders e) (resting_handle f) - trade_qty f ∧
     ((S j < length fills)%nat →
      trade_qty f = qty_at (MatchingEngine.orders e) (resting_handle f))) ∧
  (∀ i, i ≠ ib → i ∉ resting_handle <$> fills →
        qty_at (MatchingEngine.orders e') i = qty_at (MatchingEngine.orders e) i) ∧
  priority side e'
  = partially_filled (MatchingEngine.orders e) fills ++ drop (length fills) (priority side e).
Proof.
  induction fuel as [|fuel IH]; intros e G ib id price sd q e' fills Hinv Hfl Hrun; [done|].
  assert (∀ e0 : MatchingEngine.t,
    (∀ j f, @nil Trade !! j = Some f →
       0 < trade_qty f ≤ qty_at (MatchingEngine.orders e0) (resting_handle f) ∧
       qty_at (MatchingEngine.orders e0) (resting_handle f)
       = qty_at (MatchingEngine.orders e0) (resting_handle f) - trade_qty f ∧
       ((S j < length (@nil Trade))%nat →
        trade_qty f = qty_at (MatchingEngine.orders e0) (resting_handle f))) ∧
    (∀ i, i ≠ ib → i ∉ resting_handle <$> @nil Trade →
          qty_at (MatchingEngine.orders e0) i = qty_at (MatchingEngine.orders e0) i) ∧
    priority side e0
    = partially_filled (MatchingEngine.orders e0) [] ++ drop (length (@nil Trade)) (priority side e0))
    as Hnil.
  { intros e0. split; [done|]. split; done. }
  pose proof (fl_qty Hfl) as Hq.
  cbn [matchOrder] in Hrun. rewrite (at_lookup _ _ _ (fl_order Hfl)), bind_Ok in Hrun.
  cbn [Order.qty Order.price] in Hrun.
  destruct (Z.gtb_spec q 0) as [Hpos|]; [|injection Hrun as <- <-; apply Hnil].
  destruct (best_price_spec side (tracker side (MatchingEngine.book_ e)) price
              (inv_tracker_wf Hinv side)) as (b & Hb & Hcase).
  rewrite Hb, bind_Ok in Hrun.
  destruct (stops side b price) eqn:Hst; [injection Hrun as <- <-; apply Hnil|].
  destruct Hcase as [?|(Hbr & Hact & Hbetter)]; [congruence|].
  apply (inv_active Hinv side b Hbr) in Hact.
  destruct (G side b) as [|r l] eqn:HG; [done|]. clear Hact.
  destruct (inv_queue Hinv side b Hbr) as (lvl & Hlvl & Hqueue).
  rewrite HG in Hqueue. rewrite (at_lookup _ _ _ Hlvl), bind_Ok in Hrun.
  destruct Hqueue as [Hchain _]. apply chain_head in Hchain. rewrite Hchain in Hrun.
  cbn [list.head] in Hrun.
  destruct (executeTrade_spec e G ib id price sd q side b r l Hinv Hfl Hpos Hbr HG)
    as (e1 & o & G1 & Ho & Hex & Hf & _ & Hinv1 & Hfl1 & _ & Hcase & _ & _).
  destruct (executeTrade_quantities e G ib id price sd q side b r l _ _ _ _ o
              Hinv Hfl HG Ho Hex) as [Hqr Hqj].
  rewrite Hex, bind_Ok in Hrun.
  apply bind_Ok_inv in Hrun as ([e2 fills2] & Hrun2 & Hrun). injection Hrun as <- <-.
  pose proof (matchOrder_spec side fuel e1 G1 ib id price sd (q - Z.min q (Order.qty o))
                Hinv1 Hfl1) as Hspec.
  rewrite Hrun2 in Hspec. destruct Hspec as (G2 & q2 & Hinv2 & Hfl2 & Hpost).
  destruct (IH e1 G1 ib id price sd _ e2 fills2 Hinv1 Hfl1 Hrun2) as (HA & HB & HC).
  assert (prio side G = r :: prio side (upd G side b l)) as Hprio.
  { apply prio_best; [done|done|]. intros t Ht Hne. apply Hbetter; [done|].
    by apply (inv_active Hinv). }
  assert (∀ f', f' ∈ fills2 → ∃ x, resting_handle f' ∈ G1 side x) as Hhandles.
  { intros f' Hf'. pose proof (mp_fills Hpost) as Hall.
    rewrite Forall_forall in Hall. destruct (Hall f' Hf') as (_ & _ & Hin & _). eauto. }
  assert (r ∈ G side b) as Hr by (rewrite HG; left).
  assert (r ≠ ib) as Hrib by (intros ->; by apply (fl_unlinked Hfl side b)).
  pose proof (qty_at_lookup _ _ _ Ho) as Hqo.
  destruct (inv_resting Hinv _ _ _ Hr) as (o' & Ho' & _ & _ & Hrange). simplify_eq.
  rewrite (priority_prio e2 G2 side Hinv2) in *.
  rewrite (priority_prio e1 G1 side Hinv1) in HC.
  rewrite (priority_prio e G side Hinv), Hprio.
  destruct Hcase as [[-> Hlt]|[-> Hle]].
  - (* a remainder of the resting order is left: the inbound is filled *)
    assert (fills2 = []) as ->.
    { apply filled_qty_zero.
      - eapply Forall_impl; [apply (mp_fills Hpost)|]. by intros ? (_ & ? & _).
      - pose proof (fl_qty Hfl2) as Hq2. rewrite (mp_qty Hpost) in Hq2. lia. }
    rewrite Z.min_l in * by lia.
    assert (qty_at (MatchingEngine.orders e2) r = Order.qty o - q) as Hr2.
    { rewrite HB; [done|done|]. cbn. apply not_elem_of_nil. }
    split; [|split].
    + intros [|j] f Hj; [|done]. injection Hj as <-. cbn [trade_qty resting_handle length].
      rewrite Hr2, Hqo. split; [lia|]. split; [done|lia].
    + intros i Hi Hnot. rewrite HB; [|done|cbn; apply not_elem_of_nil].
      apply Hqj; [done|]. intros ->. apply Hnot. cbn. left.
    + rewrite HC, Hprio. unfold partially_filled. cbn [list.last trade_qty resting_handle].
      rewrite Hqo, decide_True by lia. done.
  - (* the resting order is filled and leaves its level *)
    rewrite Z.min_r in * by lia.
    assert (∀ s x, r ∉ upd G side b l s x) as Hgone.
    { intros s x Hin. pose proof (inv_nodup Hinv side b) as Hnd. rewrite HG in Hnd.
      apply NoDup_cons in Hnd as [Hnd _].
      destruct (decide (s = side ∧ x = b)) as [[-> ->]|Hsx].
      - by rewrite upd_eq in Hin.
      - rewrite upd_ne in Hin by done. apply Hsx.
        by apply (book_inv_unique e G r). }
    assert (∀ f', f' ∈ fills2 → resting_handle f' ≠ r ∧ resting_handle f' ≠ ib) as Hother.
    { intros f' Hf'. destruct (Hhandles f' Hf') as [x Hin]. split.
      - intros Heq. rewrite Heq in Hin. by apply Hgone in Hin.
      - intros Heq. rewrite Heq in Hin. by apply (fl_unlinked Hfl1) in Hin. }
    assert (r ∉ resting_handle <$> fills2) as Hrnot.
    { intros (f' & Heq & Hf')%list_elem_of_fmap. by destruct (Hother f' Hf'). }
    split; [|split].
    + intros [|j] f Hj.
      * injection Hj as <-. cbn [trade_qty resting_handle].
        rewrite (HB r Hrib Hrnot), Hqr, Hqo. split; [lia|]. split; [lia|done].
      * cbn in Hj. destruct (HA j f Hj) as (H1 & H2 & H3).
        destruct (Hother f (list_elem_of_lookup_2 _ _ _ Hj)) as [? ?].
        rewrite Hqj in H1, H2, H3 by done.
        split; [done|]. split; [done|]. cbn [length]. intros ?. apply H3. lia.
    + intros i Hi Hnot. cbn in Hnot. apply not_elem_of_cons in Hnot as [? ?].
      rewrite HB by done. by apply Hqj.
    + rewrite HC. cbn [length drop]. f_equal.
      destruct (decide (fills2 = [])) as [->|Hne].
      * unfold partially_filled. cbn [list.last trade_qty resting_handle].
        rewrite Hqo, decide_False by lia. done.
      * symmetry. apply partially_filled_cons; [done|].
        intros f' Hf'. destruct (Hother f' Hf'). by apply Hqj.
Qed.

Lemma partially_filled_ext m m' fills :
  (∀ f, f ∈ fills → qty_at m' (resting_handle f) = qty_at m (resting_handle f)) →
  partially_filled m' fills = partially_filled m fills.
Proof.
  intros Hsame. unfold partially_filled.
  destruct (list.last fills) as [f|] eqn:Hlast; [|done].
  rewrite Hsame; [done|]. apply last_Some in Hlast as [l' ->].
  apply elem_of_app. right. left.
Qed.

(** The same for one call of [processNewOrder] that returns, with what
    becomes of the inbound order: its record is the top of the free stack;
    it rests with the unfilled remainder when there is one, and goes back to
    the top of the free stack when there is none. *)
Lemma processNewOrder_quantities fuel id price q sd e G e' fills :
  book_inv e G → 0 ≤ price < MAX_PRICE_TICKS → 0 < q < 2 ^ 32 →
  MatchingEngine.processNewOrder fuel id price q sd e = Ok (e', Return fills) →
  (∀ j f, fills !! j = Some f →
     0 < trade_qty f ≤ qty_at (MatchingEngine.orders e) (resting_handle f) ∧
     qty_at (MatchingEngine.orders e') (resting_handle f)
     = qty_at (MatchingEngine.orders e) (resting_handle f) - trade_qty f ∧
     ((S j < length fills)%nat →
      trade_qty f = qty_at (MatchingEngine.orders e) (resting_handle f))) ∧
  (∀ i, resting e i → i ∉ resting_handle <$> fills →
        qty_at (MatchingEngine.orders e') i = qty_at (MatchingEngine.orders e) i) ∧
  priority (negb sd) e'
  = partially_filled (MatchingEngine.orders e) fills
    ++ drop (length fills) (priority (negb sd) e) ∧
  ∃ ib, list.last (free_handles (MatchingEngine.pool_ e)) = Some ib ∧
        if decide (filled_qty fills < q)
        then resting e' ib ∧ qty_at (MatchingEngine.orders e') ib = q - filled_qty fills
        else ¬ resting e' ib ∧
             list.last (free_handles (MatchingEngine.pool_ e')) = Some ib.
Proof.
  intros Hinv Hp Hq Hrun. unfold MatchingEngine.processNewOrder in Hrun.
  destruct (decide (OrderPool.free_idx_ (MatchingEngine.pool_ e) = 0%nat)) as [Hz|Hnz].
  { unfold OrderPool.allocate in Hrun. rewrite Hz in Hrun. cbn in Hrun. congruence. }
  destruct (allocate_spec e G id price q sd Hinv) as (p & ib & Hal & Hinv0 & Hfl0 & _ & Hsame0);
    [lia|done|].
  rewrite Hal, bind_Ok in Hrun. cbv zeta in Hrun. rewrite match_loop_side in Hrun.
  apply allocate_inv in Hal as [Hfr _].
  set (e0 := MatchingEngine.mk _ p _) in *.
  assert (∀ j, j ≠ ib → qty_at (MatchingEngine.orders e0) j = qty_at (MatchingEngine.orders e) j)
    as Hq0.
  { intros j Hj. unfold qty_at. change (MatchingEngine.orders e0) with (OrderPool.pool_ p).
    by rewrite Hsame0. }
  assert (priority (negb sd) e0 = priority (negb sd) e) as Hprio0.
  { by rewrite (priority_prio e0 G _ Hinv0), (priority_prio e G _ Hinv). }
  clearbody e0.
  apply bind_Ok_inv in Hrun as ([e1 fills1] & Hloop & Hrun).
  pose proof (matchOrder_spec (negb sd) fuel e0 G ib id price sd q Hinv0 Hfl0) as Hspec.
  rewrite Hloop in Hspec. destruct Hspec as (G1 & q1 & Hinv1 & Hfl1 & Hpost).
  destruct (matchOrder_quantities (negb sd) fuel e0 G ib id price sd q e1 fills1
              Hinv0 Hfl0 Hloop) as (HA & HB & HC).
  rewrite (at_lookup _ _ _ (fl_order Hfl1)), bind_Ok in Hrun. cbn [Order.qty] in Hrun.
  pose proof (fl_qty Hfl1) as Hq1. pose proof (mp_qty Hpost) as Hq1'.
  assert (∀ f, f ∈ fills1 → resting_handle f ≠ ib) as Hnib.
  { intros f Hf. pose proof (mp_fills Hpost) as Hall. rewrite Forall_forall in Hall.
    destruct (Hall f Hf) as (_ & _ & Hin & _). intros Heq. rewrite Heq in Hin.
    by apply (fl_unlinked Hfl0) in Hin. }
  assert (∀ i, resting e i → i ≠ ib) as Hres.
  { intros i Hi ->. apply (resting_ghost e G ib Hinv) in Hi as (s & x & Hi).
    by apply (fl_unlinked Hfl0) in Hi. }
  assert (list.last (free_handles (MatchingEngine.pool_ e)) = Some ib) as Hlast.
  { rewrite Hfr. apply last_snoc. }
  assert (
    ∀ e2 : MatchingEngine.t,
      (∀ j, qty_at (MatchingEngine.orders e2) j = qty_at (MatchingEngine.orders e1) j) →
      priority (negb sd) e2 = priority (negb sd) e1 →
      (∀ j f, fills1 !! j = Some f →
         0 < trade_qty f ≤ qty_at (MatchingEngine.orders e) (resting_handle f) ∧
         qty_at (MatchingEngine.orders e2) (resting_handle f)
         = qty_at (MatchingEngine.orders e) (resting_handle f) - trade_qty f ∧
         ((S j < length fills1)%nat →
          trade_qty f = qty_at (MatchingEngine.orders e) (resting_handle f))) ∧
      (∀ i, resting e i → i ∉ resting_handle <$> fills1 →
            qty_at (MatchingEngine.orders e2) i = qty_at (MatchingEngine.orders e) i) ∧
      priority (negb sd) e2
      = partially_filled (MatchingEngine.orders e) fills1
        ++ drop (length fills1) (priority (negb sd) e)) as Hcommon.
  { intros e2 Hsame Hprio. split; [|split].
    - intros j f Hj. destruct (HA j f Hj) as (H1 & H2 & H3).
      pose proof (Hnib f (list_elem_of_lookup_2 _ _ _ Hj)) as Hne.
      rewrite Hq0 in H1, H2, H3 by done. by rewrite Hsame.
    - intros i Hi Hnot. rewrite Hsame, HB by (done || by apply Hres). apply Hq0. by apply Hres.
    - rewrite Hprio, HC, Hprio0. f_equal. apply partially_filled_ext.
      intros f Hf. apply Hq0. by apply Hnib. }
  destruct (Z.gtb_spec q1 0) as [Hrest|Hdone].
  - (* the remainder rests *)
    destruct (addOrder_spec e1 G1 ib id price sd q1 Hinv1 Hfl1 Hrest Hp)
      as (m' & b' & Had & Hinv' & _).
    rewrite Had, bind_Ok in Hrun. injection Hrun as <- <-.
    apply book_addOrder_fields in Had.
    set (e2 := MatchingEngine.mk b' _ _) in *.
    assert (∀ j, qty_at (MatchingEngine.orders e2) j = qty_at (MatchingEngine.orders e1) j)
      as Hsame.
    { intros j. by apply same_fields_qty_at. }
    destruct (Hcommon e2 Hsame) as (H1 & H2 & H3).
    { rewrite (priority_prio e2 _ _ Hinv'), (priority_prio e1 G1 _ Hinv1).
      apply prio_ext. intros x. apply upd_ne. intros [? _]. by destruct sd. }
    split; [done|]. split; [done|]. split; [done|].
    exists ib. split; [done|]. rewrite decide_True by lia. split.
    + apply (resting_ghost e2 _ ib Hinv'). exists sd, price. rewrite upd_eq.
      apply elem_of_app. right. left.
    + rewrite Hsame. rewrite (qty_at_lookup _ _ _ (fl_order Hfl1)). cbn. lia.
  - (* the inbound is filled: its record goes back to the pool *)
    destruct (deallocate_inbound_spec e1 G1 ib id price sd q1 Hinv1 Hfl1)
      as (p' & Hd & Hm & Hinv').
    rewrite Hd, bind_Ok in Hrun. injection Hrun as <- <-.
    apply deallocate_inv in Hd as [_ Hfree].
    set (e2 := MatchingEngine.mk _ p' _) in *.
    assert (∀ j, qty_at (MatchingEngine.orders e2) j = qty_at (MatchingEngine.orders e1) j)
      as Hsame.
    { intros j. change (MatchingEngine.orders e2) with (OrderPool.pool_ p'). by rewrite Hm. }
    destruct (Hcommon e2 Hsame) as (H1 & H2 & H3).
    { by rewrite (priority_prio e2 _ _ Hinv'), (priority_prio e1 G1 _ Hinv1). }
    split; [done|]. split; [done|]. split; [done|].
    exists ib. split; [done|]. rewrite decide_False by lia. split.
    + intros (s & x & Hi)%(resting_ghost e2 G1 ib Hinv'). by apply (fl_unlinked Hfl1) in Hi.
    + change (MatchingEngine.pool_ e2) with p'. rewrite Hfree. apply last_snoc.
Qed.


(** * Properties of the specification *)

(** ** Price index (C9) *)

(** Idempotence on every state that satisfies the representation invariant. *)
Lemma set_clear_idempotent_wf tr t :
  tracker_wf tr → 0 ≤ t < MAX_PRICE_TICKS →
  (∃ tr1, FastPriceTracker.setPriceLevel t tr = Ok tr1 ∧
          FastPriceTracker.setPriceLevel t tr1 = Ok tr1) ∧
  (∃ tr1, FastPriceTracker.clearPriceLevel t tr = Ok tr1 ∧
          FastPriceTracker.clearPriceLevel t tr1 = Ok tr1) ∧
  (active tr t = false → FastPriceTracker.clearPriceLevel t tr = Ok tr).
Proof.
  intros Hwf Ht. destruct (tracker_word tr t Hwf Ht) as [w Hw].
  pose proof (lookup_lt_Some _ _ _ Hw) as Hlt.
  assert (0 ≤ t / 64 < 64) as Hwi by (unfold MAX_PRICE_TICKS in Ht; divmod).
  assert (0 ≤ t mod 64 < 64) as Hbi by divmod.
  split; [|split].
  - unfold FastPriceTracker.setPriceLevel. rewrite (at_lookup _ _ _ Hw). simpl.
    eexists; split; [done|]. simpl.
    rewrite (at_lookup _ _ (Z.lor w (Z.shiftl 1 (t mod 64)))) by (by apply list_lookup_insert_eq).
    simpl. rewrite list_insert_insert_eq.
    rewrite <- !Z.lor_assoc, !Z.lor_diag. done.
  - unfold FastPriceTracker.clearPriceLevel. rewrite (at_lookup _ _ _ Hw). simpl.
    set (w' := Z.land w (not64 (Z.shiftl 1 (t mod 64)))).
    assert (Z.land w' (not64 (Z.shiftl 1 (t mod 64))) = w') as Hid.
    { unfold w'. by rewrite <- Z.land_assoc, Z.land_diag. }
    destruct (Z.eqb_spec w' 0) as [Hz|Hnz].
    + eexists; split; [done|]. simpl.
      rewrite (at_lookup _ _ w') by (by apply list_lookup_insert_eq).
      simpl. rewrite Hid, list_insert_insert_eq.
      destruct (Z.eqb_spec w' 0); [|done].
      by rewrite <- Z.land_assoc, Z.land_diag.
    + eexists; split; [done|]. simpl.
      rewrite (at_lookup _ _ w') by (by apply list_lookup_insert_eq).
      simpl. rewrite Hid, list_insert_insert_eq.
      destruct (Z.eqb_spec w' 0); done.
  - intros Hina. unfold active in Hina. rewrite Hw in Hina.
    unfold FastPriceTracker.clearPriceLevel. rewrite (at_lookup _ _ _ Hw). simpl.
    rewrite land_not64_bit_id by (done || lia || by eapply wf_word).
    rewrite list_insert_id by done.
    destruct (Z.eqb_spec w 0) as [Hz|Hnz]; [|by destruct tr].
    rewrite land_not64_bit_id; [by destruct tr|apply Hwf|lia|].
    pose proof (wf_bit Hwf _ _ Hw) as Hiff. rewrite Z2Nat.id in Hiff by lia.
    destruct (Z.testbit _ (t / 64)); [|done]. by destruct Hiff as [Hiff _]; destruct Hiff.
Qed.

(** Every state of the index satisfies the representation invariant. *)
Lemma index_state_wf tr : index_state tr → tracker_wf tr.
Proof.
  induction 1 as [|tr t tr' _ IH Ht Hset|tr t tr' _ IH Ht Hclr].
  - apply tracker_wf_new.
  - destruct (setPriceLevel_spec tr t IH Ht) as (tr1 & Heq & Hwf & _). congruence.
  - destruct (clearPriceLevel_spec tr t IH Ht) as (tr1 & Heq & Hwf & _). congruence.
Qed.

(** C9: for every tick [t] of the domain and every Price Index state,
    [setPriceLevel t] applied twice gives the same summary word and data
    words as applied once, the same holds for [clearPriceLevel t], and
    [clearPriceLevel t] on a tick that is not active leaves the state
    unchanged. *)
Theorem C9_set_clear_idempotent tr t :
  index_state tr → 0 ≤ t < MAX_PRICE_TICKS →
  (∃ tr1, FastPriceTracker.setPriceLevel t tr = Ok tr1 ∧
          FastPriceTracker.setPriceLevel t tr1 = Ok tr1) ∧
  (∃ tr1, FastPriceTracker.clearPriceLevel t tr = Ok tr1 ∧
          FastPriceTracker.clearPriceLevel t tr1 = Ok tr1) ∧
  (active tr t = false → FastPriceTracker.clearPriceLevel t tr = Ok tr).
Proof. intros Hst Ht. apply set_clear_idempotent_wf; [by apply index_state_wf|done]. Qed.

(** The index of a fresh engine, at tick 100. *)
Lemma C9_set_clear_idempotent_witness :
  (∃ tr1, FastPriceTracker.setPriceLevel 100 FastPriceTracker.new = Ok tr1 ∧
          FastPriceTracker.setPriceLevel 100 tr1 = Ok tr1) ∧
  (∃ tr1, FastPriceTracker.clearPriceLevel 100 FastPriceTracker.new = Ok tr1 ∧
          FastPriceTracker.clearPriceLevel 100 tr1 = Ok tr1) ∧
  (active FastPriceTracker.new 100 = false →
   FastPriceTracker.clearPriceLevel 100 FastPriceTracker.new = Ok FastPriceTracker.new).
Proof.
  apply (C9_set_clear_idempotent FastPriceTracker.new 100).
  - constructor.
  - unfold MAX_PRICE_TICKS. lia.
Defined.

(** ** Rejected orders (C7, C6) *)

(** C7: when the arena has no free slot ([free_idx_ == 0]), [processNewOrder]
    ends with the exception [OrderPool exhausted] that [allocate] throws, the
    exception reaches the caller, and the engine state (book, indices, pool,
    free stack, trade counter) is the one before the call: the inbound was
    not matched at all. *)
Theorem C7_arena_exhausted fuel id price qty is_buy e :
  OrderPool.free_idx_ (MatchingEngine.pool_ e) = 0%nat →
  MatchingEngine.processNewOrder fuel id price qty is_buy e
  = Ok (e, Throw OrderPool_exhausted).
Proof.
  intros Hz. unfold MatchingEngine.processNewOrder, OrderPool.allocate.
  rewrite Hz. cbn. by destruct e.
Qed.

(** Scenario F: after four resting orders in an arena of four records, the
    fifth order is refused and the state stays. *)
Lemma C7_arena_exhausted_witness :
  run 8 scenario_F (MatchingEngine.new 4)
    = Ok (scenario_F_engine, [Return []; Return []; Return []; Return []]) ∧
  OrderPool.free_idx_ (MatchingEngine.pool_ scenario_F_engine) = 0%nat ∧
  MatchingEngine.processNewOrder 8 5 102 5 true scenario_F_engine
    = Ok (scenario_F_engine, Throw OrderPool_exhausted).
Proof.
  assert (OrderPool.free_idx_ (MatchingEngine.pool_ scenario_F_engine) = 0%nat) as H
    by (vm_compute; reflexivity).
  split; [vm_compute; reflexivity|]. split; [exact H|].
  exact (C7_arena_exhausted 8 5 102 5 true scenario_F_engine H).
Defined.

(** C6, as the code has it: [processNewOrder] has no [InvalidOrder] check.
    A call with [qty == 0], made while the arena has a free slot, returns
    normally: it emits no trade, rests no order and leaves the book, both
    indices, the free stack and the trade counter as they were; only the
    arena record on top of the free stack now holds the fields of the call.
    (Nothing is said about a price outside the tick domain.) *)
Theorem C6_zero_quantity fuel id price is_buy e idx o :
  (0 < fuel)%nat →
  OrderPool.free_idx_ (MatchingEngine.pool_ e) ≠ 0%nat →
  OrderPool.free_list_ (MatchingEngine.pool_ e)
    !! (OrderPool.free_idx_ (MatchingEngine.pool_ e) - 1)%nat = Some idx →
  MatchingEngine.orders e !! idx = Some o →
  MatchingEngine.processNewOrder fuel id price 0 is_buy e
  = Ok (MatchingEngine.mk
          (MatchingEngine.book_ e)
          (MatchingEngine.set_orders
             (<[idx := Order.mk id price 0 is_buy None None]> (MatchingEngine.orders e))
             (MatchingEngine.pool_ e))
          (MatchingEngine.trades_executed_ e),
        Return []).
Proof.
  intros Hfuel Hfi Hidx Ho. destruct e as [book [m fl fi] trades]. norm.
  destruct fi as [|fi]; [done|]. replace (S fi - 1)%nat with fi in Hidx by lia.
  destruct fuel as [|fuel]; [lia|].
  pose proof (lookup_lt_Some _ _ _ Ho) as Hlt.
  unfold MatchingEngine.processNewOrder, OrderPool.allocate. norm.
  cbn [Nat.eqb]. replace (S fi - 1)%nat with fi by lia.
  rewrite (at_lookup _ _ _ Hidx), bind_Ok, (at_lookup _ _ _ Ho), !bind_Ok.
  assert (<[idx := Order.mk id price 0 is_buy None None]> m !! idx
          = Some (Order.mk id price 0 is_buy None None)) as Hnew
    by (by apply list_lookup_insert_eq).
  assert ((if is_buy
           then MatchingEngine.matchBuyOrder (S fuel) idx
                  (MatchingEngine.mk book
                     (OrderPool.mk (<[idx := Order.mk id price 0 is_buy None None]> m) fl fi) trades)
           else MatchingEngine.matchSellOrder (S fuel) idx
                  (MatchingEngine.mk book
                     (OrderPool.mk (<[idx := Order.mk id price 0 is_buy None None]> m) fl fi) trades))
          = Ok (MatchingEngine.mk book
                  (OrderPool.mk (<[idx := Order.mk id price 0 is_buy None None]> m) fl fi) trades,
                [])) as ->.
  { destruct is_buy; cbn [MatchingEngine.matchBuyOrder MatchingEngine.matchSellOrder];
      norm; rewrite (at_lookup _ _ _ Hnew), bind_Ok; done. }
  rewrite bind_Ok. norm. rewrite (at_lookup _ _ _ Hnew), bind_Ok. cbn [Order.qty Z.gtb Z.compare].
  unfold OrderPool.deallocate. norm. rewrite (at_lookup _ _ _ Hidx), bind_Ok.
  by rewrite (list_insert_id _ _ _ Hidx).
Qed.

(** A fresh engine of four records: slot 0 is on top of the free stack. *)
Lemma C6_zero_quantity_witness :
  MatchingEngine.processNewOrder 1 7 100 0 true (MatchingEngine.new 4)
  = Ok (MatchingEngine.mk
          (MatchingEngine.book_ (MatchingEngine.new 4))
          (MatchingEngine.set_orders
             (<[0%nat := Order.mk 7 100 0 true None None]>
                (MatchingEngine.orders (MatchingEngine.new 4)))
             (MatchingEngine.pool_ (MatchingEngine.new 4)))
          (MatchingEngine.trades_executed_ (MatchingEngine.new 4)),
        Return []).
Proof.
  apply (C6_zero_quantity 1 7 100 true (MatchingEngine.new 4) 0%nat Order.zero).
  - lia.
  - vm_compute. lia.
  - reflexivity.
  - reflexivity.
Defined.

(** C6 fails as stated: a call with [qty == 0] returns normally, with no
    error, and the arena is not as before; a buy at price 5000, outside the
    tick domain, is matched against a resting ask and fills it. *)
Lemma C6_counterexample :
  (∃ e', MatchingEngine.processNewOrder 8 7 100 0 true (MatchingEngine.new 4)
           = Ok (e', Return []) ∧
         MatchingEngine.orders e' ≠ MatchingEngine.orders (MatchingEngine.new 4)) ∧
  (∃ e0 e', MatchingEngine.processNewOrder 8 1 100 5 false (MatchingEngine.new 4)
              = Ok (e0, Return []) ∧
            MatchingEngine.processNewOrder 8 2 5000 5 true e0
              = Ok (e', Return [mkTrade 2 1 100 5 0]) ∧
            MatchingEngine.trades_executed_ e' = 1).
Proof.
  split.
  - eexists. split; [vm_compute; reflexivity|]. vm_compute. discriminate.
  - do 2 eexists. split; [vm_compute; reflexivity|].
    split; [vm_compute; reflexivity|]. reflexivity.
Qed.

(** ** The level queue (C8) *)

(** C8, evaluated on a queue of two orders: [pop_front] of hft_engine.cpp
    returns the head, gives the new head a null [prev] and keeps the order of
    the rest, but the returned record still has [next] pointing at the new
    head; [pop_front] of OrderBook.h clears both handles of the old head (and
    returns nothing). On an empty queue [pop_front] returns [nullptr]. *)
Theorem C8_pop_front_leaves_next :
  (∃ m l m' l',
     two_queued = Ok (m, l) ∧ level_handles m l = [0; 1]%nat ∧
     PriceLevel.pop_front m l = Ok (m', l', Some 0%nat) ∧
     level_handles m' l' = [1]%nat ∧
     Order.prev <$> m' !! 1%nat = Some None ∧
     Order.prev <$> m' !! 0%nat = Some None ∧
     Order.next <$> m' !! 0%nat = Some (Some 1%nat)) ∧
  (∃ m l m' l',
     two_queued_headers = Ok (m, l) ∧
     Headers.PriceLevel.pop_front m l = Ok (m', l') ∧
     Order.prev <$> m' !! 0%nat = Some None ∧
     Order.next <$> m' !! 0%nat = Some None) ∧
  (∀ m, PriceLevel.pop_front m PriceLevel.new = Ok (m, PriceLevel.new, None)).
Proof.
  split; [|split].
  - do 4 eexists. split; [vm_compute; reflexivity|]. by vm_compute.
  - do 4 eexists. split; [vm_compute; reflexivity|]. by vm_compute.
  - done.
Qed.

(** What [pop_front] of hft_engine.cpp does on every well-formed non-empty
    queue: the head is returned, the queue keeps the other orders in order,
    and no record changes except in its [prev] handle. *)
Lemma pop_front_queue m lvl i l :
  queue m lvl (i :: l) → NoDup (i :: l) →
  ∃ m' lvl', PriceLevel.pop_front m lvl = Ok (m', lvl', Some i) ∧
             queue m' lvl' l ∧ level_handles m' lvl' = l ∧
             ∀ j o, m !! j = Some o →
                    ∃ o', m' !! j = Some o' ∧ same_fields o o' ∧
                          Order.next o' = Order.next o.
Proof.
  intros Hq Hnd. destruct (pop_front_spec m lvl i l Hq Hnd)
    as (m' & lvl' & Hpop & Hq' & _ & _ & _ & Hkeep).
  exists m', lvl'. split; [done|]. split; [done|]. split; [|done].
  apply chain_level_handles; [done|]. by apply NoDup_cons in Hnd as [_ ?].
Qed.

(** ** The tick-0 sentinel (C1, C3) *)

(** C1, evaluated: a buy and then a sell, both valid and both at tick 0,
    return without a trade and leave the book crossed, with a resting bid and
    a resting ask at tick 0. *)
Theorem C1_crossed_book_at_tick_0 :
  forallb valid_callb tick0_calls = true ∧
  run 8 tick0_calls (MatchingEngine.new 4) = Ok (tick0_engine, [Return []; Return []]) ∧
  priority true tick0_engine = [0%nat] ∧
  priority false tick0_engine = [1%nat] ∧
  ¬ no_cross tick0_engine.
Proof.
  split; [reflexivity|]. split; [vm_compute; reflexivity|].
  split; [vm_compute; reflexivity|]. split; [vm_compute; reflexivity|].
  intros Hnc.
  assert (0 < 0)%nat; [|lia].
  eapply (Hnc 0%nat 0%nat); vm_compute; reflexivity.
Qed.

(** C3, evaluated: with a bid of 5 resting at tick 0, [getBestBid] answers 0,
    the value it also gives for an empty side, and an inbound sell of 5 at
    price 0 leaves the loop at once: no trade, the bid still rests. The buy
    side does match at its lowest tick: a buy at 0 takes an ask at 0. *)
Theorem C3_sell_at_0_skips_bid_at_0 :
  (∃ e1 e2,
     submit 8 (mkCall 1 0 5 true) (MatchingEngine.new 4) = Ok (e1, Return []) ∧
     priority true e1 = [0%nat] ∧
     FastPriceTracker.getBestBid (OrderBook.bid_tracker_ (MatchingEngine.book_ e1)) = Ok 0 ∧
     FastPriceTracker.getBestBid FastPriceTracker.new = Ok 0 ∧
     submit 8 (mkCall 2 0 5 false) e1 = Ok (e2, Return []) ∧
     priority true e2 = [0%nat] ∧
     MatchingEngine.trades_executed_ e2 = 0) ∧
  (∃ e1 e2,
     submit 8 (mkCall 1 0 5 false) (MatchingEngine.new 4) = Ok (e1, Return []) ∧
     submit 8 (mkCall 2 0 5 true) e1 = Ok (e2, Return [mkTrade 2 1 0 5 0]) ∧
     priority false e2 = []).
Proof.
  split.
  - do 2 eexists. split; [vm_compute; reflexivity|]. by vm_compute.
  - do 2 eexists. split; [vm_compute; reflexivity|]. by vm_compute.
Qed.

(** ** Where the book cannot cross *)

(** When a matching loop returns, the inbound is exhausted or the best price
    of the opposite side stops the loop. *)
Lemma matchOrder_exit side fuel : ∀ ib e e' fills,
  matchOrder side fuel ib e = Ok (e', fills) →
  ∃ i, MatchingEngine.orders e' !! ib = Some i ∧
       (Order.qty i ≤ 0 ∨
        ∃ b, best_price side (tracker side (MatchingEngine.book_ e')) = Ok b ∧
             stops side b (Order.price i) = true).
Proof.
  induction fuel as [|fuel IH]; intros ib e e' fills Hrun; [done|].
  cbn [matchOrder] in Hrun.
  destruct (at_ (MatchingEngine.orders e) ib) as [i| |] eqn:Hi; [|done..].
  rewrite bind_Ok in Hrun. apply at_Ok in Hi.
  destruct (Z.gtb_spec (Order.qty i) 0) as [Hpos|Hzero].
  2:{ simplify_eq. exists i. split; [done|]. by left. }
  destruct (best_price side _) as [b| |] eqn:Hb; [|done..].
  rewrite bind_Ok in Hrun.
  destruct (stops side b (Order.price i)) eqn:Hstop.
  { simplify_eq. exists i. split; [done|]. right. eauto. }
  destruct (at_ _ (Z.to_nat b)) as [lvl| |]; [|done..]. rewrite bind_Ok in Hrun.
  destruct (MatchingEngine.executeTrade _ _ _ _ _ _) as [[e1 fill]| |]; [|done..].
  rewrite bind_Ok in Hrun.
  destruct (matchOrder side fuel ib e1) as [[e2 fills2]| |] eqn:Hrec; [|done..].
  rewrite bind_Ok in Hrun. simplify_eq. by eapply IH.
Qed.

(** The ticks a stopping best price leaves occupied: asks above the limit;
    bids below the limit, or at tick 0. *)
Lemma stops_occupied e G side b price :
  book_inv e G →
  best_price side (tracker side (MatchingEngine.book_ e)) = Ok b →
  stops side b price = true →
  ∀ x, G side x ≠ [] → if side then x < price ∨ x = 0 else price < x.
Proof.
  intros Hinv Hb Hstop x Hx.
  assert (0 ≤ x < MAX_PRICE_TICKS) as Hxr.
  { destruct (decide (0 ≤ x < MAX_PRICE_TICKS)) as [|Hout]; [done|].
    by rewrite (inv_outside Hinv side x Hout) in Hx. }
  pose proof (proj2 (inv_active Hinv side x Hxr) Hx) as Hact.
  pose proof (inv_tracker_wf Hinv side) as Hwf.
  destruct side; cbn [best_price stops] in *.
  - destruct (getBestBid_spec _ Hwf) as (b' & Hb' & Hcase). rewrite Hb in Hb'. simplify_eq.
    destruct Hcase as [[-> Hnone]|(_ & _ & Hmax)].
    + rewrite Hnone in Hact by done. done.
    + specialize (Hmax x Hxr Hact). apply orb_prop in Hstop as [?%Z.ltb_lt|?%Z.eqb_eq]; lia.
  - destruct (getBestAsk_spec _ Hwf) as (b' & Hb' & Hcase). rewrite Hb in Hb'. simplify_eq.
    destruct Hcase as [[-> Hnone]|(Hrange & _ & Hmin)].
    + rewrite Hnone in Hact by done. done.
    + specialize (Hmin x Hxr Hact). apply orb_prop in Hstop as [?%Z.gtb_lt|?%Z.eqb_eq]; lia.
Qed.

Lemma book_inv_ghost_unique e G G' :
  book_inv e G → book_inv e G' → ∀ s x, G s x = G' s x.
Proof.
  intros Hinv Hinv' s x. destruct (decide (0 ≤ x < MAX_PRICE_TICKS)) as [Hx|Hout].
  - destruct (inv_queue Hinv s x Hx) as (lvl & Hlvl & [Hc _]).
    destruct (inv_queue Hinv' s x Hx) as (lvl' & Hlvl' & [Hc' _]).
    simplify_eq. by eapply chain_inj.
  - by rewrite (inv_outside Hinv s x Hout), (inv_outside Hinv' s x Hout).
Qed.

(** The book seen through the ghost queues. *)
Lemma no_cross_ghost e G :
  book_inv e G →
  no_cross e ↔ ∀ b a, G true b ≠ [] → G false a ≠ [] → b < a.
Proof.
  intros Hinv.
  assert (∀ side t lvl, levels side (MatchingEngine.book_ e) !! t = Some lvl →
            PriceLevel.isEmpty lvl = false ↔ G side (Z.of_nat t) ≠ []) as Hocc.
  { intros side t lvl Hlvl.
    assert (0 ≤ Z.of_nat t < MAX_PRICE_TICKS) as Ht.
    { apply lookup_lt_Some in Hlvl. rewrite (inv_length Hinv) in Hlvl. lia. }
    destruct (inv_queue Hinv side _ Ht) as (lvl' & Hlvl' & [Hc _]).
    rewrite Nat2Z.id in Hlvl'. simplify_eq. apply chain_head in Hc.
    unfold PriceLevel.isEmpty. rewrite Hc. by destruct (G side (Z.of_nat t)). }
  split.
  - intros Hnc b a Hb Ha.
    pose proof (book_inv_in_range e G true b) as Hbr.
    pose proof (book_inv_in_range e G false a) as Har.
    destruct (G true b) as [|ib lb] eqn:HGb; [done|].
    destruct (G false a) as [|ia la] eqn:HGa; [done|].
    specialize (Hbr ib Hinv ltac:(left)). specialize (Har ia Hinv ltac:(left)).
    destruct (inv_queue Hinv true b Hbr) as (lvb & Hlvb & _).
    destruct (inv_queue Hinv false a Har) as (lva & Hlva & _).
    assert (Z.to_nat b < Z.to_nat a)%nat; [|lia].
    apply (Hnc _ _ lvb lva); [done|done| |].
    + apply (Hocc true _ _ Hlvb). rewrite Z2Nat.id by lia. by rewrite HGb.
    + apply (Hocc false _ _ Hlva). rewrite Z2Nat.id by lia. by rewrite HGa.
  - intros Hg b a lb la Hlb Hla Hb Ha.
    apply (Hocc true _ _ Hlb) in Hb. apply (Hocc false _ _ Hla) in Ha.
    specialize (Hg _ _ Hb Ha). lia.
Qed.

(** One valid call keeps the book uncrossed, as long as no bid sits at tick 0
    and the call is not a buy at price 0. *)
Lemma processNewOrder_no_cross fuel id price q sd e G e' G' fills :
  book_inv e G → 0 ≤ price < MAX_PRICE_TICKS → 0 < q < 2 ^ 32 →
  (sd = true → price ≠ 0) →
  MatchingEngine.processNewOrder fuel id price q sd e = Ok (e', Return fills) →
  book_inv e' G' →
  G true 0 = [] → (∀ b a, G true b ≠ [] → G false a ≠ [] → b < a) →
  G' true 0 = [] ∧ (∀ b a, G' true b ≠ [] → G' false a ≠ [] → b < a).
Proof.
  intros Hinv Hp Hq Hsd Hrun Hinv' Hzero Hnc.
  unfold MatchingEngine.processNewOrder in Hrun.
  destruct (decide (OrderPool.free_idx_ (MatchingEngine.pool_ e) = 0%nat)) as [Hz|Hnz].
  { unfold OrderPool.allocate in Hrun. rewrite Hz in Hrun. done. }
  destruct (allocate_spec e G id price q sd Hinv) as (p & ib & Hal & Hinv0 & Hfl0 & _);
    [lia|done|].
  rewrite Hal, bind_Ok in Hrun. cbv zeta in Hrun. rewrite match_loop_side in Hrun.
  set (e0 := MatchingEngine.mk _ p _) in *. clearbody e0.
  pose proof (matchOrder_spec (negb sd) fuel e0 G ib id price sd q Hinv0 Hfl0) as Hloop.
  destruct (matchOrder (negb sd) fuel ib e0) as [[e1 fills1]| |] eqn:Hmatch; [|done|done].
  destruct Hloop as (G1 & q1 & Hinv1 & Hfl1 & Hpost). rewrite bind_Ok in Hrun.
  pose proof (fl_order Hfl1) as Hib1.
  rewrite (at_lookup _ _ _ Hib1), bind_Ok in Hrun. cbn [Order.qty] in Hrun.
  pose proof (mp_sub Hpost) as Hsub.
  assert (∀ s x, G1 s x ≠ [] → G s x ≠ []) as Hsub'.
  { intros s x Hne Hnil. destruct (G1 s x) as [|i l] eqn:E; [done|].
    assert (i ∈ G s x) as Hi by (apply Hsub; rewrite E; left).
    rewrite Hnil in Hi. by apply elem_of_nil in Hi. }
  assert (G1 true 0 = []) as Hzero1.
  { destruct (G1 true 0) eqn:E; [done|]. exfalso. apply (Hsub' true 0); [by rewrite E|done]. }
  destruct (Z.gtb_spec q1 0) as [Hrest|Hdone].
  - destruct (addOrder_spec e1 G1 ib id price sd q1 Hinv1 Hfl1 Hrest Hp)
      as (m' & b' & Hadd & Hinv2 & _).
    rewrite Hadd, bind_Ok in Hrun. simplify_eq.
    pose proof (book_inv_ghost_unique _ _ _ Hinv2 Hinv') as Heq.
    destruct (matchOrder_exit _ _ _ _ _ _ Hmatch) as (i & Hi & Hexit).
    rewrite Hib1 in Hi. simplify_eq. cbn [Order.qty Order.price] in Hexit.
    destruct Hexit as [?|(b & Hb & Hstop)]; [lia|].
    pose proof (stops_occupied e1 G1 (negb sd) b price Hinv1 Hb Hstop) as Hocc.
    split.
    + rewrite <- Heq. unfold upd. case_decide as Hsx; [|done].
      destruct Hsx as [Hs Hp0]. symmetry in Hs, Hp0. by apply Hsd in Hs.
    + intros bb aa. rewrite <- !Heq. intros Hbb Haa. destruct sd; cbn [negb] in Hocc.
      * rewrite upd_ne in Haa by (intros [? _]; done).
        destruct (decide (bb = price)) as [->|Hne].
        -- by apply Hocc.
        -- rewrite upd_ne in Hbb by (intros [_ ?]; done). apply Hnc; by apply Hsub'.
      * rewrite upd_ne in Hbb by (intros [? _]; done).
        destruct (decide (aa = price)) as [->|Hne].
        -- destruct (Hocc bb Hbb) as [?|Hb0]; [done|]. rewrite Hb0 in Hbb. done.
        -- rewrite upd_ne in Haa by (intros [_ ?]; done). apply Hnc; by apply Hsub'.
  - destruct (deallocate_inbound_spec e1 G1 ib id price sd q1 Hinv1 Hfl1)
      as (p' & Hde & _ & Hinv2).
    rewrite Hde, bind_Ok in Hrun. simplify_eq.
    pose proof (book_inv_ghost_unique _ _ _ Hinv2 Hinv') as Heq.
    split; [by rewrite <- Heq|].
    intros bb aa. rewrite <- !Heq. intros Hbb Haa. apply Hnc; by apply Hsub'.
Qed.

Lemma trace_uncrossed n cs ts e :
  trace n cs ts e →
  Forall (λ c, call_is_buy c = true → call_price c ≠ 0) cs →
  no_cross e.
Proof.
  intros Htr Hcs.
  assert (∃ G, book_inv e G ∧ G true 0 = [] ∧
               ∀ b a, G true b ≠ [] → G false a ≠ [] → b < a) as (G & Hinv & _ & Hnc).
  { induction Htr as [|cs ts e fuel c e' fills _ IH [Hp Hq] Hsub
                      |cs ts e fuel c e' ex _ IH [Hp Hq] Hsub].
    - exists (λ _ _, []). split; [apply book_inv_new|]. split; [done|]. intros b a Hb _. by destruct Hb.
    - apply Forall_app in Hcs as [Hcs Hc]. apply Forall_cons_1 in Hc as [Hc _].
      destruct (IH Hcs) as (G & Hinv & Hzero & Hnc).
      pose proof (processNewOrder_spec fuel (call_id c) (call_price c) (call_qty c)
                    (call_is_buy c) e G Hinv Hp Hq) as Hspec.
      unfold submit in Hsub. rewrite Hsub in Hspec. destruct Hspec as (_ & G' & Hinv' & _).
      exists G'. split; [done|].
      exact (processNewOrder_no_cross fuel (call_id c) (call_price c) (call_qty c)
               (call_is_buy c) e G e' G' fills Hinv Hp Hq Hc Hsub Hinv' Hzero Hnc).
    - destruct (IH Hcs) as (G & Hinv & Hzero & Hnc).
      pose proof (processNewOrder_spec fuel (call_id c) (call_price c) (call_qty c)
                    (call_is_buy c) e G Hinv Hp Hq) as Hspec.
      unfold submit in Hsub. rewrite Hsub in Hspec. destruct Hspec as [-> _]. eauto. }
  by apply (no_cross_ghost e G Hinv).
Qed.

(** X3: as long as no buy order comes at price 0, the book never crosses. *)
Theorem no_cross_without_bid_at_0 n cs ts e :
  trace n cs ts e →
  Forall (λ c, call_is_buy c = true → call_price c ≠ 0) cs →
  no_cross e.
Proof. apply trace_uncrossed. Qed.

(** ** Termination (C2) *)

Lemma headers_updateBestBid_empty b i :
  (i ≤ length (Headers.OrderBook.bids_ b))%nat →
  (∀ j l, Headers.OrderBook.bids_ b !! j = Some l → Headers.PriceLevel.head l = None) →
  Headers.OrderBook.updateBestBid_loop i b
  = Ok (Headers.OrderBook.mk (Headers.OrderBook.asks_ b) (Headers.OrderBook.bids_ b)
                             (Headers.OrderBook.best_ask_ b) 0).
Proof.
  intros Hi Hempty. induction i as [|i IH]; [done|].
  cbn [Headers.OrderBook.updateBestBid_loop].
  destruct (lookup_lt_is_Some_2 (Headers.OrderBook.bids_ b) i) as [l Hl]; [lia|].
  rewrite (at_lookup _ _ _ Hl), bind_Ok, (Hempty _ _ Hl). apply IH. lia.
Qed.

(** The sell loop of MatchingEngine.h never leaves an empty bid side when
    the inbound's price is 0: [updateBestBid] puts [best_bid_] back to 0 and
    the loop condition [best_bid_ >= price] holds again. *)
Lemma headers_sell_at_0_spins fuel : ∀ ib e i,
  Headers.MatchingEngine.orders e !! ib = Some i →
  0 < Order.qty i → Order.price i = 0 →
  Headers.OrderBook.best_bid_ (Headers.MatchingEngine.book_ e) = 0 →
  length (Headers.OrderBook.bids_ (Headers.MatchingEngine.book_ e))
    = Z.to_nat Headers.MAX_PRICE_TICKS →
  (∀ j l, Headers.OrderBook.bids_ (Headers.MatchingEngine.book_ e) !! j = Some l →
          Headers.PriceLevel.head l = None) →
  Headers.MatchingEngine.matchSellOrder fuel ib e = OutOfFuel.
Proof.
  induction fuel as [|fuel IH]; intros ib e i Hi Hq Hp Hbest Hlen Hempty; [done|].
  cbn [Headers.MatchingEngine.matchSellOrder].
  rewrite (at_lookup _ _ _ Hi), bind_Ok, Hbest, Hp.
  replace (Order.qty i >? 0) with true by (symmetry; apply Z.gtb_lt; lia).
  change (0 >=? 0) with true. cbv zeta. change (Z.to_nat 0) with 0%nat. cbn [andb].
  destruct (lookup_lt_is_Some_2 (Headers.OrderBook.bids_ (Headers.MatchingEngine.book_ e)) 0)
    as [l Hl]; [rewrite Hlen; unfold Headers.MAX_PRICE_TICKS; lia|].
  rewrite (at_lookup _ _ _ Hl), bind_Ok, (Hempty _ _ Hl).
  unfold Headers.OrderBook.updateBestBid.
  rewrite headers_updateBestBid_empty by (done || lia). rewrite bind_Ok.
  by eapply IH.
Qed.

(** C2, evaluated on the header variant: on a fresh engine the valid call
    "sell 1 at price 0" does not return, whatever the fuel; the bid side is
    empty and the loop of [matchSellOrder] never exits. *)
Theorem C2_headers_sell_at_0_diverges fuel :
  Headers.MatchingEngine.processNewOrder fuel 1 0 1 false (Headers.MatchingEngine.new 4)
  = OutOfFuel.
Proof.
  unfold Headers.MatchingEngine.processNewOrder.
  change (OrderPool.allocate 1 0 1 false
            (Headers.MatchingEngine.pool_ (Headers.MatchingEngine.new 4)))
    with (Ok (OrderPool.mk (<[0%nat := Order.mk 1 0 1 false None None]> (replicate 4 Order.zero))
                           [3; 2; 1; 0]%nat 3%nat, Return 0%nat)).
  rewrite bind_Ok. cbv zeta.
  rewrite (headers_sell_at_0_spins fuel 0%nat _ (Order.mk 1 0 1 false None None)).
  - done.
  - done.
  - done.
  - done.
  - done.
  - apply length_replicate.
  - intros j l Hl. change (replicate (Z.to_nat Headers.MAX_PRICE_TICKS) Headers.PriceLevel.new
                             !! j = Some l) in Hl.
    apply lookup_replicate in Hl as [-> _]. done.
Qed.

(** X4: in hft_engine.cpp every valid call on a reachable state runs to
    completion: fuel beyond the order's quantity is never used up, and
    nothing undefined is met. *)
Theorem hft_processNewOrder_terminates n e c fuel :
  reachable n e → valid_call c → call_qty c < Z.of_nat fuel →
  ∃ e' r, submit fuel c e = Ok (e', r).
Proof.
  intros Hr [Hp Hq] Hfuel. destruct (reachable_inv _ _ Hr) as [G Hinv].
  pose proof (processNewOrder_spec fuel (call_id c) (call_price c) (call_qty c)
                (call_is_buy c) e G Hinv Hp Hq) as Hspec.
  unfold submit. destruct (MatchingEngine.processNewOrder _ _ _ _ _ _) as [[e' r]| |].
  - eauto.
  - done.
  - lia.
Qed.

(** The sell at price 0 on an empty bid side, in hft_engine.cpp. *)
Lemma hft_processNewOrder_terminates_witness :
  ∃ e' r, submit 2 (mkCall 1 0 1 false) (MatchingEngine.new 4) = Ok (e', r).
Proof.
  apply (hft_processNewOrder_terminates 4 (MatchingEngine.new 4) (mkCall 1 0 1 false) 2).
  - exists [], []. constructor.
  - apply valid_callb_spec. reflexivity.
  - cbn. lia.
Defined.

(** ** Conservation (C4) *)

(** C4, as the code has it: every fill takes its quantity off the inbound
    order and off the resting order alike, so for every sequence of valid
    calls twice the total filled quantity of the emitted trades equals the
    total quantity of the inbound orders that returned minus the total
    remaining quantity of the orders resting in the book. *)
Theorem C4_conservation n cs ts e :
  trace n cs ts e →
  2 * filled_qty ts = submitted_qty cs - resting_qty e.
Proof.
  intros Htr. destruct (trace_inv _ _ _ _ Htr) as (G & Hinv & Hsum).
  rewrite (resting_qty_gsum e G Hinv), Hsum. lia.
Qed.

Lemma exact_match_trace : trace 4 exact_match_calls [exact_match_fill] exact_match_engine.
Proof.
  apply (run_reachable 4 8 exact_match_calls exact_match_engine
           [Return []; Return [exact_match_fill]]).
  - reflexivity.
  - vm_compute. reflexivity.
  - reflexivity.
Qed.

(** An ask of 5 at tick 100, then a buy of 5 at 100: one fill of 5, nothing
    left in the book. *)
Lemma C4_conservation_witness :
  trace 4 exact_match_calls [exact_match_fill] exact_match_engine ∧
  2 * filled_qty [exact_match_fill]
  = submitted_qty exact_match_calls - resting_qty exact_match_engine.
Proof.
  split; [exact exact_match_trace|].
  exact (C4_conservation 4 exact_match_calls [exact_match_fill] exact_match_engine
                         exact_match_trace).
Defined.

(** C4 fails as stated: after the ask of 5 and the buy of 5 the trades fill 5
    in total, the inbound orders brought 10 and nothing rests. *)
Lemma C4_counterexample :
  trace 4 exact_match_calls [exact_match_fill] exact_match_engine ∧
  filled_qty [exact_match_fill] = 5 ∧
  submitted_qty exact_match_calls = 10 ∧
  resting_qty exact_match_engine = 0 ∧
  filled_qty [exact_match_fill]
  ≠ submitted_qty exact_match_calls - resting_qty exact_match_engine.
Proof.
  split; [exact exact_match_trace|].
  assert (resting_qty exact_match_engine = 0) as Hr by (vm_compute; reflexivity).
  split; [reflexivity|]. split; [reflexivity|]. split; [exact Hr|].
  rewrite Hr. vm_compute. discriminate.
Qed.

(** ** Resting quantities (C10) *)

(** C10: for every sequence of valid calls of [processNewOrder], (i) every
    order record linked into a level queue of the book has a strictly
    positive remaining quantity; (ii) inside every further valid call, each
    round of the matching loop that trades takes at most the resting order's
    quantity, leaves only records of positive quantity linked, and when the
    resting order's quantity reaches zero that order is out of its level and
    its record is on top of the free stack after that same round, while an
    order with a remainder stays linked and nothing is freed; (iii) the call
    runs to completion, and when it returns the inbound order rests exactly
    when its remainder after matching is positive: otherwise its record is
    not linked and is back on top of the free stack. *)
Theorem C10_resting_quantity_positive n e :
  reachable n e →
  (∀ i, resting e i → ∃ o, MatchingEngine.orders e !! i = Some o ∧ 0 < Order.qty o) ∧
  ∀ c, valid_call c →
    (∀ ib e1 fill e2,
       mid_call e c ib e1 → trade_step (negb (call_is_buy c)) ib e1 fill e2 →
       ∃ o, MatchingEngine.orders e1 !! resting_handle fill = Some o ∧
            resting e1 (resting_handle fill) ∧
            0 < trade_qty fill ≤ Order.qty o ∧
            qty_at (MatchingEngine.orders e2) (resting_handle fill)
            = Order.qty o - trade_qty fill ∧
            (∀ i, resting e2 i → 0 < qty_at (MatchingEngine.orders e2) i) ∧
            if decide (trade_qty fill = Order.qty o)
            then ¬ resting e2 (resting_handle fill) ∧
                 free_handles (MatchingEngine.pool_ e2)
                 = free_handles (MatchingEngine.pool_ e1) ++ [resting_handle fill]
            else resting e2 (resting_handle fill) ∧
                 free_handles (MatchingEngine.pool_ e2)
                 = free_handles (MatchingEngine.pool_ e1)) ∧
    (∀ fuel, call_qty c < Z.of_nat fuel →
       ∃ e' r, submit fuel c e = Ok (e', r) ∧
         ∀ fills, r = Return fills →
           ∃ ib, list.last (free_handles (MatchingEngine.pool_ e)) = Some ib ∧
                 if decide (filled_qty fills < call_qty c)
                 then resting e' ib ∧
                      qty_at (MatchingEngine.orders e') ib = call_qty c - filled_qty fills
                 else ¬ resting e' ib ∧
                      list.last (free_handles (MatchingEngine.pool_ e')) = Some ib).
Proof.
  intros Hr. destruct (reachable_inv _ _ Hr) as [G Hinv]. split.
  { intros i Hi. destruct (proj1 (resting_ghost e G i Hinv) Hi) as (side & t & Hi').
    destruct (inv_resting Hinv _ _ _ Hi') as (o & Ho & _ & _ & Hq).
    exists o. split; [done|lia]. }
  intros c Hc. split.
  - intros ib e1 fill e2 Hmid Hstep.
    destruct (mid_call_inv e G c ib e1 Hinv Hc Hmid) as (G1 & q1 & Hinv1 & Hfl1).
    destruct (trade_step_spec _ _ _ _ _ _ _ _ _ _ Hinv1 Hfl1 Hstep)
      as (t & r & l & o & G2 & Hq & Ht & HG & Ho & -> & Hinv2 & Hfl2 & Hcase & Hfree & Hqr & _).
    cbn [resting_handle trade_qty].
    assert (r ∈ G1 (negb (call_is_buy c)) t) as Hin by (rewrite HG; left).
    destruct (inv_resting Hinv1 _ _ _ Hin) as (o' & Ho' & _ & _ & Hqo). simplify_eq.
    exists o. split; [done|].
    split; [apply (resting_ghost e1 G1 r Hinv1); eauto|].
    split; [lia|]. split; [done|]. split.
    { intros i Hi. destruct (proj1 (resting_ghost e2 G2 i Hinv2) Hi) as (s & x & Hi').
      destruct (inv_resting Hinv2 _ _ _ Hi') as (oi & Hoi & _ & _ & ?).
      rewrite (qty_at_lookup _ _ _ Hoi). lia. }
    destruct (decide (Z.min q1 (Order.qty o) = Order.qty o)) as [Hfull|Hpart].
    + destruct Hcase as [[_ ?]|[-> Hle]]; [lia|]. split.
      * intros (s & x & Hi)%(resting_ghost e2 _ r Hinv2).
        pose proof (inv_nodup Hinv1 (negb (call_is_buy c)) t) as Hnd. rewrite HG in Hnd.
        apply NoDup_cons in Hnd as [Hnd _].
        destruct (decide (s = negb (call_is_buy c) ∧ x = t)) as [[-> ->]|Hsx].
        -- by rewrite upd_eq in Hi.
        -- rewrite upd_ne in Hi by done. apply Hsx. by apply (book_inv_unique e1 G1 r).
      * by rewrite Hfree, decide_True.
    + destruct Hcase as [[-> Hlt]|[_ ?]]; [|lia]. split.
      * apply (resting_ghost e2 G1 r Hinv2). eauto.
      * by rewrite Hfree, decide_False, app_nil_r by lia.
  - intros fuel Hfuel. destruct Hc as [Hp Hq].
    pose proof (processNewOrder_spec fuel (call_id c) (call_price c) (call_qty c)
                  (call_is_buy c) e G Hinv Hp Hq) as Hspec.
    unfold submit.
    destruct (MatchingEngine.processNewOrder _ _ _ _ _ _) as [[e' r]| |] eqn:Hrun;
      [|done|lia].
    exists e', r. split; [done|]. intros fills ->.
    by destruct (processNewOrder_quantities _ _ _ _ _ _ _ _ _ Hinv Hp Hq Hrun) as (_ & _ & _ & ?).
Qed.

(** After Scenario D the three asks rest at tick 100. *)
Lemma C10_resting_quantity_positive_witness :
  (∀ i, resting scenario_D_engine i →
        ∃ o, MatchingEngine.orders scenario_D_engine !! i = Some o ∧ 0 < Order.qty o) ∧
  ∀ c, valid_call c →
    (∀ ib e1 fill e2,
       mid_call scenario_D_engine c ib e1 →
       trade_step (negb (call_is_buy c)) ib e1 fill e2 →
       ∃ o, MatchingEngine.orders e1 !! resting_handle fill = Some o ∧
            resting e1 (resting_handle fill) ∧
            0 < trade_qty fill ≤ Order.qty o ∧
            qty_at (MatchingEngine.orders e2) (resting_handle fill)
            = Order.qty o - trade_qty fill ∧
            (∀ i, resting e2 i → 0 < qty_at (MatchingEngine.orders e2) i) ∧
            if decide (trade_qty fill = Order.qty o)
            then ¬ resting e2 (resting_handle fill) ∧
                 free_handles (MatchingEngine.pool_ e2)
                 = free_handles (MatchingEngine.pool_ e1) ++ [resting_handle fill]
            else resting e2 (resting_handle fill) ∧
                 free_handles (MatchingEngine.pool_ e2)
                 = free_handles (MatchingEngine.pool_ e1)) ∧
    (∀ fuel, call_qty c < Z.of_nat fuel →
       ∃ e' r, submit fuel c scenario_D_engine = Ok (e', r) ∧
         ∀ fills, r = Return fills →
           ∃ ib, list.last (free_handles (MatchingEngine.pool_ scenario_D_engine)) = Some ib ∧
                 if decide (filled_qty fills < call_qty c)
                 then resting e' ib ∧
                      qty_at (MatchingEngine.orders e') ib = call_qty c - filled_qty fills
                 else ¬ resting e' ib ∧
                      list.last (free_handles (MatchingEngine.pool_ e')) = Some ib).
Proof.
  apply (C10_resting_quantity_positive 4 scenario_D_engine).
  exists scenario_D, [].
  apply (run_reachable 4 8 scenario_D scenario_D_engine [Return []; Return []; Return []]).
  - reflexivity.
  - vm_compute. reflexivity.
  - reflexivity.
Defined.

(** Scenario D from the inside: the buy of 7 at tick 100 gets record 3, the
    last free one; the first round of its loop fills the first ask (record
    0) in full and frees it, the second takes 2 of the second ask (record 1),
    which stays linked, and frees nothing. *)
Example scenario_D_rounds :
  ∃ e1 e2 e3,
    mid_call scenario_D_engine (mkCall 4 100 7 true) 3 e1 ∧
    trade_step false 3 e1 (mkTrade 4 1 100 5 0) e2 ∧
    trade_step false 3 e2 (mkTrade 4 2 100 2 1) e3 ∧
    free_handles (MatchingEngine.pool_ e1) = [] ∧
    free_handles (MatchingEngine.pool_ e2) = [0%nat] ∧
    free_handles (MatchingEngine.pool_ e3) = [0%nat] ∧
    qty_at (MatchingEngine.orders e3) 1 = 3.
Proof.
  eexists _, _, _.
  split; [apply mid_call_start; vm_compute; reflexivity|].
  split.
  { apply (trade_step_intro _ _ _ _ _ (Order.mk 4 100 7 true None None) 100
             (PriceLevel.mk (Some 0%nat) (Some 2%nat))); vm_compute; reflexivity. }
  split.
  { apply (trade_step_intro _ _ _ _ _ (Order.mk 4 100 2 true None None) 100
             (PriceLevel.mk (Some 1%nat) (Some 2%nat))); vm_compute; reflexivity. }
  vm_compute. done.
Qed.

(** The two halves of the mechanism, on every state the matching loop is in:
    a fill leaves the resting order linked exactly when a remainder is left,
    and takes a filled order out of its level and puts its record on the
    free stack. *)
Lemma executeTrade_unlinks_filled e G ib id price sd q side t r l :
  book_inv e G → inflight e G ib id price sd q → 0 < q →
  0 ≤ t < MAX_PRICE_TICKS → G side t = r :: l →
  ∃ e' fill o,
    MatchingEngine.executeTrade ib (Some r) (ref side (Z.to_nat t)) t side e = Ok (e', fill) ∧
    MatchingEngine.orders e !! r = Some o ∧
    (∀ i, resting e' i → ∃ o', MatchingEngine.orders e' !! i = Some o' ∧ 0 < Order.qty o') ∧
    (Order.qty o ≤ q →
       ¬ resting e' r ∧
       free_handles (MatchingEngine.pool_ e') = free_handles (MatchingEngine.pool_ e) ++ [r]) ∧
    (q < Order.qty o → resting e' r).
Proof.
  intros Hinv Hfl Hq Ht HG.
  destruct (executeTrade_spec e G ib id price sd q side t r l Hinv Hfl Hq Ht HG)
    as (e' & o & G' & Ho & Hex & _ & _ & Hinv' & Hfl' & _ & Hcase & _ & Hfree).
  eexists e', _, o. split; [exact Hex|]. split; [done|]. split; [|split].
  - intros i Hi. destruct (proj1 (resting_ghost e' G' i Hinv') Hi) as (s & x & Hi').
    destruct (inv_resting Hinv' _ _ _ Hi') as (o' & Ho' & _ & _ & ?).
    exists o'. split; [done|lia].
  - intros Hle. destruct Hcase as [[_ ?]|[HG' _]]; [lia|]. split.
    + intros Hres. destruct (proj1 (resting_ghost e' G' r Hinv') Hres) as (s & x & Hi).
      rewrite HG' in Hi.
      pose proof (inv_nodup Hinv side t) as Hnd. rewrite HG in Hnd.
      apply NoDup_cons in Hnd as [Hnd _].
      destruct (decide (s = side ∧ x = t)) as [[-> ->]|Hsx].
      * by rewrite upd_eq in Hi.
      * rewrite upd_ne in Hi by done. apply Hsx.
        eapply (book_inv_unique e G r); [done|done|by rewrite HG; left].
    + by rewrite Hfree, decide_True.
  - intros Hlt. destruct Hcase as [[HG' _]|[_ ?]]; [|lia].
    apply (resting_ghost e' G' r Hinv'). exists side, t. rewrite HG', HG. left.
Qed.

(** ** Price-time priority (C5) *)

Lemma level_handles_ghost e G side t lvl :
  book_inv e G → levels side (MatchingEngine.book_ e) !! t = Some lvl →
  level_handles (MatchingEngine.orders e) lvl = G side (Z.of_nat t).
Proof.
  intros Hinv Hlvl.
  assert (0 ≤ Z.of_nat t < MAX_PRICE_TICKS) as Ht.
  { apply lookup_lt_Some in Hlvl. rewrite (inv_length Hinv) in Hlvl. lia. }
  destruct (inv_queue Hinv side _ Ht) as (lvl' & Hlvl' & Hq).
  rewrite Nat2Z.id in Hlvl'. simplify_eq.
  apply chain_level_handles; [done|apply (inv_nodup Hinv)].
Qed.

Lemma better_sorted (is_buy : bool) l :
  Sorted (better (negb is_buy)) l → Sorted (if is_buy then Z.le else flip Z.le) l.
Proof. by destruct is_buy. Qed.

(** C5: a call of [processNewOrder] on a reachable state runs to completion
    and, when it returns, its trade events (i) have non-decreasing prices for
    a buy and non-increasing prices for a sell, (ii) consume, one trade each
    and in this order, the first resting orders of the opposite side in
    priority order (best tick first, each level from head to tail, that is in
    order of insertion), each at the price of the order it consumes and for
    at most its quantity, and every consumed order but the last is filled in
    full; (iii) afterwards the consumed orders are gone from the opposite
    side, except the last one when its fill left a remainder: that order
    keeps its place at the head, ahead of every other order, with the
    remainder as its quantity; the orders behind keep their order, and no
    resting order that was not consumed changes its quantity; (iv) an inbound
    that rests joins the tail of its level and no other level of its side
    changes. *)
Theorem C5_price_time_priority n e c fuel :
  reachable n e → valid_call c → call_qty c < Z.of_nat fuel →
  ∃ e' r, submit fuel c e = Ok (e', r) ∧
    ∀ fills, r = Return fills →
      Sorted (if call_is_buy c then Z.le else flip Z.le) (trade_price <$> fills) ∧
      resting_handle <$> fills
        = take (length fills) (priority (negb (call_is_buy c)) e) ∧
      Forall (λ f, ∃ o, MatchingEngine.orders e !! resting_handle f = Some o ∧
                        Order.price o = trade_price f ∧ Order.id o = resting_id f ∧
                        call_id c = inbound_id f ∧ 0 < trade_qty f ≤ Order.qty o ∧
                        qty_at (MatchingEngine.orders e') (resting_handle f)
                        = Order.qty o - trade_qty f) fills ∧
      (∀ j f, fills !! j = Some f → (S j < length fills)%nat →
              trade_qty f = qty_at (MatchingEngine.orders e) (resting_handle f)) ∧
      priority (negb (call_is_buy c)) e'
        = partially_filled (MatchingEngine.orders e) fills
          ++ drop (length fills) (priority (negb (call_is_buy c)) e) ∧
      (∀ i, resting e i → i ∉ resting_handle <$> fills →
            qty_at (MatchingEngine.orders e') i = qty_at (MatchingEngine.orders e) i) ∧
      ∃ rested,
        (rested = [] ∨ ∃ ib, rested = [ib] ∧ ¬ resting e ib) ∧
        ∀ t lvl lvl',
          levels (call_is_buy c) (MatchingEngine.book_ e) !! t = Some lvl →
          levels (call_is_buy c) (MatchingEngine.book_ e') !! t = Some lvl' →
          level_handles (MatchingEngine.orders e') lvl'
          = level_handles (MatchingEngine.orders e) lvl
            ++ (if decide (Z.of_nat t = call_price c) then rested else []).
Proof.
  intros Hr [Hp Hq] Hfuel. destruct (reachable_inv _ _ Hr) as [G Hinv].
  pose proof (processNewOrder_spec fuel (call_id c) (call_price c) (call_qty c)
                (call_is_buy c) e G Hinv Hp Hq) as Hspec.
  unfold submit.
  destruct (MatchingEngine.processNewOrder _ _ _ _ _ _) as [[e' r]| |] eqn:Hrun;
    [|done|lia].
  exists e', r. split; [done|]. intros fills ->.
  destruct Hspec as (_ & G' & Hinv' & Hpost).
  destruct (processNewOrder_quantities _ _ _ _ _ _ _ _ _ Hinv Hp Hq Hrun)
    as (HA & HB & HC & _).
  split; [apply better_sorted, (cp_sorted Hpost)|].
  split; [rewrite (priority_prio e G _ Hinv); apply (cp_prefix Hpost)|].
  split; [|split; [|split; [done|split; [done|]]]].
  - apply Forall_lookup_2. intros j f Hj.
    pose proof (cp_fills Hpost) as Hall. rewrite Forall_lookup in Hall.
    destruct (Hall j f Hj) as (Hib & Hpos & Hin & o & Ho & Hid). exists o. split; [done|].
    destruct (inv_resting Hinv _ _ _ Hin) as (o' & Ho' & Hprice & _). simplify_eq.
    destruct (HA j f Hj) as (Hle & Hleft & _). rewrite (qty_at_lookup _ _ _ Ho) in Hle, Hleft.
    done.
  - intros j f Hj Hlt. by destruct (HA j f Hj) as (_ & _ & H3); apply H3.
  - destruct (cp_own Hpost) as [[_ Hown]|(_ & ib & Hown & Hfresh & _)].
    + exists []. split; [by left|]. intros t lvl lvl' Hl Hl'.
      rewrite (level_handles_ghost e G _ _ _ Hinv Hl), (level_handles_ghost e' G' _ _ _ Hinv' Hl').
      rewrite Hown. case_decide; by rewrite app_nil_r.
    + exists [ib]. split.
      * right. exists ib. split; [done|]. intros Hres.
        destruct (proj1 (resting_ghost e G ib Hinv) Hres) as (s & x & Hi). by apply Hfresh in Hi.
      * intros t lvl lvl' Hl Hl'.
        rewrite (level_handles_ghost e G _ _ _ Hinv Hl), (level_handles_ghost e' G' _ _ _ Hinv' Hl').
        rewrite Hown. case_decide as Ht.
        -- by rewrite Ht.
        -- by rewrite app_nil_r.
Qed.

(** Scenario D of the specification: three asks of 5 at tick 100, then a
    buy of 7 at 100. *)
Lemma C5_price_time_priority_witness :
  ∃ e' r,
    submit 8 (mkCall 4 100 7 true) scenario_D_engine = Ok (e', r) ∧
    ∀ fills, r = Return fills →
      Sorted Z.le (trade_price <$> fills) ∧
      resting_handle <$> fills = take (length fills) (priority false scenario_D_engine) ∧
      Forall (λ f, ∃ o, MatchingEngine.orders scenario_D_engine !! resting_handle f = Some o ∧
                        Order.price o = trade_price f ∧ Order.id o = resting_id f ∧
                        4 = inbound_id f ∧ 0 < trade_qty f ≤ Order.qty o ∧
                        qty_at (MatchingEngine.orders e') (resting_handle f)
                        = Order.qty o - trade_qty f) fills ∧
      (∀ j f, fills !! j = Some f → (S j < length fills)%nat →
              trade_qty f = qty_at (MatchingEngine.orders scenario_D_engine) (resting_handle f)) ∧
      priority false e'
        = partially_filled (MatchingEngine.orders scenario_D_engine) fills
          ++ drop (length fills) (priority false scenario_D_engine) ∧
      (∀ i, resting scenario_D_engine i → i ∉ resting_handle <$> fills →
            qty_at (MatchingEngine.orders e') i
            = qty_at (MatchingEngine.orders scenario_D_engine) i) ∧
      ∃ rested,
        (rested = [] ∨ ∃ ib, rested = [ib] ∧ ¬ resting scenario_D_engine ib) ∧
        ∀ t lvl lvl',
          levels true (MatchingEngine.book_ scenario_D_engine) !! t = Some lvl →
          levels true (MatchingEngine.book_ e') !! t = Some lvl' →
          level_handles (MatchingEngine.orders e') lvl'
          = level_handles (MatchingEngine.orders scenario_D_engine) lvl
            ++ (if decide (Z.of_nat t = 100) then rested else []).
Proof.
  apply (C5_price_time_priority 4 scenario_D_engine (mkCall 4 100 7 true) 8).
  - exists scenario_D, [].
    apply (run_reachable 4 8 scenario_D scenario_D_engine [Return []; Return []; Return []]).
    + reflexivity.
    + vm_compute. reflexivity.
    + reflexivity.
  - apply valid_callb_spec. reflexivity.
  - cbn. lia.
Defined.

(** Scenario D, evaluated: the fills are (4,1,100,5) and (4,2,100,2); the
    second ask was taken in part and keeps the head of the level with 3
    left, ahead of the third. *)
Example scenario_D_fills :
  ∃ e', submit 8 (mkCall 4 100 7 true) scenario_D_engine
          = Ok (e', Return [mkTrade 4 1 100 5 0; mkTrade 4 2 100 2 1]) ∧
        partially_filled (MatchingEngine.orders scenario_D_engine)
          [mkTrade 4 1 100 5 0; mkTrade 4 2 100 2 1] = [1%nat] ∧
        priority false scenario_D_engine = [0; 1; 2]%nat ∧
        priority false e' = [1; 2]%nat ∧
        qty_at (MatchingEngine.orders e') 1 = 3.
Proof. eexists. split; [vm_compute; reflexivity|]. by vm_compute. Qed.


(** * Further properties of the code *)

(** ** The price index *)

(** Two well-formed index states that mark the same ticks are the same
    state: the bits above tick 4095 and the summary word hold nothing of
    their own. *)
Lemma tracker_wf_ext tr tr' :
  tracker_wf tr → tracker_wf tr' →
  (∀ t, 0 ≤ t < MAX_PRICE_TICKS → active tr t = active tr' t) → tr = tr'.
Proof.
  intros Hwf Hwf' Hact.
  assert (FastPriceTracker.data_words_ tr = FastPriceTracker.data_words_ tr') as Hdata.
  { apply list_eq. intros i.
    destruct (decide (i < 64)%nat) as [Hi|Hi].
    2:{ rewrite !lookup_ge_None_2; [done|rewrite (wf_length Hwf'); lia|rewrite (wf_length Hwf); lia]. }
    destruct (lookup_lt_is_Some_2 (FastPriceTracker.data_words_ tr) i) as [w Hw];
      [rewrite (wf_length Hwf); lia|].
    destruct (lookup_lt_is_Some_2 (FastPriceTracker.data_words_ tr') i) as [w' Hw'];
      [rewrite (wf_length Hwf'); lia|].
    rewrite Hw, Hw'. f_equal. apply Z.bits_inj'. intros j Hj.
    destruct (decide (j < 64)) as [Hj64|Hj64].
    - specialize (Hact (Z.of_nat i * 64 + j)). unfold active in Hact.
      replace ((Z.of_nat i * 64 + j) / 64) with (Z.of_nat i) in Hact by divmod.
      replace ((Z.of_nat i * 64 + j) mod 64) with j in Hact by divmod.
      rewrite Nat2Z.id, Hw, Hw' in Hact. apply Hact. unfold MAX_PRICE_TICKS. lia.
    - destruct (Z.testbit w j) eqn:E.
      { apply testbit_word64 in E; [lia|by eapply (wf_word Hwf)]. }
      destruct (Z.testbit w' j) eqn:E'; [|done].
      apply testbit_word64 in E'; [lia|by eapply (wf_word Hwf')]. }
  destruct tr as [s d], tr' as [s' d']. cbn in Hdata. subst d'. f_equal.
  apply Z.bits_inj'. intros i Hi.
  destruct (decide (i < 64)) as [Hi64|Hi64].
  - destruct (lookup_lt_is_Some_2 d (Z.to_nat i)) as [w Hw].
    { pose proof (wf_length Hwf) as Hl. cbn in Hl. lia. }
    pose proof (wf_bit Hwf _ _ Hw) as H1. pose proof (wf_bit Hwf' _ _ Hw) as H2.
    cbn in H1, H2. rewrite Z2Nat.id in H1, H2 by lia.
    destruct (Z.testbit s i), (Z.testbit s' i); try done.
    + exfalso. assert (w ≠ 0) as Hne by (by apply H1). apply H2 in Hne. done.
    + exfalso. assert (w ≠ 0) as Hne by (by apply H2). apply H1 in Hne. done.
  - destruct (Z.testbit s i) eqn:E.
    { apply testbit_word64 in E; [lia|apply (wf_summary Hwf)]. }
    destruct (Z.testbit s' i) eqn:E'; [|done].
    apply testbit_word64 in E'; [lia|apply (wf_summary Hwf')].
Qed.

Lemma update_spec mark tr p :
  tracker_wf tr → 0 ≤ p < MAX_PRICE_TICKS →
  ∃ tr', update mark p tr = Ok tr' ∧ tracker_wf tr' ∧
         ∀ t, 0 ≤ t < MAX_PRICE_TICKS →
              active tr' t = if decide (t = p) then mark else active tr t.
Proof.
  intros Hwf Hp. destruct mark; cbn [update].
  - apply setPriceLevel_spec; done.
  - apply clearPriceLevel_spec; done.
Qed.

Lemma update_index_state mark tr p tr' :
  index_state tr → 0 ≤ p < MAX_PRICE_TICKS → update mark p tr = Ok tr' → index_state tr'.
Proof.
  intros Hst Hp Hup. destruct mark; cbn [update] in Hup.
  - by eapply index_set.
  - by eapply index_clear.
Qed.

Lemma index_7_100_state : index_state index_7_100.
Proof.
  eapply (index_set _ 100); [eapply (index_set _ 7); [apply index_new|done|reflexivity]|done|].
  vm_compute. reflexivity.
Qed.

Lemma index_100_7_state : index_state index_100_7.
Proof.
  eapply (index_set _ 7);
    [eapply (index_clear _ 4095);
       [eapply (index_set _ 4095);
          [eapply (index_set _ 100); [apply index_new|done|reflexivity]|done|reflexivity]
       |done|reflexivity]
    |done|].
  vm_compute. reflexivity.
Qed.

(** X5: insert and lookup on the index: on every index state and for every tick
    [p] of the domain, [setPriceLevel p] and [clearPriceLevel p] succeed, lead
    to an index state, make [p] marked (unmarked), and leave the mark of
    every other tick as it was. *)
Theorem index_update_lookup tr p :
  index_state tr → 0 ≤ p < MAX_PRICE_TICKS →
  (∃ tr', FastPriceTracker.setPriceLevel p tr = Ok tr' ∧ index_state tr' ∧
          active tr' p = true ∧
          ∀ t, 0 ≤ t < MAX_PRICE_TICKS → t ≠ p → active tr' t = active tr t) ∧
  (∃ tr', FastPriceTracker.clearPriceLevel p tr = Ok tr' ∧ index_state tr' ∧
          active tr' p = false ∧
          ∀ t, 0 ≤ t < MAX_PRICE_TICKS → t ≠ p → active tr' t = active tr t).
Proof.
  intros Hst Hp. pose proof (index_state_wf _ Hst) as Hwf. split.
  - destruct (setPriceLevel_spec tr p Hwf Hp) as (tr' & Heq & _ & Hact).
    exists tr'. split; [done|]. split; [by eapply index_set|]. split.
    + rewrite Hact by done. by rewrite decide_True.
    + intros t Ht Hne. rewrite Hact by done. by rewrite decide_False.
  - destruct (clearPriceLevel_spec tr p Hwf Hp) as (tr' & Heq & _ & Hact).
    exists tr'. split; [done|]. split; [by eapply index_clear|]. split.
    + rewrite Hact by done. by rewrite decide_True.
    + intros t Ht Hne. rewrite Hact by done. by rewrite decide_False.
Qed.

Lemma index_update_lookup_witness :
  (∃ tr', FastPriceTracker.setPriceLevel 64 index_7_100 = Ok tr' ∧ index_state tr' ∧
          active tr' 64 = true ∧
          ∀ t, 0 ≤ t < MAX_PRICE_TICKS → t ≠ 64 → active tr' t = active index_7_100 t) ∧
  (∃ tr', FastPriceTracker.clearPriceLevel 64 index_7_100 = Ok tr' ∧ index_state tr' ∧
          active tr' 64 = false ∧
          ∀ t, 0 ≤ t < MAX_PRICE_TICKS → t ≠ 64 → active tr' t = active index_7_100 t).
Proof.
  apply (index_update_lookup index_7_100 64).
  - apply index_7_100_state.
  - unfold MAX_PRICE_TICKS. lia.
Defined.

(** X6: the index keeps no state beside the marks: two index states that mark
    the same ticks of the domain have the same summary word and the same
    data words. *)
Theorem index_state_determined tr tr' :
  index_state tr → index_state tr' →
  (∀ t, 0 ≤ t < MAX_PRICE_TICKS → active tr t = active tr' t) → tr = tr'.
Proof. intros H H'. apply tracker_wf_ext; by apply index_state_wf. Qed.

Lemma index_state_determined_witness : index_7_100 = index_100_7.
Proof.
  apply (index_state_determined index_7_100 index_100_7).
  - apply index_7_100_state.
  - apply index_100_7_state.
  - intros t _. reflexivity.
Defined.

(** X7: round trips: marking a tick that was not marked and clearing it again
    gives back the state it started from, summary word included; so does
    clearing a marked tick and marking it again. *)
Theorem index_set_clear_round_trip tr p :
  index_state tr → 0 ≤ p < MAX_PRICE_TICKS →
  ∃ tr1, update (negb (active tr p)) p tr = Ok tr1 ∧
         update (active tr p) p tr1 = Ok tr ∧
         active tr1 p = negb (active tr p).
Proof.
  intros Hst Hp. pose proof (index_state_wf _ Hst) as Hwf.
  destruct (update_spec (negb (active tr p)) tr p Hwf Hp) as (tr1 & Heq1 & Hwf1 & Hact1).
  destruct (update_spec (active tr p) tr1 p Hwf1 Hp) as (tr2 & Heq2 & Hwf2 & Hact2).
  exists tr1. split; [done|]. split.
  - rewrite Heq2. f_equal. apply tracker_wf_ext; [done|done|].
    intros t Ht. rewrite Hact2, Hact1 by done. by case_decide; subst.
  - rewrite Hact1 by done. by rewrite decide_True.
Qed.

Lemma index_set_clear_round_trip_witness :
  ∃ tr1, update (negb (active index_7_100 64)) 64 index_7_100 = Ok tr1 ∧
         update (active index_7_100 64) 64 tr1 = Ok index_7_100 ∧
         active tr1 64 = negb (active index_7_100 64).
Proof.
  apply (index_set_clear_round_trip index_7_100 64).
  - apply index_7_100_state.
  - unfold MAX_PRICE_TICKS. lia.
Defined.

(** X8: updates of two different ticks commute, whichever of [setPriceLevel] and
    [clearPriceLevel] each one is and also when both ticks share a data
    word. *)
Theorem index_updates_commute tr a p b q :
  index_state tr → 0 ≤ p < MAX_PRICE_TICKS → 0 ≤ q < MAX_PRICE_TICKS → p ≠ q →
  ∃ tr', (tr1 ← update a p tr; update b q tr1) = Ok tr' ∧
         (tr1 ← update b q tr; update a p tr1) = Ok tr'.
Proof.
  intros Hst Hp Hq Hne. pose proof (index_state_wf _ Hst) as Hwf.
  destruct (update_spec a tr p Hwf Hp) as (tr1 & Heq1 & Hwf1 & Hact1).
  destruct (update_spec b tr1 q Hwf1 Hq) as (tr2 & Heq2 & Hwf2 & Hact2).
  destruct (update_spec b tr q Hwf Hq) as (tr1' & Heq1' & Hwf1' & Hact1').
  destruct (update_spec a tr1' p Hwf1' Hp) as (tr2' & Heq2' & Hwf2' & Hact2').
  exists tr2. rewrite Heq1, Heq1'. cbn. rewrite Heq2, Heq2'. split; [done|].
  f_equal. apply tracker_wf_ext; [done|done|].
  intros t Ht. rewrite Hact2', Hact1', Hact2, Hact1 by done.
  repeat case_decide; subst; done.
Qed.

Lemma index_updates_commute_witness :
  ∃ tr', (tr1 ← update true 65 index_7_100; update false 100 tr1) = Ok tr' ∧
         (tr1 ← update false 100 index_7_100; update true 65 tr1) = Ok tr'.
Proof.
  apply (index_updates_commute index_7_100 true 65 false 100).
  - apply index_7_100_state.
  - unfold MAX_PRICE_TICKS. lia.
  - unfold MAX_PRICE_TICKS. lia.
  - done.
Defined.

(** X9: [getBestAsk] on every index state: the lowest marked tick, and
    [MAX_PRICE_TICKS] exactly when no tick is marked. *)
Theorem getBestAsk_lowest_marked tr :
  index_state tr →
  ∃ a, FastPriceTracker.getBestAsk tr = Ok a ∧
       ((a = MAX_PRICE_TICKS ∧ ∀ t, 0 ≤ t < MAX_PRICE_TICKS → active tr t = false) ∨
        (0 ≤ a < MAX_PRICE_TICKS ∧ active tr a = true ∧
         ∀ t, 0 ≤ t < a → active tr t = false)).
Proof.
  intros Hst. destruct (getBestAsk_spec tr (index_state_wf _ Hst)) as (a & Heq & Ha).
  exists a. split; [done|]. destruct Ha as [?|(Hr & Hact & Hmin)]; [by left|right].
  split; [done|]. split; [done|]. intros t Ht.
  destruct (active tr t) eqn:E; [|done]. apply Hmin in E; lia.
Qed.

Lemma getBestAsk_lowest_marked_witness :
  ∃ a, FastPriceTracker.getBestAsk index_100_7 = Ok a ∧
       ((a = MAX_PRICE_TICKS ∧ ∀ t, 0 ≤ t < MAX_PRICE_TICKS → active index_100_7 t = false) ∨
        (0 ≤ a < MAX_PRICE_TICKS ∧ active index_100_7 a = true ∧
         ∀ t, 0 ≤ t < a → active index_100_7 t = false)).
Proof. apply (getBestAsk_lowest_marked index_100_7), index_100_7_state. Defined.

(** X10: [getBestBid] on every index state: the highest marked tick when a tick
    is marked, and 0 when none is; the answer is 0 exactly when no tick
    above 0 is marked. *)
Theorem getBestBid_highest_marked tr :
  index_state tr →
  ∃ b, FastPriceTracker.getBestBid tr = Ok b ∧ 0 ≤ b < MAX_PRICE_TICKS ∧
       (∀ t, b < t < MAX_PRICE_TICKS → active tr t = false) ∧
       (0 < b → active tr b = true) ∧
       (b = 0 ↔ ∀ t, 0 < t < MAX_PRICE_TICKS → active tr t = false).
Proof.
  intros Hst. destruct (getBestBid_spec tr (index_state_wf _ Hst)) as (b & Heq & Hb).
  exists b. split; [done|]. destruct Hb as [[-> Hnone]|(Hr & Hact & Hmax)].
  - split; [unfold MAX_PRICE_TICKS; lia|]. split; [intros t Ht; apply Hnone; lia|].
    split; [lia|]. split; [intros _ t Ht; apply Hnone; lia|done].
  - split; [done|]. split.
    { intros t Ht. destruct (active tr t) eqn:E; [|done]. apply Hmax in E; lia. }
    split; [done|]. split.
    + intros -> t Ht. destruct (active tr t) eqn:E; [|done]. apply Hmax in E; lia.
    + intros Hnone. destruct (decide (b = 0)) as [|Hne]; [done|].
      rewrite Hnone in Hact by lia. done.
Qed.

Lemma getBestBid_highest_marked_witness :
  ∃ b, FastPriceTracker.getBestBid index_100_7 = Ok b ∧ 0 ≤ b < MAX_PRICE_TICKS ∧
       (∀ t, b < t < MAX_PRICE_TICKS → active index_100_7 t = false) ∧
       (0 < b → active index_100_7 b = true) ∧
       (b = 0 ↔ ∀ t, 0 < t < MAX_PRICE_TICKS → active index_100_7 t = false).
Proof. apply (getBestBid_highest_marked index_100_7), index_100_7_state. Defined.

(** ** The order pool *)

Lemma new_free_list n i :
  (i < n)%nat → OrderPool.free_list_ (OrderPool.new n) !! i = Some (n - 1 - i)%nat.
Proof.
  intros Hi. cbn [OrderPool.new OrderPool.free_list_].
  rewrite list_lookup_fmap, lookup_seq_lt by done. done.
Qed.

Lemma allocate_all_from k n : ∀ cs p,
  (k + length cs ≤ n)%nat →
  length (OrderPool.pool_ p) = n →
  OrderPool.free_list_ p = OrderPool.free_list_ (OrderPool.new n) →
  OrderPool.free_idx_ p = (n - k)%nat →
  ∃ p', allocate_all cs p = Ok (p', Return <$> seq k (length cs)) ∧
        length (OrderPool.pool_ p') = n ∧
        OrderPool.free_list_ p' = OrderPool.free_list_ (OrderPool.new n) ∧
        OrderPool.free_idx_ p' = (n - k - length cs)%nat ∧
        (∀ i c, cs !! i = Some c → OrderPool.pool_ p' !! (k + i)%nat = Some (order_of c)) ∧
        (∀ j, (j < k ∨ k + length cs ≤ j)%nat → OrderPool.pool_ p' !! j = OrderPool.pool_ p !! j).
Proof.
  induction cs as [|c cs IH] in k |- *; intros p Hk Hlen Hfl Hfi.
  { exists p. cbn. split; [done|]. split; [done|]. split; [done|].
    split; [lia|]. split; [intros i c H; done|done]. }
  cbn [length] in Hk. cbn [allocate_all]. unfold OrderPool.allocate.
  rewrite Hfi. destruct (Nat.eqb_spec (n - k) 0) as [|_]; [lia|].
  rewrite Hfl, (at_lookup _ _ _ (new_free_list n (n - k - 1) ltac:(lia))), bind_Ok.
  replace (n - 1 - (n - k - 1))%nat with k by lia.
  destruct (lookup_lt_is_Some_2 (OrderPool.pool_ p) k ltac:(lia)) as [o Ho].
  rewrite (at_lookup _ _ _ Ho), !bind_Ok.
  set (p1 := OrderPool.mk _ _ _).
  destruct (IH (S k) p1) as (p' & Heq & Hlen' & Hfl' & Hfi' & Hrec & Hout).
  - lia.
  - cbn. by rewrite length_insert.
  - done.
  - cbn. lia.
  - rewrite Heq, bind_Ok. exists p'. split; [done|]. split; [done|]. split; [done|].
    split; [cbn [length]; lia|]. split.
    + intros [|i] c' Hc'.
      * cbn in Hc'. simplify_eq. rewrite Nat.add_0_r, Hout by lia.
        cbn. apply list_lookup_insert_eq. lia.
      * cbn in Hc'. replace (k + S i)%nat with (S k + i)%nat by lia. by apply Hrec.
    + intros j Hj. rewrite Hout by (cbn [length] in Hj; lia).
      cbn. apply list_lookup_insert_ne. cbn [length] in Hj. lia.
Qed.

(** X11: A fresh pool of [n] records hands out the handles 0, 1, 2, ... in
    ascending order: as long as no record is given back, the [i]-th call of
    [allocate] returns [&pool_[i]], holding the fields of its order and null
    sibling handles; the first [n] calls succeed and every later one throws. *)
Theorem fresh_pool_allocates_in_order n cs :
  (length cs ≤ n)%nat →
  ∃ p, allocate_all cs (OrderPool.new n) = Ok (p, Return <$> seq 0 (length cs)) ∧
       OrderPool.free_idx_ p = (n - length cs)%nat ∧
       (∀ i c, cs !! i = Some c → OrderPool.pool_ p !! i = Some (order_of c)) ∧
       (length cs = n → ∀ id price qty is_buy,
          OrderPool.allocate id price qty is_buy p = Ok (p, Throw OrderPool_exhausted)).
Proof.
  intros Hlen.
  destruct (allocate_all_from 0 n cs (OrderPool.new n)) as (p & Heq & _ & _ & Hfi & Hrec & _).
  - lia.
  - cbn. apply length_replicate.
  - done.
  - cbn. lia.
  - exists p. split; [done|]. split; [lia|]. split; [done|].
    intros Hn id price qty is_buy. unfold OrderPool.allocate.
    rewrite Hfi. replace (n - 0 - length cs)%nat with 0%nat by lia. done.
Qed.

Lemma fresh_pool_allocates_in_order_witness :
  ∃ p, allocate_all scenario_F (OrderPool.new 4) = Ok (p, Return <$> seq 0 (length scenario_F)) ∧
       OrderPool.free_idx_ p = (4 - length scenario_F)%nat ∧
       (∀ i c, scenario_F !! i = Some c → OrderPool.pool_ p !! i = Some (order_of c)) ∧
       (length scenario_F = 4%nat → ∀ id price qty is_buy,
          OrderPool.allocate id price qty is_buy p = Ok (p, Throw OrderPool_exhausted)).
Proof. apply (fresh_pool_allocates_in_order 4 scenario_F). cbn. lia. Defined.

(** X12: the free stack is last in, first out: on a pool whose free stack is not
    full ([free_idx_] below the length of [free_list_]) the record given back
    by [deallocate] is the next one [allocate] hands out, and after the two
    calls the free stack is what it was before them; of [pool_] only that
    record is rewritten. *)
Theorem deallocate_then_allocate p h id price qty is_buy :
  (OrderPool.free_idx_ p < length (OrderPool.free_list_ p))%nat →
  (h < length (OrderPool.pool_ p))%nat →
  ∃ p1 p2,
    OrderPool.deallocate h p = Ok p1 ∧
    OrderPool.allocate id price qty is_buy p1 = Ok (p2, Return h) ∧
    OrderPool.free_idx_ p2 = OrderPool.free_idx_ p ∧
    take (OrderPool.free_idx_ p) (OrderPool.free_list_ p2)
      = take (OrderPool.free_idx_ p) (OrderPool.free_list_ p) ∧
    OrderPool.pool_ p2 = <[h := Order.mk id price qty is_buy None None]> (OrderPool.pool_ p).
Proof.
  intros Hfi Hh. destruct p as [m fl fi]. cbn in *.
  destruct (lookup_lt_is_Some_2 fl fi Hfi) as [x Hx].
  destruct (lookup_lt_is_Some_2 m h Hh) as [o Ho].
  unfold OrderPool.deallocate, OrderPool.allocate. cbn.
  rewrite (at_lookup _ _ _ Hx), bind_Ok. eexists _, _. split; [done|]. cbn.
  rewrite Nat.sub_0_r.
  rewrite (at_lookup (<[fi:=h]> fl) fi h) by (by apply list_lookup_insert_eq).
  rewrite bind_Ok, (at_lookup _ _ _ Ho), bind_Ok.
  split; [done|]. cbn. split; [done|]. split; [|done].
  apply take_insert_ge. lia.
Qed.

Lemma deallocate_then_allocate_witness :
  ∃ p1 p2,
    OrderPool.deallocate 2 (OrderPool.mk (replicate 4 Order.zero) [3; 2; 1; 0]%nat 1) = Ok p1 ∧
    OrderPool.allocate 9 100 5 true p1 = Ok (p2, Return 2%nat) ∧
    OrderPool.free_idx_ p2 = 1%nat ∧
    take 1 (OrderPool.free_list_ p2) = [3%nat] ∧
    OrderPool.pool_ p2 = <[2%nat := Order.mk 9 100 5 true None None]> (replicate 4 Order.zero).
Proof.
  apply (deallocate_then_allocate
           (OrderPool.mk (replicate 4 Order.zero) [3; 2; 1; 0]%nat 1) 2 9 100 5 true).
  - cbn. lia.
  - cbn. lia.
Defined.

(** ** The level queues *)

Lemma same_fields_trans o1 o2 o3 : same_fields o1 o2 → same_fields o2 o3 → same_fields o1 o3.
Proof. unfold same_fields. intros (?&?&?&?) (?&?&?&?). repeat split; congruence. Qed.

Lemma push_all_spec hs : ∀ m lvl l,
  queue m lvl l → NoDup (l ++ hs) →
  (∀ h, h ∈ hs → ∃ o, m !! h = Some o ∧ Order.next o = None) →
  ∃ m' lvl', push_all hs m lvl = Ok (m', lvl') ∧ queue m' lvl' (l ++ hs) ∧
    length m' = length m ∧
    (∀ j, j ∉ l → j ∉ hs → m' !! j = m !! j) ∧
    (∀ j o, m !! j = Some o → ∃ o', m' !! j = Some o' ∧ same_fields o o').
Proof.
  induction hs as [|h hs IH]; intros m lvl l Hq Hnd Hrec.
  { exists m, lvl. cbn. rewrite app_nil_r. split; [done|]. split; [done|]. split; [done|].
    split; [done|]. intros j o Hj. exists o. split; [done|apply same_fields_refl]. }
  apply NoDup_app in Hnd as (Hndl & Hdisj & Hndh).
  apply NoDup_cons in Hndh as [Hh Hndh].
  assert (h ∉ l) as Hhl by (intros Hin; apply (Hdisj h Hin); left).
  destruct (Hrec h) as (on & Hon & Hnn); [left|].
  destruct (push_back_spec m lvl l h on Hq Hndl Hhl Hon Hnn)
    as (m1 & l1 & Heq & Hq1 & Hlen1 & _ & Hother1 & Hkeep1).
  cbn [push_all]. rewrite Heq, bind_Ok.
  destruct (IH m1 l1 (l ++ [h])) as (m' & lvl' & Heq' & Hq' & Hlen' & Hother' & Hkeep').
  - done.
  - rewrite <- app_assoc. cbn. apply NoDup_app. split; [done|]. split; [|by apply NoDup_cons].
    done.
  - intros x Hx. destruct (Hrec x) as (ox & Hox & Hnx); [by right|].
    destruct (Hkeep1 x ox Hox) as (o' & Ho' & _ & Hn').
    exists o'. split; [done|]. rewrite Hn'; [done|].
    intros Hin. apply (Hdisj x Hin). by right.
  - exists m', lvl'. split; [done|]. rewrite <- app_assoc in Hq'. split; [done|].
    split; [lia|]. split.
    + intros j Hjl Hjh. apply not_elem_of_cons in Hjh as [Hne Hjh].
      rewrite Hother'; [by apply Hother1| |done].
      intros [?|?%list_elem_of_singleton]%elem_of_app; done.
    + intros j o Hj. destruct (Hkeep1 j o Hj) as (o1 & Ho1 & Hs1 & _).
      destruct (Hkeep' j o1 Ho1) as (o2 & Ho2 & Hs2).
      exists o2. split; [done|]. by eapply same_fields_trans.
Qed.

Lemma drain_S fuel m l :
  drain (S fuel) m l
  = if PriceLevel.isEmpty l then Ok (m, l, [])
    else '(m1, l1, order) ← PriceLevel.pop_front m l;
         '(m2, l2, out) ← drain fuel m1 l1;
         Ok (m2, l2, order :: out).
Proof. done. Qed.

Lemma drain_spec l : ∀ m lvl,
  queue m lvl l → NoDup l →
  ∃ m', drain (S (length l)) m lvl = Ok (m', PriceLevel.new, Some <$> l) ∧
        length m' = length m ∧
        (∀ j o, m !! j = Some o → ∃ o', m' !! j = Some o' ∧ same_fields o o').
Proof.
  induction l as [|i l IH]; intros m lvl Hq Hnd.
  { destruct Hq as [Hc Htl]. cbn in Hc, Htl. destruct lvl as [hd tl]. cbn in *. subst.
    exists m. split; [done|]. split; [done|]. intros j o Hj. exists o.
    split; [done|apply same_fields_refl]. }
  destruct (pop_front_spec m lvl i l Hq Hnd) as (m1 & l1 & Heq & Hq1 & Hlen1 & _ & _ & Hkeep1).
  apply NoDup_cons in Hnd as [_ Hnd].
  destruct (IH m1 l1 Hq1 Hnd) as (m' & Heq' & Hlen' & Hkeep').
  exists m'. split.
  - cbn [length]. rewrite drain_S.
    replace (PriceLevel.isEmpty lvl) with false.
    2:{ destruct Hq as [Hc _]. apply chain_head in Hc. unfold PriceLevel.isEmpty. by rewrite Hc. }
    rewrite Heq, bind_Ok, Heq', bind_Ok. done.
  - split; [lia|]. intros j o Hj. destruct (Hkeep1 j o Hj) as (o1 & Ho1 & Hs1 & _).
    destruct (Hkeep' j o1 Ho1) as (o2 & Ho2 & Hs2).
    exists o2. split; [done|]. by eapply same_fields_trans.
Qed.

(** X13: A level queue is first in, first out. Records that come from [allocate]
    (null [next]) and are pushed on an empty level in the order [hs] are
    linked in that order, and popping until the level is empty returns them
    in that order and leaves the level as it was constructed; no record's
    id, price, quantity or side is written on the way. *)
Theorem level_queue_fifo m hs :
  NoDup hs →
  (∀ h, h ∈ hs → ∃ o, m !! h = Some o ∧ Order.next o = None) →
  ∃ m1 l1 m2,
    push_all hs m PriceLevel.new = Ok (m1, l1) ∧
    level_handles m1 l1 = hs ∧
    drain (S (length hs)) m1 l1 = Ok (m2, PriceLevel.new, Some <$> hs) ∧
    ∀ j o, m !! j = Some o → ∃ o', m2 !! j = Some o' ∧ same_fields o o'.
Proof.
  intros Hnd Hrec.
  destruct (push_all_spec hs m PriceLevel.new []) as (m1 & l1 & Heq & Hq & _ & _ & Hkeep);
    [done|done|done|].
  cbn [app] in Hq.
  destruct (drain_spec hs m1 l1 Hq Hnd) as (m2 & Heq2 & _ & Hkeep2).
  exists m1, l1, m2. split; [done|]. split; [by apply chain_level_handles|]. split; [done|].
  intros j o Hj. destruct (Hkeep j o Hj) as (o1 & Ho1 & Hs1).
  destruct (Hkeep2 j o1 Ho1) as (o2 & Ho2 & Hs2).
  exists o2. split; [done|]. by eapply same_fields_trans.
Qed.

Lemma level_queue_fifo_witness :
  ∃ m1 l1 m2,
    push_all [1; 0]%nat two_orders PriceLevel.new = Ok (m1, l1) ∧
    level_handles m1 l1 = [1; 0]%nat ∧
    drain 3 m1 l1 = Ok (m2, PriceLevel.new, [Some 1; Some 0]%nat) ∧
    ∀ j o, two_orders !! j = Some o → ∃ o', m2 !! j = Some o' ∧ same_fields o o'.
Proof.
  apply (level_queue_fifo two_orders [1; 0]%nat).
  - apply NoDup_cons. split; [|apply NoDup_singleton]. by intros ?%list_elem_of_singleton.
  - intros h [->|[->|?%elem_of_nil]%elem_of_cons]%elem_of_cons; [| |done]; eexists; split; reflexivity.
Defined.

(** *** The header variant *)

Lemma headers_addOrder_spec m lvl l new on :
  headers_queue m lvl l → NoDup l → new ∉ l → m !! new = Some on →
  ∃ m' lvl', Headers.PriceLevel.addOrder new m lvl = Ok (m', lvl') ∧
    headers_queue m' lvl' (l ++ [new]) ∧ length m' = length m ∧
    (∀ j, j ∉ l → j ≠ new → m' !! j = m !! j) ∧
    (∀ j o, m !! j = Some o →
            ∃ o', m' !! j = Some o' ∧ same_fields o o' ∧
                  (j ∉ l → j ≠ new → Order.next o' = Order.next o)) ∧
    m' !! new = Some (Order.with_next None (Order.with_prev (list.last l) on)).
Proof.
  intros [Hc Htl] Hnd Hnew Hon. unfold Headers.PriceLevel.addOrder.
  rewrite (at_lookup _ _ _ Hon), bind_Ok. cbv zeta. rewrite Htl.
  pose proof (lookup_lt_Some _ _ _ Hon) as Hlt.
  set (on' := Order.with_next None (Order.with_prev (list.last l) on)).
  set (m1 := <[new := on']> m).
  assert (m1 !! new = Some on') as Hm1 by (by apply list_lookup_insert_eq).
  destruct (list.last l) as [tl|] eqn:Hlast.
  - pose proof (last_Some_elem_of _ _ Hlast) as Htlin.
    assert (new ≠ tl) as Hne by (intros ->; done).
    destruct (chain_lookup _ _ _ _ Hc Htlin) as [ot Hot].
    assert (m1 !! tl = Some ot) as Hot1 by (unfold m1; by rewrite list_lookup_insert_ne).
    rewrite (at_lookup _ _ _ Hot1), bind_Ok.
    pose proof (lookup_lt_Some _ _ _ Hot1) as Hlt1.
    set (m' := <[tl := Order.with_next (Some new) ot]> m1).
    assert (m' !! tl = Some (Order.with_next (Some new) ot)) as Hm'tl
      by (by apply list_lookup_insert_eq).
    assert (m' !! new = Some on') as Hm'new
      by (unfold m'; by rewrite list_lookup_insert_ne).
    assert (∀ j, j ≠ tl → j ≠ new → m' !! j = m !! j) as Hm'other.
    { intros j ? ?. unfold m', m1. by rewrite !list_lookup_insert_ne. }
    exists m', (Headers.PriceLevel.mk (Headers.PriceLevel.head lvl) (Some new)).
    split; [done|]. split; [split|].
    + cbn [Headers.PriceLevel.head]. eapply (chain_snoc m m'); eauto.
    + cbn. by rewrite last_snoc.
    + split; [unfold m', m1; by rewrite !length_insert|]. split.
      { intros j Hj ?. apply Hm'other; [|done]. intros ->. done. }
      split; [|done].
      intros j oj Hj. destruct (decide (j = new)) as [->|Hjn].
      { simplify_eq. eexists. split; [done|]. by repeat split. }
      destruct (decide (j = tl)) as [->|Hjt].
      { simplify_eq. eexists. split; [done|]. by repeat split. }
      rewrite Hm'other by done. exists oj.
      by split; [|split; [apply same_fields_refl|]].
  - apply last_None in Hlast. subst l. cbn in Hc.
    exists m1, (Headers.PriceLevel.mk (Some new) (Some new)).
    split; [done|]. split; [split; cbn|].
    { split; [done|]. exists on'. done. } { done. }
    split; [apply length_insert|]. split.
    { intros j _ ?. unfold m1. by rewrite list_lookup_insert_ne. }
    split; [|done].
    intros j oj Hj. destruct (decide (j = new)) as [->|Hjn].
    { simplify_eq. eexists. split; [done|]. by repeat split. }
    unfold m1. rewrite list_lookup_insert_ne by done. exists oj.
    by split; [|split; [apply same_fields_refl|]].
Qed.

Lemma headers_pop_front_spec m lvl i l :
  headers_queue m lvl (i :: l) → NoDup (i :: l) →
  ∃ m' lvl' o, Headers.PriceLevel.pop_front m lvl = Ok (m', lvl') ∧
    headers_queue m' lvl' l ∧ length m' = length m ∧
    (Headers.PriceLevel.head lvl' = None ↔ l = []) ∧
    (∀ j, j ∉ l → j ≠ i → m' !! j = m !! j) ∧
    (∀ j oj, m !! j = Some oj →
            ∃ o', m' !! j = Some o' ∧ same_fields oj o' ∧
                  (j ≠ i → Order.next o' = Order.next oj)) ∧
    m !! i = Some o ∧
    m' !! i = Some (Order.with_prev None (Order.with_next None o)) ∧
    (∀ h, list.head l = Some h → ∃ oh, m' !! h = Some oh ∧ Order.prev oh = None).
Proof.
  intros [Hc Htl] Hnd. destruct Hc as (Hh & o & Ho & Hc).
  apply NoDup_cons in Hnd as [Hi Hnd].
  unfold Headers.PriceLevel.pop_front. rewrite Hh, (at_lookup _ _ _ Ho), bind_Ok.
  pose proof (lookup_lt_Some _ _ _ Ho) as Hlt.
  destruct l as [|h l].
  - cbn in Hc. rewrite Hc, bind_Ok, (at_lookup _ _ _ Ho), bind_Ok.
    rewrite (at_lookup _ i (Order.with_next None o)) by (by apply list_lookup_insert_eq).
    rewrite bind_Ok, list_insert_insert_eq.
    eexists _, _, o. split; [done|]. split; [done|]. split; [apply length_insert|].
    split; [done|]. split.
    { intros j _ ?. by rewrite list_lookup_insert_ne. }
    split; [|split; [done|split; [by apply list_lookup_insert_eq|done]]].
    intros j oj Hj. destruct (decide (j = i)) as [->|Hne].
    + simplify_eq. rewrite list_lookup_insert_eq by done.
      eexists. split; [done|]. by repeat split.
    + rewrite list_lookup_insert_ne by done. exists oj.
      by split; [|split; [apply same_fields_refl|]].
  - destruct Hc as (Hn & oh & Hoh & Hc). rewrite Hn, (at_lookup _ _ _ Hoh), !bind_Ok.
    assert (i ≠ h) as Hih by (intros ->; apply Hi; left).
    pose proof (lookup_lt_Some _ _ _ Hoh) as Hlth.
    set (m1 := <[h := Order.with_prev None oh]> m).
    assert (m1 !! i = Some o) as Ho1 by (unfold m1; by rewrite list_lookup_insert_ne).
    rewrite (at_lookup _ _ _ Ho1), bind_Ok.
    rewrite (at_lookup _ i (Order.with_next None o))
      by (apply list_lookup_insert_eq; unfold m1; by rewrite length_insert).
    rewrite bind_Ok, list_insert_insert_eq.
    set (m' := <[i := _]> m1).
    assert (∀ j oj, m !! j = Some oj →
              ∃ o', m' !! j = Some o' ∧ same_fields oj o' ∧
                    (j ≠ i → Order.next o' = Order.next oj)) as Hkeep.
    { intros j oj Hj. destruct (decide (j = i)) as [->|Hne].
      - simplify_eq. unfold m'. rewrite list_lookup_insert_eq
          by (unfold m1; by rewrite length_insert).
        eexists. split; [done|]. by repeat split.
      - unfold m'. rewrite list_lookup_insert_ne by done.
        destruct (decide (j = h)) as [->|Hne'].
        + simplify_eq. unfold m1. rewrite list_lookup_insert_eq by done.
          eexists. split; [done|]. by repeat split.
        + unfold m1. rewrite list_lookup_insert_ne by done. exists oj.
          by split; [|split; [apply same_fields_refl|]]. }
    eexists m', _, o. split; [done|]. split; [split|].
    + cbn [Headers.PriceLevel.head]. apply (chain_ext m); [|cbn; eauto].
      intros k ok Hk Hok. destruct (Hkeep k ok Hok) as (o' & ? & ? & Hnext).
      exists o'. split; [done|]. apply Hnext. intros ->. done.
    + cbn. rewrite Htl. apply last_cons_cons.
    + split; [unfold m', m1; by rewrite !length_insert|]. split; [done|]. split.
      { intros j Hj ?. unfold m', m1. rewrite !list_lookup_insert_ne; [done| |done].
        intros ->. apply Hj. left. }
      split; [done|]. split; [done|]. split.
      { unfold m'. apply list_lookup_insert_eq. unfold m1. by rewrite length_insert. }
      intros h' [= <-]. exists (Order.with_prev None oh). split; [|done].
      unfold m', m1. rewrite list_lookup_insert_ne by done. by apply list_lookup_insert_eq.
Qed.

(** X14: [pop_front] of the header variant detaches the head for good: the level
    holds the rest of the queue in its order, the record that was the head
    has both sibling handles null, the new head has a null [prev], and no
    record's id, price, quantity or side is written. On an empty level
    nothing changes. *)
Theorem headers_pop_front_detaches m lvl l :
  headers_queue m lvl l → NoDup l →
  ∃ m' lvl',
    Headers.PriceLevel.pop_front m lvl = Ok (m', lvl') ∧
    headers_queue m' lvl' (list.tail l) ∧
    (l = [] → m' = m ∧ lvl' = lvl) ∧
    (∀ i, list.head l = Some i →
          ∃ o, m' !! i = Some o ∧ Order.prev o = None ∧ Order.next o = None) ∧
    (∀ h, list.head (list.tail l) = Some h →
          ∃ o, m' !! h = Some o ∧ Order.prev o = None) ∧
    (∀ j o, m !! j = Some o → ∃ o', m' !! j = Some o' ∧ same_fields o o').
Proof.
  intros Hq Hnd. destruct l as [|i l].
  - destruct Hq as [Hc Htl]. cbn in Hc. exists m, lvl.
    unfold Headers.PriceLevel.pop_front. rewrite Hc.
    split; [done|]. split; [done|]. split; [done|]. split; [done|]. split; [done|].
    intros j o Hj. exists o. split; [done|apply same_fields_refl].
  - destruct (headers_pop_front_spec m lvl i l Hq Hnd)
      as (m' & lvl' & o & Heq & Hq' & _ & _ & _ & Hkeep & Ho & Ho' & Hhead).
    exists m', lvl'. split; [done|]. split; [done|]. split; [done|]. split.
    { intros ? [= <-]. eexists. split; [exact Ho'|]. done. }
    split; [done|].
    intros j oj Hj. destruct (Hkeep j oj Hj) as (o' & ? & ? & _). eauto.
Qed.

Lemma headers_pop_front_detaches_witness :
  ∃ m' lvl',
    Headers.PriceLevel.pop_front
      [Order.mk 1 100 5 false None (Some 1%nat); Order.mk 2 100 5 false (Some 0%nat) None]
      (Headers.PriceLevel.mk (Some 0%nat) (Some 1%nat)) = Ok (m', lvl') ∧
    headers_queue m' lvl' [1%nat] ∧
    ([0; 1]%nat = [] → 
       m' = [Order.mk 1 100 5 false None (Some 1%nat); Order.mk 2 100 5 false (Some 0%nat) None] ∧
       lvl' = Headers.PriceLevel.mk (Some 0%nat) (Some 1%nat)) ∧
    (∀ i, Some 0%nat = Some i →
          ∃ o, m' !! i = Some o ∧ Order.prev o = None ∧ Order.next o = None) ∧
    (∀ h, Some 1%nat = Some h → ∃ o, m' !! h = Some o ∧ Order.prev o = None) ∧
    (∀ j o, [Order.mk 1 100 5 false None (Some 1%nat); Order.mk 2 100 5 false (Some 0%nat) None]
              !! j = Some o → ∃ o', m' !! j = Some o' ∧ same_fields o o').
Proof.
  apply (headers_pop_front_detaches
           [Order.mk 1 100 5 false None (Some 1%nat); Order.mk 2 100 5 false (Some 0%nat) None]
           (Headers.PriceLevel.mk (Some 0%nat) (Some 1%nat)) [0; 1]%nat).
  - split; [|done]. cbn. split; [done|]. eexists. split; [done|]. cbn. split; [done|].
    eexists. split; done.
  - apply NoDup_cons. split; [|apply NoDup_singleton]. by intros ?%list_elem_of_singleton.
Defined.

(** X15: [PriceLevel::addOrder] of the header variant appends: the new record is
    linked behind the queue whatever its sibling handles held before (it
    writes both), with [prev] on the old tail; no record's id, price,
    quantity or side is written, and records outside the queue keep their
    links. *)
Theorem headers_addOrder_appends m lvl l new on :
  headers_queue m lvl l → NoDup l → new ∉ l → m !! new = Some on →
  ∃ m' lvl' on',
    Headers.PriceLevel.addOrder new m lvl = Ok (m', lvl') ∧
    headers_queue m' lvl' (l ++ [new]) ∧
    m' !! new = Some on' ∧ same_fields on on' ∧
    Order.prev on' = list.last l ∧ Order.next on' = None ∧
    (∀ j o, m !! j = Some o → ∃ o', m' !! j = Some o' ∧ same_fields o o') ∧
    (∀ j, j ∉ l → j ≠ new → m' !! j = m !! j).
Proof.
  intros Hq Hnd Hnew Hon.
  destruct (headers_addOrder_spec m lvl l new on Hq Hnd Hnew Hon)
    as (m' & lvl' & Heq & Hq' & _ & Hother & Hkeep & Hnew').
  exists m', lvl'. eexists. split; [done|]. split; [done|]. split; [exact Hnew'|].
  split; [by repeat split|]. split; [done|]. split; [done|]. split; [|done].
  intros j o Hj. destruct (Hkeep j o Hj) as (o' & ? & ? & _). eauto.
Qed.

Lemma headers_addOrder_appends_witness :
  ∃ m' lvl' on',
    Headers.PriceLevel.addOrder 1
      [Order.mk 1 100 5 false None None; Order.mk 2 100 5 false (Some 7%nat) (Some 9%nat)]
      (Headers.PriceLevel.mk (Some 0%nat) (Some 0%nat)) = Ok (m', lvl') ∧
    headers_queue m' lvl' [0; 1]%nat ∧
    m' !! 1%nat = Some on' ∧
    same_fields (Order.mk 2 100 5 false (Some 7%nat) (Some 9%nat)) on' ∧
    Order.prev on' = Some 0%nat ∧ Order.next on' = None ∧
    (∀ j o, [Order.mk 1 100 5 false None None;
             Order.mk 2 100 5 false (Some 7%nat) (Some 9%nat)] !! j = Some o →
            ∃ o', m' !! j = Some o' ∧ same_fields o o') ∧
    (∀ j, j ∉ [0%nat] → j ≠ 1%nat →
          m' !! j = [Order.mk 1 100 5 false None None;
                     Order.mk 2 100 5 false (Some 7%nat) (Some 9%nat)] !! j).
Proof.
  apply (headers_addOrder_appends
           [Order.mk 1 100 5 false None None; Order.mk 2 100 5 false (Some 7%nat) (Some 9%nat)]
           (Headers.PriceLevel.mk (Some 0%nat) (Some 0%nat)) [0%nat] 1%nat
           (Order.mk 2 100 5 false (Some 7%nat) (Some 9%nat))).
  - split; [|done]. cbn. split; [done|]. eexists. split; done.
  - apply NoDup_singleton.
  - by intros ?%list_elem_of_singleton.
  - done.
Defined.

(** On records as [allocate] hands them out (null sibling handles) the two
    variants queue alike: [push_back] of hft_engine.cpp and
    [PriceLevel::addOrder] of OrderBook.h give the same records and the same
    head and tail. *)
Theorem headers_addOrder_agrees_with_push_back m lvl l new on :
  queue m lvl l → NoDup l → new ∉ l →
  m !! new = Some on → Order.prev on = None → Order.next on = None →
  ∃ m' lvl',
    PriceLevel.push_back new m lvl = Ok (m', lvl') ∧
    Headers.PriceLevel.addOrder new m
      (Headers.PriceLevel.mk (PriceLevel.head lvl) (PriceLevel.tail lvl))
    = Ok (m', Headers.PriceLevel.mk (PriceLevel.head lvl') (PriceLevel.tail lvl')).
Proof.
  intros [Hc Htl] Hnd Hnew Hon Hp Hn.
  unfold PriceLevel.push_back, Headers.PriceLevel.addOrder.
  rewrite (at_lookup _ _ _ Hon), bind_Ok. cbv zeta. cbn [Headers.PriceLevel.tail Headers.PriceLevel.head].
  destruct on as [id price qty is_buy prev next]. cbn in Hp, Hn. subst prev next.
  pose proof (lookup_lt_Some _ _ _ Hon) as Hlt.
  destruct l as [|i l].
  - cbn in Hc, Htl. rewrite Hc, Htl. eexists _, _. split; [done|].
    unfold Order.with_next, Order.with_prev. cbn. by rewrite list_insert_id.
  - pose proof Hc as (Hh & _). rewrite Hh.
    destruct (list.last (i :: l)) as [tl|] eqn:Hlast; [|by apply last_None in Hlast].
    rewrite Htl. cbn [deref]. rewrite bind_Ok.
    pose proof (last_Some_elem_of _ _ Hlast) as Htlin.
    destruct (chain_lookup _ _ _ _ Hc Htlin) as [ot Hot].
    assert (new ≠ tl) as Hne by (intros ->; done).
    rewrite (at_lookup _ _ _ Hot), bind_Ok.
    rewrite (at_lookup _ new (Order.mk id price qty is_buy None None))
      by (by rewrite list_lookup_insert_ne).
    rewrite bind_Ok.
    rewrite (at_lookup _ tl ot) by (by rewrite list_lookup_insert_ne).
    rewrite bind_Ok. eexists _, _. split; [done|]. cbn.
    unfold Order.with_next at 2, Order.with_prev. cbn.
    by rewrite list_insert_insert_ne.
Qed.

(** ** The cached best prices of the header variant *)

Lemma headers_updateBestAsk_loop_spec todo : ∀ i b,
  (i + todo = length (Headers.OrderBook.asks_ b))%nat →
  ∃ a, Headers.OrderBook.updateBestAsk_loop todo i b
       = Ok (Headers.OrderBook.mk (Headers.OrderBook.asks_ b) (Headers.OrderBook.bids_ b)
               (if decide (a < i + todo)%nat then Z.of_nat a else Headers.MAX_PRICE_TICKS)
               (Headers.OrderBook.best_bid_ b)) ∧
       (i ≤ a ≤ i + todo)%nat ∧
       (∀ j l, (i ≤ j < a)%nat → Headers.OrderBook.asks_ b !! j = Some l →
               Headers.PriceLevel.head l = None) ∧
       ((a < i + todo)%nat →
        ∃ l, Headers.OrderBook.asks_ b !! a = Some l ∧ Headers.PriceLevel.head l ≠ None).
Proof.
  induction todo as [|todo IH]; intros i b Hlen.
  - exists i. cbn [Headers.OrderBook.updateBestAsk_loop].
    rewrite decide_False by lia. split; [done|]. split; [lia|]. split; [intros; lia|lia].
  - cbn [Headers.OrderBook.updateBestAsk_loop].
    destruct (lookup_lt_is_Some_2 (Headers.OrderBook.asks_ b) i ltac:(lia)) as [l Hl].
    rewrite (at_lookup _ _ _ Hl), bind_Ok.
    destruct (Headers.PriceLevel.head l) as [h|] eqn:Hh.
    + exists i. rewrite decide_True by lia. split; [done|]. split; [lia|].
      split; [intros; lia|]. intros _. exists l. split; [done|]. by rewrite Hh.
    + destruct (IH (S i) b ltac:(lia)) as (a & Heq & Ha & Hlow & Hocc).
      exists a. rewrite Heq. split.
      { do 2 f_equal. repeat case_decide; (done || lia). }
      split; [lia|]. split.
      * intros j l' Hj Hl'. destruct (decide (j = i)) as [->|]; [by simplify_eq|].
        apply (Hlow j); [lia|done].
      * intros Hlt. apply Hocc. lia.
Qed.

(** X16: [updateBestAsk] rescans the ask side from tick 0 upwards: it sets
    [best_ask_] to the lowest tick whose level is not empty, or to
    [MAX_PRICE_TICKS] when every level is empty, and writes nothing else. *)
Theorem headers_updateBestAsk_lowest b :
  length (Headers.OrderBook.asks_ b) = Z.to_nat Headers.MAX_PRICE_TICKS →
  ∃ a, Headers.OrderBook.updateBestAsk b
       = Ok (Headers.OrderBook.mk (Headers.OrderBook.asks_ b) (Headers.OrderBook.bids_ b)
               a (Headers.OrderBook.best_bid_ b)) ∧
       0 ≤ a ≤ Headers.MAX_PRICE_TICKS ∧
       (∀ j l, Z.of_nat j < a → Headers.OrderBook.asks_ b !! j = Some l →
               Headers.PriceLevel.head l = None) ∧
       (a < Headers.MAX_PRICE_TICKS →
        ∃ l, Headers.OrderBook.asks_ b !! Z.to_nat a = Some l ∧
             Headers.PriceLevel.head l ≠ None).
Proof.
  intros Hlen. unfold Headers.OrderBook.updateBestAsk.
  destruct (headers_updateBestAsk_loop_spec (Z.to_nat Headers.MAX_PRICE_TICKS) 0 b)
    as (a & Heq & Ha & Hlow & Hocc); [by rewrite Hlen|].
  rewrite Heq. eexists. split; [done|]. cbn [Nat.add] in *.
  case_decide as Hlt.
  - split; [lia|]. split.
    + intros j l Hj Hl. apply (Hlow j); [lia|done].
    + intros _. rewrite Nat2Z.id. by apply Hocc.
  - assert (a = Z.to_nat Headers.MAX_PRICE_TICKS) as -> by lia.
    split; [unfold Headers.MAX_PRICE_TICKS; lia|]. split; [|lia].
    intros j l Hj Hl. apply (Hlow j); [|done]. unfold Headers.MAX_PRICE_TICKS in *. lia.
Qed.

Lemma headers_updateBestAsk_lowest_witness :
  ∃ a, Headers.OrderBook.updateBestAsk Headers.OrderBook.new
       = Ok (Headers.OrderBook.mk (Headers.OrderBook.asks_ Headers.OrderBook.new)
               (Headers.OrderBook.bids_ Headers.OrderBook.new)
               a (Headers.OrderBook.best_bid_ Headers.OrderBook.new)) ∧
       0 ≤ a ≤ Headers.MAX_PRICE_TICKS ∧
       (∀ j l, Z.of_nat j < a → Headers.OrderBook.asks_ Headers.OrderBook.new !! j = Some l →
               Headers.PriceLevel.head l = None) ∧
       (a < Headers.MAX_PRICE_TICKS →
        ∃ l, Headers.OrderBook.asks_ Headers.OrderBook.new !! Z.to_nat a = Some l ∧
             Headers.PriceLevel.head l ≠ None).
Proof.
  apply (headers_updateBestAsk_lowest Headers.OrderBook.new).
  apply length_replicate.
Defined.

Lemma headers_updateBestBid_loop_spec i : ∀ b,
  (i ≤ length (Headers.OrderBook.bids_ b))%nat →
  ∃ v, Headers.OrderBook.updateBestBid_loop i b
       = Ok (Headers.OrderBook.mk (Headers.OrderBook.asks_ b) (Headers.OrderBook.bids_ b)
               (Headers.OrderBook.best_ask_ b) (Z.of_nat v)) ∧
       (v < i ∨ (v = 0 ∧ i = 0))%nat ∧
       (∀ j l, (v < j < i)%nat → Headers.OrderBook.bids_ b !! j = Some l →
               Headers.PriceLevel.head l = None) ∧
       ((0 < v)%nat →
        ∃ l, Headers.OrderBook.bids_ b !! v = Some l ∧ Headers.PriceLevel.head l ≠ None).
Proof.
  induction i as [|i IH]; intros b Hlen.
  - exists 0%nat. cbn. split; [done|]. split; [lia|]. split; [intros; lia|lia].
  - cbn [Headers.OrderBook.updateBestBid_loop].
    destruct (lookup_lt_is_Some_2 (Headers.OrderBook.bids_ b) i ltac:(lia)) as [l Hl].
    rewrite (at_lookup _ _ _ Hl), bind_Ok.
    destruct (Headers.PriceLevel.head l) as [h|] eqn:Hh.
    + exists i. split; [done|]. split; [lia|]. split; [intros; lia|].
      intros _. exists l. split; [done|]. by rewrite Hh.
    + destruct (IH b ltac:(lia)) as (v & Heq & Hv & Hhigh & Hocc).
      exists v. split; [done|]. split; [lia|]. split; [|done].
      intros j l' Hj Hl'. destruct (decide (j = i)) as [->|]; [by simplify_eq|].
      apply (Hhigh j); [lia|done].
Qed.

(** X17: [updateBestBid] rescans the bid side from the top tick downwards: it
    sets [best_bid_] to the highest tick whose level is not empty, or to 0
    when every level is empty, and writes nothing else. The answer 0 stands
    for both an empty bid side and a best bid at tick 0. *)
Theorem headers_updateBestBid_highest b :
  length (Headers.OrderBook.bids_ b) = Z.to_nat Headers.MAX_PRICE_TICKS →
  ∃ v, Headers.OrderBook.updateBestBid b
       = Ok (Headers.OrderBook.mk (Headers.OrderBook.asks_ b) (Headers.OrderBook.bids_ b)
               (Headers.OrderBook.best_ask_ b) v) ∧
       0 ≤ v < Headers.MAX_PRICE_TICKS ∧
       (∀ j l, v < Z.of_nat j → Headers.OrderBook.bids_ b !! j = Some l →
               Headers.PriceLevel.head l = None) ∧
       (0 < v →
        ∃ l, Headers.OrderBook.bids_ b !! Z.to_nat v = Some l ∧
             Headers.PriceLevel.head l ≠ None).
Proof.
  intros Hlen. unfold Headers.OrderBook.updateBestBid.
  destruct (headers_updateBestBid_loop_spec (Z.to_nat Headers.MAX_PRICE_TICKS) b)
    as (v & Heq & Hv & Hhigh & Hocc); [by rewrite Hlen|].
  rewrite Heq. eexists. split; [done|].
  split; [unfold Headers.MAX_PRICE_TICKS in *; lia|]. split.
  - intros j l Hj Hl. apply (Hhigh j); [|done].
    apply lookup_lt_Some in Hl. rewrite Hlen in Hl. lia.
  - intros Hpos. rewrite Nat2Z.id. apply Hocc. lia.
Qed.

Lemma headers_updateBestBid_highest_witness :
  ∃ v, Headers.OrderBook.updateBestBid Headers.OrderBook.new
       = Ok (Headers.OrderBook.mk (Headers.OrderBook.asks_ Headers.OrderBook.new)
               (Headers.OrderBook.bids_ Headers.OrderBook.new)
               (Headers.OrderBook.best_ask_ Headers.OrderBook.new) v) ∧
       0 ≤ v < Headers.MAX_PRICE_TICKS ∧
       (∀ j l, v < Z.of_nat j → Headers.OrderBook.bids_ Headers.OrderBook.new !! j = Some l →
               Headers.PriceLevel.head l = None) ∧
       (0 < v →
        ∃ l, Headers.OrderBook.bids_ Headers.OrderBook.new !! Z.to_nat v = Some l ∧
             Headers.PriceLevel.head l ≠ None).
Proof.
  apply (headers_updateBestBid_highest Headers.OrderBook.new).
  apply length_replicate.
Defined.

(** ** The index of the header variant *)

(** X18: the index declared in OrderBook.h has 64 data words, so it covers the
    ticks below 4096 only: there [setPriceLevel] and [clearPriceLevel] go
    through, and at every tick from 4096 on, the ticks 4096 to 9999 of that
    file's [MAX_PRICE_TICKS] included, both index [data_words_] out of
    bounds. *)
Theorem headers_index_covers_4096_ticks tr price :
  length (Headers.FastPriceTracker.data_words_ tr) = 64%nat → 0 ≤ price →
  (price < 4096 →
   (∃ tr', Headers.FastPriceTracker.setPriceLevel price tr = Ok tr' ∧
           length (Headers.FastPriceTracker.data_words_ tr') = 64%nat) ∧
   (∃ tr', Headers.FastPriceTracker.clearPriceLevel price tr = Ok tr' ∧
           length (Headers.FastPriceTracker.data_words_ tr') = 64%nat)) ∧
  (4096 ≤ price →
   Headers.FastPriceTracker.setPriceLevel price tr = Undefined ∧
   Headers.FastPriceTracker.clearPriceLevel price tr = Undefined).
Proof.
  intros Hlen Hp. split.
  - intros Hlt.
    destruct (lookup_lt_is_Some_2 (Headers.FastPriceTracker.data_words_ tr)
                (Z.to_nat (price / 64))) as [w Hw]; [rewrite Hlen; divmod|].
    unfold Headers.FastPriceTracker.setPriceLevel, Headers.FastPriceTracker.clearPriceLevel.
    rewrite (at_lookup _ _ _ Hw), !bind_Ok. cbv zeta. split.
    + eexists. split; [done|]. cbn. by rewrite length_insert.
    + destruct (_ =? 0); eexists; (split; [done|]); cbn; by rewrite length_insert.
  - intros Hge.
    assert (Headers.FastPriceTracker.data_words_ tr !! Z.to_nat (price / 64) = None) as Hw
      by (apply lookup_ge_None_2; rewrite Hlen; divmod).
    unfold Headers.FastPriceTracker.setPriceLevel, Headers.FastPriceTracker.clearPriceLevel.
    unfold at_. rewrite Hw. done.
Qed.

Lemma headers_index_covers_4096_ticks_witness :
  (5000 < 4096 →
   (∃ tr', Headers.FastPriceTracker.setPriceLevel 5000 Headers.FastPriceTracker.new = Ok tr' ∧
           length (Headers.FastPriceTracker.data_words_ tr') = 64%nat) ∧
   (∃ tr', Headers.FastPriceTracker.clearPriceLevel 5000 Headers.FastPriceTracker.new = Ok tr' ∧
           length (Headers.FastPriceTracker.data_words_ tr') = 64%nat)) ∧
  (4096 ≤ 5000 →
   Headers.FastPriceTracker.setPriceLevel 5000 Headers.FastPriceTracker.new = Undefined ∧
   Headers.FastPriceTracker.clearPriceLevel 5000 Headers.FastPriceTracker.new = Undefined).
Proof.
  apply (headers_index_covers_4096_ticks Headers.FastPriceTracker.new 5000).
  - reflexivity.
  - lia.
Defined.

(** ** Accounting of the arena *)

Lemma free_handles_length e G :
  book_inv e G →
  length (free_handles (MatchingEngine.pool_ e)) = OrderPool.free_idx_ (MatchingEngine.pool_ e).
Proof.
  intros Hinv. unfold free_handles. rewrite length_take.
  pose proof (inv_free_idx Hinv). lia.
Qed.

Lemma prio_upd_snoc_length side G b ib :
  0 ≤ b < MAX_PRICE_TICKS →
  length (prio side (upd G side b (G side b ++ [ib]))) = S (length (prio side G)).
Proof.
  intros Hb. destruct (tick_order_split side b Hb) as (pre & post & Hsplit & Hpre & Hpost).
  unfold prio. rewrite Hsplit, !fmap_app, !fmap_cons, !concat_app. cbn [concat].
  rewrite (concat_fmap_ext (G side) (upd G side b (G side b ++ [ib]) side) pre).
  2:{ intros x Hx. apply upd_ne. intros [_ ->]. by destruct (Hpre b Hx) as (_ & ? & _). }
  rewrite (concat_fmap_ext (G side) (upd G side b (G side b ++ [ib]) side) post).
  2:{ intros x Hx. apply upd_ne. intros [_ ->]. by apply (Hpost b). }
  rewrite upd_eq, !length_app. cbn [length]. lia.
Qed.

Lemma stops_within_limit side b price :
  stops side b price = false → within_limit (negb side) price b.
Proof.
  unfold stops, within_limit. destruct side; cbn [negb]; intros H; apply orb_false_elim in H as [H _]; lia.
Qed.

(** A matching loop that makes no fill changes nothing. *)
Lemma matchOrder_nil side fuel ib e e' :
  matchOrder side fuel ib e = Ok (e', []) → e' = e.
Proof.
  destruct fuel as [|fuel]; [done|]. cbn [matchOrder]. intros H.
  destruct (at_ (MatchingEngine.orders e) ib) as [i| |]; [|done..]. rewrite bind_Ok in H.
  destruct (Order.qty i >? 0); [|by simplify_eq].
  destruct (best_price side _) as [b| |]; [|done..]. rewrite bind_Ok in H.
  destruct (stops side b (Order.price i)); [by simplify_eq|].
  destruct (at_ _ (Z.to_nat b)) as [lvl| |]; [|done..]. rewrite bind_Ok in H.
  destruct (MatchingEngine.executeTrade _ _ _ _ _ _) as [[e1 f]| |]; [|done..].
  rewrite bind_Ok in H.
  destruct (matchOrder side fuel ib e1) as [[e2 fs]| |]; [|done..].
  rewrite bind_Ok in H. done.
Qed.

(** What a matching loop does to the free stack, and at which prices it
    fills. *)
Lemma matchOrder_more side fuel : ∀ e G ib id price sd q e' fills,
  book_inv e G → inflight e G ib id price sd q →
  matchOrder side fuel ib e = Ok (e', fills) →
  ∃ G', book_inv e' G' ∧
    (OrderPool.free_idx_ (MatchingEngine.pool_ e') + length (prio side G')
     = OrderPool.free_idx_ (MatchingEngine.pool_ e) + length (prio side G))%nat ∧
    (OrderPool.free_idx_ (MatchingEngine.pool_ e)
     ≤ OrderPool.free_idx_ (MatchingEngine.pool_ e'))%nat ∧
    (∀ x, G' (negb side) x = G (negb side) x) ∧
    Forall (λ f, stops side (trade_price f) price = false) fills.
Proof.
  induction fuel as [|fuel IH]; intros e G ib id price sd q e' fills Hinv Hfl Hm; [done|].
  cbn [matchOrder] in Hm. rewrite (at_lookup _ _ _ (fl_order Hfl)), bind_Ok in Hm.
  cbn [Order.qty Order.price] in Hm.
  destruct (Z.gtb_spec q 0) as [Hpos|Hzero].
  2:{ simplify_eq. exists G. split; [done|]. split; [lia|]. split; [lia|]. split; [done|constructor]. }
  destruct (best_price_spec side (tracker side (MatchingEngine.book_ e)) price
              (inv_tracker_wf Hinv side)) as (b & Hb & Hcase).
  rewrite Hb, bind_Ok in Hm. destruct Hcase as [Hstop|(Hbr & Hact & Hbest)].
  { rewrite Hstop in Hm. simplify_eq. exists G. split; [done|]. split; [lia|]. split; [lia|]. split; [done|constructor]. }
  destruct (stops side b price) eqn:Hstop.
  { simplify_eq. exists G. split; [done|]. split; [lia|]. split; [lia|]. split; [done|constructor]. }
  apply (inv_active Hinv side b Hbr) in Hact.
  destruct (G side b) as [|r l] eqn:HG; [done|]. clear Hact.
  destruct (inv_queue Hinv side b Hbr) as (lvl & Hlvl & Hqueue).
  rewrite HG in Hqueue. rewrite (at_lookup _ _ _ Hlvl), bind_Ok in Hm.
  destruct Hqueue as [Hchain _]. apply chain_head in Hchain. rewrite Hchain in Hm.
  cbn [list.head] in Hm.
  destruct (executeTrade_spec e G ib id price sd q side b r l Hinv Hfl Hpos Hbr HG)
    as (e1 & o & G1 & Ho & Hex & Hf & _ & Hinv1 & Hfl1 & _ & Hcase & _ & Hfree).
  rewrite Hex, bind_Ok in Hm.
  destruct (matchOrder side fuel ib e1) as [[e2 fills2]| |] eqn:Hrec; [|done..].
  rewrite bind_Ok in Hm. simplify_eq.
  destruct (IH e1 G1 ib id price sd _ e' fills2 Hinv1 Hfl1 Hrec)
    as (G2 & Hinv2 & Hcount & Hmono & Hown & Hlim).
  exists G2. split; [done|].
  assert (prio side G = r :: prio side (upd G side b l)) as Hprio.
  { apply prio_best; [done|done|]. intros t Ht Hne. apply Hbest; [done|].
    by apply (inv_active Hinv). }
  apply (f_equal length) in Hfree.
  rewrite (free_handles_length _ _ Hinv1), length_app, (free_handles_length _ _ Hinv) in Hfree.
  apply (f_equal length) in Hprio. cbn [length] in Hprio.
  destruct Hcase as [[-> Hlt]|[-> Hle]].
  - rewrite decide_False in Hfree by lia. cbn [length] in Hfree.
    split; [lia|]. split; [lia|]. split; [done|]. constructor; [done|done].
  - rewrite decide_True in Hfree by lia. cbn [length] in Hfree.
    split; [lia|]. split; [lia|]. split.
    + intros x. rewrite Hown. apply upd_ne. intros [? _]. by destruct side.
    + constructor; [done|done].
Qed.

(** What one call that returns does to the arena and the book. *)
Lemma processNewOrder_more fuel id price q sd e G e' fills :
  book_inv e G → 0 ≤ price < MAX_PRICE_TICKS → 0 < q < 2 ^ 32 →
  MatchingEngine.processNewOrder fuel id price q sd e = Ok (e', Return fills) →
  (OrderPool.free_idx_ (MatchingEngine.pool_ e') + resting_count e'
   = OrderPool.free_idx_ (MatchingEngine.pool_ e) + resting_count e)%nat ∧
  (resting_count e' ≤ S (resting_count e))%nat ∧
  Forall (λ f, within_limit sd price (trade_price f)) fills.
Proof.
  intros Hinv Hp Hq Hrun.
  unfold MatchingEngine.processNewOrder in Hrun.
  destruct (decide (OrderPool.free_idx_ (MatchingEngine.pool_ e) = 0%nat)) as [Hz|Hnz].
  { unfold OrderPool.allocate in Hrun. rewrite Hz in Hrun. done. }
  destruct (allocate_spec e G id price q sd Hinv) as (p & ib & Hal & Hinv0 & Hfl0 & _);
    [lia|done|].
  assert (OrderPool.free_idx_ p = OrderPool.free_idx_ (MatchingEngine.pool_ e) - 1)%nat as Hfi0.
  { unfold OrderPool.allocate in Hal.
    destruct (Nat.eqb_spec (OrderPool.free_idx_ (MatchingEngine.pool_ e)) 0) as [|_]; [done|].
    destruct (at_ _ _) as [idx| |]; [|done..]. rewrite bind_Ok in Hal.
    destruct (at_ _ idx) as [o| |]; [|done..]. rewrite bind_Ok in Hal. by simplify_eq. }
  rewrite Hal, bind_Ok in Hrun. cbv zeta in Hrun. rewrite match_loop_side in Hrun.
  set (e0 := MatchingEngine.mk _ p _) in *.
  assert (OrderPool.free_idx_ (MatchingEngine.pool_ e0)
          = OrderPool.free_idx_ (MatchingEngine.pool_ e) - 1)%nat as Hfi0' by done.
  clearbody e0. clear Hfi0.
  pose proof (matchOrder_spec (negb sd) fuel e0 G ib id price sd q Hinv0 Hfl0) as Hloop.
  destruct (matchOrder (negb sd) fuel ib e0) as [[e1 fills1]| |] eqn:Hmatch; [|done|done].
  destruct Hloop as (G1 & q1 & Hinv1 & Hfl1 & Hpost). rewrite bind_Ok in Hrun.
  destruct (matchOrder_more _ _ _ _ _ _ _ _ _ _ _ Hinv0 Hfl0 Hmatch)
    as (G1' & Hinv1' & Hcount & Hmono & Hown & Hlim).
  pose proof (book_inv_ghost_unique _ _ _ Hinv1' Hinv1) as HG1.
  rewrite negb_involutive in Hown.
  rewrite (prio_ext (negb sd) G1 G1') in Hcount by (intros x; apply HG1).
  assert (prio sd G1 = prio sd G) as Hown1.
  { apply prio_ext. intros x. rewrite <- HG1. apply Hown. }
  pose proof (fl_order Hfl1) as Hib1.
  rewrite (at_lookup _ _ _ Hib1), bind_Ok in Hrun. cbn [Order.qty] in Hrun.
  assert (Forall (λ f, within_limit sd price (trade_price f)) fills1) as Hlim'.
  { eapply Forall_impl; [exact Hlim|]. intros f Hf. apply stops_within_limit in Hf.
    by rewrite negb_involutive in Hf. }
  unfold resting_count. rewrite !(priority_prio e G) by done.
  destruct (Z.gtb_spec q1 0) as [Hrest|Hdone].
  - destruct (addOrder_spec e1 G1 ib id price sd q1 Hinv1 Hfl1 Hrest Hp)
      as (m' & b' & Hadd & Hinv2 & _).
    rewrite Hadd, bind_Ok in Hrun. simplify_eq.
    rewrite !(priority_prio _ _ _ Hinv2).
    assert (length (prio sd (upd G1 sd price (G1 sd price ++ [ib]))) = S (length (prio sd G)))
      as Hlen_own by (rewrite prio_upd_snoc_length, Hown1; done).
    assert (prio (negb sd) (upd G1 sd price (G1 sd price ++ [ib])) = prio (negb sd) G1)
      as Hlen_opp by (apply prio_ext; intros x; apply upd_ne; intros [? _]; by destruct sd).
    cbn [MatchingEngine.pool_ MatchingEngine.set_orders OrderPool.free_idx_].
    unfold MatchingEngine.set_orders. cbn [OrderPool.free_idx_].
    split; [|split; [|done]]; destruct sd; cbn [negb] in *; rewrite ?Hlen_own, ?Hlen_opp; lia.
  - destruct (deallocate_inbound_spec e1 G1 ib id price sd q1 Hinv1 Hfl1)
      as (p' & Hde & _ & Hinv2).
    assert (OrderPool.free_idx_ p' = S (OrderPool.free_idx_ (MatchingEngine.pool_ e1))) as Hfi2.
    { unfold OrderPool.deallocate in Hde. destruct (at_ _ _) as [x| |]; [|done..].
      rewrite bind_Ok in Hde. by simplify_eq. }
    rewrite Hde, bind_Ok in Hrun. simplify_eq.
    rewrite !(priority_prio _ _ _ Hinv2).
    cbn [MatchingEngine.pool_]. rewrite Hfi2.
    split; [|split; [|done]]; destruct sd; cbn [negb] in *; rewrite ?Hown1; lia.
Qed.

Lemma prio_nil side : prio side (λ _ _, []) = [].
Proof. unfold prio. by apply concat_fmap_nil. Qed.

Lemma trace_accounting n cs ts e :
  trace n cs ts e →
  (OrderPool.free_idx_ (MatchingEngine.pool_ e) + resting_count e = n)%nat ∧
  (resting_count e ≤ length cs)%nat.
Proof.
  induction 1 as [|cs ts e fuel c e' fills Htr [IH1 IH2] [Hp Hq] Hsub
                  |cs ts e fuel c e' ex Htr IH [Hp Hq] Hsub].
  - unfold resting_count. rewrite !(priority_prio _ _ _ (book_inv_new n)), !prio_nil.
    cbn. lia.
  - destruct (trace_inv _ _ _ _ Htr) as (G & Hinv & _).
    destruct (processNewOrder_more fuel _ _ _ _ e G e' fills Hinv Hp Hq Hsub) as (H1 & H2 & _).
    rewrite length_app. cbn [length]. lia.
  - destruct (trace_inv _ _ _ _ Htr) as (G & Hinv & _).
    pose proof (processNewOrder_spec fuel (call_id c) (call_price c) (call_qty c)
                  (call_is_buy c) e G Hinv Hp Hq) as Hspec.
    unfold submit in Hsub. rewrite Hsub in Hspec. destruct Hspec as [-> _]. done.
Qed.

(** X19: the arena leaks no record: after every sequence of valid calls on an
    engine of [n] records, the free records and the orders resting in the
    book add up to [n]. *)
Theorem arena_has_no_leak n cs ts e :
  trace n cs ts e →
  (OrderPool.free_idx_ (MatchingEngine.pool_ e) + resting_count e = n)%nat.
Proof. intros Htr. by destruct (trace_accounting _ _ _ _ Htr). Qed.

Lemma scenario_F_run : trace 4 scenario_F [] scenario_F_engine.
Proof.
  apply (run_reachable 4 8 scenario_F scenario_F_engine
           [Return []; Return []; Return []; Return []]).
  - reflexivity.
  - vm_compute. reflexivity.
  - reflexivity.
Qed.

Lemma scenario_D_run : trace 4 scenario_D [] scenario_D_engine.
Proof.
  apply (run_reachable 4 8 scenario_D scenario_D_engine [Return []; Return []; Return []]).
  - reflexivity.
  - vm_compute. reflexivity.
  - reflexivity.
Qed.

Lemma arena_has_no_leak_witness :
  (OrderPool.free_idx_ (MatchingEngine.pool_ exact_match_engine)
   + resting_count exact_match_engine = 4)%nat.
Proof. apply (arena_has_no_leak 4 exact_match_calls [exact_match_fill]), exact_match_trace. Defined.

Lemma run_within_capacity n fuel cs : ∀ cs0 ts0 e0,
  trace n cs0 ts0 e0 → Forall valid_call cs →
  (length cs0 + length cs ≤ n)%nat →
  Forall (λ c, call_qty c < Z.of_nat fuel) cs →
  ∃ e rs ts, run fuel cs e0 = Ok (e, rs) ∧ returned rs = Some ts ∧
             trace n (cs0 ++ cs) (ts0 ++ ts) e.
Proof.
  induction cs as [|c cs IH]; intros cs0 ts0 e0 Htr Hval Hlen Hfuel.
  { exists e0, [], []. cbn. by rewrite !app_nil_r. }
  apply Forall_cons in Hval as [[Hp Hq] Hval]. apply Forall_cons in Hfuel as [Hf Hfuel].
  cbn [length] in Hlen.
  destruct (trace_inv _ _ _ _ Htr) as (G & Hinv & _).
  destruct (trace_accounting _ _ _ _ Htr) as [Hacc Hrc].
  pose proof (processNewOrder_spec fuel (call_id c) (call_price c) (call_qty c)
                (call_is_buy c) e0 G Hinv Hp Hq) as Hspec.
  cbn [run]. unfold submit at 1.
  destruct (MatchingEngine.processNewOrder _ _ _ _ _ _) as [[e1 [fills|ex]]| |] eqn:Hsub;
    [|destruct Hspec as [_ Hz]; lia|done|lia].
  rewrite bind_Ok.
  assert (trace n (cs0 ++ [c]) (ts0 ++ fills) e1) as Htr1
    by (eapply trace_return; [done|done|exact Hsub]).
  destruct (IH (cs0 ++ [c]) (ts0 ++ fills) e1 Htr1 Hval) as (e & rs & ts & Hrun & Hret & Htr');
    [rewrite length_app; cbn [length]; lia|done|].
  rewrite Hrun, bind_Ok. exists e, (Return fills :: rs), (fills ++ ts).
  split; [done|]. split; [cbn [returned]; by rewrite Hret|].
  rewrite <- !app_assoc in Htr'. done.
Qed.

Lemma within_capacity_run n fuel cs :
  Forall valid_call cs → (length cs ≤ n)%nat →
  Forall (λ c, call_qty c < Z.of_nat fuel) cs →
  ∃ e rs ts, run fuel cs (MatchingEngine.new n) = Ok (e, rs) ∧
             returned rs = Some ts ∧ trace n cs ts e.
Proof.
  intros Hval Hlen Hfuel.
  apply (run_within_capacity n fuel cs [] [] (MatchingEngine.new n)); [constructor|done..].
Qed.

(** X20: an engine of [n] records takes [n] orders whatever they are: of a
    sequence of at most [n] valid calls on a fresh engine, run with fuel
    above every quantity, each call returns; none throws, none meets
    undefined behaviour and none runs out of fuel. *)
Theorem within_capacity_never_throws n fuel cs :
  Forall valid_call cs → (length cs ≤ n)%nat →
  Forall (λ c, call_qty c < Z.of_nat fuel) cs →
  ∃ e rs ts, run fuel cs (MatchingEngine.new n) = Ok (e, rs) ∧
             returned rs = Some ts ∧ trace n cs ts e.
Proof. apply within_capacity_run. Qed.

Lemma within_capacity_never_throws_witness :
  ∃ e rs ts, run 8 scenario_F (MatchingEngine.new 4) = Ok (e, rs) ∧
             returned rs = Some ts ∧ trace 4 scenario_F ts e.
Proof.
  apply (within_capacity_never_throws 4 8 scenario_F).
  - repeat constructor; cbn; lia.
  - cbn. lia.
  - repeat constructor; cbn; lia.
Defined.

Lemma main_calls_length i os : length (main_calls i os) = length os.
Proof. revert i. induction os as [|o os IH]; intros i; [done|]. cbn. by rewrite IH. Qed.

Lemma main_calls_Forall (P : call → Prop) (Q : RawOrder → Prop) i os :
  (∀ k o, Q o → P (mkCall k (raw_price o) (raw_qty o) (raw_is_buy o))) →
  Forall Q os → Forall P (main_calls i os).
Proof.
  intros HPQ Hos. revert i. induction Hos as [|o os Ho _ IH]; intros i; [constructor|].
  cbn. constructor; [by apply HPQ|apply IH].
Qed.

Lemma main_loop_run fuel os : ∀ i e e' rs ts,
  run fuel (main_calls i os) e = Ok (e', rs) → returned rs = Some ts →
  main_loop fuel i os e = Ok (Return e').
Proof.
  induction os as [|o os IH]; intros i e e' rs ts Hrun Hret.
  { cbn in Hrun. by simplify_eq. }
  change (main_calls i (o :: os))
    with (mkCall (Z.of_nat i) (raw_price o) (raw_qty o) (raw_is_buy o) :: main_calls (S i) os)
    in Hrun.
  change (('(e1, r) ← MatchingEngine.processNewOrder fuel (Z.of_nat i) (raw_price o)
                        (raw_qty o) (raw_is_buy o) e;
           '(e2, rs) ← run fuel (main_calls (S i) os) e1;
           Ok (e2, r :: rs)) = Ok (e', rs)) in Hrun.
  cbn [main_loop].
  destruct (MatchingEngine.processNewOrder _ _ _ _ _ _) as [[e1 r]| |]; [|done..].
  rewrite bind_Ok in Hrun. rewrite bind_Ok.
  destruct (run fuel (main_calls (S i) os) e1) as [[e2 rs']| |] eqn:Hrun'; [|done..].
  rewrite bind_Ok in Hrun. simplify_eq.
  destruct r as [fills|ex]; [|done]. cbn [returned] in Hret.
  destruct (returned rs') as [ts'|] eqn:Hret'; [|done].
  by eapply IH.
Qed.

(** X21: the benchmark of hft_engine.cpp runs through whatever the random
    generator draws: for every [test_orders] of [NUM_ORDERS] orders within the
    three distributions, each of the 500000 calls of [processNewOrder]
    returns (the pool of [MAX_ORDERS] records is never exhausted, nothing
    undefined is met, no matching loop needs more than 101 rounds), and at
    the end the book is not crossed and no record has leaked. *)
Theorem main_loop_completes test_orders :
  length test_orders = NUM_ORDERS → Forall drawn test_orders →
  ∃ engine, main_loop 101 0 test_orders MatchingEngine.make_unique = Ok (Return engine) ∧
            no_cross engine ∧
            (OrderPool.free_idx_ (MatchingEngine.pool_ engine) + resting_count engine
             = MAX_ORDERS)%nat.
Proof.
  intros Hlen Hdrawn.
  destruct (within_capacity_run MAX_ORDERS 101 (main_calls 0 test_orders))
    as (e & rs & ts & Hrun & Hret & Htr).
  - eapply main_calls_Forall; [|exact Hdrawn]. intros k o [Hp Hq].
    unfold valid_call, MAX_PRICE_TICKS. cbn. lia.
  - rewrite main_calls_length, Hlen. unfold NUM_ORDERS, MAX_ORDERS. lia.
  - eapply main_calls_Forall; [|exact Hdrawn]. intros k o [Hp Hq]. cbn. lia.
  - exists e. split; [by eapply main_loop_run|]. split.
    + apply (trace_uncrossed _ _ _ _ Htr).
      eapply main_calls_Forall; [|exact Hdrawn]. intros k o [Hp Hq] _. cbn. lia.
    + by destruct (trace_accounting _ _ _ _ Htr).
Qed.

Lemma main_loop_completes_witness :
  ∃ engine,
    main_loop 101 0 (replicate NUM_ORDERS (mkRawOrder 2000 10 true)) MatchingEngine.make_unique
      = Ok (Return engine) ∧
    no_cross engine ∧
    (OrderPool.free_idx_ (MatchingEngine.pool_ engine) + resting_count engine
     = MAX_ORDERS)%nat.
Proof.
  apply (main_loop_completes (replicate NUM_ORDERS (mkRawOrder 2000 10 true))).
  - apply length_replicate.
  - apply Forall_replicate. unfold drawn. cbn. lia.
Defined.

(** ** What one call does *)

Lemma occupied_ghost e G side t lvl :
  book_inv e G → levels side (MatchingEngine.book_ e) !! t = Some lvl →
  PriceLevel.isEmpty lvl = false ↔ G side (Z.of_nat t) ≠ [].
Proof.
  intros Hinv Hlvl.
  assert (0 ≤ Z.of_nat t < MAX_PRICE_TICKS) as Ht.
  { apply lookup_lt_Some in Hlvl. rewrite (inv_length Hinv) in Hlvl. lia. }
  destruct (inv_queue Hinv side _ Ht) as (lvl' & Hlvl' & [Hc _]).
  rewrite Nat2Z.id in Hlvl'. simplify_eq. apply chain_head in Hc.
  unfold PriceLevel.isEmpty. rewrite Hc. by destruct (G side (Z.of_nat t)).
Qed.

(** X22: every fill of a call is made within the order's limit, at the price of
    the level the resting order was queued at: a buy never fills above its
    price and a sell never below; the resting order was in the book on the
    opposite side before the call; and the fills of a call add up to no more
    than its quantity. *)
Theorem fills_respect_limit n e c fuel e' fills :
  reachable n e → valid_call c → submit fuel c e = Ok (e', Return fills) →
  filled_qty fills ≤ call_qty c ∧
  Forall (λ f, within_limit (call_is_buy c) (call_price c) (trade_price f) ∧
               0 < trade_qty f ∧ resting e (resting_handle f) ∧
               ∃ o, MatchingEngine.orders e !! resting_handle f = Some o ∧
                    Order.price o = trade_price f ∧
                    Order.is_buy o = negb (call_is_buy c)) fills.
Proof.
  intros Hr [Hp Hq] Hsub. destruct (reachable_inv _ _ Hr) as [G Hinv].
  pose proof (processNewOrder_spec fuel (call_id c) (call_price c) (call_qty c)
                (call_is_buy c) e G Hinv Hp Hq) as Hspec.
  unfold submit in Hsub. rewrite Hsub in Hspec. destruct Hspec as (_ & G' & Hinv' & Hpost).
  destruct (processNewOrder_more fuel _ _ _ _ e G e' fills Hinv Hp Hq Hsub) as (_ & _ & Hlim).
  split; [apply (cp_filled Hpost)|].
  pose proof (cp_fills Hpost) as Hfills.
  apply Forall_lookup. intros k f Hk.
  rewrite Forall_lookup in Hlim. rewrite Forall_lookup in Hfills.
  destruct (Hfills k f Hk) as (_ & Hpos & Hin & _).
  split; [by apply (Hlim k f)|]. split; [done|]. split.
  - apply (resting_ghost e G _ Hinv). eauto.
  - destruct (inv_resting Hinv _ _ _ Hin) as (o & Ho & Hprice & Hside & _). eauto.
Qed.

Lemma fills_respect_limit_witness :
  filled_qty (outcome (submit 8 (mkCall 4 101 7 true) scenario_D_engine)).2 ≤ 7 ∧
  Forall (λ f, within_limit true 101 (trade_price f) ∧
               0 < trade_qty f ∧ resting scenario_D_engine (resting_handle f) ∧
               ∃ o, MatchingEngine.orders scenario_D_engine !! resting_handle f = Some o ∧
                    Order.price o = trade_price f ∧
                    Order.is_buy o = negb true)
         (outcome (submit 8 (mkCall 4 101 7 true) scenario_D_engine)).2.
Proof.
  apply (fills_respect_limit 4 scenario_D_engine (mkCall 4 101 7 true) 8
           (outcome (submit 8 (mkCall 4 101 7 true) scenario_D_engine)).1).
  - exists scenario_D, []. apply scenario_D_run.
  - apply valid_callb_spec. reflexivity.
  - vm_compute. reflexivity.
Defined.

(** X23: an order that crosses no resting order makes no trade: when every
    occupied level of the opposite side lies beyond the order's limit, the
    call returns without a fill, the trade counter and the opposite side
    stay as they were, and the whole order rests. *)
Theorem passive_order_makes_no_trade n e c fuel e' fills :
  reachable n e → valid_call c → submit fuel c e = Ok (e', Return fills) →
  (∀ t lvl, levels (negb (call_is_buy c)) (MatchingEngine.book_ e) !! t = Some lvl →
            PriceLevel.isEmpty lvl = false →
            ¬ within_limit (call_is_buy c) (call_price c) (Z.of_nat t)) →
  fills = [] ∧
  MatchingEngine.getTradesExecuted e' = MatchingEngine.getTradesExecuted e ∧
  priority (negb (call_is_buy c)) e' = priority (negb (call_is_buy c)) e ∧
  resting_count e' = S (resting_count e).
Proof.
  intros Hr [Hp Hq] Hsub Hpassive. destruct (reachable_inv _ _ Hr) as [G Hinv].
  pose proof (processNewOrder_spec fuel (call_id c) (call_price c) (call_qty c)
                (call_is_buy c) e G Hinv Hp Hq) as Hspec.
  unfold submit in Hsub. rewrite Hsub in Hspec. destruct Hspec as (_ & G' & Hinv' & Hpost).
  destruct (processNewOrder_more fuel _ _ _ _ e G e' fills Hinv Hp Hq Hsub) as (_ & _ & Hlim).
  assert (fills = []) as ->.
  { destruct fills as [|f fills]; [done|]. exfalso.
    apply Forall_cons in Hlim as [Hlim _].
    pose proof (cp_fills Hpost) as Hfills. apply Forall_cons in Hfills as [(_ & _ & Hin & _) _].
    pose proof (book_inv_in_range _ _ _ _ _ Hinv Hin) as Hrange.
    destruct (inv_queue Hinv (negb (call_is_buy c)) _ Hrange) as (lvl & Hlvl & _).
    apply (Hpassive _ lvl Hlvl).
    - apply (occupied_ghost e G _ _ _ Hinv Hlvl). rewrite Z2Nat.id by lia.
      intros Hnil. rewrite Hnil in Hin. by apply elem_of_nil in Hin.
    - by rewrite Z2Nat.id by lia. }
  split; [done|]. split.
  { unfold MatchingEngine.getTradesExecuted. rewrite (cp_trades Hpost). cbn [length].
    rewrite Z.add_0_r. apply wrap64_small, (inv_trades Hinv). }
  assert (prio (negb (call_is_buy c)) G' = prio (negb (call_is_buy c)) G) as Hopp.
  { destruct (cp_rest Hpost) as [H|(H & _)]; [by rewrite H|done]. }
  split; [by rewrite (priority_prio e G _ Hinv), (priority_prio e' G' _ Hinv')|].
  destruct (cp_own Hpost) as [[Hfull _]|(_ & ib & Hown & _)]; [cbn in Hfull; lia|].
  assert (length (prio (call_is_buy c) G') = S (length (prio (call_is_buy c) G))) as Hlen.
  { rewrite <- (prio_upd_snoc_length (call_is_buy c) G (call_price c) ib Hp). f_equal.
    apply prio_ext. intros x. rewrite Hown. unfold upd. case_decide as Hx.
    - rewrite decide_True by done. done.
    - rewrite decide_False by (intros [_ ?]; done). done. }
  unfold resting_count.
  rewrite !(priority_prio e G _ Hinv), !(priority_prio e' G' _ Hinv').
  destruct (call_is_buy c); cbn [negb] in *; rewrite Hlen, Hopp; lia.
Qed.

Lemma passive_order_makes_no_trade_witness :
  (outcome (submit 8 (mkCall 4 99 7 true) scenario_D_engine)).2 = [] ∧
  MatchingEngine.getTradesExecuted (outcome (submit 8 (mkCall 4 99 7 true) scenario_D_engine)).1
  = MatchingEngine.getTradesExecuted scenario_D_engine ∧
  priority (negb true) (outcome (submit 8 (mkCall 4 99 7 true) scenario_D_engine)).1
  = priority (negb true) scenario_D_engine ∧
  resting_count (outcome (submit 8 (mkCall 4 99 7 true) scenario_D_engine)).1
  = S (resting_count scenario_D_engine).
Proof.
  apply (passive_order_makes_no_trade 4 scenario_D_engine (mkCall 4 99 7 true) 8).
  - exists scenario_D, []. apply scenario_D_run.
  - apply valid_callb_spec. reflexivity.
  - vm_compute. reflexivity.
  - intros t lvl Hlvl Hocc. cbn [call_is_buy call_price negb within_limit levels] in *.
    destruct (decide (t = 100%nat)) as [->|Hne]; [lia|]. exfalso.
    assert (lvl = PriceLevel.new) as ->; [|done].
    assert (OrderBook.asks_ (MatchingEngine.book_ scenario_D_engine)
            = <[100%nat := PriceLevel.mk (Some 0%nat) (Some 2%nat)]>
                (replicate (Z.to_nat MAX_PRICE_TICKS) PriceLevel.new)) as Hasks
      by (vm_compute; reflexivity).
    rewrite Hasks, list_lookup_insert_ne in Hlvl by done.
    by apply lookup_replicate in Hlvl as [-> _].
Defined.

(** X24: an order that crosses a resting order trades: when a level of the
    opposite side is occupied within the order's limit, the call makes at
    least one fill; for a sell this holds for the bid levels above tick 0. *)
Theorem crossing_order_trades n e c fuel e' fills t lvl :
  reachable n e → valid_call c → submit fuel c e = Ok (e', Return fills) →
  levels (negb (call_is_buy c)) (MatchingEngine.book_ e) !! t = Some lvl →
  PriceLevel.isEmpty lvl = false →
  within_limit (call_is_buy c) (call_price c) (Z.of_nat t) →
  (call_is_buy c = false → t ≠ 0%nat) →
  fills ≠ [].
Proof.
  intros Hr [Hp Hq] Hsub Hlvl Hocc Hlim Hzero ->. destruct (reachable_inv _ _ Hr) as [G Hinv].
  unfold submit, MatchingEngine.processNewOrder in Hsub.
  destruct (decide (OrderPool.free_idx_ (MatchingEngine.pool_ e) = 0%nat)) as [Hz|Hnz].
  { unfold OrderPool.allocate in Hsub. rewrite Hz in Hsub. done. }
  destruct (allocate_spec e G (call_id c) (call_price c) (call_qty c) (call_is_buy c) Hinv)
    as (p & ib & Hal & Hinv0 & Hfl0 & _); [lia|done|].
  rewrite Hal, bind_Ok in Hsub. cbv zeta in Hsub. rewrite match_loop_side in Hsub.
  set (e0 := MatchingEngine.mk _ p _) in *.
  assert (MatchingEngine.book_ e0 = MatchingEngine.book_ e) as Hbook by done.
  clearbody e0.
  destruct (matchOrder (negb (call_is_buy c)) fuel ib e0) as [[e1 fills1]| |] eqn:Hmatch;
    [|done|done].
  rewrite bind_Ok in Hsub.
  assert (fills1 = []) as ->.
  { destruct (at_ (MatchingEngine.orders e1) ib) as [i| |]; [|done..]. rewrite bind_Ok in Hsub.
    destruct (Order.qty i >? 0).
    - destruct (OrderBook.addOrder _ _ _) as [[m b]| |]; [|done..].
      rewrite bind_Ok in Hsub. by simplify_eq.
    - destruct (OrderPool.deallocate _ _) as [p'| |]; [|done..].
      rewrite bind_Ok in Hsub. by simplify_eq. }
  pose proof (matchOrder_nil _ _ _ _ _ Hmatch) as ->.
  destruct (matchOrder_exit _ _ _ _ _ _ Hmatch) as (i & Hi & Hexit).
  rewrite (fl_order Hfl0) in Hi. simplify_eq. cbn [Order.qty Order.price] in Hexit.
  destruct Hexit as [?|(b & Hb & Hstop)]; [lia|].
  pose proof (stops_occupied e0 G (negb (call_is_buy c)) b (call_price c) Hinv0 Hb Hstop
                (Z.of_nat t)) as Hs.
  rewrite <- Hbook in Hlvl.
  apply (occupied_ghost e0 G _ _ _ Hinv0 Hlvl) in Hocc. specialize (Hs Hocc).
  unfold within_limit in Hlim. destruct (call_is_buy c); cbn [negb] in Hs.
  - lia.
  - destruct Hs as [?|?]; [lia|]. apply Hzero; [done|lia].
Qed.

Lemma crossing_order_trades_witness :
  (outcome (submit 8 (mkCall 4 101 7 true) scenario_D_engine)).2 ≠ [].
Proof.
  apply (crossing_order_trades 4 scenario_D_engine (mkCall 4 101 7 true) 8
           (outcome (submit 8 (mkCall 4 101 7 true) scenario_D_engine)).1
           (outcome (submit 8 (mkCall 4 101 7 true) scenario_D_engine)).2
           100 (PriceLevel.mk (Some 0%nat) (Some 2%nat))).
  - exists scenario_D, []. apply scenario_D_run.
  - apply valid_callb_spec. reflexivity.
  - vm_compute. reflexivity.
  - vm_compute. reflexivity.
  - reflexivity.
  - cbn. lia.
  - done.
Defined.

(** X25: what is left of an order rests, and only that: a call whose fills add up
    to its quantity leaves its own side of the book as it was; otherwise a
    record that was not in the book before rests on the order's side with
    the id, price and side of the call and the unfilled quantity. *)
Theorem remainder_rests n e c fuel e' fills :
  reachable n e → valid_call c → submit fuel c e = Ok (e', Return fills) →
  (filled_qty fills = call_qty c ∧
   priority (call_is_buy c) e' = priority (call_is_buy c) e) ∨
  (filled_qty fills < call_qty c ∧
   ∃ ib o, resting e' ib ∧ ¬ resting e ib ∧
           MatchingEngine.orders e' !! ib = Some o ∧
           Order.id o = call_id c ∧ Order.price o = call_price c ∧
           Order.is_buy o = call_is_buy c ∧
           Order.qty o = call_qty c - filled_qty fills).
Proof.
  intros Hr [Hp Hq] Hsub. destruct (reachable_inv _ _ Hr) as [G Hinv].
  pose proof (processNewOrder_spec fuel (call_id c) (call_price c) (call_qty c)
                (call_is_buy c) e G Hinv Hp Hq) as Hspec.
  unfold submit in Hsub. rewrite Hsub in Hspec. destruct Hspec as (_ & G' & Hinv' & Hpost).
  destruct (cp_own Hpost) as [[Hfull Hown]|(Hpart & ib & Hown & Hfresh & o & Ho & Hid & Hqty)].
  - left. split; [done|].
    rewrite (priority_prio e G _ Hinv), (priority_prio e' G' _ Hinv'). by apply prio_ext.
  - right. split; [done|]. exists ib, o.
    assert (ib ∈ G' (call_is_buy c) (call_price c)) as Hin.
    { rewrite Hown, decide_True by done. apply elem_of_app. right. left. }
    split; [apply (resting_ghost e' G' _ Hinv'); eauto|]. split.
    { intros Hres. destruct (proj1 (resting_ghost e G ib Hinv) Hres) as (s & x & Hi).
      by apply Hfresh in Hi. }
    destruct (inv_resting Hinv' _ _ _ Hin) as (o' & Ho' & Hprice & Hside & _).
    simplify_eq. done.
Qed.

Lemma remainder_rests_witness :
  (filled_qty (outcome (submit 20 (mkCall 4 101 17 true) scenario_D_engine)).2 = 17 ∧
   priority true (outcome (submit 20 (mkCall 4 101 17 true) scenario_D_engine)).1
   = priority true scenario_D_engine) ∨
  (filled_qty (outcome (submit 20 (mkCall 4 101 17 true) scenario_D_engine)).2 < 17 ∧
   ∃ ib o, resting (outcome (submit 20 (mkCall 4 101 17 true) scenario_D_engine)).1 ib ∧
           ¬ resting scenario_D_engine ib ∧
           MatchingEngine.orders (outcome (submit 20 (mkCall 4 101 17 true) scenario_D_engine)).1
             !! ib = Some o ∧
           Order.id o = 4 ∧ Order.price o = 101 ∧ Order.is_buy o = true ∧
           Order.qty o = 17 - filled_qty (outcome (submit 20 (mkCall 4 101 17 true)
                                                      scenario_D_engine)).2).
Proof.
  apply (remainder_rests 4 scenario_D_engine (mkCall 4 101 17 true) 20).
  - exists scenario_D, []. apply scenario_D_run.
  - apply valid_callb_spec. reflexivity.
  - vm_compute. reflexivity.
Defined.

(** X26: [getTradesExecuted] counts the fills: after every sequence of valid
    calls on a fresh engine the counter is the number of fills made so far,
    as a [uint64_t]; a call that throws leaves it alone. *)
Theorem trade_counter_counts_fills n cs ts e :
  trace n cs ts e →
  MatchingEngine.getTradesExecuted e = wrap64 (Z.of_nat (length ts)).
Proof.
  unfold MatchingEngine.getTradesExecuted.
  induction 1 as [|cs ts e fuel c e' fills Htr IH [Hp Hq] Hsub
                  |cs ts e fuel c e' ex Htr IH [Hp Hq] Hsub].
  - done.
  - destruct (trace_inv _ _ _ _ Htr) as (G & Hinv & _).
    pose proof (processNewOrder_spec fuel (call_id c) (call_price c) (call_qty c)
                  (call_is_buy c) e G Hinv Hp Hq) as Hspec.
    unfold submit in Hsub. rewrite Hsub in Hspec. destruct Hspec as (_ & G' & _ & Hpost).
    rewrite (cp_trades Hpost), IH, length_app, Nat2Z.inj_add.
    unfold wrap64. by rewrite Zplus_mod_idemp_l.
  - destruct (trace_inv _ _ _ _ Htr) as (G & Hinv & _).
    pose proof (processNewOrder_spec fuel (call_id c) (call_price c) (call_qty c)
                  (call_is_buy c) e G Hinv Hp Hq) as Hspec.
    unfold submit in Hsub. rewrite Hsub in Hspec. destruct Hspec as [-> _]. done.
Qed.

Lemma trade_counter_counts_fills_witness :
  MatchingEngine.getTradesExecuted exact_match_engine
  = wrap64 (Z.of_nat (length [exact_match_fill])).
Proof. apply (trade_counter_counts_fills 4 exact_match_calls), exact_match_trace. Defined.

(** ** Witnesses on the scenarios *)

Lemma no_cross_without_bid_at_0_witness : no_cross scenario_F_engine.
Proof.
  apply (no_cross_without_bid_at_0 4 scenario_F [] scenario_F_engine).
  - apply scenario_F_run.
  - repeat constructor; done.
Defined.

Lemma index_consistency_witness :
  active (tracker false (MatchingEngine.book_ scenario_D_engine)) (Z.of_nat 100) = true
  ↔ PriceLevel.isEmpty (PriceLevel.mk (Some 0%nat) (Some 2%nat)) = false.
Proof.
  apply (index_consistency 4 scenario_D_engine false 100).
  - exists scenario_D, []. apply scenario_D_run.
  - vm_compute. reflexivity.
Defined.

Lemma arena_integrity_witness :
  NoDup (free_handles (MatchingEngine.pool_ exact_match_engine)) ∧
  ∀ i, i ∈ free_handles (MatchingEngine.pool_ exact_match_engine) →
       (i < length (MatchingEngine.orders exact_match_engine))%nat ∧
       ¬ resting exact_match_engine i.
Proof.
  apply (arena_integrity 4 exact_match_engine).
  exists exact_match_calls, [exact_match_fill]. apply exact_match_trace.
Defined.


(** * The header variant *)

(** ** Views *)

Ltac hnorm :=
  unfold Headers.MatchingEngine.orders, Headers.MatchingEngine.set_orders, free_handles in *;
  cbn [Headers.MatchingEngine.pool_ Headers.MatchingEngine.book_
       Headers.MatchingEngine.trades_executed_
       OrderPool.pool_ OrderPool.free_list_ OrderPool.free_idx_] in *.

Lemma headers_level_ref_lookup side i b :
  Headers.OrderBook.level (ref side i) b = at_ (headers_levels side b) i.
Proof. by destruct side. Qed.

Lemma headers_set_level_ref side i l b :
  Headers.OrderBook.set_level (ref side i) l b
  = headers_with_levels side (<[i := l]> (headers_levels side b)) b.
Proof. by destruct side. Qed.

Lemma headers_levels_with_levels s side ls b :
  headers_levels s (headers_with_levels side ls b)
  = if decide (s = side) then ls else headers_levels s b.
Proof. by destruct s, side. Qed.

Lemma headers_levels_with_best s side v b :
  headers_levels s (headers_with_best side v b) = headers_levels s b.
Proof. by destruct s, side. Qed.

Lemma headers_best_with_levels s side ls b :
  headers_best s (headers_with_levels side ls b) = headers_best s b.
Proof. by destruct s, side. Qed.

Lemma headers_best_with_best s side v b :
  headers_best s (headers_with_best side v b) = if decide (s = side) then v else headers_best s b.
Proof. by destruct s, side. Qed.

Lemma headers_matchBuyOrder_matchOrder fuel ib e :
  Headers.MatchingEngine.matchBuyOrder fuel ib e = headers_matchOrder false fuel ib e.
Proof.
  revert e. induction fuel as [|fuel IH]; intros e; [done|].
  cbn [Headers.MatchingEngine.matchBuyOrder headers_matchOrder].
  destruct (at_ (Headers.MatchingEngine.orders e) ib) as [i| |]; [|done..].
  rewrite !bind_Ok. cbv zeta. cbn [headers_best headers_crosses headers_levels headers_rescan ref].
  destruct (_ && _); [|done].
  destruct (at_ _ _) as [lvl| |]; [|done..]. rewrite !bind_Ok.
  destruct (Headers.PriceLevel.head lvl) as [r|].
  - destruct (Headers.MatchingEngine.executeTrade _ _ _ _ _) as [[e1 f]| |]; [|done..].
    rewrite !bind_Ok. by rewrite IH.
  - destruct (Headers.OrderBook.updateBestAsk _) as [b| |]; [|done..].
    rewrite !bind_Ok. apply IH.
Qed.

Lemma headers_matchSellOrder_matchOrder fuel ib e :
  Headers.MatchingEngine.matchSellOrder fuel ib e = headers_matchOrder true fuel ib e.
Proof.
  revert e. induction fuel as [|fuel IH]; intros e; [done|].
  cbn [Headers.MatchingEngine.matchSellOrder headers_matchOrder].
  destruct (at_ (Headers.MatchingEngine.orders e) ib) as [i| |]; [|done..].
  rewrite !bind_Ok. cbv zeta. cbn [headers_best headers_crosses headers_levels headers_rescan ref].
  destruct (_ && _); [|done].
  destruct (at_ _ _) as [lvl| |]; [|done..]. rewrite !bind_Ok.
  destruct (Headers.PriceLevel.head lvl) as [r|].
  - destruct (Headers.MatchingEngine.executeTrade _ _ _ _ _) as [[e1 f]| |]; [|done..].
    rewrite !bind_Ok. by rewrite IH.
  - destruct (Headers.OrderBook.updateBestBid _) as [b| |]; [|done..].
    rewrite !bind_Ok. apply IH.
Qed.

Lemma headers_match_loop_side fuel (is_buy : bool) ib e :
  (if is_buy then Headers.MatchingEngine.matchBuyOrder fuel ib e
   else Headers.MatchingEngine.matchSellOrder fuel ib e)
  = headers_matchOrder (negb is_buy) fuel ib e.
Proof.
  destruct is_buy; [apply headers_matchBuyOrder_matchOrder|apply headers_matchSellOrder_matchOrder].
Qed.

Lemma headers_inv_unique e G i s x s' x' :
  headers_inv e G → i ∈ G s x → i ∈ G s' x' → s = s' ∧ x = x'.
Proof.
  intros Hinv H1 H2.
  destruct (hinv_resting Hinv _ _ _ H1) as (o & Ho & <- & <- & _).
  destruct (hinv_resting Hinv _ _ _ H2) as (o' & Ho' & <- & <- & _).
  by simplify_eq.
Qed.

Lemma headers_inv_in_range e G side x i :
  headers_inv e G → i ∈ G side x → 0 ≤ x < Headers.MAX_PRICE_TICKS.
Proof.
  intros Hinv Hi. destruct (decide (0 ≤ x < Headers.MAX_PRICE_TICKS)) as [|Hout]; [done|].
  rewrite (hinv_outside Hinv side x Hout) in Hi. by apply elem_of_nil in Hi.
Qed.

Lemma headers_nonempty_in_range e G side x :
  headers_inv e G → G side x ≠ [] → 0 ≤ x < Headers.MAX_PRICE_TICKS.
Proof.
  intros Hinv Hne. destruct (G side x) as [|i l] eqn:E; [done|].
  apply (headers_inv_in_range e G side x i Hinv). rewrite E. left.
Qed.

Lemma headers_occupied_ghost e G side t :
  headers_inv e G → headers_occupied side e t ↔ G side (Z.of_nat t) ≠ [].
Proof.
  intros Hinv. split.
  - intros (lvl & Hlvl & Hocc).
    assert (0 ≤ Z.of_nat t < Headers.MAX_PRICE_TICKS) as Ht.
    { apply lookup_lt_Some in Hlvl. rewrite (hinv_length Hinv) in Hlvl. lia. }
    destruct (hinv_queue Hinv side _ Ht) as (lvl' & Hlvl' & [Hc _]).
    rewrite Nat2Z.id in Hlvl'. simplify_eq. apply chain_head in Hc.
    intros Hnil. rewrite Hnil in Hc. done.
  - intros Hne. pose proof (headers_nonempty_in_range _ _ _ _ Hinv Hne) as Ht.
    destruct (hinv_queue Hinv side _ Ht) as (lvl & Hlvl & [Hc _]).
    rewrite Nat2Z.id in Hlvl. exists lvl. split; [done|]. apply chain_head in Hc.
    rewrite Hc. by destruct (G side (Z.of_nat t)).
Qed.

(** ** Construction and allocation *)

Lemma headers_inv_new n : headers_inv (Headers.MatchingEngine.new n) (λ _ _, []).
Proof.
  split; unfold Headers.MatchingEngine.new; hnorm.
  - intros side t Ht. exists Headers.PriceLevel.new. split; [|done].
    destruct side; cbn -[replicate]; apply lookup_replicate; (split; [done|]);
      unfold Headers.MAX_PRICE_TICKS in *; lia.
  - intros side. destruct side; cbn -[replicate]; apply length_replicate.
  - done.
  - intros side t i Hi. by apply elem_of_nil in Hi.
  - intros. apply NoDup_nil_2.
  - cbn -[replicate]. unfold Headers.MAX_PRICE_TICKS. split; [lia|done].
  - cbn -[replicate]. unfold Headers.MAX_PRICE_TICKS. split; [lia|done].
  - unfold OrderPool.new. hnorm. by rewrite length_fmap, length_seq, length_replicate.
  - unfold OrderPool.new. hnorm. by rewrite length_fmap, length_seq.
  - unfold OrderPool.new. hnorm. rewrite take_ge by (by rewrite length_fmap, length_seq).
    apply NoDup_fmap_2_strong; [|apply NoDup_seq].
    intros x y Hx%elem_of_seq Hy%elem_of_seq. lia.
  - unfold OrderPool.new. hnorm. intros i Hi%elem_of_take.
    destruct Hi as (k & Hk & _). apply list_lookup_fmap_Some in Hk as (j & -> & Hj).
    apply lookup_seq in Hj as [-> ?]. rewrite length_replicate. split; [lia|].
    intros side t Hin. by apply elem_of_nil in Hin.
  - split; lia.
Qed.

Lemma headers_allocate_spec e G id price q sd :
  headers_inv e G → 0 ≤ q < 2 ^ 32 →
  OrderPool.free_idx_ (Headers.MatchingEngine.pool_ e) ≠ 0%nat →
  ∃ p ib,
    OrderPool.allocate id price q sd (Headers.MatchingEngine.pool_ e) = Ok (p, Return ib) ∧
    headers_inv (Headers.MatchingEngine.mk (Headers.MatchingEngine.book_ e) p
                   (Headers.MatchingEngine.trades_executed_ e)) G ∧
    headers_inflight (Headers.MatchingEngine.mk (Headers.MatchingEngine.book_ e) p
                        (Headers.MatchingEngine.trades_executed_ e)) G ib id price sd q.
Proof.
  intros Hinv Hq Hfi. destruct e as [book [m fl fi] trades]. hnorm.
  pose proof (hinv_free_length Hinv) as Hfl_len.
  pose proof (hinv_free_idx Hinv) as Hfl_idx.
  pose proof (hinv_free_nodup Hinv) as Hfl_nd.
  pose proof (hinv_free Hinv) as Hfl_free. hnorm.
  destruct fi as [|fi]; [done|]. clear Hfi.
  destruct (lookup_lt_is_Some_2 fl fi) as [ib Hib]; [lia|].
  rewrite (take_S_r _ _ _ Hib) in Hfl_nd, Hfl_free.
  apply NoDup_app in Hfl_nd as (Hnd' & Hdisj & _).
  destruct (Hfl_free ib) as [Hlt Hunl]; [apply elem_of_app; right; by left|].
  destruct (lookup_lt_is_Some_2 m ib Hlt) as [o0 Ho0].
  unfold OrderPool.allocate. hnorm. cbn [Nat.eqb]. replace (S fi - 1)%nat with fi by lia.
  rewrite (at_lookup _ _ _ Hib), bind_Ok, (at_lookup _ _ _ Ho0), bind_Ok.
  do 2 eexists. split; [done|].
  assert (∀ s x i, i ∈ G s x → i ≠ ib) as Hne.
  { intros s x i Hi ->. by apply (Hunl s x). }
  split; [split; hnorm|split; hnorm].
  - intros s x Hx. destruct (hinv_queue Hinv s x Hx) as (lvl & Hlvl & [Hc Htl]). hnorm.
    exists lvl. split; [done|]. split; [|done]. apply (chain_ext m); [|done].
    intros i oi Hi Hoi. exists oi. split; [|done].
    rewrite list_lookup_insert_ne; [done|]. intros ->. by eapply Hne.
  - apply (hinv_length Hinv).
  - apply (hinv_outside Hinv).
  - intros s x i Hi. destruct (hinv_resting Hinv _ _ _ Hi) as (oi & Hoi & ?). hnorm.
    exists oi. split; [|done]. rewrite list_lookup_insert_ne; [done|].
    intros ->. by eapply Hne.
  - apply (hinv_nodup Hinv).
  - apply (hinv_best_bid Hinv).
  - apply (hinv_best_ask Hinv).
  - by rewrite length_insert.
  - lia.
  - done.
  - intros i Hi. destruct (Hfl_free i) as [? ?]; [apply elem_of_app; by left|].
    rewrite length_insert. done.
  - apply (hinv_trades Hinv).
  - by apply list_lookup_insert_eq.
  - done.
  - done.
  - intros Hin. apply (Hdisj ib Hin). left.
Qed.

Lemma headers_deallocate_inbound_spec e G ib id price sd q :
  headers_inv e G → headers_inflight e G ib id price sd q →
  ∃ p, OrderPool.deallocate ib (Headers.MatchingEngine.pool_ e) = Ok p ∧
       headers_inv (Headers.MatchingEngine.mk (Headers.MatchingEngine.book_ e) p
                      (Headers.MatchingEngine.trades_executed_ e)) G.
Proof.
  intros Hinv Hfl. destruct e as [book [m fl fi] trades]. hnorm.
  pose proof (hinv_free_length Hinv) as Hfl_len.
  pose proof (hinv_free_idx Hinv) as Hfl_idx.
  pose proof (hinv_free_nodup Hinv) as Hfl_nd.
  pose proof (hinv_free Hinv) as Hfl_free.
  pose proof (hfl_order Hfl) as Hib.
  pose proof (hfl_not_free Hfl) as Hnf.
  pose proof (hfl_unlinked Hfl) as Hunl. hnorm.
  assert (fi < length fl)%nat as Hroom.
  { pose proof (free_room (take fi fl) (length m) ib Hfl_nd) as Hr.
    rewrite length_take in Hr. apply lookup_lt_Some in Hib.
    assert (fi `min` length fl < length m)%nat; [|lia].
    apply Hr; [|done|done]. intros i Hi. by apply Hfl_free. }
  destruct (lookup_lt_is_Some_2 _ _ Hroom) as [x0 Hx0].
  unfold OrderPool.deallocate. hnorm. rewrite (at_lookup _ _ _ Hx0), bind_Ok.
  eexists. split; [done|].
  assert (take (S fi) (<[fi := ib]> fl) = take fi fl ++ [ib]) as Hfree'.
  { rewrite (take_S_r _ _ ib) by (by apply list_lookup_insert_eq).
    by rewrite take_insert_ge by lia. }
  split; hnorm.
  - apply (hinv_queue Hinv).
  - apply (hinv_length Hinv).
  - apply (hinv_outside Hinv).
  - apply (hinv_resting Hinv).
  - apply (hinv_nodup Hinv).
  - apply (hinv_best_bid Hinv).
  - apply (hinv_best_ask Hinv).
  - by rewrite length_insert.
  - rewrite length_insert. lia.
  - rewrite Hfree'. apply NoDup_app. split; [done|]. split; [|apply NoDup_singleton].
    intros i Hi ->%list_elem_of_singleton. done.
  - rewrite Hfree'. intros i [Hi| ->%list_elem_of_singleton]%elem_of_app.
    + by apply Hfl_free.
    + split; [by eapply lookup_lt_Some|done].
  - apply (hinv_trades Hinv).
Qed.

(** ** Rescans of the cached best prices *)

Lemma headers_inv_view e G :
  headers_inv e G → headers_book_view (Headers.MatchingEngine.book_ e) G.
Proof.
  intros Hinv. split; [|split; [apply (hinv_length Hinv)|apply (hinv_outside Hinv)]].
  intros side t Ht. destruct (hinv_queue Hinv side t Ht) as (lvl & Hlvl & [Hc _]).
  exists lvl. split; [done|]. apply chain_head in Hc. rewrite Hc.
  destruct (G side t); split; done.
Qed.

Lemma headers_rescan_view side b G :
  headers_book_view b G →
  ∃ v, headers_rescan side b = Ok (headers_with_best side v b) ∧
       (if side then 0 ≤ v < Headers.MAX_PRICE_TICKS else 0 ≤ v ≤ Headers.MAX_PRICE_TICKS) ∧
       (∀ t, G side t ≠ [] → if side then t ≤ v else v ≤ t) ∧
       (G side v ≠ [] ∨
        ((∀ t, G side t = []) ∧ v = if side then 0 else Headers.MAX_PRICE_TICKS)).
Proof.
  intros (Hview & Hlen & Hout).
  assert (∀ s j l, headers_levels s b !! j = Some l →
            Headers.PriceLevel.head l = None ↔ G s (Z.of_nat j) = []) as Hocc.
  { intros s j l Hl. assert (0 ≤ Z.of_nat j < Headers.MAX_PRICE_TICKS) as Hj.
    { apply lookup_lt_Some in Hl. rewrite Hlen in Hl. lia. }
    destruct (Hview s _ Hj) as (l' & Hl' & Hiff). rewrite Nat2Z.id in Hl'. by simplify_eq. }
  assert (∀ s t, G s t ≠ [] → 0 ≤ t < Headers.MAX_PRICE_TICKS) as Hrange.
  { intros s t Hne. destruct (decide (0 ≤ t < Headers.MAX_PRICE_TICKS)) as [|Ho]; [done|].
    by rewrite (Hout s t Ho) in Hne. }
  destruct side; cbn [headers_rescan headers_with_best].
  - unfold Headers.OrderBook.updateBestBid.
    destruct (headers_updateBestBid_loop_spec (Z.to_nat Headers.MAX_PRICE_TICKS) b)
      as (v & Heq & Hv & Hhigh & Hoccv); [pose proof (Hlen true) as Hl; cbn [headers_levels] in Hl; by rewrite Hl|].
    exists (Z.of_nat v). split; [done|].
    split; [unfold Headers.MAX_PRICE_TICKS in *; lia|].
    assert (∀ t, G true t ≠ [] → t ≤ Z.of_nat v) as Hbound.
    { intros t Hne. pose proof (Hrange _ _ Hne) as Ht.
      destruct (decide (t ≤ Z.of_nat v)) as [|Hgt]; [done|]. exfalso. apply Hne.
      destruct (Hview true t Ht) as (l & Hl & Hiff). apply Hiff.
      apply (Hhigh (Z.to_nat t)); [lia|done]. }
    split; [done|].
    destruct (decide (G true (Z.of_nat v) = [])) as [Hnil|Hne]; [|by left]. right.
    assert (v = 0%nat) as ->.
    { destruct (decide (v = 0%nat)) as [|Hpos]; [done|]. exfalso.
      destruct Hoccv as (l & Hl & Hhead); [lia|]. apply Hhead. by apply (Hocc true v l). }
    split; [|done]. intros t. destruct (decide (G true t = [])) as [|Hne]; [done|]. exfalso.
    pose proof (Hbound t Hne). pose proof (Hrange _ _ Hne).
    assert (t = 0) as -> by lia. done.
  - unfold Headers.OrderBook.updateBestAsk.
    destruct (headers_updateBestAsk_loop_spec (Z.to_nat Headers.MAX_PRICE_TICKS) 0 b)
      as (a & Heq & Ha & Hlow & Hocca); [pose proof (Hlen false) as Hl; cbn [headers_levels] in Hl; by rewrite Hl|].
    cbn [Nat.add] in *.
    assert (∀ t, G false t ≠ [] → Z.of_nat a ≤ t) as Hbound.
    { intros t Hne. pose proof (Hrange _ _ Hne) as Ht.
      destruct (decide (Z.of_nat a ≤ t)) as [|Hgt]; [done|]. exfalso. apply Hne.
      destruct (Hview false t Ht) as (l & Hl & Hiff). apply Hiff.
      apply (Hlow (Z.to_nat t)); [lia|done]. }
    case_decide as Hlt.
    + exists (Z.of_nat a). split; [done|]. split; [lia|]. split; [done|]. left.
      destruct Hocca as (l & Hl & Hhead); [done|]. intros Hnil. apply Hhead.
      by apply (Hocc false a l).
    + exists Headers.MAX_PRICE_TICKS. split; [done|].
      split; [unfold Headers.MAX_PRICE_TICKS; lia|].
      assert (∀ t, G false t = []) as Hall.
      { intros t. destruct (decide (G false t = [])) as [|Hne]; [done|]. exfalso.
        pose proof (Hbound t Hne). pose proof (Hrange _ _ Hne). lia. }
      split; [intros t Hne; by rewrite Hall in Hne|]. right. done.
Qed.

(** A rescan keeps the invariant and makes the cached price exact. *)
Lemma headers_rescan_spec side e G :
  headers_inv e G →
  ∃ b, headers_rescan side (Headers.MatchingEngine.book_ e) = Ok b ∧
       headers_inv (Headers.MatchingEngine.mk b (Headers.MatchingEngine.pool_ e)
                      (Headers.MatchingEngine.trades_executed_ e)) G ∧
       headers_exact side b G.
Proof.
  intros Hinv.
  destruct (headers_rescan_view side _ G (headers_inv_view _ _ Hinv))
    as (v & Heq & Hv & Hbound & Hexact).
  eexists. split; [exact Heq|]. split.
  - split; hnorm; rewrite ?headers_levels_with_best.
    + intros s t Ht. rewrite headers_levels_with_best. apply (hinv_queue Hinv s t Ht).
    + intros s. rewrite headers_levels_with_best. apply (hinv_length Hinv).
    + apply (hinv_outside Hinv).
    + apply (hinv_resting Hinv).
    + apply (hinv_nodup Hinv).
    + destruct side; cbn [headers_with_best Headers.OrderBook.best_bid_];
        [done|apply (hinv_best_bid Hinv)].
    + destruct side; cbn [headers_with_best Headers.OrderBook.best_ask_];
        [apply (hinv_best_ask Hinv)|done].
    + apply (hinv_free_length Hinv).
    + apply (hinv_free_idx Hinv).
    + apply (hinv_free_nodup Hinv).
    + apply (hinv_free Hinv).
    + apply (hinv_trades Hinv).
  - unfold headers_exact. rewrite headers_best_with_best, decide_True by done. done.
Qed.

(** ** One trade step *)

Lemma headers_executeTrade_spec e G ib id price sd q side t r l :
  headers_inv e G → headers_inflight e G ib id price sd q → 0 < q →
  0 ≤ t < Headers.MAX_PRICE_TICKS → G side t = r :: l →
  ∃ e' o G',
    Headers.MatchingEngine.orders e !! r = Some o ∧
    Headers.MatchingEngine.executeTrade ib r (ref side (Z.to_nat t)) t e
      = Ok (e', mkTrade id (Order.id o) t (Z.min q (Order.qty o)) r) ∧
    0 < Z.min q (Order.qty o) ∧
    headers_inv e' G' ∧
    headers_inflight e' G' ib id price sd (q - Z.min q (Order.qty o)) ∧
    ((G' = G ∧ q < Order.qty o) ∨ (G' = upd G side t l ∧ Order.qty o ≤ q)) ∧
    Headers.MatchingEngine.trades_executed_ e'
      = wrap64 (Headers.MatchingEngine.trades_executed_ e + 1) ∧
    free_handles (Headers.MatchingEngine.pool_ e')
      = free_handles (Headers.MatchingEngine.pool_ e)
        ++ (if decide (Order.qty o ≤ q) then [r] else []).
Proof.
  intros Hinv Hfl Hq Ht HG.
  assert (r ∈ G side t) as Hr by (rewrite HG; left).
  destruct (hinv_resting Hinv _ _ _ Hr) as (o & Ho & Hop & Hos & Hoq).
  pose proof (hfl_order Hfl) as Hi.
  pose proof (hfl_qty Hfl) as Hqr.
  assert (ib ≠ r) as Hne by (intros ->; by eapply hfl_unlinked).
  set (f := Z.min q (Order.qty o)).
  assert (0 < f ∧ f ≤ q ∧ f ≤ Order.qty o) as Hf by (unfold f; lia).
  destruct e as [book [m fl fi] trades]. hnorm.
  destruct (fill_heap m ib r _ o (q - f) (Order.qty o - f) Hi Ho Hne)
    as (H1 & H2 & H3 & H4 & H5 & H6).
  cbv zeta in H1, H2, H3, H4, H5, H6.
  destruct (hinv_queue Hinv side t Ht) as (lvl & Hlvl & Hqueue).
  hnorm. rewrite HG in Hqueue.
  unfold Headers.MatchingEngine.executeTrade. hnorm. cbv zeta.
  rewrite (at_lookup _ _ _ Hi), bind_Ok.
  rewrite (at_lookup _ _ _ Ho), bind_Ok. cbn [Order.qty Order.id]. fold f.
  rewrite (wrap32_small (q - f)) by lia.
  rewrite (at_lookup _ _ _ H1), bind_Ok.
  rewrite (wrap32_small (Order.qty o - f)) by lia.
  rewrite (at_lookup _ _ _ H3), bind_Ok. cbn [Order.qty Order.with_qty].
  set (m2 := <[r := _]> (<[ib := _]> m)) in *.
  destruct (Z.eqb_spec (Order.qty o - f) 0) as [Hfull|Hpart].
  - (* the resting order is filled: it leaves its level and the pool takes it back *)
    assert (headers_queue m2 lvl (r :: l)) as Hq2.
    { destruct Hqueue as [Hc Htl]. split; [|done]. apply (chain_ext m); [|done].
      intros j oj _ Hj. destruct (H6 j oj Hj) as (o' & ? & ? & _). eauto. }
    pose proof (hinv_nodup Hinv side t) as Hnd. rewrite HG in Hnd.
    destruct (headers_pop_front_spec m2 lvl r l Hq2 Hnd)
      as (m3 & lvl' & o_r & Hpop & Hq3 & Hlen3 & Hemp & Hsame3 & Hkeep3 & _).
    rewrite headers_level_ref_lookup, (at_lookup _ _ _ Hlvl), bind_Ok.
    rewrite Hpop, bind_Ok. rewrite headers_set_level_ref.
    set (b1 := headers_with_levels side (<[Z.to_nat t := lvl']> (headers_levels side book)) book).
    assert (∀ s x i, i ∈ upd G side t l s x → i ∈ G s x) as Hsub.
    { intros s x i. unfold upd. case_decide as Hsx; [|done].
      destruct Hsx as [-> ->]. rewrite HG. by right. }
    assert (∀ s x, upd G side t l s x ≠ [] → G s x ≠ []) as Hsub'.
    { intros s x Hne' Hnil. destruct (upd G side t l s x) as [|i l'] eqn:E; [done|].
      assert (i ∈ G s x) as Hin by (apply Hsub; rewrite E; left).
      rewrite Hnil in Hin. by apply elem_of_nil in Hin. }
    (* the levels of [b1] *)
    assert (∀ s x, 0 ≤ x < Headers.MAX_PRICE_TICKS →
              ∃ lx, headers_levels s b1 !! Z.to_nat x = Some lx ∧
                    headers_queue m3 lx (upd G side t l s x)) as Hqueues.
    { intros s x Hx. unfold b1. rewrite headers_levels_with_levels.
      destruct (decide (s = side ∧ x = t)) as [[-> ->]|Hsx].
      - rewrite decide_True by done. exists lvl'. rewrite upd_eq. split; [|done].
        apply list_lookup_insert_eq. by eapply lookup_lt_Some.
      - rewrite upd_ne by done.
        destruct (hinv_queue Hinv s x Hx) as (lx & Hlx & [Hcx Htx]).
        hnorm. exists lx. split.
        + case_decide as Hs; [|done]. subst s. rewrite list_lookup_insert_ne; [done|].
          intros Heq. apply Hsx. split; [done|]. apply Z2Nat.inj in Heq; lia.
        + split; [|done]. apply (chain_ext m); [|done].
          intros j oj Hjin Hj. destruct (H6 j oj Hj) as (o' & Ho' & Hn' & _).
          destruct (Hkeep3 _ _ Ho') as (o3 & ? & _ & Hn3). exists o3. split; [done|].
          rewrite Hn3; [done|]. intros ->. apply Hsx.
          eapply headers_inv_unique; [done|done|by rewrite HG; left]. }
    assert (∀ s, length (headers_levels s b1) = Z.to_nat Headers.MAX_PRICE_TICKS) as Hlens.
    { intros s. unfold b1. rewrite headers_levels_with_levels. case_decide.
      - subst. rewrite length_insert. apply (hinv_length Hinv).
      - apply (hinv_length Hinv). }
    assert (∀ s x, ¬ (0 ≤ x < Headers.MAX_PRICE_TICKS) → upd G side t l s x = []) as Houts.
    { intros s x Hx. unfold upd. case_decide as Hsx.
      - destruct Hsx as [_ ->]. done.
      - by apply (hinv_outside Hinv). }
    assert (headers_book_view b1 (upd G side t l)) as Hview.
    { split; [|split; [done|done]]. intros s x Hx.
      destruct (Hqueues s x Hx) as (lx & Hlx & [Hcx _]). exists lx. split; [done|].
      apply chain_head in Hcx. rewrite Hcx. destruct (upd G side t l s x); split; done. }
    (* the cached best prices *)
    assert (∃ b2,
      match Headers.PriceLevel.head lvl' with
      | None =>
          if t =? Headers.OrderBook.best_ask_ b1 then Headers.OrderBook.updateBestAsk b1
          else if t =? Headers.OrderBook.best_bid_ b1 then Headers.OrderBook.updateBestBid b1
          else Ok b1
      | Some _ => Ok b1
      end = Ok b2 ∧
      (∀ s, headers_levels s b2 = headers_levels s b1) ∧
      (0 ≤ Headers.OrderBook.best_bid_ b2 < Headers.MAX_PRICE_TICKS ∧
       ∀ x, upd G side t l true x ≠ [] → x ≤ Headers.OrderBook.best_bid_ b2) ∧
      (0 ≤ Headers.OrderBook.best_ask_ b2 ≤ Headers.MAX_PRICE_TICKS ∧
       ∀ x, upd G side t l false x ≠ [] → Headers.OrderBook.best_ask_ b2 ≤ x))
      as (b2 & -> & Hlv2 & Hbid2 & Hask2).
    { assert (Headers.OrderBook.best_bid_ b1 = Headers.OrderBook.best_bid_ book) as Hbb
        by (unfold b1; by destruct side).
      assert (Headers.OrderBook.best_ask_ b1 = Headers.OrderBook.best_ask_ book) as Hba
        by (unfold b1; by destruct side).
      assert (0 ≤ Headers.OrderBook.best_bid_ b1 < Headers.MAX_PRICE_TICKS ∧
              ∀ x, upd G side t l true x ≠ [] → x ≤ Headers.OrderBook.best_bid_ b1) as Hbid1.
      { rewrite Hbb. destruct (hinv_best_bid Hinv) as [? Hb]. split; [done|].
        intros x Hx. by apply Hb, Hsub'. }
      assert (0 ≤ Headers.OrderBook.best_ask_ b1 ≤ Headers.MAX_PRICE_TICKS ∧
              ∀ x, upd G side t l false x ≠ [] → Headers.OrderBook.best_ask_ b1 ≤ x) as Hask1.
      { rewrite Hba. destruct (hinv_best_ask Hinv) as [? Hb]. split; [done|].
        intros x Hx. by apply Hb, Hsub'. }
      destruct (Headers.PriceLevel.head lvl'); [by exists b1|].
      destruct (t =? Headers.OrderBook.best_ask_ b1).
      - destruct (headers_rescan_view false b1 _ Hview) as (v & Heq & Hv & Hbound & _).
        cbn [headers_rescan] in Heq. rewrite Heq. eexists. split; [done|].
        split; [intros s; apply headers_levels_with_best|]. split; [|done].
        cbn [headers_with_best Headers.OrderBook.best_bid_]. done.
      - destruct (t =? Headers.OrderBook.best_bid_ b1); [|by exists b1].
        destruct (headers_rescan_view true b1 _ Hview) as (v & Heq & Hv & Hbound & _).
        cbn [headers_rescan] in Heq. rewrite Heq. eexists. split; [done|].
        split; [intros s; apply headers_levels_with_best|]. split; [done|].
        cbn [headers_with_best Headers.OrderBook.best_ask_]. done. }
    rewrite bind_Ok.
    (* the free stack takes [r] back *)
    pose proof (hinv_free_length Hinv) as Hfl_len.
    pose proof (hinv_free_idx Hinv) as Hfl_idx.
    pose proof (hinv_free_nodup Hinv) as Hfl_nd.
    pose proof (hinv_free Hinv) as Hfl_free.
    hnorm.
    assert (r ∉ take fi fl) as Hrfree.
    { intros Hin. destruct (Hfl_free r Hin) as [_ Hno]. by apply (Hno side t). }
    assert (fi < length fl)%nat as Hroom.
    { assert (length (r :: take fi fl) ≤ length m)%nat as Hle.
      { apply bounded_nodup_length; [by apply NoDup_cons|].
        intros i [->|Hi']%elem_of_cons; [by eapply lookup_lt_Some|]. by apply Hfl_free. }
      cbn [length] in Hle. rewrite length_take in Hle. lia. }
    destruct (lookup_lt_is_Some_2 _ _ Hroom) as [x0 Hx0].
    unfold OrderPool.deallocate. hnorm.
    rewrite (at_lookup _ _ _ Hx0), bind_Ok.
    do 2 eexists. exists (upd G side t l).
    split; [done|]. split; [done|]. split; [lia|].
    assert (∀ s x, r ∉ upd G side t l s x) as Hrgone.
    { intros s x Hin. destruct (decide (s = side ∧ x = t)) as [[-> ->]|Hsx].
      - rewrite upd_eq in Hin. apply NoDup_cons in Hnd as [Hnd _]. done.
      - rewrite upd_ne in Hin by done. apply Hsx.
        eapply headers_inv_unique; [done|done|by rewrite HG; left]. }
    assert (take (S fi) (<[fi := r]> fl) = take fi fl ++ [r]) as Hfree'.
    { rewrite (take_S_r _ _ r) by (by apply list_lookup_insert_eq).
      by rewrite take_insert_ge by lia. }
    assert (m3 !! ib = Some (Order.mk id price (q - f) sd None None)) as Hib3.
    { rewrite Hsame3; [done| |done]. intros Hin.
      apply (hfl_unlinked Hfl side t). rewrite HG. by right. }
    assert (∀ i s x, i ∈ upd G side t l s x →
              ∃ o3, m3 !! i = Some o3 ∧ Order.price o3 = x ∧ Order.is_buy o3 = s ∧
                    0 < Order.qty o3 < 2 ^ 32) as Hrest3.
    { intros i s x Hin.
      assert (i ≠ r) by (intros ->; by eapply Hrgone).
      assert (i ≠ ib) by (intros ->; by eapply (hfl_unlinked Hfl), Hsub).
      destruct (hinv_resting Hinv _ _ _ (Hsub _ _ _ Hin)) as (oi & Hoi & ? & ? & ?).
      hnorm. rewrite <- H4 in Hoi by done.
      destruct (Hkeep3 _ _ Hoi) as (o3 & Ho3 & (? & ? & ? & ?) & ?).
      exists o3. split; [done|]. split; [congruence|]. split; [congruence|]. lia. }
    split; [split; hnorm|split; [split; hnorm|]].
    + intros s x Hx. rewrite Hlv2. by apply Hqueues.
    + intros s. rewrite Hlv2. apply Hlens.
    + done.
    + intros s x i Hin. by apply (Hrest3 i s x).
    + intros s x. unfold upd. case_decide as Hsx.
      * by apply NoDup_cons in Hnd as [_ ?].
      * apply (hinv_nodup Hinv).
    + done.
    + done.
    + rewrite length_insert. congruence.
    + rewrite length_insert. lia.
    + rewrite Hfree'. apply NoDup_app.
      split; [done|]. split; [|apply NoDup_singleton].
      intros i Hi' ->%list_elem_of_singleton. done.
    + rewrite Hfree'.
      intros i [Hi'| ->%list_elem_of_singleton]%elem_of_app.
      * destruct (Hfl_free i Hi') as [? Hno]. split; [lia|].
        intros s x Hin. eapply Hno, Hsub, Hin.
      * split; [|done]. rewrite Hlen3, H5. by eapply lookup_lt_Some.
    + apply Z.mod_pos_bound. lia.
    + done.
    + lia.
    + intros s x Hin. eapply (hfl_unlinked Hfl), Hsub, Hin.
    + rewrite Hfree'.
      intros [Hi'| ->%list_elem_of_singleton]%elem_of_app; [|done].
      by apply (hfl_not_free Hfl).
    + split; [right; split; [done|lia]|]. split; [done|].
      hnorm. rewrite Hfree', decide_True by lia. done.
  - (* the resting order keeps a remainder and its place *)
    do 2 eexists. exists G.
    split; [done|]. split; [done|]. split; [lia|].
    assert (∀ i s x, i ∈ G s x → ∃ o2, m2 !! i = Some o2 ∧ Order.price o2 = x ∧
              Order.is_buy o2 = s ∧ 0 < Order.qty o2 < 2 ^ 32) as Hrest2.
    { intros i s x Hin.
      assert (i ≠ ib) by (intros ->; by eapply (hfl_unlinked Hfl)).
      destruct (hinv_resting Hinv _ _ _ Hin) as (oi & Hoi & ? & ? & ?).
      hnorm. destruct (decide (i = r)) as [->|Hir].
      - simplify_eq. eexists. split; [done|]. cbn. repeat split. all: lia.
      - rewrite H4 by done. exists oi. split; [done|]. repeat split; (done || lia). }
    split; [split; hnorm|split; [split; hnorm|]].
    + intros s x Hx. destruct (hinv_queue Hinv s x Hx) as (lx & Hlx & [Hcx Htx]).
      exists lx. split; [done|]. split; [|done]. hnorm.
      apply (chain_ext m); [|done].
      intros j oj _ Hj. destruct (H6 j oj Hj) as (o' & ? & ? & _). eauto.
    + apply (hinv_length Hinv).
    + apply (hinv_outside Hinv).
    + intros s x i Hin. by apply (Hrest2 i s x).
    + apply (hinv_nodup Hinv).
    + apply (hinv_best_bid Hinv).
    + apply (hinv_best_ask Hinv).
    + pose proof (hinv_free_length Hinv). hnorm. fold m2. rewrite H5. done.
    + apply (hinv_free_idx Hinv).
    + apply (hinv_free_nodup Hinv).
    + intros i Hi'. destruct (hinv_free Hinv i Hi') as [? ?]. split; [|done].
      hnorm. fold m2. rewrite H5. done.
    + apply Z.mod_pos_bound. lia.
    + done.
    + lia.
    + apply (hfl_unlinked Hfl).
    + apply (hfl_not_free Hfl).
    + split; [left; split; [done|lia]|]. split; [done|].
      hnorm. rewrite decide_False by lia. by rewrite app_nil_r.
Qed.

(** ** The matching loops *)

(** A loop that has just rescanned ([exact]) needs two rounds for each unit
    of the inbound quantity, and one more otherwise. The sell loop at price
    0 is left out: on an empty bid side it rescans for ever. *)
Lemma headers_matchOrder_spec side fuel : ∀ e G ib id price sd q (exact : bool),
  headers_inv e G → headers_inflight e G ib id price sd q →
  0 ≤ price < Headers.MAX_PRICE_TICKS →
  (exact = true → headers_exact side (Headers.MatchingEngine.book_ e) G) →
  match headers_matchOrder side fuel ib e with
  | Ok (e', fills) =>
      ∃ G' q', headers_inv e' G' ∧ headers_inflight e' G' ib id price sd q' ∧
               headers_match_post side id price e G q e' G' q' fills
  | Undefined => False
  | OutOfFuel => (side = true ∧ price = 0) ∨
                 Z.of_nat fuel ≤ 2 * q + (if exact then 0 else 1)
  end.
Proof.
  induction fuel as [|fuel IH]; intros e G ib id price sd q exact Hinv Hfl Hp Hexact.
  { cbn. right. pose proof (hfl_qty Hfl). destruct exact; lia. }
  pose proof (hfl_qty Hfl) as Hq.
  cbn [headers_matchOrder]. rewrite (at_lookup _ _ _ (hfl_order Hfl)), bind_Ok.
  cbv zeta. cbn [Order.qty Order.price].
  set (best := headers_best side (Headers.MatchingEngine.book_ e)).
  assert (Headers.MatchingEngine.trades_executed_ e
          = wrap64 (Headers.MatchingEngine.trades_executed_ e + Z.of_nat 0)) as Htr0.
  { cbn. rewrite Z.add_0_r. symmetry. apply wrap64_small, (hinv_trades Hinv). }
  destruct ((q >? 0) && headers_crosses side best price) eqn:Hcond.
  2:{ exists G, q. split; [done|]. split; [done|].
      split; [cbn; lia|done|done| |constructor|done|done].
      apply andb_false_iff in Hcond as [Hz|Hc]; [left; lia|by right]. }
  apply andb_true_iff in Hcond as [Hpos Hcross]. apply Z.gtb_lt in Hpos.
  assert (0 ≤ best < Headers.MAX_PRICE_TICKS) as Hbr.
  { unfold best. destruct side; cbn [headers_best headers_crosses] in *.
    - apply (hinv_best_bid Hinv).
    - pose proof (proj1 (hinv_best_ask Hinv)). lia. }
  destruct (hinv_queue Hinv side best Hbr) as (lvl & Hlvl & Hqueue).
  rewrite (at_lookup _ _ _ Hlvl), bind_Ok.
  pose proof Hqueue as [Hchain _]. apply chain_head in Hchain. rewrite Hchain.
  destruct (G side best) as [|r l] eqn:HG; cbn [list.head].
  - (* the cached price is stale: rescan *)
    destruct (headers_rescan_spec side e G Hinv) as (b & -> & Hinv1 & Hexact1).
    rewrite bind_Ok.
    set (e1 := Headers.MatchingEngine.mk b _ _) in *.
    assert (headers_inflight e1 G ib id price sd q) as Hfl1.
    { split; [apply (hfl_order Hfl)|done|apply (hfl_unlinked Hfl)|apply (hfl_not_free Hfl)]. }
    specialize (IH e1 G ib id price sd q true Hinv1 Hfl1 Hp (λ _, Hexact1)).
    destruct (headers_matchOrder side fuel ib e1) as [[e2 fills]| |]; [|done|].
    + destruct IH as (G2 & q2 & Hinv2 & Hfl2 & Hpost). exists G2, q2.
      split; [done|]. split; [done|]. split.
      * apply (hmp_qty Hpost).
      * apply (hmp_own Hpost).
      * apply (hmp_sub Hpost).
      * apply (hmp_exit Hpost).
      * apply (hmp_fills Hpost).
      * apply (hmp_nil Hpost).
      * apply (hmp_trades Hpost).
    + destruct IH as [?|IH]; [by left|]. destruct exact; [|right; lia].
      destruct (Hexact eq_refl) as [Hne|[_ Hbest]]; [fold best in Hne; by rewrite HG in Hne|].
      fold best in Hbest. destruct side; cbn [headers_crosses] in Hcross.
      * left. split; [done|]. lia.
      * lia.
  - (* a trade against the head of the best level *)
    destruct (headers_executeTrade_spec e G ib id price sd q side best r l Hinv Hfl Hpos Hbr HG)
      as (e1 & o & G1 & Ho & -> & Hf & Hinv1 & Hfl1 & Hcase & Htr1 & _).
    rewrite bind_Ok. set (f := Z.min q (Order.qty o)) in *.
    assert (false = true → headers_exact side (Headers.MatchingEngine.book_ e1) G1) as Hno by done.
    specialize (IH e1 G1 ib id price sd (q - f) false Hinv1 Hfl1 Hp Hno).
    destruct (headers_matchOrder side fuel ib e1) as [[e2 fills]| |]; [|done|].
    2:{ destruct IH as [?|IH]; [by left|]. right. destruct exact; lia. }
    destruct IH as (G2 & q2 & Hinv2 & Hfl2 & Hpost).
    rewrite bind_Ok. exists G2, q2. split; [done|]. split; [done|].
    assert (∀ s x i, i ∈ G1 s x → i ∈ G s x) as Hsub1.
    { intros s x i Hi. destruct Hcase as [[-> _]|[-> _]]; [done|].
      unfold upd in Hi. case_decide as Hsx; [|done]. destruct Hsx as [-> ->].
      rewrite HG. by right. }
    split.
    + rewrite (hmp_qty Hpost), filled_qty_cons. cbn. lia.
    + intros x. rewrite (hmp_own Hpost).
      destruct Hcase as [[-> _]|[-> _]]; [done|]. apply upd_ne. intros [? _]. by destruct side.
    + intros s x i Hi. by apply Hsub1, (hmp_sub Hpost).
    + apply (hmp_exit Hpost).
    + constructor.
      * cbn. split; [done|]. split; [done|]. split; [done|]. rewrite HG. left.
      * eapply Forall_impl; [apply (hmp_fills Hpost)|].
        intros f0 (? & ? & ? & Hin). split; [done|]. split; [done|]. split; [done|].
        by apply Hsub1.
    + done.
    + rewrite (hmp_trades Hpost), Htr1, wrap64_add. f_equal. cbn [length]. lia.
Qed.

(** ** Resting *)

Lemma headers_addOrder_side ib (m : heap) b o :
  m !! ib = Some o →
  Headers.OrderBook.addOrder ib m b =
    let sd := Order.is_buy o in
    let i := Z.to_nat (Order.price o) in
    l ← at_ (headers_levels sd b) i;
    '(m', l') ← Headers.PriceLevel.addOrder ib m l;
    o' ← at_ m' ib;
    Ok (m', headers_with_best sd
              (if sd
               then if Order.price o' >? Headers.OrderBook.best_bid_ b
                    then Order.price o' else Headers.OrderBook.best_bid_ b
               else if Order.price o' <? Headers.OrderBook.best_ask_ b
                    then Order.price o' else Headers.OrderBook.best_ask_ b)
              (headers_with_levels sd (<[i := l']> (headers_levels sd b)) b)).
Proof.
  intros Ho. unfold Headers.OrderBook.addOrder. rewrite (at_lookup _ _ _ Ho), bind_Ok.
  by destruct (Order.is_buy o).
Qed.

Lemma headers_book_addOrder_spec e G ib id price sd q :
  headers_inv e G → headers_inflight e G ib id price sd q →
  0 < q → 0 ≤ price < Headers.MAX_PRICE_TICKS →
  ∃ m' b',
    Headers.OrderBook.addOrder ib (Headers.MatchingEngine.orders e)
      (Headers.MatchingEngine.book_ e) = Ok (m', b') ∧
    headers_inv (Headers.MatchingEngine.mk b'
                   (Headers.MatchingEngine.set_orders m' (Headers.MatchingEngine.pool_ e))
                   (Headers.MatchingEngine.trades_executed_ e))
                (upd G sd price (G sd price ++ [ib])).
Proof.
  intros Hinv Hfl Hq Hp. destruct e as [book [m fl fi] trades]. hnorm.
  pose proof (hfl_order Hfl) as Hib.
  pose proof (hfl_qty Hfl) as Hqr.
  pose proof (hfl_not_free Hfl) as Hnf.
  pose proof (hfl_unlinked Hfl) as Hunl. hnorm.
  rewrite (headers_addOrder_side _ _ _ _ Hib). cbn [Order.is_buy Order.price]. cbv zeta.
  destruct (hinv_queue Hinv sd price Hp) as (lvl & Hlvl & Hqueue). hnorm.
  rewrite (at_lookup _ _ _ Hlvl), bind_Ok.
  set (l := G sd price) in *.
  pose proof (hinv_nodup Hinv sd price) as Hnd. fold l in Hnd.
  destruct (headers_addOrder_spec m lvl l ib _ Hqueue Hnd (Hunl sd price) Hib)
    as (m' & lvl' & -> & Hqueue' & Hlen' & Hother & Hkeep & Hnew).
  rewrite bind_Ok, (at_lookup _ _ _ Hnew), bind_Ok. cbn [Order.price Order.with_next Order.with_prev].
  do 2 eexists. split; [done|].
  assert (∀ s x i, i ∈ upd G sd price (l ++ [ib]) s x → i ≠ ib → i ∈ G s x) as Hsub.
  { intros s x i Hi Hne. unfold upd in Hi. case_decide as Hsx; [|done].
    destruct Hsx as [-> ->]. apply elem_of_app in Hi as [?|?%list_elem_of_singleton]; done. }
  assert (∀ s x, upd G sd price (l ++ [ib]) s x ≠ [] → (s = sd ∧ x = price) ∨ G s x ≠ [])
    as Hocc.
  { intros s x Hne. unfold upd in Hne. case_decide; [by left|by right]. }
  assert (∀ s x i, i ∈ G s x → ¬ (s = sd ∧ x = price) → i ∉ l) as Hfar.
  { intros s x i Hi Hsx Hil. apply Hsx. eapply headers_inv_unique; eauto. }
  split; hnorm.
  - intros s x Hx. rewrite headers_levels_with_best, headers_levels_with_levels.
    destruct (decide (s = sd ∧ x = price)) as [[-> ->]|Hsx].
    + rewrite decide_True by done. exists lvl'. rewrite upd_eq. split; [|done].
      apply list_lookup_insert_eq. by eapply lookup_lt_Some.
    + rewrite upd_ne by done.
      destruct (hinv_queue Hinv s x Hx) as (lx & Hlx & [Hcx Htx]). hnorm.
      exists lx. split.
      * case_decide as Hs; [|done]. subst s. rewrite list_lookup_insert_ne; [done|].
        intros Heq. apply Hsx. split; [done|]. apply Z2Nat.inj in Heq; lia.
      * split; [|done]. apply (chain_ext m); [|done].
        intros j oj Hj Hoj. destruct (Hkeep j oj Hoj) as (o' & Ho' & _ & Hn).
        exists o'. split; [done|]. apply Hn; [by eapply Hfar|].
        intros ->. by apply (Hunl s x).
  - intros s. rewrite headers_levels_with_best, headers_levels_with_levels. case_decide.
    + subst. rewrite length_insert. apply (hinv_length Hinv).
    + apply (hinv_length Hinv).
  - intros s x Hx. rewrite upd_ne; [by apply (hinv_outside Hinv)|].
    intros [_ ->]. done.
  - intros s x i Hi. destruct (decide (i = ib)) as [->|Hne].
    + assert (s = sd ∧ x = price) as [-> ->].
      { unfold upd in Hi. case_decide; [done|]. by apply Hunl in Hi. }
      eexists. split; [exact Hnew|]. cbn. repeat split; (done || lia).
    + destruct (hinv_resting Hinv _ _ _ (Hsub _ _ _ Hi Hne)) as (oi & Hoi & ? & ? & ?). hnorm.
      destruct (Hkeep i _ Hoi) as (o' & Ho' & (? & ? & ? & ?) & _).
      exists o'. split; [done|]. repeat split; (congruence || lia).
  - intros s x. unfold upd. case_decide; [|apply (hinv_nodup Hinv)].
    apply NoDup_app. split; [done|]. split; [|apply NoDup_singleton].
    intros i Hi ->%list_elem_of_singleton. by apply (Hunl sd price).
  - destruct (hinv_best_bid Hinv) as [Hr Hb]. hnorm.
    destruct sd; cbn [headers_with_best headers_with_levels Headers.OrderBook.best_bid_].
    + destruct (Z.gtb_spec price (Headers.OrderBook.best_bid_ book)).
      * split; [lia|]. intros x Hx. destruct (Hocc _ _ Hx) as [[_ ->]|Hx']; [lia|].
        apply Hb in Hx'. lia.
      * split; [lia|]. intros x Hx. destruct (Hocc _ _ Hx) as [[_ ->]|Hx']; [lia|].
        by apply Hb.
    + split; [done|]. intros x Hx. destruct (Hocc _ _ Hx) as [[? _]|Hx']; [done|]. by apply Hb.
  - destruct (hinv_best_ask Hinv) as [Hr Hb]. hnorm.
    destruct sd; cbn [headers_with_best headers_with_levels Headers.OrderBook.best_ask_].
    + split; [done|]. intros x Hx. destruct (Hocc _ _ Hx) as [[? _]|Hx']; [done|]. by apply Hb.
    + destruct (Z.ltb_spec price (Headers.OrderBook.best_ask_ book)).
      * split; [lia|]. intros x Hx. destruct (Hocc _ _ Hx) as [[_ ->]|Hx']; [lia|].
        apply Hb in Hx'. lia.
      * split; [lia|]. intros x Hx. destruct (Hocc _ _ Hx) as [[_ ->]|Hx']; [lia|].
        by apply Hb.
  - rewrite Hlen'. apply (hinv_free_length Hinv).
  - apply (hinv_free_idx Hinv).
  - apply (hinv_free_nodup Hinv).
  - intros i Hi. destruct (hinv_free Hinv i Hi) as [? Hno]. hnorm.
    split; [by rewrite Hlen'|]. intros s x Hin.
    apply (Hno s x), Hsub; [done|]. intros ->. done.
  - apply (hinv_trades Hinv).
Qed.

(** ** One call of [processNewOrder] *)

Lemma headers_processNewOrder_spec fuel id price q sd e G :
  headers_inv e G → 0 ≤ price < Headers.MAX_PRICE_TICKS → 0 < q < 2 ^ 32 →
  match Headers.MatchingEngine.processNewOrder fuel id price q sd e with
  | Ok (e', Throw _) =>
      e' = e ∧ OrderPool.free_idx_ (Headers.MatchingEngine.pool_ e) = 0%nat
  | Ok (e', Return fills) =>
      OrderPool.free_idx_ (Headers.MatchingEngine.pool_ e) ≠ 0%nat ∧
      ∃ G', headers_inv e' G' ∧ headers_call_post id price q sd e G e' G' fills
  | Undefined => False
  | OutOfFuel => (sd = false ∧ price = 0) ∨ Z.of_nat fuel ≤ 2 * q + 1
  end.
Proof.
  intros Hinv Hp Hq. unfold Headers.MatchingEngine.processNewOrder.
  destruct (decide (OrderPool.free_idx_ (Headers.MatchingEngine.pool_ e) = 0%nat)) as [Hz|Hnz].
  { unfold OrderPool.allocate. rewrite Hz. cbn. by destruct e. }
  destruct (headers_allocate_spec e G id price q sd Hinv) as (p & ib & -> & Hinv0 & Hfl0);
    [lia|done|].
  rewrite bind_Ok. cbv zeta. rewrite headers_match_loop_side.
  set (e0 := Headers.MatchingEngine.mk _ p _) in *.
  assert (Headers.MatchingEngine.trades_executed_ e0
          = Headers.MatchingEngine.trades_executed_ e) as Htr0 by done.
  clearbody e0.
  assert (false = true → headers_exact (negb sd) (Headers.MatchingEngine.book_ e0) G)
    as Hno by done.
  pose proof (headers_matchOrder_spec (negb sd) fuel e0 G ib id price sd q false
                Hinv0 Hfl0 Hp Hno) as Hloop.
  destruct (headers_matchOrder (negb sd) fuel ib e0) as [[e1 fills]| |]; [|done|].
  2:{ destruct Hloop as [[Hs ->]|?]; [left; by destruct sd|by right]. }
  destruct Hloop as (G1 & q1 & Hinv1 & Hfl1 & Hpost). rewrite bind_Ok.
  rewrite (at_lookup _ _ _ (hfl_order Hfl1)), bind_Ok. cbn [Order.qty].
  pose proof (hfl_qty Hfl1) as Hq1.
  pose proof (hmp_qty Hpost) as Hq1'.
  pose proof (hmp_own Hpost) as Hown. rewrite negb_involutive in Hown.
  destruct (Z.gtb_spec q1 0) as [Hrest|Hdone].
  - (* the remainder rests *)
    destruct (headers_book_addOrder_spec e1 G1 ib id price sd q1 Hinv1 Hfl1 Hrest Hp)
      as (m' & b' & -> & Hinv').
    rewrite bind_Ok. split; [done|]. eexists. split; [exact Hinv'|].
    split.
    + lia.
    + intros x i Hi. rewrite upd_ne in Hi by (intros [? _]; by destruct sd).
      by apply (hmp_sub Hpost).
    + right. split; [lia|]. split.
      * intros x Hx. rewrite upd_ne in Hx by (intros [? _]; by destruct sd).
        destruct (hmp_exit Hpost) as [?|Hexit]; [lia|].
        destruct sd; cbn [negb headers_crosses headers_best] in *.
        -- destruct (hinv_best_ask Hinv1) as [_ Hb]. apply Hb in Hx. lia.
        -- destruct (hinv_best_bid Hinv1) as [_ Hb]. apply Hb in Hx. lia.
      * exists ib. split; [|apply (hfl_unlinked Hfl0)].
        intros x. unfold upd. case_decide as Hsx.
        -- destruct Hsx as [_ ->]. rewrite decide_True by done. by rewrite Hown.
        -- rewrite decide_False by (intros ->; by apply Hsx). apply Hown.
    + apply (hmp_fills Hpost).
    + intros Hnil x. rewrite upd_ne by (intros [? _]; by destruct sd).
      by apply (hmp_nil Hpost).
    + rewrite <- Htr0. apply (hmp_trades Hpost).
  - (* the inbound is filled: its record goes back to the pool *)
    destruct (headers_deallocate_inbound_spec e1 G1 ib id price sd q1 Hinv1 Hfl1)
      as (p' & -> & Hinv').
    rewrite bind_Ok. split; [done|]. exists G1. split; [done|].
    split.
    + lia.
    + intros x i. apply (hmp_sub Hpost).
    + left. split; [lia|done].
    + apply (hmp_fills Hpost).
    + intros Hnil x. by apply (hmp_nil Hpost).
    + rewrite <- Htr0. apply (hmp_trades Hpost).
Qed.

(** ** Reachable states *)

Lemma headers_reachable_inv n e :
  headers_reachable n e →
  ∃ G, headers_inv e G ∧ ∀ b a, G true b ≠ [] → G false a ≠ [] → b < a.
Proof.
  induction 1 as [|e fuel c e' r _ (G & Hinv & Hnc) [Hp Hq] Hsub].
  { exists (λ _ _, []). split; [apply headers_inv_new|]. intros b a Hb. done. }
  pose proof (headers_processNewOrder_spec fuel (call_id c) (call_price c) (call_qty c)
                (call_is_buy c) e G Hinv Hp Hq) as Hspec.
  unfold headers_submit in Hsub. rewrite Hsub in Hspec.
  destruct r as [fills|ex].
  2:{ destruct Hspec as [-> _]. eauto. }
  destruct Hspec as (_ & G' & Hinv' & Hpost). exists G'. split; [done|].
  assert (∀ x, G' (negb (call_is_buy c)) x ≠ [] → G (negb (call_is_buy c)) x ≠ []) as Hopp.
  { intros x Hne Hnil. destruct (G' (negb (call_is_buy c)) x) as [|i l] eqn:E; [done|].
    assert (i ∈ G (negb (call_is_buy c)) x) as Hi by (apply (hcp_sub Hpost); rewrite E; left).
    rewrite Hnil in Hi. by apply elem_of_nil in Hi. }
  intros b a Hb Ha.
  destruct (hcp_own Hpost) as [[_ Hown]|(_ & Hbeyond & ib & Hown & _)].
  - destruct (call_is_buy c); cbn [negb] in *.
    + rewrite Hown in Hb. apply Hnc; [done|by apply Hopp].
    + rewrite Hown in Ha. apply Hnc; [by apply Hopp|done].
  - destruct (call_is_buy c); cbn [negb headers_crosses] in *.
    + pose proof (Hbeyond a Ha). rewrite Hown in Hb. case_decide as Hbp.
      * lia.
      * apply Hnc; [done|by apply Hopp].
    + pose proof (Hbeyond b Hb). rewrite Hown in Ha. case_decide as Hap.
      * lia.
      * apply Hnc; [by apply Hopp|done].
Qed.

(** ** The header variant, call by call *)

Lemma headers_bid_at_0_reachable : headers_reachable 4 headers_bid_at_0.
Proof.
  apply (headers_reach_call 4 (Headers.MatchingEngine.new 4) 8 (mkCall 1 0 5 true)
           headers_bid_at_0 (Return [])).
  - constructor.
  - unfold headers_valid_call, Headers.MAX_PRICE_TICKS. cbn. lia.
  - vm_compute. reflexivity.
Qed.

(** X27: in the header variant every valid call other than a sell at price 0, on
    every state reachable by valid calls, runs to completion: it returns or
    throws, nothing undefined is met on the way (no level or pool index out
    of range, no null record), and the matching loop needs at most two
    rounds for each unit of the order's quantity, plus two. *)
Theorem headers_processNewOrder_completes n e c fuel :
  headers_reachable n e → headers_valid_call c →
  call_is_buy c = true ∨ 0 < call_price c →
  2 * call_qty c + 1 < Z.of_nat fuel →
  ∃ e' r, headers_submit fuel c e = Ok (e', r).
Proof.
  intros Hr [Hp Hq] Hside Hfuel. destruct (headers_reachable_inv _ _ Hr) as (G & Hinv & _).
  pose proof (headers_processNewOrder_spec fuel (call_id c) (call_price c) (call_qty c)
                (call_is_buy c) e G Hinv Hp Hq) as Hspec.
  unfold headers_submit.
  destruct (Headers.MatchingEngine.processNewOrder _ _ _ _ _ _) as [[e' r]| |].
  - eauto.
  - done.
  - destruct Hspec as [[Hs Hz]|?]; [|lia]. destruct Hside as [Hb|?]; [congruence|lia].
Qed.

Lemma headers_processNewOrder_completes_witness :
  ∃ e' r, headers_submit 12 (mkCall 2 0 5 true) headers_bid_at_0 = Ok (e', r).
Proof.
  apply (headers_processNewOrder_completes 4 headers_bid_at_0 (mkCall 2 0 5 true) 12).
  - apply headers_bid_at_0_reachable.
  - unfold headers_valid_call, Headers.MAX_PRICE_TICKS. cbn. lia.
  - by left.
  - cbn. lia.
Defined.

(** X28: the book of the header variant is never crossed, tick 0 included: on
    every reachable state each occupied bid level lies strictly below each
    occupied ask level. The cached best prices may be stale but never hide an
    order: no bid rests above [best_bid_] and no ask below [best_ask_]. *)
Theorem headers_book_never_crossed n e :
  headers_reachable n e →
  headers_no_cross e ∧
  (∀ t, headers_occupied true e t →
        Z.of_nat t ≤ Headers.OrderBook.best_bid_ (Headers.MatchingEngine.book_ e)) ∧
  (∀ t, headers_occupied false e t →
        Headers.OrderBook.best_ask_ (Headers.MatchingEngine.book_ e) ≤ Z.of_nat t).
Proof.
  intros Hr. destruct (headers_reachable_inv _ _ Hr) as (G & Hinv & Hnc).
  split; [|split].
  - intros b a Hb%(headers_occupied_ghost e G true b Hinv)
                Ha%(headers_occupied_ghost e G false a Hinv).
    specialize (Hnc _ _ Hb Ha). lia.
  - intros t Ht%(headers_occupied_ghost e G true t Hinv). by apply (hinv_best_bid Hinv).
  - intros t Ht%(headers_occupied_ghost e G false t Hinv). by apply (hinv_best_ask Hinv).
Qed.

Lemma headers_book_never_crossed_witness :
  headers_no_cross headers_bid_at_0 ∧
  (∀ t, headers_occupied true headers_bid_at_0 t →
        Z.of_nat t ≤ Headers.OrderBook.best_bid_ (Headers.MatchingEngine.book_ headers_bid_at_0)) ∧
  (∀ t, headers_occupied false headers_bid_at_0 t →
        Headers.OrderBook.best_ask_ (Headers.MatchingEngine.book_ headers_bid_at_0)
        ≤ Z.of_nat t).
Proof. apply (headers_book_never_crossed 4 headers_bid_at_0), headers_bid_at_0_reachable. Defined.

(** X29: in the header variant an order trades exactly where it crosses, at tick 0
    as at every other tick. Every fill of a call that returns is made within
    the order's limit, at a level of the opposite side that was occupied
    before the call; and when a level of the opposite side within the limit
    is occupied, the call makes at least one fill. *)
Theorem headers_order_trades_where_it_crosses n e c fuel e' fills :
  headers_reachable n e → headers_valid_call c →
  headers_submit fuel c e = Ok (e', Return fills) →
  Forall (λ f, 0 < trade_qty f ∧
               within_limit (call_is_buy c) (call_price c) (trade_price f) ∧
               headers_occupied (negb (call_is_buy c)) e (Z.to_nat (trade_price f))) fills ∧
  ∀ t, headers_occupied (negb (call_is_buy c)) e t →
       within_limit (call_is_buy c) (call_price c) (Z.of_nat t) →
       fills ≠ [].
Proof.
  intros Hr [Hp Hq] Hsub. destruct (headers_reachable_inv _ _ Hr) as (G & Hinv & _).
  pose proof (headers_processNewOrder_spec fuel (call_id c) (call_price c) (call_qty c)
                (call_is_buy c) e G Hinv Hp Hq) as Hspec.
  unfold headers_submit in Hsub. rewrite Hsub in Hspec.
  destruct Hspec as (_ & G' & Hinv' & Hpost). split.
  - eapply Forall_impl; [apply (hcp_fills Hpost)|].
    intros f (_ & Hpos & Hcross & Hin). split; [done|]. split.
    + unfold within_limit. destruct (call_is_buy c); cbn [negb headers_crosses] in Hcross; lia.
    + pose proof (headers_inv_in_range _ _ _ _ _ Hinv Hin) as Hrange.
      apply (headers_occupied_ghost e G _ _ Hinv). rewrite Z2Nat.id by lia.
      intros Hnil. rewrite Hnil in Hin. by apply elem_of_nil in Hin.
  - intros t Hocc Hlim ->.
    apply (headers_occupied_ghost e G _ t Hinv) in Hocc.
    rewrite <- (hcp_nil Hpost eq_refl) in Hocc.
    destruct (hcp_own Hpost) as [[Hfull _]|(_ & Hbeyond & _)]; [cbn in Hfull; lia|].
    specialize (Hbeyond _ Hocc). unfold within_limit in Hlim.
    destruct (call_is_buy c); cbn [negb headers_crosses] in Hbeyond; lia.
Qed.

(** A sell of 3 at price 0 against the bid of 5 at tick 0. *)
Lemma headers_order_trades_where_it_crosses_witness :
  Forall (λ f, 0 < trade_qty f ∧ within_limit false 0 (trade_price f) ∧
               headers_occupied (negb false) headers_bid_at_0 (Z.to_nat (trade_price f)))
         (headers_outcome (headers_submit 12 (mkCall 2 0 3 false) headers_bid_at_0)).2 ∧
  ∀ t, headers_occupied (negb false) headers_bid_at_0 t →
       within_limit false 0 (Z.of_nat t) →
       (headers_outcome (headers_submit 12 (mkCall 2 0 3 false) headers_bid_at_0)).2 ≠ [].
Proof.
  apply (headers_order_trades_where_it_crosses 4 headers_bid_at_0 (mkCall 2 0 3 false) 12
           (headers_outcome (headers_submit 12 (mkCall 2 0 3 false) headers_bid_at_0)).1).
  - apply headers_bid_at_0_reachable.
  - unfold headers_valid_call, Headers.MAX_PRICE_TICKS. cbn. lia.
  - vm_compute. reflexivity.
Defined.

(** The same two orders evaluated: the sell takes 3 of the bid at tick 0, in
    one fill at price 0. *)
Example headers_tick_0_fill :
  (headers_outcome (headers_submit 12 (mkCall 2 0 3 false) headers_bid_at_0)).2
  = [mkTrade 2 1 0 3 0].
Proof. vm_compute. reflexivity. Qed.


(** * The two variants side by side *)

(** ** The fields of the records in the header variant *)

Lemma headers_pop_front_fields m l m' l' :
  Headers.PriceLevel.pop_front m l = Ok (m', l') → fields <$> m' = fields <$> m.
Proof.
  unfold Headers.PriceLevel.pop_front.
  destruct (Headers.PriceLevel.head l) as [i|]; [|by intros [= <- _]].
  intros H. apply bind_Ok_inv in H as (o & Ho%at_Ok & H).
  apply bind_Ok_inv in H as ([m1 l1] & H1 & H).
  apply bind_Ok_inv in H as (o1 & Ho1%at_Ok & H).
  apply bind_Ok_inv in H as (o2 & Ho2%at_Ok & H). injection H as <- _.
  rewrite (fields_insert_links _ i o2) by done.
  rewrite (fields_insert_links _ i o1) by done.
  destruct (Order.next o) as [j|]; [|by injection H1 as <- _].
  apply bind_Ok_inv in H1 as (oh & Hoh%at_Ok & H1). injection H1 as <- _.
  by apply (fields_insert_links m j oh).
Qed.

Lemma headers_addOrder_fields i m l m' l' :
  Headers.PriceLevel.addOrder i m l = Ok (m', l') → fields <$> m' = fields <$> m.
Proof.
  unfold Headers.PriceLevel.addOrder. intros H.
  apply bind_Ok_inv in H as (o & Ho%at_Ok & H).
  destruct (Headers.PriceLevel.tail l) as [tl|].
  - apply bind_Ok_inv in H as (t_ & Ht%at_Ok & H). injection H as <- _.
    rewrite (fields_insert_links _ tl t_) by done.
    by apply (fields_insert_links m i o).
  - injection H as <- _. by apply (fields_insert_links m i o).
Qed.

Lemma headers_book_addOrder_fields i m b m' b' :
  Headers.OrderBook.addOrder i m b = Ok (m', b') → fields <$> m' = fields <$> m.
Proof.
  unfold Headers.OrderBook.addOrder. intros H.
  apply bind_Ok_inv in H as (o & _ & H).
  destruct (Order.is_buy o).
  - apply bind_Ok_inv in H as (l & _ & H).
    apply bind_Ok_inv in H as ([m1 l1] & H1 & H).
    apply bind_Ok_inv in H as (o' & _ & H). injection H as <- _.
    by apply headers_addOrder_fields in H1.
  - apply bind_Ok_inv in H as (l & _ & H).
    apply bind_Ok_inv in H as ([m1 l1] & H1 & H).
    apply bind_Ok_inv in H as (o' & _ & H). injection H as <- _.
    by apply headers_addOrder_fields in H1.
Qed.

Lemma headers_executeTrade_fields ib r lr p e e' fill i o :
  Headers.MatchingEngine.executeTrade ib r lr p e = Ok (e', fill) →
  Headers.MatchingEngine.orders e !! ib = Some i →
  Headers.MatchingEngine.orders e !! r = Some o →
  ib ≠ r →
  fields <$> Headers.MatchingEngine.orders e'
  = traded ib r i o (fields <$> Headers.MatchingEngine.orders e).
Proof.
  intros H Hi Ho Hne. unfold Headers.MatchingEngine.executeTrade in H. cbv zeta in H.
  rewrite (at_lookup _ _ _ Hi), bind_Ok in H.
  rewrite (at_lookup _ _ _ Ho), bind_Ok in H.
  destruct (fill_heap (Headers.MatchingEngine.orders e) ib r i o
              (wrap32 (Order.qty i - Z.min (Order.qty i) (Order.qty o)))
              (wrap32 (Order.qty o - Z.min (Order.qty i) (Order.qty o))) Hi Ho Hne)
    as (H1 & _ & H3 & _).
  cbv zeta in H1, H3.
  rewrite (at_lookup _ _ _ H1), bind_Ok in H.
  rewrite (at_lookup _ _ _ H3), bind_Ok in H.
  assert (fields <$> <[r := Order.with_qty (wrap32 (Order.qty o - Z.min (Order.qty i) (Order.qty o))) o]>
            (<[ib := Order.with_qty (wrap32 (Order.qty i - Z.min (Order.qty i) (Order.qty o))) i]>
               (Headers.MatchingEngine.orders e))
          = traded ib r i o (fields <$> Headers.MatchingEngine.orders e)) as Hm2.
  { unfold traded. by rewrite !list_fmap_insert. }
  destruct (Order.qty _ =? 0).
  - apply bind_Ok_inv in H as (l & _ & H).
    apply bind_Ok_inv in H as ([m3 l'] & Hpop & H).
    apply bind_Ok_inv in H as (b2 & _ & H).
    apply bind_Ok_inv in H as (p' & Hd & H). injection H as <- _.
    apply deallocate_inv in Hd as [Hd _]. unfold Headers.MatchingEngine.orders at 1.
    cbn [Headers.MatchingEngine.pool_]. rewrite Hd. cbn.
    apply headers_pop_front_fields in Hpop. by rewrite Hpop.
  - injection H as <- _. done.
Qed.

(** ** The matching loops *)

Lemma agree_record e h G i o o' :
  variants_agree e h G →
  MatchingEngine.orders e !! i = Some o → Headers.MatchingEngine.orders h !! i = Some o' →
  fields o = fields o'.
Proof.
  intros Hag Ho Ho'. pose proof (f_equal (.!! i) (va_fields Hag)) as H. cbv beta in H.
  rewrite !list_lookup_fmap, Ho, Ho' in H. cbn [fmap option_fmap option_map] in H. congruence.
Qed.

Lemma stops_false side b price :
  stops side b price = false →
  if side then price ≤ b ∧ b ≠ 0 else b ≤ price ∧ b ≠ MAX_PRICE_TICKS.
Proof.
  unfold stops. destruct side; intros [H1 H2]%orb_false_iff.
  - apply Z.ltb_ge in H1. apply Z.eqb_neq in H2. done.
  - rewrite Z.gtb_ltb in H1. apply Z.ltb_ge in H1. apply Z.eqb_neq in H2. done.
Qed.

Lemma stops_false_intro (side : bool) b price :
  (if side return Prop then price ≤ b ∧ b ≠ 0 else b ≤ price ∧ b ≠ MAX_PRICE_TICKS) →
  stops side b price = false.
Proof.
  unfold stops. destruct side; intros [H1 H2]; apply orb_false_iff; split.
  - by apply Z.ltb_ge.
  - by apply Z.eqb_neq.
  - rewrite Z.gtb_ltb. by apply Z.ltb_ge.
  - by apply Z.eqb_neq.
Qed.

Lemma headers_crosses_spec (side : bool) best price :
  headers_crosses side best price = true ↔ if side then price ≤ best else best ≤ price.
Proof.
  unfold headers_crosses. destruct side.
  - rewrite Z.geb_leb. apply Z.leb_le.
  - apply Z.leb_le.
Qed.

Lemma traded_fields ib r i o o' fs :
  fields o = fields o' → traded ib r i o fs = traded ib r i o' fs.
Proof. unfold traded, fields. cbn. intros [= -> -> -> ->]. done. Qed.

Lemma match_agree side : ∀ fuel' fuel e h G ib id price sd q,
  variants_agree e h G →
  inflight e G ib id price sd q → headers_inflight h G ib id price sd q →
  0 ≤ price < MAX_PRICE_TICKS → (side = true → 0 < price) →
  q < Z.of_nat fuel →
  ∀ h' fills, headers_matchOrder side fuel' ib h = Ok (h', fills) →
  ∃ e' G' q', matchOrder side fuel ib e = Ok (e', fills) ∧ variants_agree e' h' G' ∧
              inflight e' G' ib id price sd q' ∧ headers_inflight h' G' ib id price sd q'.
Proof.
  induction fuel' as [|fuel' IH];
    intros fuel e h G ib id price sd q Hag Hfl Hhfl Hp Hside Hfuel h' fills Hrun; [done|].
  pose proof (fl_qty Hfl) as Hq.
  destruct fuel as [|fuel]; [cbn in Hfuel; lia|].
  cbn [headers_matchOrder] in Hrun.
  rewrite (at_lookup _ _ _ (hfl_order Hhfl)), bind_Ok in Hrun.
  cbv zeta in Hrun. cbn [Order.qty Order.price] in Hrun.
  set (best := headers_best side (Headers.MatchingEngine.book_ h)) in *.
  destruct (best_price_spec side (tracker side (MatchingEngine.book_ e)) price
              (inv_tracker_wf (va_hft Hag) side)) as (b & Hbest & Hb).
  destruct ((q >? 0) && headers_crosses side best price) eqn:Hcond.
  2:{ (* the header variant stops: so does hft_engine.cpp *)
      injection Hrun as <- <-. exists e, G, q. split; [|done].
      cbn [matchOrder]. rewrite (at_lookup _ _ _ (fl_order Hfl)), bind_Ok.
      cbn [Order.qty Order.price].
      destruct (Z.gtb_spec q 0) as [Hpos|]; [|done]. rewrite Hbest, bind_Ok.
      cbn [andb] in Hcond.
      destruct (stops side b price) eqn:Hst; [done|]. exfalso.
      destruct Hb as [Hb|(Hbr & Hact & _)]; [congruence|].
      apply (inv_active (va_hft Hag) side b Hbr) in Hact.
      apply stops_false in Hst.
      assert (¬ (if side return Prop then price ≤ best else best ≤ price)) as Hno.
      { intros Hc%headers_crosses_spec. congruence. }
      unfold best in Hno. destruct side; cbn [headers_best] in *.
      - destruct (hinv_best_bid (va_headers Hag)) as [_ Hbound]. apply Hbound in Hact. lia.
      - destruct (hinv_best_ask (va_headers Hag)) as [_ Hbound]. apply Hbound in Hact. lia. }
  apply andb_true_iff in Hcond as [Hpos Hcross]. apply Z.gtb_lt in Hpos.
  apply headers_crosses_spec in Hcross.
  assert (0 ≤ best < Headers.MAX_PRICE_TICKS) as Hbr.
  { unfold best in *. unfold MAX_PRICE_TICKS in Hp.
    destruct side; cbn [headers_best] in *.
    - apply (hinv_best_bid (va_headers Hag)).
    - pose proof (proj1 (hinv_best_ask (va_headers Hag))). unfold Headers.MAX_PRICE_TICKS. lia. }
  destruct (hinv_queue (va_headers Hag) side best Hbr) as (lvl & Hlvl & Hqueue).
  rewrite (at_lookup _ _ _ Hlvl), bind_Ok in Hrun.
  pose proof Hqueue as [Hchain _]. apply chain_head in Hchain. rewrite Hchain in Hrun.
  destruct (G side best) as [|r l] eqn:HG; cbn [list.head] in Hrun.
  - (* a rescan of the header variant: hft_engine.cpp waits *)
    destruct (headers_rescan_spec side h G (va_headers Hag)) as (bk & Hre & Hinv1 & _).
    rewrite Hre, bind_Ok in Hrun.
    apply (IH (S fuel) e _ G ib id price sd q) in Hrun; [done| |done| |done|done|done].
    + split; [apply (va_hft Hag)|done|apply (va_fields Hag)|apply (va_free Hag)
              |apply (va_trades Hag)].
    + split; [apply (hfl_order Hhfl)|done|apply (hfl_unlinked Hhfl)|apply (hfl_not_free Hhfl)].
  - (* both variants trade against the head of the best level *)
    destruct (headers_executeTrade_spec h G ib id price sd q side best r l
                (va_headers Hag) Hhfl Hpos Hbr HG)
      as (h1 & ox & G1x & Hox & Hex & Hfx & Hinvx & Hflx & Hcasex & Htrx & Hfreex).
    rewrite Hex, bind_Ok in Hrun.
    apply bind_Ok_inv in Hrun as ([h2 fills2] & Hrun2 & Hrun). injection Hrun as <- <-.
    assert (r ∈ G side best) as Hr by (rewrite HG; left).
    pose proof (book_inv_in_range _ _ _ _ _ (va_hft Hag) Hr) as Hbr'.
    assert (G side best ≠ []) as Hne by (by rewrite HG).
    assert (b = best ∧ stops side b price = false) as [-> Hst].
    { destruct Hb as [Hst|(Hbr2 & Hact & Hbetter)].
      - exfalso.
        pose proof (stops_occupied e G side b price (va_hft Hag) Hbest Hst best Hne) as Hocc.
        destruct side; [specialize (Hside eq_refl)|]; lia.
      - assert (b = best) as ->.
        { specialize (Hbetter best Hbr' (proj2 (inv_active (va_hft Hag) side best Hbr') Hne)).
          apply (inv_active (va_hft Hag) side b Hbr2) in Hact.
          unfold best in *. destruct side; cbn [better headers_best] in *.
          - destruct (hinv_best_bid (va_headers Hag)) as [_ Hbound]. apply Hbound in Hact. lia.
          - destruct (hinv_best_ask (va_headers Hag)) as [_ Hbound]. apply Hbound in Hact. lia. }
        split; [done|]. apply stops_false_intro. unfold MAX_PRICE_TICKS in *.
        destruct side; [specialize (Hside eq_refl)|]; lia. }
    destruct (inv_queue (va_hft Hag) side best Hbr') as (lvl' & Hlvl' & Hqueue').
    rewrite HG in Hqueue'. destruct Hqueue' as [Hchain' _]. apply chain_head in Hchain'.
    destruct (executeTrade_spec e G ib id price sd q side best r l (va_hft Hag) Hfl Hpos Hbr' HG)
      as (e1 & oh & G1 & Hoh & Heh & Hfh & Htrh & Hinvh & Hflh & _ & Hcaseh & _ & Hfreeh).
    pose proof (agree_record e h G r oh ox Hag Hoh Hox) as Hrec.
    assert (Order.id oh = Order.id ox ∧ Order.qty oh = Order.qty ox) as [Hid Hqty].
    { unfold fields in Hrec. by injection Hrec. }
    assert (ib ≠ r) as Hibr.
    { intros ->. by apply (fl_unlinked Hfl side best). }
    assert (G1x = G1) as ->.
    { destruct Hcaseh as [[-> ?]|[-> ?]], Hcasex as [[-> ?]|[-> ?]]; (done || lia). }
    rewrite <- Hqty in Hflx.
    assert (variants_agree e1 h1 G1) as Hag1.
    { split; [done|done| | |].
      - rewrite (executeTrade_fields _ _ _ _ _ _ _ _ _ _ Heh (fl_order Hfl) Hoh Hibr).
        rewrite (headers_executeTrade_fields _ _ _ _ _ _ _ _ _ Hex (hfl_order Hhfl) Hox Hibr).
        rewrite (va_fields Hag). by apply traded_fields.
      - rewrite Hfreeh, Hfreex, (va_free Hag), Hqty. done.
      - rewrite Htrh, Htrx, (va_trades Hag). done. }
    apply (IH fuel e1 h1 G1 ib id price sd (q - Z.min q (Order.qty oh))) in Hrun2;
      [|done|done|done|done|done|lia].
    destruct Hrun2 as (e2 & G2 & q2 & Hrun2 & Hag2 & Hfl2 & Hhfl2).
    exists e2, G2, q2. split; [|done].
    cbn [matchOrder]. rewrite (at_lookup _ _ _ (fl_order Hfl)), bind_Ok.
    cbn [Order.qty Order.price].
    destruct (Z.gtb_spec q 0) as [_|]; [|lia]. rewrite Hbest, bind_Ok, Hst.
    rewrite (at_lookup _ _ _ Hlvl'), bind_Ok, Hchain'. cbn [list.head].
    rewrite Heh, bind_Ok, Hrun2, bind_Ok. by rewrite Hid, Hqty.
Qed.

(** ** One call, and runs *)

Lemma headers_free_handles_length h G :
  headers_inv h G →
  length (free_handles (Headers.MatchingEngine.pool_ h))
  = OrderPool.free_idx_ (Headers.MatchingEngine.pool_ h).
Proof.
  intros Hinv. unfold free_handles. rewrite length_take.
  pose proof (hinv_free_idx Hinv). lia.
Qed.

Lemma variants_agree_new n :
  variants_agree (MatchingEngine.new n) (Headers.MatchingEngine.new n) (λ _ _, []).
Proof. split; [apply book_inv_new|apply headers_inv_new|done|done|done]. Qed.

Lemma submit_agree fuel c e h G :
  variants_agree e h G → common_call c → 2 * call_qty c + 1 < Z.of_nat fuel →
  ∃ e' h' G' r, submit fuel c e = Ok (e', r) ∧ headers_submit fuel c h = Ok (h', r) ∧
                variants_agree e' h' G'.
Proof.
  destruct c as [id price q sd]. intros Hag [[Hp Hq] Hdom] Hfuel. cbn in Hp, Hq, Hdom, Hfuel.
  unfold submit, headers_submit, MatchingEngine.processNewOrder,
    Headers.MatchingEngine.processNewOrder. cbn [call_id call_price call_qty call_is_buy].
  assert (OrderPool.free_idx_ (MatchingEngine.pool_ e)
          = OrderPool.free_idx_ (Headers.MatchingEngine.pool_ h)) as Hidx.
  { rewrite <- (free_handles_length e G (va_hft Hag)).
    rewrite <- (headers_free_handles_length h G (va_headers Hag)).
    by rewrite (va_free Hag). }
  destruct (decide (OrderPool.free_idx_ (MatchingEngine.pool_ e) = 0%nat)) as [Hz|Hnz].
  { (* both pools are exhausted *)
    unfold OrderPool.allocate. rewrite <- Hidx, Hz. cbn.
    eexists _, _, G, _. split; [done|]. split; [done|]. by destruct e, h. }
  assert (0 ≤ price < Headers.MAX_PRICE_TICKS) as Hp'.
  { unfold MAX_PRICE_TICKS in Hp. unfold Headers.MAX_PRICE_TICKS. lia. }
  destruct (allocate_spec e G id price q sd (va_hft Hag)) as (p & ib & Hal & Hinv0 & Hfl0 & _);
    [lia|done|].
  destruct (headers_allocate_spec h G id price q sd (va_headers Hag))
    as (p' & ib' & Hal' & Hinv0' & Hfl0'); [lia|congruence|].
  rewrite Hal, Hal', !bind_Ok. cbv zeta.
  rewrite match_loop_side, headers_match_loop_side.
  apply allocate_inv in Hal as [Hfr Hfs]. apply allocate_inv in Hal' as [Hfr' Hfs'].
  pose proof (va_free Hag) as Hfree. rewrite Hfr, Hfr' in Hfree.
  apply app_inj_tail in Hfree as [Hfree <-].
  set (e0 := MatchingEngine.mk _ p _) in *.
  set (h0 := Headers.MatchingEngine.mk _ p' _) in *.
  assert (variants_agree e0 h0 G) as Hag0.
  { split; [done|done| |done|apply (va_trades Hag)].
    unfold e0, h0. norm. hnorm. rewrite Hfs, Hfs'. f_equal. apply (va_fields Hag). }
  clearbody e0 h0.
  assert (false = true → headers_exact (negb sd) (Headers.MatchingEngine.book_ h0) G)
    as Hno by done.
  pose proof (headers_matchOrder_spec (negb sd) fuel h0 G ib id price sd q false
                Hinv0' Hfl0' Hp' Hno) as Hloop.
  destruct (headers_matchOrder (negb sd) fuel ib h0) as [[h1 fills]| |] eqn:Hrun; [|done|].
  2:{ exfalso. destruct Hloop as [[Hs ->]|?]; [|lia]. destruct sd; [done|].
      destruct Hdom; [done|lia]. }
  clear Hloop.
  destruct (match_agree (negb sd) fuel fuel e0 h0 G ib id price sd q Hag0 Hfl0 Hfl0' Hp)
    with (h' := h1) (fills := fills) as (e1 & G1 & q1 & Hm & Hag1 & Hfl1 & Hhfl1);
    [|lia|done|].
  { intros Hs. destruct sd; [done|]. destruct Hdom; [done|lia]. }
  rewrite Hm, !bind_Ok.
  rewrite (at_lookup _ _ _ (fl_order Hfl1)), (at_lookup _ _ _ (hfl_order Hhfl1)), !bind_Ok.
  cbn [Order.qty]. pose proof (fl_qty Hfl1) as Hq1.
  destruct (Z.gtb_spec q1 0) as [Hrest|Hdone].
  - (* the remainder rests in both books *)
    destruct (addOrder_spec e1 G1 ib id price sd q1 (va_hft Hag1) Hfl1 Hrest Hp)
      as (m' & b' & Had & Hinv' & _).
    destruct (headers_book_addOrder_spec h1 G1 ib id price sd q1 (va_headers Hag1)
                Hhfl1 Hrest Hp') as (m'' & b'' & Had' & Hinv'').
    rewrite Had, Had', !bind_Ok.
    eexists _, _, _, _. split; [done|]. split; [done|].
    split; [exact Hinv'|exact Hinv''| | |].
    + apply book_addOrder_fields in Had. apply headers_book_addOrder_fields in Had'.
      norm. hnorm. rewrite Had, Had'. apply (va_fields Hag1).
    + apply (va_free Hag1).
    + apply (va_trades Hag1).
  - (* the inbound is filled in both variants: both free its record *)
    destruct (deallocate_inbound_spec e1 G1 ib id price sd q1 (va_hft Hag1) Hfl1)
      as (p1 & Hd & _ & Hinv').
    destruct (headers_deallocate_inbound_spec h1 G1 ib id price sd q1 (va_headers Hag1) Hhfl1)
      as (p1' & Hd' & Hinv'').
    rewrite Hd, Hd', !bind_Ok.
    apply deallocate_inv in Hd as [Hpool Hfree1]. apply deallocate_inv in Hd' as [Hpool' Hfree1'].
    eexists _, _, _, _. split; [done|]. split; [done|].
    split; [exact Hinv'|exact Hinv''| | |].
    + unfold MatchingEngine.orders, Headers.MatchingEngine.orders.
      cbn [MatchingEngine.pool_ Headers.MatchingEngine.pool_]. rewrite Hpool, Hpool'.
      apply (va_fields Hag1).
    + cbn [MatchingEngine.pool_ Headers.MatchingEngine.pool_].
      rewrite Hfree1, Hfree1'. f_equal. apply (va_free Hag1).
    + apply (va_trades Hag1).
Qed.

Lemma run_agree fuel cs : ∀ e h G,
  variants_agree e h G → Forall common_call cs →
  Forall (λ c, 2 * call_qty c + 1 < Z.of_nat fuel) cs →
  ∃ e' h' G' rs, run fuel cs e = Ok (e', rs) ∧ headers_run fuel cs h = Ok (h', rs) ∧
                 variants_agree e' h' G'.
Proof.
  induction cs as [|c cs IH]; intros e h G Hag Hdom Hfuel.
  { by exists e, h, G, []. }
  apply Forall_cons in Hdom as [Hc Hdom]. apply Forall_cons in Hfuel as [Hf Hfuel].
  destruct (submit_agree fuel c e h G Hag Hc Hf) as (e1 & h1 & G1 & r & Hs & Hs' & Hag1).
  destruct (IH e1 h1 G1 Hag1 Hdom Hfuel) as (e2 & h2 & G2 & rs & Hr & Hr' & Hag2).
  exists e2, h2, G2, (r :: rs). cbn [run headers_run].
  rewrite Hs, Hs', !bind_Ok, Hr, Hr', !bind_Ok. done.
Qed.

(** X30: on the calls both variants take, hft_engine.cpp and the header variant
    behave alike: from fresh engines of the same capacity, every call ends
    the same way in both (it throws in both, or returns in both) and makes
    the same fills, with the same ids, prices, quantities and resting
    records, and the two trade counters agree at the end. *)
Theorem variants_make_the_same_fills n cs fuel :
  Forall common_call cs →
  Forall (λ c, 2 * call_qty c + 1 < Z.of_nat fuel) cs →
  ∃ e h rs,
    run fuel cs (MatchingEngine.new n) = Ok (e, rs) ∧
    headers_run fuel cs (Headers.MatchingEngine.new n) = Ok (h, rs) ∧
    MatchingEngine.getTradesExecuted e = Headers.MatchingEngine.getTradesExecuted h.
Proof.
  intros Hdom Hfuel.
  destruct (run_agree fuel cs _ _ _ (variants_agree_new n) Hdom Hfuel)
    as (e & h & G & rs & Hr & Hr' & Hag).
  exists e, h, rs. split; [done|]. split; [done|]. apply (va_trades Hag).
Qed.

Lemma variants_make_the_same_fills_witness :
  ∃ e h rs,
    run 12 exact_match_calls (MatchingEngine.new 4) = Ok (e, rs) ∧
    headers_run 12 exact_match_calls (Headers.MatchingEngine.new 4) = Ok (h, rs) ∧
    MatchingEngine.getTradesExecuted e = Headers.MatchingEngine.getTradesExecuted h.
Proof.
  apply (variants_make_the_same_fills 4 exact_match_calls 12).
  - repeat constructor; cbn; unfold MAX_PRICE_TICKS; lia.
  - repeat constructor; cbn; lia.
Defined.
